(** * wimlib: metadata resources and NTFS capture

    A shallow embedding of [src/metadata_resource.c] (reading and writing
    the metadata resource of a WIM image) and of [src/ntfs-3g_capture.c]
    (capturing a dentry tree from an NTFS volume through libntfs-3g),
    together with the properties stated about them.

    Conventions of the embedding.
    - C integers are [Z]; fixed-width arithmetic is written out with its
      wrap-around ([u32], [u64]).
    - [int] return codes are [Z]: [0] is success, and [if (ret)] reads
      [ret <> 0].
    - Memory allocation is total: the [WIMLIB_ERR_NOMEM] exits taken only
      when [MALLOC] and friends return [NULL] are not part of the model.
    - Objects that the C code shares through pointers (the inodes of an
      inode table) live in an explicit store.
    - Calls into other translation units are either parameters of a
      [Section] or definitions marked as modelled from the specification.
    - [ERROR], [WARNING] and the calls into collaborators are recorded in
      a trace, so that "nothing was parsed" or "the hash was checked" are
      statements about a run. *)

From stdpp Require Import gmap strings list pretty.
From Stdlib Require Import ZArith Lia.
From Stdlib Require Import Strings.Byte Strings.Ascii.
From Equations Require Import Equations.

Set Warnings "-register-all".
Local Open Scope Z_scope.

#[global] Instance byte_eq_decision : EqDecision byte := Byte.byte_eq_dec.

(** ** Fixed-width integers *)

Definition u32 (x : Z) : Z := x mod 2 ^ 32.
Definition u64 (x : Z) : Z := x mod 2 ^ 64.

(** ** Error codes

    Modelled from the spec: the numeric values of [enum wimlib_error_code]
    are declared in [wimlib.h], which is not among the sources.  Only
    their being nonzero and pairwise distinct is ever used. *)

Definition WIMLIB_ERR_SUCCESS : Z := 0.
Definition WIMLIB_ERR_INVALID_METADATA_RESOURCE : Z := 21.
Definition WIMLIB_ERR_INVALID_REPARSE_DATA : Z := 27.
Definition WIMLIB_ERR_NOMEM : Z := 39.
Definition WIMLIB_ERR_NTFS_3G : Z := 46.
Definition WIMLIB_ERR_UNSUPPORTED_FILE : Z := 69.

(** [if (ret)] *)
Definition nonzero (ret : Z) : bool := negb (ret =? 0).

(** ** Windows file attributes

    Modelled from the spec: the [FILE_ATTRIBUTE_*] bits named by the
    sources are the standard Windows values. *)

Definition FILE_ATTRIBUTE_DIRECTORY : Z := 0x10.
Definition FILE_ATTRIBUTE_REPARSE_POINT : Z := 0x400.
Definition FILE_ATTRIBUTE_ENCRYPTED : Z := 0x4000.

Definition has_flag (flags bit : Z) : bool := negb (Z.land flags bit =? 0).

(** * Metadata resources ([metadata_resource.c]) *)

Module MetadataResource.

(** Modelled from the spec: [WIM_DENTRY_DISK_SIZE] is declared in
    [wimlib/dentry.h]; the minimum on-disk dentry is 102 bytes. *)
Definition WIM_DENTRY_DISK_SIZE : Z := 102.

Definition SHA1_HASH_SIZE : Z := 20.

(** [struct wim_security_data] *)
Record wim_security_data := {
  total_length : Z;               (* u32 *)
  num_entries : Z;                (* u32 *)
  sizes : list Z;                 (* u64 each *)
  descriptors : list (list byte)
}.

(** The fields of [struct wim_inode] that this file looks at. *)
Record wim_inode := {
  i_attributes : Z;
  i_security_id : Z;
  i_creation_time : Z;
  i_last_access_time : Z;
  i_last_write_time : Z;
  i_hard_link_group_id : Z
}.

(** [struct wim_dentry].  A name is a pointer (here an [option]) and a
    byte count, as in the C structure. *)
Inductive wim_dentry := Dentry {
  length : Z;                     (* u64, 0 for the end-of-directory entry *)
  subdir_offset : Z;              (* u64 *)
  file_name : option (list Z);    (* UTF-16LE code units *)
  file_name_nbytes : Z;
  short_name : option (list Z);
  short_name_nbytes : Z;
  d_inode : wim_inode;
  d_children : list wim_dentry
}.

(** [struct wim_lookup_table_entry], for a metadata resource. *)
Record wim_lookup_table_entry := {
  size : Z;                       (* u64 *)
  hash : list byte;
  dont_check_metadata_hash : bool
}.

(** [struct wim_image_metadata] *)
Record wim_image_metadata := {
  metadata_lte : wim_lookup_table_entry;
  root_dentry : option wim_dentry;
  security_data : option wim_security_data;
  inode_list : list wim_inode;
  unhashed_streams : list (list byte)
}.

(** What a run of the reader does besides computing its result. *)
Inductive event :=
| EvError (msg : string)
| EvWarning (msg : string)
| EvReadStream
| EvSha1 (len : Z)
| EvReadSecurityData
| EvReadDentry (offset : Z)
| EvReadDentryTree
| EvFixInodes
| EvVerifyInode.

(** Modelled from the spec: the inline helpers of [wimlib/dentry.h]. *)
Definition dentry_has_long_name (d : wim_dentry) : bool :=
  negb (file_name_nbytes d =? 0).
Definition dentry_has_short_name (d : wim_dentry) : bool :=
  negb (short_name_nbytes d =? 0).
Definition inode_is_directory (i : wim_inode) : bool :=
  has_flag (i_attributes i) FILE_ATTRIBUTE_DIRECTORY
  && negb (has_flag (i_attributes i) FILE_ATTRIBUTE_REPARSE_POINT).
Definition dentry_is_directory (d : wim_dentry) : bool :=
  inode_is_directory (d_inode d).

(** The root's names are freed and reset (lines 141-146). *)
Definition remove_root_name (root : wim_dentry) : wim_dentry :=
  {| length := length root;
     subdir_offset := subdir_offset root;
     file_name := None;
     file_name_nbytes := 0;
     short_name := None;
     short_name_nbytes := 0;
     d_inode := d_inode root;
     d_children := d_children root |}.

Definition hashes_equal (h1 h2 : list byte) : bool :=
  bool_decide (h1 = h2).

(** The names and the kind of a dentry: what the reader settles about
    the root before it reads the rest of the tree. *)
Definition nameless (d : wim_dentry) : Prop :=
  dentry_has_long_name d = false /\ dentry_has_short_name d = false.

Definition root_shape (d : wim_dentry) :=
  (file_name_nbytes d, short_name_nbytes d, dentry_is_directory d).

(** The events that record a computation of the SHA-1 digest. *)
Definition is_sha1 (e : event) : Prop := exists n, e = EvSha1 n.

(** The events of a run that parse the resource. *)
Definition is_parse (e : event) : Prop :=
  e = EvReadSecurityData \/ (exists off, e = EvReadDentry off) \/
  e = EvReadDentryTree \/ e = EvFixInodes \/ e = EvVerifyInode.

(** What a failed run must leave of an image. *)
Definition image_kept (imd imd' : wim_image_metadata) : Prop :=
  metadata_lte imd' = metadata_lte imd /\
  root_dentry imd' = root_dentry imd /\
  security_data imd' = security_data imd /\
  unhashed_streams imd' = unhashed_streams imd.

Section Reader.

(** The collaborators of [read_metadata_resource]; none of them is
    defined in [metadata_resource.c]. *)
Variable read_full_stream_into_alloc_buf :
  wim_lookup_table_entry -> Z * list byte.
Variable sha1_buffer : list byte -> list byte.
Variable read_wim_security_data :
  list byte -> Z -> Z * wim_security_data.
Variable read_dentry : list byte -> Z -> Z -> Z * wim_dentry.
Variable inode_add_dentry : wim_dentry -> wim_dentry.
Variable read_dentry_tree : list byte -> Z -> wim_dentry -> Z * wim_dentry.
Variable dentry_tree_fix_inodes :
  wim_dentry -> Z * wim_dentry * list wim_inode.
Variable verify_inode : wim_inode -> wim_security_data -> Z.

Definition result : Type := Z * wim_image_metadata * list event.

(** [out_success:] *)
Definition out_success (imd : wim_image_metadata)
    (root : option wim_dentry) (sd : wim_security_data)
    (tr : list event) : result :=
  (0,
   {| metadata_lte := metadata_lte imd;
      root_dentry := root;
      security_data := Some sd;
      inode_list := inode_list imd;
      unhashed_streams := [] |},
   tr).

(** [image_for_each_inode(inode, imd) { ret = verify_inode(...); ... }]:
    the first nonzero code stops the loop. *)
Fixpoint verify_inodes (l : list wim_inode) (sd : wim_security_data)
    : Z * list event :=
  match l with
  | [] => (0, [])
  | i :: l' =>
      let ret := verify_inode i sd in
      if nonzero ret then (ret, [EvVerifyInode])
      else let '(ret', tr) := verify_inodes l' sd in
           (ret', EvVerifyInode :: tr)
  end.

Definition with_inode_list (imd : wim_image_metadata)
    (l : list wim_inode) : wim_image_metadata :=
  {| metadata_lte := metadata_lte imd;
     root_dentry := root_dentry imd;
     security_data := security_data imd;
     inode_list := l;
     unhashed_streams := unhashed_streams imd |}.

(** Lines 139-185: a root dentry was read and is not the end-of-directory
    entry. *)
Definition read_from_root (imd : wim_image_metadata) (buf : list byte)
    (metadata_len : Z) (sd : wim_security_data) (root : wim_dentry)
    (tr : list event) : result :=
  let '(root, tr) :=
    if dentry_has_long_name root || dentry_has_short_name root
    then (remove_root_name root,
          tr ++ [EvWarning "The root directory has a nonempty name (removing it)"])
    else (root, tr) in
  if negb (dentry_is_directory root) then
    (WIMLIB_ERR_INVALID_METADATA_RESOURCE, imd,
     tr ++ [EvError "Root of the WIM image must be a directory!"])
  else
    let root := inode_add_dentry root in
    let '(ret, root) := read_dentry_tree buf metadata_len root in
    let tr := tr ++ [EvReadDentryTree] in
    if nonzero ret then (ret, imd, tr)
    else
      let '(ret, root, inodes) := dentry_tree_fix_inodes root in
      let tr := tr ++ [EvFixInodes] in
      if nonzero ret then (ret, imd, tr)
      else
        let imd := with_inode_list imd inodes in
        let '(ret, tr') := verify_inodes inodes sd in
        let tr := tr ++ tr' in
        if nonzero ret then (ret, imd, tr)
        else out_success imd (Some root) sd tr.

(** Lines 103-137: the buffer is in memory and its hash was accepted. *)
Definition read_from_buffer (imd : wim_image_metadata) (buf : list byte)
    (metadata_len : Z) (tr : list event) : result :=
  let '(ret, sd) := read_wim_security_data buf metadata_len in
  let tr := tr ++ [EvReadSecurityData] in
  if nonzero ret then (ret, imd, tr)
  else
    let '(ret, root) := read_dentry buf metadata_len (total_length sd) in
    let tr := tr ++ [EvReadDentry (total_length sd)] in
    if (ret =? 0) && (length root =? 0) then
      out_success imd None sd
        (tr ++ [EvWarning "Metadata resource begins with end-of-directory entry (treating as empty image)"])
    else if nonzero ret then (ret, imd, tr)
    else read_from_root imd buf metadata_len sd root tr.

(** [read_metadata_resource()] *)
Definition read_metadata_resource (imd : wim_image_metadata) : result :=
  let metadata_lte := metadata_lte imd in
  let metadata_len := size metadata_lte in
  if metadata_len <? 8 + WIM_DENTRY_DISK_SIZE then
    (WIMLIB_ERR_INVALID_METADATA_RESOURCE, imd,
     [EvError "Expected at least 110 bytes for the metadata resource"])
  else
    let '(ret, buf) := read_full_stream_into_alloc_buf metadata_lte in
    let tr := [EvReadStream] in
    if nonzero ret then (ret, imd, tr)
    else if negb (dont_check_metadata_hash metadata_lte) then
      let hash' := sha1_buffer (take (Z.to_nat metadata_len) buf) in
      let tr := tr ++ [EvSha1 metadata_len] in
      if negb (hashes_equal (hash metadata_lte) hash') then
        (WIMLIB_ERR_INVALID_METADATA_RESOURCE, imd,
         tr ++ [EvError "Metadata resource is corrupted (invalid SHA-1 message digest)!"])
      else read_from_buffer imd buf metadata_len tr
    else read_from_buffer imd buf metadata_len tr.

(** The run decodes a root: the resource is long enough, it was read
    into [buf], its hash is not checked or matches, its security data
    parses to [sd], and [read_dentry] returns the entry [root0], which is
    not the end-of-directory entry. *)
Definition decodes_root (imd : wim_image_metadata) (buf : list byte)
    (sd : wim_security_data) (root0 : wim_dentry) : Prop :=
  let lte := metadata_lte imd in
  8 + WIM_DENTRY_DISK_SIZE <= size lte /\
  read_full_stream_into_alloc_buf lte = (0, buf) /\
  (dont_check_metadata_hash lte = true \/
   sha1_buffer (take (Z.to_nat (size lte)) buf) = hash lte) /\
  read_wim_security_data buf (size lte) = (0, sd) /\
  read_dentry buf (size lte) (total_length sd) = (0, root0) /\
  length root0 <> 0.

(** What a run from the buffer on comes to: a failure that keeps the
    image, or a success that installs the security data that was parsed
    and, with a root, a list of inodes that were all verified. *)
Definition settled (imd : wim_image_metadata) (buf : list byte) (len : Z)
    (r : Z * wim_image_metadata * list event) : Prop :=
  let '(ret, imd', _) := r in
  if nonzero ret then image_kept imd imd'
  else
    exists sd,
      read_wim_security_data buf len = (0, sd) /\
      metadata_lte imd' = metadata_lte imd /\
      security_data imd' = Some sd /\
      unhashed_streams imd' = [] /\
      match root_dentry imd' with
      | Some _ => Forall (fun i => verify_inode i sd = 0) (inode_list imd')
      | None => inode_list imd' = inode_list imd
      end.

End Reader.

(** ** The collaborators of the reader, from the format description

    The definitions below give the collaborators of
    [read_metadata_resource] a concrete form, so that the reader can be
    run on byte buffers. *)

(** Little-endian integers in a buffer. *)
Fixpoint le_to_Z (l : list byte) : Z :=
  match l with
  | [] => 0
  | b :: l' => Z.of_N (Byte.to_N b) + 256 * le_to_Z l'
  end.

Definition get_le (n : nat) (buf : list byte) (off : Z) : Z :=
  le_to_Z (take n (drop (Z.to_nat off) buf)).

Definition get_bytes (n : Z) (buf : list byte) (off : Z) : list byte :=
  take (Z.to_nat n) (drop (Z.to_nat off) buf).

Fixpoint utf16le_units (l : list byte) : list Z :=
  match l with
  | lo :: hi :: l' => le_to_Z [lo; hi] :: utf16le_units l'
  | _ => []
  end.

Definition align8 (x : Z) : Z := Z.land (x + 7) (Z.lnot 7).

(** Modelled from the spec: [read_wim_security_data()] of [security.c],
    after the layout of the security block: a [u32] total length and a
    [u32] entry count, the [u64] sizes, then the descriptors; a total
    length of 0 stands for 8 bytes and no entry; the total length is
    rounded up to a multiple of 8; a block that does not fit the buffer
    is an invalid metadata resource. *)
Fixpoint split_descriptors (szs : list Z) (data : list byte)
    : list (list byte) :=
  match szs with
  | [] => []
  | n :: szs' =>
      take (Z.to_nat n) data :: split_descriptors szs' (drop (Z.to_nat n) data)
  end.

Definition empty_security_data : wim_security_data :=
  {| total_length := 8; num_entries := 0; sizes := []; descriptors := [] |}.

Definition read_wim_security_data (buf : list byte) (metadata_len : Z)
    : Z * wim_security_data :=
  if metadata_len <? 8 then
    (WIMLIB_ERR_INVALID_METADATA_RESOURCE, empty_security_data)
  else
    let total := get_le 4 buf 0 in
    let n := get_le 4 buf 4 in
    if total =? 0 then (0, empty_security_data)
    else
      let szs := map (fun i => get_le 8 buf (8 + 8 * Z.of_nat i))
                     (seq 0 (Z.to_nat n)) in
      let used := 8 + 8 * n + foldr Z.add 0 szs in
      if (metadata_len <? total) || (total <? used) then
        (WIMLIB_ERR_INVALID_METADATA_RESOURCE, empty_security_data)
      else
        (0, {| total_length := align8 total;
               num_entries := n;
               sizes := szs;
               descriptors :=
                 split_descriptors szs
                   (get_bytes (foldr Z.add 0 szs) buf (8 + 8 * n)) |}).

Definition end_of_directory : wim_dentry :=
  {| length := 0; subdir_offset := 0;
     file_name := None; file_name_nbytes := 0;
     short_name := None; short_name_nbytes := 0;
     d_inode := {| i_attributes := 0; i_security_id := 0;
                   i_creation_time := 0; i_last_access_time := 0;
                   i_last_write_time := 0; i_hard_link_group_id := 0 |};
     d_children := [] |}.

(** Modelled from the spec: [read_dentry()] of [dentry.c], after the
    layout of the on-disk dentry.  The fixed part is 102 bytes: the
    [u64] length, the [u32] attributes and security id, the [u64]
    subdirectory offset, two reserved [u64], three [u64] times, the
    20-byte hash, a reserved [u32], the [u64] hard-link group id (whose
    low half is the reparse tag of a reparse point), and the three
    [u16] counts; the names follow, each with a [u16] zero after it.
    An entry whose length field reads 0 ends a directory. *)
Definition read_name (buf : list byte) (off nbytes : Z) : option (list Z) :=
  if nbytes =? 0 then None
  else Some (utf16le_units (get_bytes nbytes buf off)).

Definition read_dentry (buf : list byte) (metadata_len offset : Z)
    : Z * wim_dentry :=
  if metadata_len <? offset + 8 then
    (WIMLIB_ERR_INVALID_METADATA_RESOURCE, end_of_directory)
  else
    let len := get_le 8 buf offset in
    if len =? 0 then (0, end_of_directory)
    else
      let short_nbytes := get_le 2 buf (offset + 98) in
      let file_nbytes := get_le 2 buf (offset + 100) in
      let file_end :=
        102 + (if file_nbytes =? 0 then 0 else file_nbytes + 2) in
      let names_end :=
        file_end + (if short_nbytes =? 0 then 0 else short_nbytes + 2) in
      if (len <? WIM_DENTRY_DISK_SIZE) || (metadata_len <? offset + len)
         || (len <? names_end) then
        (WIMLIB_ERR_INVALID_METADATA_RESOURCE, end_of_directory)
      else
        (0, {| length := len;
               subdir_offset := get_le 8 buf (offset + 16);
               file_name := read_name buf (offset + 102) file_nbytes;
               file_name_nbytes := file_nbytes;
               short_name := read_name buf (offset + file_end) short_nbytes;
               short_name_nbytes := short_nbytes;
               d_inode :=
                 {| i_attributes := get_le 4 buf (offset + 8);
                    i_security_id := get_le 4 buf (offset + 12);
                    i_creation_time := get_le 8 buf (offset + 40);
                    i_last_access_time := get_le 8 buf (offset + 48);
                    i_last_write_time := get_le 8 buf (offset + 56);
                    i_hard_link_group_id := get_le 8 buf (offset + 88) |};
               d_children := [] |}).

Definition with_children (d : wim_dentry) (l : list wim_dentry)
    : wim_dentry :=
  {| length := length d; subdir_offset := subdir_offset d;
     file_name := file_name d; file_name_nbytes := file_name_nbytes d;
     short_name := short_name d; short_name_nbytes := short_name_nbytes d;
     d_inode := d_inode d; d_children := l |}.

(** The alternate-stream entries of a dentry follow it, each with its
    [u64] length first; the next sibling starts after them. *)
Fixpoint skip_streams (n : nat) (buf : list byte) (off : Z) : Z :=
  match n with
  | O => off
  | S n' => skip_streams n' buf (off + align8 (get_le 8 buf off))
  end.

Definition next_sibling (buf : list byte) (offset : Z) (d : wim_dentry)
    : Z :=
  skip_streams (Z.to_nat (get_le 2 buf (offset + 96))) buf
    (offset + align8 (length d)).

(** Modelled from the spec: [read_dentry_tree()] of [dentry.c].  The
    children of a dentry start at its subdirectory offset and end with
    an entry of length 0; a dentry with offset 0 has none.  The fuel
    bounds the number of entries visited, which rejects a resource whose
    offsets form a cycle. *)
Fixpoint read_dentry_tree_fuel (fuel : nat) (buf : list byte)
    (metadata_len : Z) (d : wim_dentry) {struct fuel} : Z * wim_dentry :=
  match fuel with
  | O => (WIMLIB_ERR_INVALID_METADATA_RESOURCE, d)
  | S fuel' =>
      if subdir_offset d =? 0 then (0, d)
      else
        let '(ret, l) :=
          read_siblings_fuel fuel' buf metadata_len (subdir_offset d) in
        (ret, with_children d l)
  end
with read_siblings_fuel (fuel : nat) (buf : list byte)
    (metadata_len offset : Z) {struct fuel} : Z * list wim_dentry :=
  match fuel with
  | O => (WIMLIB_ERR_INVALID_METADATA_RESOURCE, [])
  | S fuel' =>
      let '(ret, child) := read_dentry buf metadata_len offset in
      if nonzero ret then (ret, [])
      else if length child =? 0 then (0, [])
      else
        let '(ret, child) :=
          read_dentry_tree_fuel fuel' buf metadata_len child in
        if nonzero ret then (ret, [])
        else
          let '(ret, l) :=
            read_siblings_fuel fuel' buf metadata_len
              (next_sibling buf offset child) in
          (ret, child :: l)
  end.

Definition read_dentry_tree (buf : list byte) (metadata_len : Z)
    (root : wim_dentry) : Z * wim_dentry :=
  read_dentry_tree_fuel (S (Z.to_nat (metadata_len / 8))) buf metadata_len root.

(** Modelled from the spec: [dentry_tree_fix_inodes()] of [hardlink.c]
    builds the inode list of the image; dentries whose hard-link group
    ids agree (and are not 0) stand for one inode. *)
Fixpoint tree_inodes (fuel : nat) (d : wim_dentry) : list wim_inode :=
  match fuel with
  | O => []
  | S fuel' => d_inode d :: flat_map (tree_inodes fuel') (d_children d)
  end.

Fixpoint tree_depth (d : wim_dentry) : nat :=
  match d with
  | Dentry _ _ _ _ _ _ _ l => S (foldr (fun c n => Nat.max (tree_depth c) n) O l)
  end.

Fixpoint collapse_groups (seen : list Z) (l : list wim_inode)
    : list wim_inode :=
  match l with
  | [] => []
  | i :: l' =>
      let g := i_hard_link_group_id i in
      if g =? 0 then i :: collapse_groups seen l'
      else if bool_decide (g ∈ seen) then collapse_groups seen l'
      else i :: collapse_groups (g :: seen) l'
  end.

Definition dentry_tree_fix_inodes (root : wim_dentry)
    : Z * wim_dentry * list wim_inode :=
  (0, root, collapse_groups [] (tree_inodes (tree_depth root) root)).

(** Modelled from the spec: [verify_inode()] confirms that the security
    id of an inode is -1 or an index into the security data. *)
Definition verify_inode (i : wim_inode) (sd : wim_security_data) : Z :=
  if (i_security_id i =? u32 (-1)) || (i_security_id i <? num_entries sd)
  then 0 else WIMLIB_ERR_INVALID_METADATA_RESOURCE.

(** Modelled from the spec: [inode_add_dentry()] links the dentry into
    the alias list of its inode, which this model does not represent. *)
Definition inode_add_dentry (d : wim_dentry) : wim_dentry := d.

(** A resource held in memory: reading it yields its bytes. *)
Definition read_full_stream_of (buf : list byte)
    (lte : wim_lookup_table_entry) : Z * list byte := (0, buf).

(** A stand-in for [sha1_buffer()]: a 20-byte digest that folds the
    bytes of the message.  The reader only compares digests. *)
Definition digest_step (acc : Z) (b : byte) : Z :=
  (acc * 31 + Z.of_N (Byte.to_N b) + 1) mod 2 ^ 160.

Fixpoint Z_to_le (n : nat) (x : Z) : list byte :=
  match n with
  | O => []
  | S n' =>
      default x00 (Byte.of_N (Z.to_N (x mod 256))) :: Z_to_le n' (x / 256)
  end.

Definition digest_buffer (msg : list byte) : list byte :=
  Z_to_le 20 (foldl digest_step 0 msg).

(** The reader over these collaborators. *)
Definition read_image (buf : list byte) (imd : wim_image_metadata)
    : Z * wim_image_metadata * list event :=
  read_metadata_resource (read_full_stream_of buf) digest_buffer
    read_wim_security_data read_dentry inode_add_dentry read_dentry_tree
    dentry_tree_fix_inodes verify_inode imd.

(** ** Writing a metadata resource *)

(** [recalculate_security_data_length()].  The sum is accumulated in a
    [u32]. *)
Definition recalculate_security_data_length (sd : wim_security_data)
    : wim_security_data :=
  let total_length := u32 (8 * num_entries sd + 2 * 4) in
  let total_length :=
    foldl (fun acc sz => u32 (acc + sz)) total_length
      (take (Z.to_nat (num_entries sd)) (sizes sd)) in
  {| total_length := Z.land (u32 (total_length + 7)) (u32 (Z.lnot 7));
     num_entries := num_entries sd;
     sizes := sizes sd;
     descriptors := descriptors sd |}.

Definition WIMLIB_ERR_INVALID_IMAGE : Z := 18.

(** [WIMStruct], as far as the writer is concerned. *)
Record WIMStruct := {
  image_metadata : list wim_image_metadata
}.

(** Modelled from the spec: [select_wim_image()] of [wim.c] accepts the
    1-based number of an image of the WIM. *)
Definition select_wim_image (wim : WIMStruct) (image : Z) : Z :=
  if (1 <=? image) && (image <=? Z.of_nat (List.length (image_metadata wim)))
  then 0 else WIMLIB_ERR_INVALID_IMAGE.

(** Modelled from the spec: [new_filler_directory()] of [dentry.c]
    makes an empty directory without a name. *)
Definition new_filler_directory : wim_dentry :=
  {| length := 0; subdir_offset := 0;
     file_name := None; file_name_nbytes := 0;
     short_name := None; short_name_nbytes := 0;
     d_inode := {| i_attributes := FILE_ATTRIBUTE_DIRECTORY;
                   i_security_id := u32 (-1);
                   i_creation_time := 0; i_last_access_time := 0;
                   i_last_write_time := 0; i_hard_link_group_id := 0 |};
     d_children := [] |}.

Definition with_subdir_offset (d : wim_dentry) (off : Z)
    (l : list wim_dentry) : wim_dentry :=
  {| length := length d; subdir_offset := off;
     file_name := file_name d; file_name_nbytes := file_name_nbytes d;
     short_name := short_name d; short_name_nbytes := short_name_nbytes d;
     d_inode := d_inode d; d_children := l |}.

(** A dentry tree without its subdirectory offsets, the one field that
    [calculate_subdir_offsets()] assigns. *)
Fixpoint without_offsets (d : wim_dentry) : wim_dentry :=
  match d with
  | Dentry len _ fn fnb sn snb ino children =>
      Dentry len 0 fn fnb sn snb ino (map without_offsets children)
  end.

(** The entry that ends a directory: a length field of 0. *)
Definition end_of_directory_entry : list byte := repeat x00 8.

(** Modelled from the spec: [write_wim_security_data()] of [security.c]
    emits the total length and the entry count as [u32], the sizes as
    [u64], the descriptors as they are, and zeros up to a multiple of 8
    bytes. *)
Definition pad8 (l : list byte) : list byte :=
  l ++ repeat x00 (Z.to_nat ((- Z.of_nat (List.length l)) mod 8)).

Definition write_wim_security_data (sd : wim_security_data) : list byte :=
  pad8 (Z_to_le 4 (total_length sd) ++ Z_to_le 4 (num_entries sd)
        ++ flat_map (Z_to_le 8) (sizes sd)
        ++ concat (descriptors sd)).

(** [for_dentry_child(child, dentry) f(child, subdir_offset_p)] *)
Fixpoint walk_children {A : Type} (f : A -> Z -> A * Z) (l : list A)
    (cur : Z) : list A * Z :=
  match l with
  | [] => ([], cur)
  | c :: l' =>
      let '(c', cur1) := f c cur in
      let '(l'', cur2) := walk_children f l' cur1 in
      (c' :: l'', cur2)
  end.

Definition sum_list (l : list Z) : Z := foldr Z.add 0 l.

Definition bytes_of (l : list byte) : Z := Z.of_nat (List.length l).

(** Security data whose arrays agree with its entry count and whose
    serialized length, before padding, leaves room for the padding in a
    [u32]. *)
Definition security_data_fits (sd : wim_security_data) : Prop :=
  num_entries sd = Z.of_nat (List.length (sizes sd)) /\
  sizes sd = map (fun d => Z.of_nat (List.length d)) (descriptors sd) /\
  8 + 8 * num_entries sd + sum_list (sizes sd) <= 2 ^ 32 - 8.

Section Writer.

(** [dentry_out_total_length()] and [write_dentry()] of [dentry.c]: the
    number of bytes that a dentry (with its streams) takes on disk, and
    those bytes. *)
Variable dentry_out_total_length : wim_dentry -> Z.
Variable write_dentry : wim_dentry -> list byte.

(** Modelled from the spec: [calculate_subdir_offsets()] of [dentry.c].
    In pre-order, each directory is given the current offset; the offset
    then advances over the directory's children and over the 8 bytes of
    the entry that ends them.  Other dentries have offset 0. *)
Fixpoint calculate_subdir_offsets (d : wim_dentry) (subdir_offset : Z)
    : wim_dentry * Z :=
  match d with
  | Dentry len _ fn fnb sn snb ino children =>
      if inode_is_directory ino then
        let cur :=
          foldl (fun acc c => u64 (acc + dentry_out_total_length c))
            subdir_offset children in
        let cur := u64 (cur + 8) in
        let '(children', cur') :=
          walk_children calculate_subdir_offsets children cur in
        (Dentry len subdir_offset fn fnb sn snb ino children', cur')
      else
        (Dentry len 0 fn fnb sn snb ino children, subdir_offset)
  end.

(** Modelled from the spec: [write_dentry_tree()] of [dentry.c].  The
    root is followed by an entry that ends its (one-element) list; then,
    in pre-order, the children of each directory are written one after
    the other, followed by the entry that ends them. *)
Fixpoint write_dentry_tree_recursive (parent : wim_dentry) : list byte :=
  match parent with
  | Dentry _ _ _ _ _ _ ino children =>
      if inode_is_directory ino then
        flat_map write_dentry children ++ end_of_directory_entry
        ++ flat_map write_dentry_tree_recursive children
      else []
  end.

Definition write_dentry_tree (root : wim_dentry) : list byte :=
  write_dentry root ++ end_of_directory_entry
  ++ write_dentry_tree_recursive root.

(** What [prepare_metadata_resource()] hands back: its return code, the
    buffer it filled, the length it allocated for it, and whether the
    assertion [p - buf == len] held. *)
Record prepared := {
  p_ret : Z;
  p_buf : list byte;
  p_len : Z;
  p_filled : bool;
  p_wim : WIMStruct
}.

Definition set_image (wim : WIMStruct) (image : Z)
    (imd : wim_image_metadata) : WIMStruct :=
  {| image_metadata := <[Z.to_nat (image - 1) := imd]> (image_metadata wim) |}.

(** [prepare_metadata_resource()].  The result is [None] where the C
    function dereferences a null pointer: an image without security
    data. *)
Definition prepare_metadata_resource (wim : WIMStruct) (image : Z)
    : option prepared :=
  let ret := select_wim_image wim image in
  if nonzero ret then
    Some {| p_ret := ret; p_buf := []; p_len := 0; p_filled := true;
            p_wim := wim |}
  else
    imd ← image_metadata wim !! Z.to_nat (image - 1);
    sd ← security_data imd;
    let root := default new_filler_directory (root_dentry imd) in
    let sd := recalculate_security_data_length sd in
    let subdir_offset :=
      u64 (u64 (Z.land (u64 (total_length sd + 7)) (u64 (Z.lnot 7))
                + dentry_out_total_length root) + 8) in
    let '(root, subdir_offset) :=
      calculate_subdir_offsets root subdir_offset in
    let len := subdir_offset in
    let buf := write_wim_security_data sd ++ write_dentry_tree root in
    Some {| p_ret := 0; p_buf := buf; p_len := len;
            p_filled := Z.of_nat (List.length buf) =? len;
            p_wim :=
              set_image wim image
                {| metadata_lte := metadata_lte imd;
                   root_dentry := Some root;
                   security_data := Some sd;
                   inode_list := inode_list imd;
                   unhashed_streams := unhashed_streams imd |} |}.

End Writer.

(** Modelled from the spec: [dentry_out_total_length()] and
    [write_dentry()] of [dentry.c], for dentries without alternate
    streams: the 102 bytes of the fixed part, each name that is not
    empty with a [u16] zero after it, and zeros up to a multiple of 8
    bytes.  The hash of the unnamed stream is left zero. *)
Definition name_out_length (nbytes : Z) : Z :=
  if nbytes <=? 0 then 0 else nbytes + 2.

Definition dentry_out_total_length (d : wim_dentry) : Z :=
  align8 (WIM_DENTRY_DISK_SIZE + name_out_length (file_name_nbytes d)
          + name_out_length (short_name_nbytes d)).

Definition write_name (name : option (list Z)) (nbytes : Z) : list byte :=
  if nbytes <=? 0 then []
  else resize (Z.to_nat nbytes) x00 (flat_map (Z_to_le 2) (default [] name))
       ++ [x00; x00].

Definition write_dentry (d : wim_dentry) : list byte :=
  pad8 (Z_to_le 8 (dentry_out_total_length d)
        ++ Z_to_le 4 (i_attributes (d_inode d))
        ++ Z_to_le 4 (i_security_id (d_inode d))
        ++ Z_to_le 8 (subdir_offset d)
        ++ repeat x00 16
        ++ Z_to_le 8 (i_creation_time (d_inode d))
        ++ Z_to_le 8 (i_last_access_time (d_inode d))
        ++ Z_to_le 8 (i_last_write_time (d_inode d))
        ++ repeat x00 20
        ++ repeat x00 4
        ++ Z_to_le 8 (i_hard_link_group_id (d_inode d))
        ++ Z_to_le 2 0
        ++ Z_to_le 2 (short_name_nbytes d)
        ++ Z_to_le 2 (file_name_nbytes d)
        ++ write_name (file_name d) (file_name_nbytes d)
        ++ write_name (short_name d) (short_name_nbytes d)).

(** The writer over these collaborators. *)
Definition prepare_image (wim : WIMStruct) (image : Z) : option prepared :=
  prepare_metadata_resource dentry_out_total_length write_dentry wim image.

(** ** Sample resources *)

Definition image_of (n : Z) (h : list byte) (flag : bool)
    : wim_image_metadata :=
  {| metadata_lte :=
       {| size := n; hash := h; dont_check_metadata_hash := flag |};
     root_dentry := None; security_data := None;
     inode_list := []; unhashed_streams := [] |}.

(** Security data of 8 bytes without entries, then an entry of length 0. *)
Definition minimal_empty_image : list byte :=
  [x08; x00; x00; x00; x00; x00; x00; x00;
   x00; x00; x00; x00; x00; x00; x00; x00].

Definition padded_empty_image : list byte :=
  minimal_empty_image ++ repeat x00 94.

(** An on-disk dentry of 112 bytes without streams and without a short
    name, whose long name is the two code units ['X'; 0]. *)
Definition dentry_named_X (attributes subdir : Z) : list byte :=
  Z_to_le 8 112 ++ Z_to_le 4 attributes ++ Z_to_le 4 (u32 (-1))
  ++ Z_to_le 8 subdir ++ repeat x00 16 ++ repeat x00 24 ++ repeat x00 20
  ++ repeat x00 4 ++ Z_to_le 8 0
  ++ Z_to_le 2 0 ++ Z_to_le 2 0 ++ Z_to_le 2 4
  ++ [x58; x00; x00; x00] ++ [x00; x00] ++ repeat x00 4.

(** Empty security data, a root named ["X"] whose children start at
    offset 120, and the entry that ends the (empty) list of children. *)
Definition named_root_image (attributes : Z) : list byte :=
  Z_to_le 4 8 ++ Z_to_le 4 0 ++ dentry_named_X attributes 120
  ++ Z_to_le 8 0.

(** A file and a directory for sample trees. *)
Definition sample_inode (attributes : Z) : wim_inode :=
  {| i_attributes := attributes; i_security_id := u32 (-1);
     i_creation_time := 1; i_last_access_time := 2;
     i_last_write_time := 3; i_hard_link_group_id := 0 |}.

Definition sample_dentry (name : list Z) (attributes : Z)
    (l : list wim_dentry) : wim_dentry :=
  {| length := 0; subdir_offset := 0;
     file_name := if name is [] then None else Some name;
     file_name_nbytes := 2 * Z.of_nat (List.length name);
     short_name := None; short_name_nbytes := 0;
     d_inode := sample_inode attributes;
     d_children := l |}.

(** [/], [/a], [/a/c] and [/b], where [a] is a directory. *)
Definition sample_tree : wim_dentry :=
  sample_dentry [] FILE_ATTRIBUTE_DIRECTORY
    [sample_dentry [97] FILE_ATTRIBUTE_DIRECTORY
       [sample_dentry [99] 0x20 []];
     sample_dentry [98] 0x20 []].

Definition sample_security_data : wim_security_data :=
  {| total_length := 0; num_entries := 2; sizes := [3; 5];
     descriptors := [[x01; x02; x03]; [x04; x05; x06; x07; x08]] |}.

Definition sample_wim : WIMStruct :=
  {| image_metadata :=
       [{| metadata_lte := {| size := 0; hash := [];
                              dont_check_metadata_hash := false |};
           root_dentry := Some sample_tree;
           security_data := Some sample_security_data;
           inode_list := []; unhashed_streams := [] |}] |}.

(** An image without a root whose security data is a single descriptor
    of [n] bytes; with [n] = 2^32, a descriptor of 4 GiB. *)
Definition security_data_of_size (n : nat) : wim_security_data :=
  {| total_length := 0; num_entries := 1; sizes := [Z.of_nat n];
     descriptors := [repeat x00 n] |}.

Definition wim_of_security_data (sd : wim_security_data) : WIMStruct :=
  {| image_metadata :=
       [{| metadata_lte := {| size := 0; hash := [];
                              dont_check_metadata_hash := false |};
           root_dentry := None;
           security_data := Some sd;
           inode_list := []; unhashed_streams := [] |}] |}.

Definition huge_wim : WIMStruct :=
  wim_of_security_data (security_data_of_size (Z.to_nat (2 ^ 32))).

(** ** Writing the resource to the WIM *)

Definition with_metadata_lte (imd : wim_image_metadata)
    (lte : wim_lookup_table_entry) : wim_image_metadata :=
  {| metadata_lte := lte; root_dentry := root_dentry imd;
     security_data := security_data imd; inode_list := inode_list imd;
     unhashed_streams := unhashed_streams imd |}.

Section WriteResource.

(** The output of the WIM being written: the file behind [wim->out_fd]
    and the resource headers of the lookup table entries, which
    [write_wim_resource_from_buffer()] of [write.c] updates.  The call
    returns its code and the content of the hash buffer afterwards. *)
Context {O : Type}.
Variable dentry_out_total_length : wim_dentry -> Z.
Variable write_dentry : wim_dentry -> list byte.
Variable write_wim_resource_from_buffer :
  list byte -> Z -> Z -> list byte -> O -> Z * O * list byte.

(** [write_metadata_resource()].  There is no result where the assertion
    of [prepare_metadata_resource()] fails. *)
Definition write_metadata_resource (wim : WIMStruct) (image : Z)
    (write_resource_flags : Z) (out : O) : option (Z * WIMStruct * O) :=
  r ← prepare_metadata_resource dentry_out_total_length write_dentry wim image;
  if nonzero (p_ret r) then Some (p_ret r, p_wim r, out)
  else if negb (p_filled r) then None
  else
    imd ← image_metadata (p_wim r) !! Z.to_nat (image - 1);
    let lte := metadata_lte imd in
    let '(ret, out, h) :=
      write_wim_resource_from_buffer (p_buf r) (p_len r)
        write_resource_flags (hash lte) out in
    let lte := {| size := size lte; hash := h;
                  dont_check_metadata_hash := true |} in
    Some (ret, set_image (p_wim r) image (with_metadata_lte imd lte), out).

End WriteResource.

(** A writer that fails with the code 7 and leaves the output and the
    hash buffer as they are. *)
Definition fail_resource (buf : list byte) (len flags : Z)
    (h : list byte) (out : list (list byte)) : Z * list (list byte) * list byte :=
  (7, out, h).

End MetadataResource.

(** * Capture from an NTFS volume ([ntfs-3g_capture.c]) *)

Module Ntfs3gCapture.

(** ** libntfs-3g

    The volume is read-only and is consulted through the calls below.
    Each call is a field of the object it is made on: what it returns is
    for the volume to decide, failures included. *)

Inductive ATTR_TYPES := AT_DATA | AT_REPARSE_POINT | AT_OTHER (code : Z).

#[global] Instance ATTR_TYPES_eq_dec : EqDecision ATTR_TYPES.
Proof. solve_decision. Defined.

Definition FILE_NAME_POSIX : Z := 0.
Definition FILE_NAME_WIN32 : Z := 1.
Definition FILE_NAME_DOS : Z := 2.
Definition FILE_NAME_WIN32_AND_DOS : Z := 3.

Definition LCN_HOLE : Z := -1.
Definition FILE_root : Z := 5.

(** [MREF(mref)]: the inode number of an MFT reference, its low 48 bits. *)
Definition MREF (mref : Z) : Z := Z.land mref (Z.ones 48).

(** An open attribute, [ntfs_attr *]. *)
Record ntfs_attr := {
  (** [ntfs_attr_pread(na, pos, count, buf)]: the value returned and the
      bytes placed in [buf]. *)
  ntfs_attr_pread : Z -> Z -> Z * list byte;
  (** [ntfs_attr_find_vcn(na, 0)]: [None] for [NULL], else the [lcn] of
      the run. *)
  ntfs_attr_find_vcn : option Z
}.

(** [ATTR_RECORD] *)
Record ATTR_RECORD := {
  record_name : list Z;           (* [name_length] UTF-16LE code units *)
  (** [ntfs_get_attribute_value_length(record)], as a [u64] *)
  value_length : Z
}.

(** An entry handed by [ntfs_readdir()] to its callback. *)
Record dir_entry := {
  de_name : list Z;
  de_name_type : Z;
  de_mref : Z
}.

(** An open inode, [ntfs_inode *]. *)
Record ntfs_inode := {
  mft_no : Z;
  creation_time : Z;
  last_data_change_time : Z;
  last_access_time : Z;
  (** [ntfs_get_ntfs_attrib(ni, value, size)]: the value returned and the
      attributes stored. *)
  ntfs_get_ntfs_attrib : Z * Z;
  (** [ntfs_attr_lookup(type, ...)] called until it fails: the records
      found, and whether [errno] was [ENOENT] at the end. *)
  ntfs_attr_lookup : ATTR_TYPES -> list ATTR_RECORD * bool;
  (** [ntfs_attr_open(ni, type, name, name_len)] *)
  ntfs_attr_open : ATTR_TYPES -> list Z -> option ntfs_attr;
  (** The security descriptor that [ntfs_get_ntfs_acl()] reports:
      [None] when the call fails. *)
  ntfs_acl : option (list byte);
  (** [ntfs_readdir()]: the entries of the directory, and the value
      returned when the callback accepted them all. *)
  ntfs_readdir : list dir_entry * Z
}.

(** A mounted volume, [ntfs_volume *]. *)
Record ntfs_volume := {
  ntfs_inode_open : Z -> option ntfs_inode
}.

(** [ntfs_get_ntfs_acl(scx, ni, buf, avail_size)]: the size of the
    descriptor, which is copied to [buf] when it fits; negative on
    failure. *)
Definition ntfs_get_ntfs_acl (ni : ntfs_inode) (avail_size : Z)
    : Z * option (list byte) :=
  match ntfs_acl ni with
  | None => (-1, None)
  | Some sd =>
      let n := Z.of_nat (length sd) in
      (n, if n <=? avail_size then Some sd else None)
  end.

(** ** wimlib structures *)

Inductive stream_type :=
| STREAM_TYPE_DATA | STREAM_TYPE_REPARSE_POINT | STREAM_TYPE_UNKNOWN.

(** [struct ntfs_location].  The volume wrapper that a location points
    to is shared; its reference count is part of the capture state. *)
Record ntfs_location := {
  loc_mft_no : Z;
  attr_type : ATTR_TYPES;
  attr_name_nchars : Z;
  attr_name : option (list Z);
  sort_key : Z
}.

(** [struct blob_descriptor], for a blob in an NTFS volume. *)
Record blob_descriptor := {
  size : Z;
  ntfs_loc : ntfs_location
}.

(** [struct wim_inode_stream] *)
Record wim_inode_stream := {
  strm_type : stream_type;
  stream_name : option (list Z);  (* [NO_STREAM_NAME] is [None] *)
  stream_blob : option blob_descriptor;
  stream_id : Z
}.

(** [struct wim_inode].  [i_scans] is not a field of the C structure: it
    counts how many times the per-inode part of the scan (lines 729-769)
    was started on this inode. *)
Record wim_inode := {
  i_ino : Z;
  i_nlink : Z;
  i_creation_time : Z;
  i_last_write_time : Z;
  i_last_access_time : Z;
  i_attributes : Z;
  i_reparse_tag : Z;
  i_rp_flags : Z;
  i_security_id : Z;
  i_streams : list wim_inode_stream;
  i_next_stream_id : Z;
  i_scans : nat
}.

(** [struct wim_dentry].  [d_inode] points into the inode table: it is
    the key of the inode there. *)
Inductive wim_dentry := Dentry {
  d_name : string;
  d_inode : Z;
  is_win32_name : bool;
  d_short_name : option (list Z);
  d_short_name_nbytes : Z;
  d_children : list wim_dentry
}.

(** An entry of the list of unhashed blobs: the blob, and the inode and
    stream that refer to it. *)
Record unhashed_blob := {
  ub_blob : blob_descriptor;
  ub_inode : Z;
  ub_stream_id : Z
}.

Inductive scan_status :=
| WIMLIB_SCAN_DENTRY_OK
| WIMLIB_SCAN_DENTRY_EXCLUDED
| WIMLIB_SCAN_DENTRY_UNSUPPORTED.

Inductive event :=
| EvError (msg : string)
| EvWarning (msg : string)
| EvProgress (status : scan_status) (path : string).

(** Modelled from the spec: the flags and tags below are declared in
    headers that are not among the sources ([wimlib.h],
    [wimlib/reparse.h]); only their being distinct bits is used. *)
Definition WIMLIB_ADD_FLAG_NO_ACLS : Z := 0x20.
Definition WIMLIB_ADD_FLAG_RPFIX : Z := 0x100.
Definition WIMLIB_ADD_FLAG_NO_UNSUPPORTED_EXCLUDE : Z := 0x400.

Definition WIM_RP_FLAG_NOT_FIXED : Z := 0x1.
Definition WIM_IO_REPARSE_TAG_MOUNT_POINT : Z := 0xA0000003.
Definition WIM_IO_REPARSE_TAG_SYMLINK : Z := 0xA000000C.

(** Modelled from the spec: [REPARSE_DATA_OFFSET] of [wimlib/reparse.h],
    the 8 bytes of the header of a reparse point. *)
Definition REPARSE_DATA_OFFSET : Z := 8.

(** Modelled from the spec: [BUFFER_SIZE], the size of the chunks in
    which blobs are read. *)
Definition BUFFER_SIZE : Z := 32768.

(** [cmp_ntfs_locations()] *)

(** Modelled from the spec: [cmp_u64()] of [wimlib/util.h], the
    three-way comparison of two unsigned 64-bit integers. *)
Definition cmp_u64 (n1 n2 : Z) : Z :=
  if n1 <? n2 then -1 else if n2 <? n1 then 1 else 0.

Definition cmp_ntfs_locations (loc1 loc2 : ntfs_location) : Z :=
  cmp_u64 (sort_key loc1) (sort_key loc2).

(** [order(a, b)] of blob descriptors located in an NTFS volume. *)
Definition cmp_blobs (b1 b2 : blob_descriptor) : Z :=
  cmp_ntfs_locations (ntfs_loc b1) (ntfs_loc b2).

(** [open_ntfs_attr()] *)
Definition open_ntfs_attr (ni : ntfs_inode) (loc : ntfs_location)
    : option ntfs_attr * list event :=
  match ntfs_attr_open ni (attr_type loc) (default [] (attr_name loc)) with
  | None => (None, [EvError "Failed to open attribute of NTFS inode"])
  | Some na => (Some na, [])
  end.

(** ** Reading a blob: [read_ntfs_attribute_prefix()] *)

(** What the loop does: the calls to [ntfs_attr_pread] with their
    results, and the chunks handed to the callback with its results. *)
Inductive read_event :=
| Pread (pos count ret : Z)
| Consumed (chunk : list byte) (ret : Z).

(** The chunks that a run handed to the consumer, and the offset at
    which the data of a blob starts in its attribute. *)
Fixpoint consumed_chunks (tr : list read_event) : list (list byte) :=
  match tr with
  | [] => []
  | Consumed c _ :: tr' => c :: consumed_chunks tr'
  | Pread _ _ _ :: tr' => consumed_chunks tr'
  end.

Definition start_offset (blob : blob_descriptor) : Z :=
  if decide (attr_type (ntfs_loc blob) = AT_REPARSE_POINT)
  then REPARSE_DATA_OFFSET else 0.

(** The attribute [na] holds [data]: a read inside [data] returns all
    the bytes asked for. *)
Definition slice (pos count : Z) (data : list byte) : list byte :=
  take (Z.to_nat count) (drop (Z.to_nat pos) data).

Definition holds_data (na : ntfs_attr) (data : list byte) : Prop :=
  forall pos count,
    0 <= pos -> 0 <= count -> pos + count <= Z.of_nat (length data) ->
    ntfs_attr_pread na pos count = (count, slice pos count data).

Section ReadPrefix.

(** The callbacks [cbs]: [call_consume_chunk(buf, len, cbs)] hands a
    chunk to the consumer, whose state is [S]. *)
Context {S : Type}.
Variable call_consume_chunk : list byte -> S -> Z * S.

(** The [while (bytes_remaining)] loop.  [bytes_remaining] is signed;
    the model has no result ([None]) for a negative count, that is for a
    [size] of 2^63 and more. *)
Equations? read_loop (na : ntfs_attr) (pos bytes_remaining : Z) (s : S)
    : option (Z * S * list read_event)
    by wf (Z.to_nat bytes_remaining) lt :=
  read_loop na pos bytes_remaining s with Z_dec bytes_remaining 0 := {
    | inleft (left _) => None
    | inright _ => Some (0, s, [])
    | inleft (right _) =>
        let to_read := Z.min bytes_remaining BUFFER_SIZE in
        let '(got, buf) := ntfs_attr_pread na pos to_read in
        if negb (got =? to_read) then
          Some (WIMLIB_ERR_NTFS_3G, s, [Pread pos to_read got])
        else
          let chunk := take (Z.to_nat to_read) buf in
          let '(ret, s') := call_consume_chunk chunk s in
          if nonzero ret then
            Some (ret, s', [Pread pos to_read got; Consumed chunk ret])
          else
            '(ret', s'', tr) ←
              read_loop na (pos + to_read) (bytes_remaining - to_read) s';
            Some (ret', s'', Pread pos to_read got :: Consumed chunk ret :: tr)
  }.
Proof. unfold BUFFER_SIZE in *. lia. Qed.

(** [read_ntfs_attribute_prefix()] *)
Definition read_ntfs_attribute_prefix (vol : ntfs_volume)
    (blob : blob_descriptor) (size : Z) (s : S)
    : option (Z * S * list read_event) :=
  let loc := ntfs_loc blob in
  match ntfs_inode_open vol (loc_mft_no loc) with
  | None => Some (WIMLIB_ERR_NTFS_3G, s, [])
  | Some ni =>
      match (open_ntfs_attr ni loc).1 with
      | None => Some (WIMLIB_ERR_NTFS_3G, s, [])
      | Some na =>
          let pos :=
            if decide (attr_type loc = AT_REPARSE_POINT)
            then REPARSE_DATA_OFFSET else 0 in
          read_loop na pos size s
      end
  end.

(** Handing a list of chunks to the consumer, one after the other, up
    to the first chunk for which it does not return 0. *)
Fixpoint feed (chunks : list (list byte)) (s : S) : Z * S :=
  match chunks with
  | [] => (0, s)
  | c :: chunks' =>
      let '(ret, s') := call_consume_chunk c s in
      if nonzero ret then (ret, s') else feed chunks' s'
  end.

(** What holds of every run of the loop from position [pos] with [rem]
    bytes to go: where it starts reading, what a short read and what a
    refusal of the consumer lead to, and how the state of the consumer
    comes about. *)
Definition run_ok (pos rem : Z) (s : S)
    (r : Z * S * list read_event) : Prop :=
  let '(ret, s', tr) := r in
  (forall e, head tr = Some e ->
     exists got, e = Pread pos (Z.min rem BUFFER_SIZE) got) /\
  (forall p c got, In (Pread p c got) tr -> got <> c ->
     ret = WIMLIB_ERR_NTFS_3G /\ last tr = Some (Pread p c got)) /\
  (forall chunk r, In (Consumed chunk r) tr -> r <> 0 ->
     ret = r /\ last tr = Some (Consumed chunk r)) /\
  (feed (consumed_chunks tr) s).2 = s' /\
  (ret = (feed (consumed_chunks tr) s).1 \/
   ret = WIMLIB_ERR_NTFS_3G /\
   exists p c got, last tr = Some (Pread p c got) /\ got <> c).

(** What holds of a run over an attribute that holds [data]: the
    chunks are consecutive pieces of [data], each of [BUFFER_SIZE] bytes
    but for the last, and together they are the [rem] bytes at [pos]
    when the run returns 0. *)
Definition delivered (data : list byte) (pos rem : Z) (s : S)
    (r : Z * S * list read_event) : Prop :=
  let '(ret, s', tr) := r in
  (ret, s') = feed (consumed_chunks tr) s /\
  (forall (i : nat) c,
      consumed_chunks tr !! i = Some c ->
      Z.of_nat i * BUFFER_SIZE < rem /\
      c = slice (pos + Z.of_nat i * BUFFER_SIZE)
            (Z.min BUFFER_SIZE (rem - Z.of_nat i * BUFFER_SIZE)) data) /\
  (ret = 0 -> concat (consumed_chunks tr) = slice pos rem data).

End ReadPrefix.

(** ** The state of a capture *)

(** What the scan reads and updates through its pointers: the inode
    table with the inodes in it, the set of security descriptors, the
    list of unhashed blobs and the reference count of the volume
    wrapper; [log] collects the messages and the progress reports, and
    [hooks] is the state of the caller's callbacks. *)
Record capture_state {H : Type} := {
  inode_table : gmap Z wim_inode;
  sd_set : list (list byte);
  unhashed_blobs : list unhashed_blob;
  refcnt : Z;
  mounted : bool;
  log : list event;
  hooks : H
}.
Arguments capture_state : clear implicits.

Section State.
Context {H : Type}.
Implicit Type st : capture_state H.

Definition set_inode_table st (t : gmap Z wim_inode) : capture_state H :=
  {| inode_table := t; sd_set := sd_set st;
     unhashed_blobs := unhashed_blobs st; refcnt := refcnt st;
     mounted := mounted st; log := log st; hooks := hooks st |}.

Definition set_sd_set st (l : list (list byte)) : capture_state H :=
  {| inode_table := inode_table st; sd_set := l;
     unhashed_blobs := unhashed_blobs st; refcnt := refcnt st;
     mounted := mounted st; log := log st; hooks := hooks st |}.

Definition set_unhashed_blobs st (l : list unhashed_blob)
    : capture_state H :=
  {| inode_table := inode_table st; sd_set := sd_set st;
     unhashed_blobs := l; refcnt := refcnt st;
     mounted := mounted st; log := log st; hooks := hooks st |}.

Definition set_hooks st (h : H) : capture_state H :=
  {| inode_table := inode_table st; sd_set := sd_set st;
     unhashed_blobs := unhashed_blobs st; refcnt := refcnt st;
     mounted := mounted st; log := log st; hooks := h |}.

Definition add_log st (l : list event) : capture_state H :=
  {| inode_table := inode_table st; sd_set := sd_set st;
     unhashed_blobs := unhashed_blobs st; refcnt := refcnt st;
     mounted := mounted st; log := log st ++ l; hooks := hooks st |}.

(** [get_ntfs_volume()] *)
Definition get_ntfs_volume st : capture_state H :=
  {| inode_table := inode_table st; sd_set := sd_set st;
     unhashed_blobs := unhashed_blobs st; refcnt := refcnt st + 1;
     mounted := mounted st; log := log st; hooks := hooks st |}.

(** [put_ntfs_volume()]: the volume is unmounted when the last
    reference goes. *)
Definition put_ntfs_volume st : capture_state H :=
  {| inode_table := inode_table st; sd_set := sd_set st;
     unhashed_blobs := unhashed_blobs st; refcnt := refcnt st - 1;
     mounted := if refcnt st - 1 =? 0 then false else mounted st;
     log := log st; hooks := hooks st |}.

End State.

(** ** Scanning the attributes of an inode *)

Definition set_reparse_tag (i : wim_inode) (tag : Z) : wim_inode :=
  {| i_ino := i_ino i; i_nlink := i_nlink i;
     i_creation_time := i_creation_time i;
     i_last_write_time := i_last_write_time i;
     i_last_access_time := i_last_access_time i;
     i_attributes := i_attributes i; i_reparse_tag := tag;
     i_rp_flags := i_rp_flags i; i_security_id := i_security_id i;
     i_streams := i_streams i; i_next_stream_id := i_next_stream_id i;
     i_scans := i_scans i |}.

Definition set_security_id (i : wim_inode) (id : Z) : wim_inode :=
  {| i_ino := i_ino i; i_nlink := i_nlink i;
     i_creation_time := i_creation_time i;
     i_last_write_time := i_last_write_time i;
     i_last_access_time := i_last_access_time i;
     i_attributes := i_attributes i; i_reparse_tag := i_reparse_tag i;
     i_rp_flags := i_rp_flags i; i_security_id := id;
     i_streams := i_streams i; i_next_stream_id := i_next_stream_id i;
     i_scans := i_scans i |}.

Definition set_rp_flags (i : wim_inode) (flags : Z) : wim_inode :=
  {| i_ino := i_ino i; i_nlink := i_nlink i;
     i_creation_time := i_creation_time i;
     i_last_write_time := i_last_write_time i;
     i_last_access_time := i_last_access_time i;
     i_attributes := i_attributes i; i_reparse_tag := i_reparse_tag i;
     i_rp_flags := flags; i_security_id := i_security_id i;
     i_streams := i_streams i; i_next_stream_id := i_next_stream_id i;
     i_scans := i_scans i |}.

Definition set_nlink (i : wim_inode) (n : Z) : wim_inode :=
  {| i_ino := i_ino i; i_nlink := n;
     i_creation_time := i_creation_time i;
     i_last_write_time := i_last_write_time i;
     i_last_access_time := i_last_access_time i;
     i_attributes := i_attributes i; i_reparse_tag := i_reparse_tag i;
     i_rp_flags := i_rp_flags i; i_security_id := i_security_id i;
     i_streams := i_streams i; i_next_stream_id := i_next_stream_id i;
     i_scans := i_scans i |}.

(** Modelled from the spec: [inode_add_stream()] of [inode.c] attaches a
    stream to the inode, after the streams it has, and gives it the next
    stream id. *)
Definition inode_add_stream (i : wim_inode) (t : stream_type)
    (name : option (list Z)) (blob : option blob_descriptor)
    : wim_inode * wim_inode_stream :=
  let strm := {| strm_type := t; stream_name := name; stream_blob := blob;
                 stream_id := i_next_stream_id i |} in
  ({| i_ino := i_ino i; i_nlink := i_nlink i;
      i_creation_time := i_creation_time i;
      i_last_write_time := i_last_write_time i;
      i_last_access_time := i_last_access_time i;
      i_attributes := i_attributes i; i_reparse_tag := i_reparse_tag i;
      i_rp_flags := i_rp_flags i; i_security_id := i_security_id i;
      i_streams := i_streams i ++ [strm];
      i_next_stream_id := i_next_stream_id i + 1;
      i_scans := i_scans i |}, strm).

(** Modelled from the spec: [prepare_unhashed_blob()] of [blob_table.c]
    registers a blob, if there is one, at the end of the list of
    unhashed blobs, with the inode and stream that it belongs to. *)
Definition prepare_unhashed_blob (blob : option blob_descriptor)
    (i : wim_inode) (id : Z) (l : list unhashed_blob) : list unhashed_blob :=
  match blob with
  | None => l
  | Some b => l ++ [{| ub_blob := b; ub_inode := i_ino i; ub_stream_id := id |}]
  end.

(** [read_reparse_tag()] *)
Definition le32_to_cpu (l : list byte) : Z :=
  MetadataResource.le_to_Z (take 4 l).

Definition read_reparse_tag (ni : ntfs_inode) (loc : ntfs_location)
    : Z * Z * list event :=
  match open_ntfs_attr ni loc with
  | (None, tr) => (WIMLIB_ERR_NTFS_3G, 0, tr)
  | (Some na, tr) =>
      let '(got, buf) := ntfs_attr_pread na 0 4 in
      if negb (got =? 4) then
        (WIMLIB_ERR_NTFS_3G, 0, tr ++ [EvError "Error reading reparse data"])
      else (0, le32_to_cpu buf, tr)
  end.

(** [attr_type_to_wimlib_stream_type()].  Its callers pass [AT_DATA] and
    [AT_REPARSE_POINT] only; for any other type the source has
    [wimlib_assert(0)] before it returns [STREAM_TYPE_UNKNOWN]. *)
Definition attr_type_to_wimlib_stream_type (type : ATTR_TYPES)
    : stream_type :=
  match type with
  | AT_DATA => STREAM_TYPE_DATA
  | AT_REPARSE_POINT => STREAM_TYPE_REPARSE_POINT
  | AT_OTHER _ => STREAM_TYPE_UNKNOWN
  end.

Definition set_sort_key (loc : ntfs_location) (k : Z) : ntfs_location :=
  {| loc_mft_no := loc_mft_no loc; attr_type := attr_type loc;
     attr_name_nchars := attr_name_nchars loc; attr_name := attr_name loc;
     sort_key := k |}.

(** [set_attr_sort_key()] *)
Definition set_attr_sort_key (ni : ntfs_inode) (loc : ntfs_location)
    : Z * ntfs_location * list event :=
  match open_ntfs_attr ni loc with
  | (None, tr) => (WIMLIB_ERR_NTFS_3G, loc, tr)
  | (Some na, tr) =>
      match ntfs_attr_find_vcn na with
      | Some lcn =>
          if negb (lcn =? LCN_HOLE) then (0, set_sort_key loc (u64 lcn), tr)
          else (0, set_sort_key loc 0, tr)
      | None => (0, set_sort_key loc 0, tr)
      end
  end.

Section Scan.
Context {H : Type}.
Implicit Type st : capture_state H.

(** [scan_ntfs_attr()].  On every exit after the blob descriptor took
    its reference to the volume, [out_cleanup] frees a descriptor that
    was not attached and so gives the reference back. *)
Definition scan_ntfs_attr (inode : wim_inode) (ni : ntfs_inode)
    (path : string) (type : ATTR_TYPES) (record : ATTR_RECORD) st
    : Z * wim_inode * capture_state H :=
  let data_size := value_length record in
  let name_nchars := Z.of_nat (length (record_name record)) in
  let stream_name :=
    if nonzero name_nchars then Some (record_name record) else None in
  let attach (inode : wim_inode) (blob : option blob_descriptor) st :=
    let '(inode, strm) :=
      inode_add_stream inode (attr_type_to_wimlib_stream_type type)
        stream_name blob in
    (0, inode,
     set_unhashed_blobs st
       (prepare_unhashed_blob blob inode (stream_id strm)
          (unhashed_blobs st))) in
  if nonzero data_size then
    let st := get_ntfs_volume st in
    let loc :=
      {| loc_mft_no := mft_no ni; attr_type := type;
         attr_name_nchars := if nonzero name_nchars then name_nchars else 0;
         attr_name := stream_name; sort_key := 0 |} in
    let '(ret, loc, tr) := set_attr_sort_key ni loc in
    let st := add_log st tr in
    if nonzero ret then (ret, inode, put_ntfs_volume st)
    else if decide (type = AT_REPARSE_POINT) then
      if data_size <? REPARSE_DATA_OFFSET then
        (WIMLIB_ERR_INVALID_REPARSE_DATA, inode,
         put_ntfs_volume
           (add_log st [EvError ("Reparse data of " ++ path ++ " is invalid")]))
      else
        let blob := {| size := data_size - REPARSE_DATA_OFFSET;
                       ntfs_loc := loc |} in
        let '(ret, tag, tr) := read_reparse_tag ni loc in
        let st := add_log st tr in
        if nonzero ret then (ret, inode, put_ntfs_volume st)
        else attach (set_reparse_tag inode tag) (Some blob) st
    else
      attach inode (Some {| size := data_size; ntfs_loc := loc |}) st
  else attach inode None st.

(** [scan_ntfs_attrs_with_type()]: the records of the given type are
    scanned in the order of the lookup, up to the first failure. *)
Fixpoint scan_records (inode : wim_inode) (ni : ntfs_inode)
    (path : string) (type : ATTR_TYPES) (l : list ATTR_RECORD) st
    : Z * wim_inode * capture_state H :=
  match l with
  | [] => (0, inode, st)
  | record :: l' =>
      let '(ret, inode, st) := scan_ntfs_attr inode ni path type record st in
      if nonzero ret then (ret, inode, st)
      else scan_records inode ni path type l' st
  end.

Definition scan_ntfs_attrs_with_type (inode : wim_inode) (ni : ntfs_inode)
    (path : string) (type : ATTR_TYPES) st
    : Z * wim_inode * capture_state H :=
  let '(records, enoent) := ntfs_attr_lookup ni type in
  let '(ret, inode, st) := scan_records inode ni path type records st in
  if nonzero ret then (ret, inode, st)
  else if negb enoent then
    (WIMLIB_ERR_NTFS_3G, inode,
     add_log st [EvError ("Error listing NTFS attributes of " ++ path)])
  else (0, inode, st).

End Scan.

(** ** Security descriptors *)

(** Modelled from the spec: [sd_set_add_sd()] of [security.c].  The set
    holds each descriptor once; adding a descriptor returns the id of
    the entry that equals it, or appends it and returns the new id. *)
Fixpoint sd_set_find (l : list (list byte)) (sd : list byte) (i : Z)
    : option Z :=
  match l with
  | [] => None
  | x :: l' => if decide (x = sd) then Some i else sd_set_find l' sd (i + 1)
  end.

Definition sd_set_add_sd (set : list (list byte)) (sd : list byte)
    : Z * list (list byte) :=
  match sd_set_find set sd 0 with
  | Some id => (id, set)
  | None => (Z.of_nat (length set), set ++ [sd])
  end.

(** [get_security_descriptor()].  The descriptor is first read into a
    buffer of 4096 bytes, and again into a buffer of the size reported
    when it did not fit.  [fuel] bounds the number of attempts. *)
Fixpoint get_security_descriptor_retry (fuel : nat) (ni : ntfs_inode)
    (inode : wim_inode) (set : list (list byte)) (avail_size : Z)
    : option (Z * wim_inode * list (list byte)) :=
  match fuel with
  | O => None
  | Datatypes.S fuel' =>
      let '(ret, buf) := ntfs_get_ntfs_acl ni avail_size in
      if ret <? 0 then Some (WIMLIB_ERR_NTFS_3G, inode, set)
      else if avail_size <? ret then
        get_security_descriptor_retry fuel' ni inode set ret
      else if 0 <? ret then
        let '(id, set) :=
          sd_set_add_sd set (take (Z.to_nat ret) (default [] buf)) in
        let inode := set_security_id inode id in
        if id <? 0 then Some (WIMLIB_ERR_NOMEM, inode, set)
        else Some (0, inode, set)
      else Some (0, inode, set)
  end.

Definition get_security_descriptor (ni : ntfs_inode) (inode : wim_inode)
    (set : list (list byte))
    : option (Z * wim_inode * list (list byte)) :=
  get_security_descriptor_retry 2 ni inode set 4096.

(** ** DOS names *)

(** [struct dos_name_node], and [struct dos_name_map]: a search tree
    keyed by NTFS inode number. *)
Record dos_name_node := {
  dos_name : list Z;
  name_nbytes : Z
}.

(** [insert_dos_name()].  A second name for an inode is dropped with a
    warning.  The model has no result for a name longer than the 24
    bytes of [dos_name]. *)
Definition insert_dos_name (map : gmap Z dos_name_node) (name : list Z)
    (nbytes : Z) (ntfs_ino : Z)
    : option (Z * gmap Z dos_name_node * list event) :=
  if 24 <? nbytes then None
  else
    match map !! ntfs_ino with
    | Some _ =>
        Some (0, map, [EvWarning "NTFS inode has multiple DOS names"])
    | None =>
        Some (0, <[ntfs_ino := {| dos_name := name; name_nbytes := nbytes |}]> map,
              [])
    end.

(** [lookup_dos_name()] *)
Definition lookup_dos_name (map : gmap Z dos_name_node) (ntfs_ino : Z)
    : option dos_name_node := map !! ntfs_ino.

Definition set_short_name (d : wim_dentry) (name : option (list Z))
    (nbytes : Z) : wim_dentry :=
  {| d_name := d_name d; d_inode := d_inode d;
     is_win32_name := is_win32_name d;
     d_short_name := name; d_short_name_nbytes := nbytes;
     d_children := d_children d |}.

(** [set_dentry_dos_name()].  [dentry->d_inode->i_ino] is read through
    the inode table; there is no result for a dentry whose inode is not
    there. *)
Definition set_dentry_dos_name (table : gmap Z wim_inode)
    (dentry : wim_dentry) (map : gmap Z dos_name_node)
    : option (Z * wim_dentry * list event) :=
  if is_win32_name dentry then
    inode ← table !! d_inode dentry;
    match lookup_dos_name map (i_ino inode) with
    | Some node =>
        Some (0, set_short_name dentry (Some (dos_name node)) (name_nbytes node),
              [])
    | None =>
        Some (0, dentry,
              [EvWarning "NTFS inode has Win32 name with no corresponding DOS name"])
    end
  else Some (0, dentry, []).

(** ** The inode table *)

(** Modelled from the spec: a new inode, as [new_inode()] of [inode.c]
    makes it: one link, no security descriptor, no stream, reparse data
    not fixed. *)
Definition new_inode (ino : Z) : wim_inode :=
  {| i_ino := ino; i_nlink := 1;
     i_creation_time := 0; i_last_write_time := 0; i_last_access_time := 0;
     i_attributes := 0; i_reparse_tag := 0;
     i_rp_flags := WIM_RP_FLAG_NOT_FIXED; i_security_id := -1;
     i_streams := []; i_next_stream_id := 0; i_scans := 0 |}.

(** Modelled from the spec: [inode_table_new_dentry()] of
    [inode_table.c], called for a file that can be linked.  The new
    dentry shares the inode that the table holds for the inode number,
    which gains a link, or is bound to a new inode that is added to the
    table. *)
Definition inode_table_new_dentry (table : gmap Z wim_inode)
    (name : string) (ino : Z) : Z * wim_dentry * gmap Z wim_inode :=
  let dentry :=
    {| d_name := name; d_inode := ino; is_win32_name := false;
       d_short_name := None; d_short_name_nbytes := 0; d_children := [] |} in
  match table !! ino with
  | Some inode => (0, dentry, <[ino := set_nlink inode (i_nlink inode + 1)]> table)
  | None => (0, dentry, <[ino := new_inode ino]> table)
  end.

(** The inodes that the dentries of a tree point to, one per dentry. *)
Fixpoint tree_inodes (d : wim_dentry) : list Z :=
  match d with
  | Dentry _ ino _ _ _ children => ino :: flat_map tree_inodes children
  end.

(** Modelled from the spec: [free_dentry_tree()] of [dentry.c] tears a
    tree down.  Each dentry gives up its link to its inode, and an inode
    without links is freed, which takes it out of the table. *)
Definition d_disassociate (ino : Z) (table : gmap Z wim_inode)
    : gmap Z wim_inode :=
  match table !! ino with
  | Some inode =>
      if i_nlink inode <=? 1 then delete ino table
      else <[ino := set_nlink inode (i_nlink inode - 1)]> table
  | None => table
  end.

Definition free_dentry_tree (root : option wim_dentry)
    (table : gmap Z wim_inode) : gmap Z wim_inode :=
  match root with
  | None => table
  | Some d => foldr d_disassociate table (tree_inodes d)
  end.

(** The link count that the table holds for an inode number (0 when it
    holds none), and the number of dentries among [l] that point to it. *)
Definition nlink (table : gmap Z wim_inode) (ino : Z) : Z :=
  match table !! ino with
  | Some inode => i_nlink inode
  | None => 0
  end.

Fixpoint count_refs (ino : Z) (l : list Z) : Z :=
  match l with
  | [] => 0
  | x :: l' => (if decide (x = ino) then 1 else 0) + count_refs ino l'
  end.

Definition dentry_inodes (root : option wim_dentry) : list Z :=
  match root with
  | None => []
  | Some d => tree_inodes d
  end.

(** The dentries of a tree, the root first. *)
Fixpoint tree_dentries (d : wim_dentry) : list wim_dentry :=
  match d with
  | Dentry _ _ _ _ _ children => d :: flat_map tree_dentries children
  end.

(** Two states of one inode that differ in the link count at most. *)
Definition same_but_nlink (i i' : wim_inode) : Prop :=
  i' = set_nlink i (i_nlink i').

(** Between two runs of the scan, every inode of the table is filed
    under its number, has a link, and went through the per-inode part of
    the scan once. *)
Definition table_ok (table : gmap Z wim_inode) : Prop :=
  forall ino inode,
    table !! ino = Some inode ->
    i_ino inode = ino /\ 1 <= i_nlink inode /\ i_scans inode = 1%nat.

(** From table [t0] to table [t1], dentries pointing to the inodes [l]
    were made: every link count grew by the number of these dentries,
    and the inodes of [t0] are otherwise as they were. *)
Definition extends (t0 t1 : gmap Z wim_inode) (l : list Z) : Prop :=
  table_ok t1 /\
  (forall ino, nlink t1 ino = nlink t0 ino + count_refs ino l) /\
  (forall ino i, t0 !! ino = Some i ->
     exists i', t1 !! ino = Some i' /\ same_but_nlink i i').

(** What the scan of one inode must leave alone: the number the inode
    is filed under, its link count, and the count of its scans. *)
Definition core (i : wim_inode) : Z * Z * nat :=
  (i_ino i, i_nlink i, i_scans i).

(** Modelled from the spec: [dentry_add_child()] of [dentry.c] attaches
    a child to its parent, after the children already there. *)
Definition dentry_add_child (children : list wim_dentry)
    (child : wim_dentry) : list wim_dentry := children ++ [child].

Definition set_win32_name (d : wim_dentry) : wim_dentry :=
  {| d_name := d_name d; d_inode := d_inode d; is_win32_name := true;
     d_short_name := d_short_name d;
     d_short_name_nbytes := d_short_name_nbytes d;
     d_children := d_children d |}.

Definition set_children (d : wim_dentry) (l : list wim_dentry)
    : wim_dentry :=
  {| d_name := d_name d; d_inode := d_inode d;
     is_win32_name := is_win32_name d;
     d_short_name := d_short_name d;
     d_short_name_nbytes := d_short_name_nbytes d;
     d_children := l |}.

(** Modelled from the spec: [inode_is_symlink()] and
    [inode_is_directory()] of [wimlib/inode.h]. *)
Definition inode_is_symlink (i : wim_inode) : bool :=
  has_flag (i_attributes i) FILE_ATTRIBUTE_REPARSE_POINT
  && ((i_reparse_tag i =? WIM_IO_REPARSE_TAG_SYMLINK)
      || (i_reparse_tag i =? WIM_IO_REPARSE_TAG_MOUNT_POINT)).

Definition inode_is_directory (i : wim_inode) : bool :=
  Z.land (i_attributes i)
    (Z.lor FILE_ATTRIBUTE_DIRECTORY FILE_ATTRIBUTE_REPARSE_POINT)
  =? FILE_ATTRIBUTE_DIRECTORY.

(** Modelled from the spec: [path_basename_with_len()] of [paths.c], the
    last component of a path. *)
Fixpoint path_basename_aux (s : string) (acc : string) : string :=
  match s with
  | EmptyString => acc
  | String c s' =>
      if Ascii.eqb c "/"%char then path_basename_aux s' EmptyString
      else path_basename_aux s' (acc ++ String c EmptyString)
  end.

Definition path_basename (path : string) : string :=
  path_basename_aux path EmptyString.

(** ** Building the dentry tree *)

(** [struct readdir_ctx]; the path, the volume and the parameters of the
    capture are arguments of the functions below. *)
Record readdir_ctx := {
  ctx_parent : wim_dentry;
  ctx_dos_name_map : gmap Z dos_name_node;
  ctx_ret : Z
}.

(** What [filldir] and [ntfs_readdir] do to the parent and the table. *)
Definition grows (ctx ctx' : readdir_ctx) (t t' : gmap Z wim_inode) : Prop :=
  d_inode (ctx_parent ctx') = d_inode (ctx_parent ctx) /\
  exists new,
    d_children (ctx_parent ctx') = d_children (ctx_parent ctx) ++ new /\
    extends t t' (flat_map tree_inodes new).

Section Build.

(** The callbacks of the capture ([capture_common.c]) with their state
    [H], the transcoding of names ([encoding.c]), the flags of the
    capture and the volume. *)
Context {H : Type}.
Variable try_exclude : string -> H -> Z * H.
Variable do_capture_progress :
  scan_status -> string -> option wim_inode -> H -> Z * H.
Variable report_capture_error : Z -> string -> H -> Z * H.
Variable utf16le_to_tstr : list Z -> Z * string.
Variable add_flags : Z.
Variable vol : ntfs_volume.

Implicit Type st : capture_state H.

(** A run of [ntfs_3g_build_dentry_tree_recursive()]: the value
    returned, the dentry stored in [*root_ret], and the state after. *)
Definition outcome : Type := Z * option wim_dentry * capture_state H.

(** The recursive call, for a given MFT reference, path and name type. *)
Definition recursion : Type :=
  Z -> string -> Z -> capture_state H -> option outcome.

Definition is_dot_or_dotdot (name : list Z) : bool :=
  bool_decide (name = [46]) || bool_decide (name = [46; 46]).

(** The size of the buffer in which [ntfs_3g_build_dentry_tree()] has
    the paths built. *)
Definition PATH_BUFFER_SIZE : Z := 32768.

(** [filldir()], the callback of [ntfs_readdir()].  The path of the
    child is appended to the path of the directory in that buffer, which
    the source does without a check: the model has no result for a path
    that does not fit the buffer together with the NUL that ends it. *)
Definition filldir (rec : recursion) (path : string) (ctx : readdir_ctx)
    (e : dir_entry) st : option (Z * readdir_ctx * capture_state H) :=
  let name := de_name e in
  let name_type := de_name_type e in
  let name_nbytes := 2 * Z.of_nat (length name) in
  let out (ret : Z) (parent : wim_dentry) (map : gmap Z dos_name_node) st :=
    Some (ret, {| ctx_parent := parent; ctx_dos_name_map := map;
                  ctx_ret := ret |}, st) in
  '(ret, map, st) ←
    (if has_flag name_type FILE_NAME_DOS then
       '(ret, map, tr) ←
         insert_dos_name (ctx_dos_name_map ctx) name name_nbytes
           (MREF (de_mref e));
       Some (ret, map, add_log st tr)
     else Some (0, ctx_dos_name_map ctx, st));
  if has_flag name_type FILE_NAME_DOS
     && (nonzero ret || (name_type =? FILE_NAME_DOS))
  then out ret (ctx_parent ctx) map st
  else if is_dot_or_dotdot name then out 0 (ctx_parent ctx) map st
  else
    let '(ret, mbs_name) := utf16le_to_tstr name in
    if nonzero ret then out ret (ctx_parent ctx) map st
    else
      let path :=
        (path ++ (if bool_decide (String.length path = 1%nat) then "" else "/")
         ++ mbs_name)%string in
      if PATH_BUFFER_SIZE <=? Z.of_nat (String.length path) then None
      else
        '(ret, child, st) ← rec (de_mref e) path name_type st;
        let parent :=
          match child with
          | Some c =>
              set_children (ctx_parent ctx)
                (dentry_add_child (d_children (ctx_parent ctx)) c)
          | None => ctx_parent ctx
          end in
        out ret parent map st.

(** [ntfs_readdir(ni, &pos, &ctx, filldir)] hands the entries of the
    directory to the callback, stops at the first entry for which the
    callback does not return 0, and then returns that value. *)
Fixpoint readdir_entries (rec : recursion) (path : string)
    (entries : list dir_entry) (ctx : readdir_ctx) st
    : option (Z * readdir_ctx * capture_state H) :=
  match entries with
  | [] => Some (0, ctx, st)
  | e :: entries' =>
      '(rc, ctx, st) ← filldir rec path ctx e st;
      if nonzero rc then Some (rc, ctx, st)
      else readdir_entries rec path entries' ctx st
  end.

(** [for_dentry_child(child, parent) set_dentry_dos_name(child, map)] *)
Fixpoint set_dos_names (table : gmap Z wim_inode)
    (children : list wim_dentry) (map : gmap Z dos_name_node)
    : option (Z * list wim_dentry * list event) :=
  match children with
  | [] => Some (0, [], [])
  | child :: children' =>
      '(ret, child, tr) ← set_dentry_dos_name table child map;
      if nonzero ret then Some (ret, child :: children', tr)
      else
        '(ret, children', tr') ← set_dos_names table children' map;
        Some (ret, child :: children', tr ++ tr')
  end.

(** [ntfs_3g_recurse_directory()] *)
Definition ntfs_3g_recurse_directory (rec : recursion) (ni : ntfs_inode)
    (path : string) (parent : wim_dentry) st
    : option (Z * wim_dentry * capture_state H) :=
  let ctx := {| ctx_parent := parent; ctx_dos_name_map := ∅; ctx_ret := 0 |} in
  let '(entries, final) := ntfs_readdir ni in
  '(rc, ctx, st) ← readdir_entries rec path entries ctx st;
  let ret := if nonzero rc then rc else final in
  if nonzero ret then
    if nonzero (ctx_ret ctx) then Some (ctx_ret ctx, ctx_parent ctx, st)
    else
      Some (WIMLIB_ERR_NTFS_3G, ctx_parent ctx,
            add_log st [EvError ("Error reading directory " ++ path)])
  else
    '(ret, children, tr) ←
      set_dos_names (inode_table st) (d_children (ctx_parent ctx))
        (ctx_dos_name_map ctx);
    Some (ret, set_children (ctx_parent ctx) children, add_log st tr).

(** [out:] the tree is freed on failure, and the failure is reported to
    the callback, which decides on the value returned. *)
Definition out (ret : Z) (root : option wim_dentry) (path : string) st
    : outcome :=
  if nonzero ret then
    let st := set_inode_table st (free_dentry_tree root (inode_table st)) in
    let '(ret, h) := report_capture_error ret path (hooks st) in
    (ret, None, set_hooks st h)
  else (ret, root, st).

(** [out_progress:] *)
Definition out_progress (root : option wim_dentry) (path : string) st
    : outcome :=
  let '(ret, h) :=
    match root with
    | None =>
        do_capture_progress WIMLIB_SCAN_DENTRY_EXCLUDED path None (hooks st)
    | Some d =>
        do_capture_progress WIMLIB_SCAN_DENTRY_OK path
          (inode_table st !! d_inode d) (hooks st)
    end in
  let status :=
    if root is None then WIMLIB_SCAN_DENTRY_EXCLUDED
    else WIMLIB_SCAN_DENTRY_OK in
  out ret root path (add_log (set_hooks st h) [EvProgress status path]).

Definition start_scan (inode : wim_inode) (ni : ntfs_inode)
    (attributes : Z) : wim_inode :=
  {| i_ino := i_ino inode; i_nlink := i_nlink inode;
     i_creation_time := creation_time ni;
     i_last_write_time := last_data_change_time ni;
     i_last_access_time := last_access_time ni;
     i_attributes := attributes; i_reparse_tag := i_reparse_tag inode;
     i_rp_flags := i_rp_flags inode; i_security_id := i_security_id inode;
     i_streams := i_streams inode;
     i_next_stream_id := i_next_stream_id inode;
     i_scans := Datatypes.S (i_scans inode) |}.

Definition put_inode st (ino : Z) (inode : wim_inode) : capture_state H :=
  set_inode_table st (<[ino := inode]> (inode_table st)).

(** Lines 729-776: the inode is new; its times, attributes, streams and
    security descriptor are read, and a directory is entered. *)
Definition scan_new_inode (rec : recursion) (ni : ntfs_inode)
    (path : string) (attributes : Z) (root : wim_dentry)
    (inode : wim_inode) st : option outcome :=
  let ino := d_inode root in
  let inode := start_scan inode ni attributes in
  let '(ret, inode, st) :=
    if has_flag attributes FILE_ATTRIBUTE_REPARSE_POINT then
      scan_ntfs_attrs_with_type inode ni path AT_REPARSE_POINT st
    else (0, inode, st) in
  if nonzero ret then Some (out ret (Some root) path (put_inode st ino inode))
  else
    let '(ret, inode, st) :=
      scan_ntfs_attrs_with_type inode ni path AT_DATA st in
    if nonzero ret then Some (out ret (Some root) path (put_inode st ino inode))
    else
      let inode :=
        if has_flag add_flags WIMLIB_ADD_FLAG_RPFIX && inode_is_symlink inode
        then set_rp_flags inode
               (Z.land (i_rp_flags inode) (Z.lnot WIM_RP_FLAG_NOT_FIXED))
        else inode in
      '(ret, inode, st) ←
        (if negb (has_flag add_flags WIMLIB_ADD_FLAG_NO_ACLS) then
           '(ret, inode, set) ← get_security_descriptor ni inode (sd_set st);
           Some (ret, inode,
                 if nonzero ret then
                   add_log (set_sd_set st set)
                     [EvError ("Error reading security descriptor of " ++ path)]
                 else set_sd_set st set)
         else Some (0, inode, st));
      let st := put_inode st ino inode in
      if nonzero ret then Some (out ret (Some root) path st)
      else if inode_is_directory inode then
        '(ret, root, st) ← ntfs_3g_recurse_directory rec ni path root st;
        if nonzero ret then Some (out ret (Some root) path st)
        else Some (out_progress (Some root) path st)
      else Some (out_progress (Some root) path st).

(** [ntfs_3g_build_dentry_tree_recursive()], given the recursive call. *)
Definition build_dentry (rec : recursion) (mref : Z) (path : string)
    (name_type : Z) st : option outcome :=
  let '(ret, h) := try_exclude path (hooks st) in
  let st := set_hooks st h in
  if ret <? 0 then Some (out_progress None path st)
  else if 0 <? ret then Some (out ret None path st)
  else
    match ntfs_inode_open vol mref with
    | None =>
        Some (out WIMLIB_ERR_NTFS_3G None path
                (add_log st [EvError ("Failed to open NTFS file " ++ path)]))
    | Some ni =>
        let '(ret, attributes) := ntfs_get_ntfs_attrib ni in
        if negb (ret =? 4) then
          Some (out WIMLIB_ERR_NTFS_3G None path
                  (add_log st
                     [EvError ("Failed to get NTFS attributes from " ++ path)]))
        else if has_flag attributes FILE_ATTRIBUTE_ENCRYPTED then
          if has_flag add_flags WIMLIB_ADD_FLAG_NO_UNSUPPORTED_EXCLUDE then
            Some (out WIMLIB_ERR_UNSUPPORTED_FILE None path
                    (add_log st [EvError ("Can't archive " ++ path)]))
          else
            let '(ret, h) :=
              do_capture_progress WIMLIB_SCAN_DENTRY_UNSUPPORTED path None
                (hooks st) in
            Some (out ret None path
                    (add_log (set_hooks st h)
                       [EvProgress WIMLIB_SCAN_DENTRY_UNSUPPORTED path]))
        else
          let '(ret, root, table) :=
            inode_table_new_dentry (inode_table st) (path_basename path)
              (mft_no ni) in
          let st := set_inode_table st table in
          if nonzero ret then Some (out ret None path st)
          else
            let root :=
              if has_flag name_type FILE_NAME_WIN32 then set_win32_name root
              else root in
            inode ← inode_table st !! d_inode root;
            if 1 <? i_nlink inode then
              Some (out_progress (Some root) path st)
            else scan_new_inode rec ni path attributes root inode st
    end.

(** What a run from the table [t0] establishes: the table went from [t0]
    to that of the outcome by the dentries of the tree returned, and a
    run that fails returns no tree. *)
Definition reaches (t0 : gmap Z wim_inode) (o : outcome) : Prop :=
  extends t0 (inode_table o.2) (dentry_inodes o.1.2) /\
  (o.1.1 <> 0 -> o.1.2 = None).

Definition post st (o : outcome) : Prop := reaches (inode_table st) o.

Definition recursion_ok (rec : recursion) : Prop :=
  forall mref path name_type st o,
    table_ok (inode_table st) -> rec mref path name_type st = Some o ->
    post st o.

(** The recursion, with [fuel] for its depth. *)
Fixpoint ntfs_3g_build_dentry_tree_recursive (fuel : nat) : recursion :=
  match fuel with
  | O => fun _ _ _ _ => None
  | Datatypes.S fuel' =>
      build_dentry (ntfs_3g_build_dentry_tree_recursive fuel')
  end.

End Build.

(** [ntfs_3g_build_dentry_tree()]: the volume is mounted, the tree is
    built from its root directory, and the reference of the capture to
    the volume is given back. *)
Section BuildTree.
Context {H : Type}.
Variable ntfs_mount : string -> option ntfs_volume.
Variable try_exclude : string -> H -> Z * H.
Variable do_capture_progress :
  scan_status -> string -> option wim_inode -> H -> Z * H.
Variable report_capture_error : Z -> string -> H -> Z * H.
Variable utf16le_to_tstr : list Z -> Z * string.
Variable add_flags : Z.

Definition ntfs_3g_build_dentry_tree (fuel : nat) (device : string)
    (st : capture_state H) : option (outcome (H:=H)) :=
  match ntfs_mount device with
  | None =>
      Some (WIMLIB_ERR_NTFS_3G, None,
            add_log st [EvError ("Failed to mount NTFS volume " ++ device)])
  | Some vol =>
      let st :=
        {| inode_table := inode_table st; sd_set := sd_set st;
           unhashed_blobs := unhashed_blobs st; refcnt := 1;
           mounted := true; log := log st; hooks := hooks st |} in
      '(ret, root, st) ←
        ntfs_3g_build_dentry_tree_recursive try_exclude do_capture_progress
          report_capture_error utf16le_to_tstr add_flags vol fuel
          FILE_root "/" FILE_NAME_POSIX st;
      Some (ret, root, put_ntfs_volume st)
  end.

End BuildTree.

(** ** A sample volume *)

(** An attribute whose content is [data]: a read returns the bytes that
    exist from the position on, at most [count] of them. *)
Definition attr_of_data (data : list byte) (lcn : option Z) : ntfs_attr :=
  {| ntfs_attr_pread := fun pos count =>
       let chunk := take (Z.to_nat count) (drop (Z.to_nat pos) data) in
       (Z.of_nat (length chunk), chunk);
     ntfs_attr_find_vcn := lcn |}.

(** An inode with the given attributes, data streams (name, content and
    first cluster), reparse data, security descriptor and entries. *)
Definition sample_inode (ino attributes : Z)
    (streams : list (list Z * list byte * option Z))
    (reparse : option (list byte)) (acl : option (list byte))
    (entries : list dir_entry) : ntfs_inode :=
  {| mft_no := ino;
     creation_time := 1000 + ino;
     last_data_change_time := 2000 + ino;
     last_access_time := 3000 + ino;
     ntfs_get_ntfs_attrib := (4, attributes);
     ntfs_attr_lookup := fun type =>
       match type with
       | AT_DATA =>
           (map (fun s => {| record_name := s.1.1;
                             value_length := Z.of_nat (length s.1.2) |})
              streams, true)
       | AT_REPARSE_POINT =>
           (match reparse with
            | Some d => [{| record_name := [];
                            value_length := Z.of_nat (length d) |}]
            | None => []
            end, true)
       | AT_OTHER _ => ([], true)
       end;
     ntfs_attr_open := fun type name =>
       match type with
       | AT_DATA =>
           (fun s => attr_of_data s.1.2 s.2) <$>
             list_find (fun s => s.1.1 = name) streams ≫= (fun p => Some p.2)
       | AT_REPARSE_POINT =>
           (fun d => attr_of_data d None) <$> reparse
       | AT_OTHER _ => None
       end;
     ntfs_acl := acl;
     ntfs_readdir := (entries, 0) |}.

Definition entry (name : list Z) (name_type mref : Z) : dir_entry :=
  {| de_name := name; de_name_type := name_type; de_mref := mref |}.

(** The volume [/], [/a], [/a/f], [/b], [/b/g], where [f] and [g] are
    two names of the file with inode number 100. *)
Definition sample_volume : ntfs_volume :=
  {| ntfs_inode_open := fun mref =>
       if MREF mref =? 5 then
         Some (sample_inode 5 FILE_ATTRIBUTE_DIRECTORY [] None (Some [x01; x02])
                 [entry [46] FILE_NAME_POSIX 5;
                  entry [46; 46] FILE_NAME_POSIX 5;
                  entry [97] FILE_NAME_POSIX 64;
                  entry [98] FILE_NAME_POSIX 65])
       else if MREF mref =? 64 then
         Some (sample_inode 64 FILE_ATTRIBUTE_DIRECTORY [] None (Some [x01; x02])
                 [entry [102] FILE_NAME_POSIX 100])
       else if MREF mref =? 65 then
         Some (sample_inode 65 FILE_ATTRIBUTE_DIRECTORY [] None (Some [x01; x02])
                 [entry [103] FILE_NAME_POSIX 100])
       else if MREF mref =? 100 then
         Some (sample_inode 100 0x20
                 [([], [x0a; x0b; x0c], Some 77); ([115], [x0d], None)]
                 None (Some [x03]) [])
       else None |}.

(** A reparse point, inode 200, whose REPARSE_POINT attribute holds
    [data], and the descriptor of the blob in that attribute. *)
Definition reparse_inode (data : list byte) : ntfs_inode :=
  sample_inode 200 FILE_ATTRIBUTE_REPARSE_POINT [] (Some data) (Some []) [].

Definition reparse_volume (data : list byte) : ntfs_volume :=
  {| ntfs_inode_open := fun mref =>
       if MREF mref =? 200 then Some (reparse_inode data) else None |}.

Definition reparse_record (data : list byte) : ATTR_RECORD :=
  {| record_name := []; value_length := Z.of_nat (length data) |}.

Definition reparse_blob (data : list byte) : blob_descriptor :=
  {| size := Z.of_nat (length data) - REPARSE_DATA_OFFSET;
     ntfs_loc := {| loc_mft_no := 200; attr_type := AT_REPARSE_POINT;
                    attr_name_nchars := 0; attr_name := None;
                    sort_key := 0 |} |}.

(** A header of 8 bytes and 40000 bytes of reparse data. *)
Definition long_reparse_data : list byte :=
  repeat x01 8 ++ repeat x02 (Z.to_nat 40000).

(** A consumer that records the length of each chunk, and one that
    refuses the second chunk with the value 7. *)
Definition record_length (chunk : list byte) (s : list Z) : Z * list Z :=
  (0, s ++ [Z.of_nat (length chunk)]).

Definition refuse_second (chunk : list byte) (s : list Z) : Z * list Z :=
  (if bool_decide (length s = 1%nat) then 7 else 0,
   s ++ [Z.of_nat (length chunk)]).

(** Callbacks that exclude nothing, report nothing and pass errors on;
    names are transcoded unit by unit. *)
Definition no_exclude (path : string) (h : unit) : Z * unit := (0, h).
Definition no_progress (status : scan_status) (path : string)
    (inode : option wim_inode) (h : unit) : Z * unit := (0, h).
Definition pass_error (ret : Z) (path : string) (h : unit) : Z * unit :=
  (ret, h).
Definition ascii_of_units (name : list Z) : Z * string :=
  (0, String.string_of_list_ascii
        (map (fun u => ascii_of_nat (Z.to_nat u)) name)).

Definition empty_capture : capture_state unit :=
  {| inode_table := ∅; sd_set := []; unhashed_blobs := [];
     refcnt := 0; mounted := false; log := []; hooks := tt |}.

(** The scan of the sample volume from one of its files. *)
Definition scan_sample (fuel : nat) : recursion (H:=unit) :=
  ntfs_3g_build_dentry_tree_recursive no_exclude no_progress pass_error
    ascii_of_units 0 sample_volume fuel.

Definition capture_sample (fuel : nat) : option outcome :=
  ntfs_3g_build_dentry_tree (fun _ => Some sample_volume) no_exclude
    no_progress pass_error ascii_of_units 0 fuel "/dev/sample" empty_capture.

(** ** Further notions and samples *)

(** The stream that the scan of [record] attaches: its type, its name,
    and its blob, which is there unless the attribute is empty and then
    locates the attribute in the volume. *)
Definition stream_of_record (ni : ntfs_inode) (type : ATTR_TYPES)
    (record : ATTR_RECORD) (strm : wim_inode_stream) : Prop :=
  strm_type strm = attr_type_to_wimlib_stream_type type /\
  stream_name strm =
    (if nonzero (Z.of_nat (length (record_name record)))
     then Some (record_name record) else None) /\
  (value_length record = 0 <-> stream_blob strm = None) /\
  (forall blob, stream_blob strm = Some blob ->
     loc_mft_no (ntfs_loc blob) = mft_no ni /\
     attr_type (ntfs_loc blob) = type /\
     default [] (attr_name (ntfs_loc blob)) = record_name record /\
     size blob =
       (if decide (type = AT_REPARSE_POINT)
        then value_length record - REPARSE_DATA_OFFSET
        else value_length record) /\
     (type = AT_REPARSE_POINT -> REPARSE_DATA_OFFSET <= value_length record)).

(** An entry of the list of unhashed blobs that belongs to a stream of
    [inode]. *)
Definition blob_of_inode (inode : wim_inode) (ub : unhashed_blob) : Prop :=
  ub_inode ub = i_ino inode /\
  exists strm, strm ∈ i_streams inode /\
    stream_id strm = ub_stream_id ub /\
    stream_blob strm = Some (ub_blob ub).

(** The file with inode number 100 of the sample volume. *)
Definition sample_file : ntfs_inode :=
  sample_inode 100 0x20
    [([], [x0a; x0b; x0c], Some 77); ([115], [x0d], None)]
    None (Some [x03]) [].

(** [clone_ntfs_location()] copies the location, name included, and
    takes a reference to the volume; [free_ntfs_location()] gives the
    reference back. *)
Definition clone_ntfs_location {H : Type} (loc : ntfs_location)
    (st : capture_state H) : ntfs_location * capture_state H :=
  ({| loc_mft_no := loc_mft_no loc; attr_type := attr_type loc;
      attr_name_nchars := attr_name_nchars loc;
      attr_name := attr_name loc; sort_key := sort_key loc |},
   get_ntfs_volume st).

Definition free_ntfs_location {H : Type} (loc : ntfs_location)
    (st : capture_state H) : capture_state H :=
  put_ntfs_volume st.

(** An inode whose security descriptor is 5000 bytes long. *)
Definition long_acl_inode : ntfs_inode :=
  sample_inode 7 0x20 [] None (Some (repeat x07 (Z.to_nat 5000))) [].

(** The sample volume with one more entry in [/b], for a file that the
    volume cannot open. *)
Definition broken_volume : ntfs_volume :=
  {| ntfs_inode_open := fun mref =>
       if MREF mref =? 65 then
         Some (sample_inode 65 FILE_ATTRIBUTE_DIRECTORY [] None (Some [x01; x02])
                 [entry [103] FILE_NAME_POSIX 100;
                  entry [120] FILE_NAME_POSIX 999])
       else ntfs_inode_open sample_volume mref |}.

(** A file, inode 101, with two data streams that have no run on the
    volume. *)
Definition resident_file : ntfs_inode :=
  sample_inode 101 0x20 [([], [x0a], None); ([115], [x0d], None)]
    None (Some [x03]) [].

(** A callback that excludes every path. *)
Definition exclude_all (path : string) (h : unit) : Z * unit := (-1, h).

(** The DOS names on record once [filldir] has accepted [entries], from
    the names in [map]: for each inode, the name of the first entry that
    carries a DOS name. *)
Fixpoint dos_names_of (entries : list dir_entry)
    (map : gmap Z dos_name_node) : gmap Z dos_name_node :=
  match entries with
  | [] => map
  | e :: entries' =>
      dos_names_of entries'
        (if has_flag (de_name_type e) FILE_NAME_DOS then
           match map !! MREF (de_mref e) with
           | Some _ => map
           | None =>
               <[MREF (de_mref e) :=
                   {| dos_name := de_name e;
                      name_nbytes := 2 * Z.of_nat (length (de_name e)) |}]> map
           end
         else map)
  end.

(** A child with a Win32 name has the DOS name that [map] holds for its
    inode. *)
Definition has_dos_name (table : gmap Z wim_inode)
    (map : gmap Z dos_name_node) (c : wim_dentry) : Prop :=
  is_win32_name c = true ->
  exists inode,
    table !! d_inode c = Some inode /\
    forall node, map !! i_ino inode = Some node ->
      d_short_name c = Some (dos_name node) /\
      d_short_name_nbytes c = name_nbytes node.

(** A directory with the file of inode 100 under its Win32 name and its
    DOS name. *)
Definition dos_volume : ntfs_volume :=
  {| ntfs_inode_open := fun mref =>
       if MREF mref =? 5 then
         Some (sample_inode 5 FILE_ATTRIBUTE_DIRECTORY [] None (Some [x01; x02])
                 [entry [76; 111; 110; 103; 70; 105; 108; 101] FILE_NAME_WIN32 100;
                  entry [76; 79; 78; 71; 70; 126; 49] FILE_NAME_DOS 100])
       else ntfs_inode_open sample_volume mref |}.

(** What the scan copies from the volume to a new inode. *)
Definition stamp (i : wim_inode) : Z * Z * Z * Z :=
  (i_creation_time i, i_last_write_time i, i_last_access_time i,
   i_attributes i).

(** The fields that only the scan of the attributes and the fixup of
    reparse points set. *)
Definition reparse_state (i : wim_inode) : Z * Z :=
  (i_reparse_tag i, i_rp_flags i).

(** The sample volume with a third file under [/a]: a symbolic link,
    inode 200, whose reparse data is [long_reparse_data]. *)
Definition symlink_data : list byte :=
  [x0c; x00; x00; xa0; x04; x00; x00; x00; x01; x02; x03; x04].

Definition symlink_volume : ntfs_volume :=
  {| ntfs_inode_open := fun mref =>
       if MREF mref =? 200 then
         Some (sample_inode 200 FILE_ATTRIBUTE_REPARSE_POINT []
                 (Some symlink_data) (Some [x03]) [])
       else ntfs_inode_open sample_volume mref |}.

(** The fields of a dentry that the scan of its directory leaves alone. *)
Definition header (d : wim_dentry) : string * Z * bool * option (list Z) * Z :=
  (d_name d, d_inode d, is_win32_name d, d_short_name d, d_short_name_nbytes d).

(** The flags of the reparse data of a captured inode: fixed for a
    symbolic link when the capture fixes reparse points, else not. *)
Definition captured_rp_flags (add_flags : Z) (i : wim_inode) : Z :=
  if has_flag add_flags WIMLIB_ADD_FLAG_RPFIX && inode_is_symlink i
  then Z.land WIM_RP_FLAG_NOT_FIXED (Z.lnot WIM_RP_FLAG_NOT_FIXED)
  else WIM_RP_FLAG_NOT_FIXED.

(** The entries of a directory that [filldir] hands on to the recursive
    call: all but the DOS names, the entries [.] and [..], and the names
    that cannot be transcoded. *)
Definition is_recursed (utf16le_to_tstr : list Z -> Z * string)
    (e : dir_entry) : bool :=
  negb (has_flag (de_name_type e) FILE_NAME_DOS
        && (de_name_type e =? FILE_NAME_DOS))
  && negb (is_dot_or_dotdot (de_name e))
  && negb (nonzero (utf16le_to_tstr (de_name e)).1).

(** A DOS name that fits the 24 bytes of [struct dos_name_node]. *)
Definition dos_name_fits (e : dir_entry) : bool :=
  negb (has_flag (de_name_type e) FILE_NAME_DOS)
  || (2 * Z.of_nat (length (de_name e)) <=? 24).

(** The path that [filldir] builds for an entry of the directory at
    [path]. *)
Definition child_path (utf16le_to_tstr : list Z -> Z * string)
    (path : string) (e : dir_entry) : string :=
  (path ++ (if bool_decide (String.length path = 1%nat) then "" else "/")
   ++ (utf16le_to_tstr (de_name e)).2)%string.

(** The files from [mref] down, the file at [path] first, nest fewer
    than [depth] levels deep, the DOS names of their entries fit, and
    their paths fit the buffer: the volume has no chain of [depth]
    directories, each entered from the one before, starting at [mref]. *)
Fixpoint nests_within (utf16le_to_tstr : list Z -> Z * string)
    (vol : ntfs_volume) (depth : nat) (path : string) (mref : Z) : bool :=
  match depth with
  | O => false
  | Datatypes.S depth' =>
      match ntfs_inode_open vol mref with
      | None => true
      | Some ni =>
          forallb
            (fun e =>
               dos_name_fits e
               && (negb (is_recursed utf16le_to_tstr e)
                   || ((Z.of_nat (String.length
                                    (child_path utf16le_to_tstr path e))
                        <? PATH_BUFFER_SIZE)
                       && nests_within utf16le_to_tstr vol depth'
                            (child_path utf16le_to_tstr path e) (de_mref e))))
            (ntfs_readdir ni).1
      end
  end.

(** A recursive call that returns for the entries of a directory that
    reach it. *)
Definition returns_at {H : Type} (rec : recursion (H:=H)) (path : string)
    (mref : Z) : Prop :=
  forall name_type st,
    table_ok (inode_table st) -> is_Some (rec mref path name_type st).

Definition entry_returns {H : Type} (utf16le_to_tstr : list Z -> Z * string)
    (rec : recursion (H:=H)) (path : string) (e : dir_entry) : Prop :=
  dos_name_fits e = true /\
  (is_recursed utf16le_to_tstr e = true ->
   Z.of_nat (String.length (child_path utf16le_to_tstr path e))
     < PATH_BUFFER_SIZE /\
   returns_at rec (child_path utf16le_to_tstr path e) (de_mref e)).

(** The streams that the scan of its attributes leaves on an inode with
    the given attributes: one per REPARSE_POINT record if it is a
    reparse point, then one per DATA record, in the order in which the
    volume lists the records. *)
Definition streams_of (ni : ntfs_inode) (attributes : Z)
    (streams : list wim_inode_stream) : Prop :=
  exists rp data,
    streams = rp ++ data /\
    Forall2 (stream_of_record ni AT_REPARSE_POINT)
      (if has_flag attributes FILE_ATTRIBUTE_REPARSE_POINT
       then (ntfs_attr_lookup ni AT_REPARSE_POINT).1 else []) rp /\
    Forall2 (stream_of_record ni AT_DATA) (ntfs_attr_lookup ni AT_DATA).1 data.

(** What reading the security descriptor of its file leaves on an
    inode: the id under which the set [sds] holds the descriptor.  The
    id stays -1, as on a new inode, when the descriptor is empty or the
    capture leaves the descriptors out. *)
Definition security_of (add_flags : Z) (ni : ntfs_inode)
    (sds : list (list byte)) (i : wim_inode) : Prop :=
  if has_flag add_flags WIMLIB_ADD_FLAG_NO_ACLS then i_security_id i = -1
  else
    match ntfs_acl ni with
    | None => False
    | Some [] => i_security_id i = -1
    | Some sd =>
        0 <= i_security_id i /\
        sds !! Z.to_nat (i_security_id i) = Some sd
    end.

(** An inode that holds what one scan of a file of the volume reads:
    the times and the attributes of the file, one stream for each of its
    attribute records, and the id of its security descriptor in [sds]. *)
Definition scanned (vol : ntfs_volume) (add_flags : Z)
    (sds : list (list byte)) (i : wim_inode) : Prop :=
  exists mref ni,
    ntfs_inode_open vol mref = Some ni /\ mft_no ni = i_ino i /\
    stamp i =
      (creation_time ni, last_data_change_time ni, last_access_time ni,
       (ntfs_get_ntfs_attrib ni).2) /\
    streams_of ni (ntfs_get_ntfs_attrib ni).2 (i_streams i) /\
    security_of add_flags ni sds i.

(** The inodes that table [t1] holds and table [t0] does not were
    scanned. *)
Definition fresh_scanned (vol : ntfs_volume) (add_flags : Z)
    (sds : list (list byte)) (t0 t1 : gmap Z wim_inode) : Prop :=
  forall ino i, t0 !! ino = None -> t1 !! ino = Some i ->
    scanned vol add_flags sds i.

(** A recursive call that only adds to the set of security descriptors,
    and one whose new inodes were scanned. *)
Definition recursion_grows {H : Type} (rec : recursion (H:=H)) : Prop :=
  forall mref path name_type st o,
    rec mref path name_type st = Some o -> sd_set st `prefix_of` sd_set o.2.

Definition recursion_scans {H : Type} (vol : ntfs_volume) (add_flags : Z)
    (rec : recursion (H:=H)) : Prop :=
  forall mref path name_type st o,
    table_ok (inode_table st) -> rec mref path name_type st = Some o ->
    fresh_scanned vol add_flags (sd_set o.2) (inode_table st) (inode_table o.2).

End Ntfs3gCapture.

(** * Extraction of an image ([extract.c])

    The functions work on the file system, on the standard output and on
    the lookup table of the WIM.  The file system and the output are a
    state [F] that the system calls take and return; the calls, the
    helpers of other translation units, and the constants of [wimlib.h]
    are parameters. *)

Module ExtractImage.

(** [errno] after a failed [mkdir()], as far as the code tells values
    apart. *)
Inductive errno := EEXIST | EACCES | EOTHER (code : Z).

(** [struct resource_entry]: where a resource is in the WIM, and its
    size when uncompressed. *)
Record resource_entry := {
  res_offset : Z;
  original_size : Z
}.

(** [struct lookup_table_entry] *)
Record lookup_table_entry := {
  res_entry : resource_entry;
  out_refcnt : Z;
  file_on_disk : option string
}.

(** [struct dentry]; [dentry_hash()], [dentry_is_symlink()],
    [dentry_is_directory()] and [dentry_is_root()] read the fields
    below. *)
Record dentry := {
  full_path_utf8 : string;
  dentry_hash : list Z;
  dentry_is_symlink : bool;
  dentry_is_directory : bool;
  dentry_is_root : bool
}.

(** [WIMStruct]: the lookup table, keyed by hash, and the number of
    images of the header. *)
Record WIMStruct := {
  lookup_table : gmap (list Z) lookup_table_entry;
  image_count : Z
}.

Definition WIMLIB_EXTRACT_FLAG_MULTI_IMAGE : Z := 0x80000000.

(** The loop that moves [p2] past the slashes at its start. *)
Fixpoint skip_slashes (s : string) : string :=
  match s with
  | String c s' => if Ascii.eqb c "/"%char then skip_slashes s' else s
  | EmptyString => s
  end.

Fixpoint repeat_string (n : nat) (s : string) : string :=
  match n with
  | O => EmptyString
  | S n' => (s ++ repeat_string n' s)%string
  end.

Section Extract.
Context {F : Type}.

(** The error codes and flags of [wimlib.h] and of libntfs-3g. *)
Variable WIMLIB_ERR_MKDIR WIMLIB_ERR_LINK WIMLIB_ERR_OPEN : Z.
Variable WIMLIB_ERR_INVALID_DENTRY WIMLIB_ERR_INVALID_PARAM : Z.
Variable WIMLIB_ERR_NTFS_3G WIMLIB_ERR_UNSUPPORTED : Z.
Variable WIMLIB_EXTRACT_FLAG_HARDLINK WIMLIB_EXTRACT_FLAG_SYMLINK : Z.
Variable WIMLIB_EXTRACT_FLAG_VERBOSE WIMLIB_EXTRACT_FLAG_NTFS : Z.
Variable WIM_ALL_IMAGES : Z.
Variable NTFS_MF_MOUNTED NTFS_MF_READONLY : Z.

(** The system calls: [mkdir()] returns the [errno] of a failure,
    [link(old, new)] and [symlink(target, path)] return 0 or not,
    [open()] returns the descriptor of a success. *)
Variable mkdir : string -> F -> option errno * F.
Variable link : string -> string -> F -> Z * F.
Variable symlink : string -> string -> F -> Z * F.
Variable open : string -> F -> option Z * F.
Variable close : Z -> F -> F.
Variable puts : string -> F -> F.

(** The helpers of other translation units. *)
Variable extract_resource_to_fd :
  WIMStruct -> resource_entry -> Z -> Z -> F -> Z * F.
Variable dentry_readlink : dentry -> WIMStruct -> Z * string.
Variable get_num_path_components : string -> Z.
Variable path_next_part : string -> string.
Variable wimlib_select_image : WIMStruct -> Z -> Z * WIMStruct.
(** The dentries of the selected image, in the order in which
    [for_dentry_in_tree()] visits them from the root. *)
Variable image_dentries : WIMStruct -> list dentry.
Variable wimlib_get_image_name : WIMStruct -> Z -> string.
(** Whether the library is compiled [WITH_NTFS_3G], and
    [ntfs_check_if_mounted()] with the flags it stores. *)
Variable with_ntfs_3g : bool.
Variable ntfs_check_if_mounted : string -> F -> Z * Z.

(** [make_output_dir()] *)
Definition make_output_dir (dir : string) (fs : F) : Z * F :=
  match mkdir dir fs with
  | (None, fs) => (0, fs)
  | (Some EEXIST, fs) => (0, fs)
  | (Some _, fs) => (WIMLIB_ERR_MKDIR, fs)
  end.

(** [extract_regular_file_linked()].  There is no result where the
    assertion on [file_on_disk] fails, or where a count of path
    components is negative. *)
Definition extract_regular_file_linked (d : dentry)
    (output_dir output_path : string) (extract_flags : Z)
    (lte : lookup_table_entry) (fs : F) : option (Z * F) :=
  on_disk ← file_on_disk lte;
  if has_flag extract_flags WIMLIB_EXTRACT_FLAG_HARDLINK then
    let '(ret, fs) := link on_disk output_path fs in
    Some (if nonzero ret then WIMLIB_ERR_LINK else 0, fs)
  else
    let num_path_components :=
      get_num_path_components (full_path_utf8 d) - 1 in
    let num_output_dir_path_components :=
      get_num_path_components output_dir in
    let '(num_path_components, num_output_dir_path_components) :=
      if has_flag extract_flags WIMLIB_EXTRACT_FLAG_MULTI_IMAGE
      then (num_path_components + 1, num_output_dir_path_components - 1)
      else (num_path_components, num_output_dir_path_components) in
    if (num_path_components <? 0) || (num_output_dir_path_components <? 0)
    then None
    else
      let p2 :=
        Nat.iter (Z.to_nat num_output_dir_path_components) path_next_part
          (skip_slashes on_disk) in
      let buf :=
        (repeat_string (Z.to_nat num_path_components) "../" ++ p2)%string in
      let '(ret, fs) := symlink buf output_path fs in
      Some (if nonzero ret then WIMLIB_ERR_LINK else 0, fs).

(** [extract_regular_file_unlinked()] *)
Definition extract_regular_file_unlinked (w : WIMStruct) (d : dentry)
    (output_path : string) (extract_flags : Z)
    (lte : option lookup_table_entry) (fs : F) : Z * WIMStruct * F :=
  match open output_path fs with
  | (None, fs) => (WIMLIB_ERR_OPEN, w, fs)
  | (Some out_fd, fs) =>
      match lte with
      | None => (0, w, close out_fd fs)
      | Some lte =>
          let '(ret, fs) :=
            extract_resource_to_fd w (res_entry lte) out_fd
              (original_size (res_entry lte)) fs in
          if nonzero ret then (ret, w, close out_fd fs)
          else
            let lte := {| res_entry := res_entry lte;
                          out_refcnt := out_refcnt lte + 1;
                          file_on_disk := Some output_path |} in
            (0,
             {| lookup_table := <[dentry_hash d := lte]> (lookup_table w);
                image_count := image_count w |},
             close out_fd fs)
      end
  end.

(** [extract_regular_file()] *)
Definition extract_regular_file (w : WIMStruct) (d : dentry)
    (output_dir output_path : string) (extract_flags : Z) (fs : F)
    : option (Z * WIMStruct * F) :=
  let lte := lookup_table w !! dentry_hash d in
  match lte with
  | Some l =>
      if has_flag extract_flags
           (Z.lor WIMLIB_EXTRACT_FLAG_SYMLINK WIMLIB_EXTRACT_FLAG_HARDLINK)
         && nonzero (out_refcnt l)
      then
        '(ret, fs) ←
          extract_regular_file_linked d output_dir output_path
            extract_flags l fs;
        Some (ret, w, fs)
      else
        Some (extract_regular_file_unlinked w d output_path extract_flags
                lte fs)
  | None =>
      Some (extract_regular_file_unlinked w d output_path extract_flags
              lte fs)
  end.

(** [extract_symlink()] *)
Definition extract_symlink (d : dentry) (output_path : string)
    (w : WIMStruct) (fs : F) : Z * F :=
  let '(ret, target) := dentry_readlink d w in
  if ret <=? 0 then (WIMLIB_ERR_INVALID_DENTRY, fs)
  else
    let '(ret, fs) := symlink target output_path fs in
    if nonzero ret then (WIMLIB_ERR_LINK, fs) else (0, fs).

(** [extract_directory()] *)
Definition extract_directory (d : dentry) (output_path : string) (fs : F)
    : Z * F :=
  match mkdir output_path fs with
  | (None, fs) => (0, fs)
  | (Some EEXIST, fs) | (Some EACCES, fs) => (0, fs)
  | (Some (EOTHER _), fs) => (WIMLIB_ERR_MKDIR, fs)
  end.

(** [extract_dentry()], with the fields of [struct extract_args] as
    arguments. *)
Definition extract_dentry (d : dentry) (w : WIMStruct)
    (extract_flags : Z) (output_dir : string) (fs : F)
    : option (Z * WIMStruct * F) :=
  let fs :=
    if has_flag extract_flags WIMLIB_EXTRACT_FLAG_VERBOSE
    then puts (full_path_utf8 d) fs else fs in
  let output_path := (output_dir ++ full_path_utf8 d)%string in
  if dentry_is_symlink d then
    let '(ret, fs) := extract_symlink d output_path w fs in
    Some (ret, w, fs)
  else if dentry_is_directory d then
    if negb (dentry_is_root d) then
      let '(ret, fs) := extract_directory d output_path fs in
      Some (ret, w, fs)
    else Some (0, w, fs)
  else extract_regular_file w d output_dir output_path extract_flags fs.

(** [for_dentry_in_tree(root, extract_dentry, &args)]: the visit stops
    at the first dentry for which the visitor does not return 0. *)
Fixpoint for_dentries (l : list dentry) (w : WIMStruct)
    (extract_flags : Z) (output_dir : string) (fs : F)
    : option (Z * WIMStruct * F) :=
  match l with
  | [] => Some (0, w, fs)
  | d :: l' =>
      '(ret, w, fs) ← extract_dentry d w extract_flags output_dir fs;
      if nonzero ret then Some (ret, w, fs)
      else for_dentries l' w extract_flags output_dir fs
  end.

(** [extract_single_image()] *)
Definition extract_single_image (w : WIMStruct) (image : Z)
    (output_dir : string) (extract_flags : Z) (fs : F)
    : option (Z * WIMStruct * F) :=
  let '(ret, w) := wimlib_select_image w image in
  if nonzero ret then Some (ret, w, fs)
  else for_dentries (image_dentries w) w extract_flags output_dir fs.

(** The body of the loop of [extract_all_images()], for the images
    [images]; the value is that of [ret] at [done:]. *)
Fixpoint extract_images (images : list Z) (w : WIMStruct)
    (output_dir : string) (extract_flags : Z) (fs : F)
    : option (Z * WIMStruct * F) :=
  match images with
  | [] => Some (0, w, fs)
  | image :: images' =>
      let image_name := wimlib_get_image_name w image in
      let buf :=
        (output_dir ++ "/"
         ++ (if decide (image_name = EmptyString) then pretty image
             else image_name))%string in
      let '(ret, fs) := make_output_dir buf fs in
      if nonzero ret then Some (ret, w, fs)
      else
        '(ret, w, fs) ← extract_single_image w image buf extract_flags fs;
        if nonzero ret then Some (ret, w, fs)
        else extract_images images' w output_dir extract_flags fs
  end.

(** [extract_all_images()]: whatever the loop ends with, the function
    returns 0. *)
Definition extract_all_images (w : WIMStruct) (output_dir : string)
    (extract_flags : Z) (fs : F) : option (Z * WIMStruct * F) :=
  '(ret, w, fs) ←
    extract_images (map Z.of_nat (seq 1 (Z.to_nat (image_count w)))) w
      output_dir extract_flags fs;
  Some (0, w, fs).

(** [wimlib_extract_image()]; a null [output_dir] is [None]. *)
Definition wimlib_extract_image (w : WIMStruct) (image : Z)
    (output_dir : option string) (flags : Z) (fs : F)
    : option (Z * WIMStruct * F) :=
  match output_dir with
  | None => Some (WIMLIB_ERR_INVALID_PARAM, w, fs)
  | Some output_dir =>
      let both :=
        Z.lor WIMLIB_EXTRACT_FLAG_SYMLINK WIMLIB_EXTRACT_FLAG_HARDLINK in
      if Z.land flags both =? both then
        Some (WIMLIB_ERR_INVALID_PARAM, w, fs)
      else
        let flags :=
          if image =? WIM_ALL_IMAGES
          then Z.lor flags WIMLIB_EXTRACT_FLAG_MULTI_IMAGE
          else Z.land flags (Z.lnot WIMLIB_EXTRACT_FLAG_MULTI_IMAGE) in
        let '(ret, fs) := make_output_dir output_dir fs in
        if nonzero ret then Some (ret, w, fs)
        else
          let extract fs :=
            if image =? WIM_ALL_IMAGES
            then extract_all_images w output_dir flags fs
            else extract_single_image w image output_dir flags fs in
          if has_flag flags WIMLIB_EXTRACT_FLAG_NTFS then
            if with_ntfs_3g then
              let '(ret, mnt_flags) := ntfs_check_if_mounted output_dir fs in
              if nonzero ret then Some (WIMLIB_ERR_NTFS_3G, w, fs)
              else if negb (has_flag mnt_flags NTFS_MF_MOUNTED) then
                Some (WIMLIB_ERR_NTFS_3G, w, fs)
              else if has_flag mnt_flags NTFS_MF_READONLY then
                Some (WIMLIB_ERR_NTFS_3G, w, fs)
              else extract fs
            else Some (WIMLIB_ERR_UNSUPPORTED, w, fs)
          else extract fs
  end.

(** The lookup table entries that were extracted before (their
    [out_refcnt] is not 0) name the file they were extracted to. *)
Definition linked_ok (t : gmap (list Z) lookup_table_entry) : Prop :=
  forall h lte, t !! h = Some lte ->
    0 <= out_refcnt lte /\
    (out_refcnt lte <> 0 -> is_Some (file_on_disk lte)).

End Extract.

(** A file system that records the calls made on it and lets them all
    succeed, for runs on sample images. *)
Inductive call :=
| Mkdir (path : string)
| Link (old new : string)
| Symlink (target path : string)
| Open (path : string)
| Close (fd : Z)
| Puts (s : string)
| ExtractResource (offset size fd : Z).

Definition rec_mkdir (p : string) (fs : list call) : option errno * list call :=
  (None, fs ++ [Mkdir p]).
Definition rec_link (o n : string) (fs : list call) : Z * list call :=
  (0, fs ++ [Link o n]).
Definition rec_symlink (t p : string) (fs : list call) : Z * list call :=
  (0, fs ++ [Symlink t p]).
Definition rec_open (p : string) (fs : list call) : option Z * list call :=
  (Some 3, fs ++ [Open p]).
Definition rec_close (fd : Z) (fs : list call) : list call := fs ++ [Close fd].
Definition rec_puts (s : string) (fs : list call) : list call := fs ++ [Puts s].
Definition rec_extract (w : WIMStruct) (r : resource_entry) (fd size : Z)
    (fs : list call) : Z * list call :=
  (0, fs ++ [ExtractResource (res_offset r) size fd]).

(** A file system on which no directory can be made. *)
Definition no_mkdir (p : string) (fs : list call) : option errno * list call :=
  (Some (EOTHER 30), fs ++ [Mkdir p]).

(** A file system on which only the directory [out] can be made. *)
Definition mkdir_out_only (p : string) (fs : list call)
    : option errno * list call :=
  (if decide (p = "out"%string) then None else Some (EOTHER 30),
   fs ++ [Mkdir p]).

(** An image with the root and two files of the same content. *)
Definition twin_files : list dentry :=
  [{| full_path_utf8 := "/"; dentry_hash := [];
      dentry_is_symlink := false; dentry_is_directory := true;
      dentry_is_root := true |};
   {| full_path_utf8 := "/a"; dentry_hash := [1; 2];
      dentry_is_symlink := false; dentry_is_directory := false;
      dentry_is_root := false |};
   {| full_path_utf8 := "/b"; dentry_hash := [1; 2];
      dentry_is_symlink := false; dentry_is_directory := false;
      dentry_is_root := false |}].

Definition twin_wim : WIMStruct :=
  {| lookup_table :=
       {[ [1; 2] := {| res_entry := {| res_offset := 100; original_size := 5 |};
                       out_refcnt := 0; file_on_disk := None |} ]};
     image_count := 1 |}.

(** Extraction of [twin_wim] with the given flags (hard links are flag 1,
    symbolic links flag 2) through [mkdir]. *)
Definition extract_twin (mkdir : string -> list call -> option errno * list call)
    (image flags : Z) : option (Z * WIMStruct * list call) :=
  wimlib_extract_image 11 12 13 14 15 16 17 1 2 8 16 (-1) 1 2
    mkdir rec_link rec_symlink rec_open rec_close rec_puts rec_extract
    (fun _ _ => (1, "t"%string)) (fun _ => 1) (fun s => s)
    (fun w _ => (0, w)) (fun _ => twin_files) (fun _ _ => ""%string)
    false (fun _ _ => (0, 0))
    twin_wim image (Some "out"%string) flags [].

End ExtractImage.

(** * Return codes *)

Lemma nonzero_true ret : nonzero ret = true <-> ret <> 0.
Proof. unfold nonzero. rewrite negb_true_iff, Z.eqb_neq. tauto. Qed.

Lemma nonzero_false ret : nonzero ret = false <-> ret = 0.
Proof. unfold nonzero. rewrite negb_false_iff, Z.eqb_eq. tauto. Qed.

(** * Properties of the capture *)

Module Ntfs3gCaptureTheory.
Import Ntfs3gCapture.

(** ** Reading a blob *)

Section ReadPrefixFacts.
Context {S : Type}.
Variable call_consume_chunk : list byte -> S -> Z * S.

Local Abbreviation loop := (read_loop call_consume_chunk).
Local Abbreviation read_prefix := (read_ntfs_attribute_prefix call_consume_chunk).

(** One turn of the loop. *)
Lemma read_loop_zero na pos s : loop na pos 0 s = Some (0, s, []).
Proof. simp read_loop. reflexivity. Qed.

Lemma read_loop_negative na pos rem s : rem < 0 -> loop na pos rem s = None.
Proof.
  intros. simp read_loop. destruct (Z_dec rem 0) as [[?|?]|?]; try lia.
  reflexivity.
Qed.

Lemma read_loop_positive na pos rem s :
  0 < rem ->
  loop na pos rem s =
    let to_read := Z.min rem BUFFER_SIZE in
    let '(got, buf) := ntfs_attr_pread na pos to_read in
    if negb (got =? to_read) then
      Some (WIMLIB_ERR_NTFS_3G, s, [Pread pos to_read got])
    else
      let chunk := take (Z.to_nat to_read) buf in
      let '(ret, s') := call_consume_chunk chunk s in
      if nonzero ret then
        Some (ret, s', [Pread pos to_read got; Consumed chunk ret])
      else
        '(ret', s'', tr) ← loop na (pos + to_read) (rem - to_read) s';
        Some (ret', s'', Pread pos to_read got :: Consumed chunk ret :: tr).
Proof.
  intros. simp read_loop. destruct (Z_dec rem 0) as [[?|?]|?]; try lia.
  reflexivity.
Qed.

(** The loop is by induction on the bytes that remain. *)
Lemma read_loop_ind (P : Z -> Z -> S -> Prop) :
  (forall pos s, P pos 0 s) ->
  (forall pos rem s,
      0 < rem ->
      (forall s', P (pos + Z.min rem BUFFER_SIZE) (rem - Z.min rem BUFFER_SIZE) s') ->
      P pos rem s) ->
  forall rem, 0 <= rem -> forall pos s, P pos rem s.
Proof.
  intros H0 Hstep rem Hrem.
  induction rem as [rem IH] using (well_founded_induction (Z.lt_wf 0)).
  intros pos s. destruct (Z.eq_dec rem 0) as [->|Hne]; [apply H0|].
  apply Hstep; [lia|]. intros s'. apply IH; unfold BUFFER_SIZE; lia.
Qed.

Lemma read_loop_total na rem :
  0 <= rem -> forall pos s, is_Some (loop na pos rem s).
Proof.
  apply (read_loop_ind (fun pos rem s => is_Some (loop na pos rem s))).
  - intros. rewrite read_loop_zero. eauto.
  - intros pos rem' s Hpos IH. rewrite read_loop_positive by exact Hpos.
    cbv zeta. destruct (ntfs_attr_pread _ _ _) as [got buf].
    destruct (negb _); [eauto|].
    destruct (call_consume_chunk _ _) as [ret s'].
    destruct (nonzero ret); [eauto|].
    destruct (IH s') as [[[r s''] tr] ->]. simpl. eauto.
Qed.

Lemma read_loop_run na rem :
  0 <= rem -> forall pos s r, loop na pos rem s = Some r -> run_ok call_consume_chunk pos rem s r.
Proof.
  apply (read_loop_ind (fun pos rem s =>
           forall r, loop na pos rem s = Some r -> run_ok call_consume_chunk pos rem s r)).
  - intros pos s r. rewrite read_loop_zero. intros [= <-]. simpl.
    repeat split; try (intros; contradiction || discriminate); auto.
  - intros pos rem' s Hpos IH r. rewrite read_loop_positive by exact Hpos.
    cbv zeta. destruct (ntfs_attr_pread _ _ _) as [got buf] eqn:Hread.
    destruct (negb (got =? _)) eqn:Hgot.
    { intros [= <-]. apply negb_true_iff, Z.eqb_neq in Hgot. simpl.
      split; [intros e [= <-]; eauto|].
      split; [intros p c g [[= <- <- <-]|[]] _; auto|].
      split; [intros c r' [[=]|[]]|].
      split; [reflexivity|]. right. split; [reflexivity|]. eauto 10. }
    apply negb_false_iff, Z.eqb_eq in Hgot. subst got.
    destruct (call_consume_chunk _ _) as [ret s'] eqn:Hsink.
    destruct (nonzero ret) eqn:Hret.
    { intros [= <-]. apply nonzero_true in Hret. simpl.
      split; [intros e [= <-]; eauto|].
      split; [intros p c g [[= <- <- <-]|[[=]|[]]] Hne; congruence|].
      split; [intros c r' [[=]|[[= <- <-]|[]]] _; auto|].
      rewrite Hsink. apply nonzero_true in Hret. rewrite Hret. simpl. auto. }
    destruct (loop na _ _ s') as [[[ret' s''] tr]|] eqn:Hrec; [|discriminate].
    intros [= <-]. specialize (IH s' _ Hrec).
    destruct IH as (Hhd & Hshort & Habort & Hst & Hret').
    apply nonzero_false in Hret as ->. simpl.
    split; [intros e [= <-]; eauto|].
    split.
    { intros p c g [[= <- <- <-]|[[=]|Hin]] Hne; [congruence|].
      destruct (Hshort p c g Hin Hne) as [-> Hl]. split; [reflexivity|].
      destruct tr; [contradiction|exact Hl]. }
    split.
    { intros c r' [[=]|[[= <- <-]|Hin]] Hne; [congruence|].
      destruct (Habort c r' Hin Hne) as [-> Hl]. split; [reflexivity|].
      destruct tr; [contradiction|exact Hl]. }
    rewrite Hsink. simpl. split; [exact Hst|].
    destruct Hret' as [->|[-> (p & c & g & Hl & Hne)]]; [auto|].
    right. split; [reflexivity|]. exists p, c, g.
    split; [|exact Hne]. destruct tr; [discriminate|exact Hl].
Qed.

Lemma slice_split pos a b data :
  0 <= pos -> 0 <= a -> 0 <= b ->
  slice pos (a + b) data = slice pos a data ++ slice (pos + a) b data.
Proof.
  intros. unfold slice.
  rewrite !Z2Nat.inj_add by lia.
  rewrite <- take_take_drop, drop_drop. reflexivity.
Qed.

Lemma slice_idemp pos a data :
  take (Z.to_nat a) (slice pos a data) = slice pos a data.
Proof. unfold slice. apply take_idemp. Qed.

Lemma read_loop_delivers na data :
  holds_data na data ->
  forall rem, 0 <= rem ->
  forall pos s r,
    0 <= pos -> pos + rem <= Z.of_nat (length data) ->
    loop na pos rem s = Some r -> delivered call_consume_chunk data pos rem s r.
Proof.
  intros Hdata rem Hrem.
  apply (read_loop_ind (fun pos rem s =>
           forall r, 0 <= pos -> pos + rem <= Z.of_nat (length data) ->
             loop na pos rem s = Some r -> delivered call_consume_chunk data pos rem s r));
    [| |exact Hrem].
  - intros pos s r _ _. rewrite read_loop_zero. intros [= <-]. simpl.
    split; [reflexivity|]. split; [intros i c; rewrite lookup_nil; discriminate|].
    intros _. unfold slice. reflexivity.
  - intros pos rem' s Hpos IH r Hp Hfit.
    rewrite read_loop_positive by exact Hpos. cbv zeta.
    set (to_read := Z.min rem' BUFFER_SIZE) in *.
    assert (Hto : 0 < to_read <= rem') by (subst to_read; unfold BUFFER_SIZE; lia).
    rewrite (Hdata pos to_read) by lia.
    rewrite Z.eqb_refl. simpl negb. cbv iota. rewrite slice_idemp.
    destruct (call_consume_chunk _ s) as [ret s'] eqn:Hsink.
    assert (Hfirst : forall (i : nat) c,
              (slice pos to_read data :: []) !! i = Some c ->
              Z.of_nat i * BUFFER_SIZE < rem' /\
              c = slice (pos + Z.of_nat i * BUFFER_SIZE)
                    (Z.min BUFFER_SIZE (rem' - Z.of_nat i * BUFFER_SIZE)) data).
    { intros [|i] c; [|rewrite lookup_cons, lookup_nil; discriminate].
      intros [= <-]. split; [lia|]. f_equal; [lia|]. subst to_read. lia. }
    destruct (nonzero ret) eqn:Hret.
    { intros [= <-]. simpl. rewrite Hsink, Hret.
      split; [reflexivity|]. split; [exact Hfirst|].
      intros ->. discriminate. }
    destruct (loop na _ _ s') as [[[ret' s''] tr]|] eqn:Hrec; [|discriminate].
    intros [= <-]. specialize (IH s' _ ltac:(lia) ltac:(lia) Hrec).
    destruct IH as (Hfeed & Hchunks & Hall). simpl.
    rewrite Hsink, Hret. split; [exact Hfeed|]. split.
    + intros [|i] c; [apply (Hfirst 0%nat)|]. simpl.
      intros Hi. destruct (Hchunks i c Hi) as [Hlt ->].
      assert (to_read = BUFFER_SIZE)
        by (subst to_read; unfold BUFFER_SIZE in *; lia).
      clearbody to_read. subst to_read. unfold BUFFER_SIZE in *.
      split; [lia|]. f_equal; lia.
    + intros Hz. rewrite (Hall Hz).
      rewrite <- slice_split by lia. f_equal. lia.
Qed.

(** C7.  [read_ntfs_attribute_prefix(blob, n, cbs)] returns, for every
    [n] that a signed 64-bit integer holds.  Its first read is at offset
    8 of the attribute for a reparse point and at offset 0 otherwise,
    and asks for [min n BUFFER_SIZE] bytes.  A read that returns another
    count than the one asked for is the last thing that happens, and the
    result is [WIMLIB_ERR_NTFS_3G].  A value other than 0 returned by the
    consumer is the last thing that happens, and is the result.  Over an
    attribute that holds [data], with [n] bytes from the start offset
    inside [data], the consumer is handed consecutive pieces of [data],
    each of [BUFFER_SIZE] bytes except for a shorter last one, and the
    first [n] bytes from the start offset in all when the result is 0. *)
Theorem read_prefix_in_chunks (vol : ntfs_volume) (blob : blob_descriptor)
    (n : Z) (s : S) :
  0 <= n ->
  exists ret s' tr,
    read_prefix vol blob n s = Some (ret, s', tr) /\
    (forall e, head tr = Some e ->
       exists got, e = Pread (start_offset blob) (Z.min n BUFFER_SIZE) got) /\
    (forall pos count got,
       In (Pread pos count got) tr -> got <> count ->
       ret = WIMLIB_ERR_NTFS_3G /\ last tr = Some (Pread pos count got)) /\
    (forall chunk r,
       In (Consumed chunk r) tr -> r <> 0 ->
       ret = r /\ last tr = Some (Consumed chunk r)) /\
    (forall ni na data,
       ntfs_inode_open vol (loc_mft_no (ntfs_loc blob)) = Some ni ->
       (open_ntfs_attr ni (ntfs_loc blob)).1 = Some na ->
       holds_data na data ->
       start_offset blob + n <= Z.of_nat (length data) ->
       (ret, s') = feed call_consume_chunk (consumed_chunks tr) s /\
       (forall (i : nat) c,
          consumed_chunks tr !! i = Some c ->
          Z.of_nat i * BUFFER_SIZE < n /\
          c = slice (start_offset blob + Z.of_nat i * BUFFER_SIZE)
                (Z.min BUFFER_SIZE (n - Z.of_nat i * BUFFER_SIZE)) data) /\
       (ret = 0 ->
          concat (consumed_chunks tr) = slice (start_offset blob) n data)).
Proof.
  intros Hn. unfold read_ntfs_attribute_prefix.
  destruct (ntfs_inode_open vol _) as [ni|] eqn:Hni.
  2:{ exists WIMLIB_ERR_NTFS_3G, s, []. split; [reflexivity|].
      repeat split; try (intros; contradiction || discriminate || congruence). }
  destruct (open_ntfs_attr ni (ntfs_loc blob)).1 as [na|] eqn:Hna.
  2:{ exists WIMLIB_ERR_NTFS_3G, s, []. split; [reflexivity|].
      repeat split; try (intros; contradiction || discriminate || congruence). }
  fold (start_offset blob).
  destruct (read_loop_total na n Hn (start_offset blob) s) as [[[ret s'] tr] Hrun].
  exists ret, s', tr. split; [exact Hrun|].
  destruct (read_loop_run na n Hn _ _ _ Hrun) as (Hhd & Hshort & Habort & _).
  split; [exact Hhd|]. split; [exact Hshort|]. split; [exact Habort|].
  intros ni' na' data [= <-] Hna' Hdata Hfit.
  rewrite Hna in Hna'. injection Hna' as <-.
  assert (Hstart : 0 <= start_offset blob)
    by (unfold start_offset, REPARSE_DATA_OFFSET; case_decide; lia).
  exact (read_loop_delivers na data Hdata n Hn _ _ _ Hstart Hfit Hrun).
Qed.
End ReadPrefixFacts.

(** ** The order of blobs *)

Lemma cmp_u64_spec n1 n2 :
  (n1 < n2 /\ cmp_u64 n1 n2 = -1) \/
  (n1 = n2 /\ cmp_u64 n1 n2 = 0) \/
  (n2 < n1 /\ cmp_u64 n1 n2 = 1).
Proof.
  unfold cmp_u64.
  destruct (n1 <? n2) eqn:H1; [apply Z.ltb_lt in H1; auto|].
  destruct (n2 <? n1) eqn:H2; [apply Z.ltb_lt in H2; auto|].
  apply Z.ltb_ge in H1, H2. right. left. split; [lia | reflexivity].
Qed.

(** C8.  The comparison of blob descriptors located in an NTFS volume
    is antisymmetric (swapping the arguments negates the result) and
    transitive, it is the order of the sort keys (it compares any two
    descriptors, and returns 0 exactly for equal keys), and two
    descriptors with equal keys compare alike with every third one: the
    comparison does not order ties, which a stable sort thus leaves in
    the order it finds them. *)
Theorem cmp_blobs_is_order_on_sort_key (a b c : blob_descriptor) :
  cmp_blobs a b = - cmp_blobs b a /\
  (cmp_blobs a b <= 0 -> cmp_blobs b c <= 0 -> cmp_blobs a c <= 0) /\
  (cmp_blobs a b < 0 -> cmp_blobs b c < 0 -> cmp_blobs a c < 0) /\
  (cmp_blobs a b < 0 <-> sort_key (ntfs_loc a) < sort_key (ntfs_loc b)) /\
  (cmp_blobs a b = 0 <-> sort_key (ntfs_loc a) = sort_key (ntfs_loc b)) /\
  (cmp_blobs a b = 0 -> cmp_blobs a c = cmp_blobs b c).
Proof.
  unfold cmp_blobs, cmp_ntfs_locations.
  destruct (cmp_u64_spec (sort_key (ntfs_loc a)) (sort_key (ntfs_loc b)))
    as [[? ->]|[[? ->]|[? ->]]];
  destruct (cmp_u64_spec (sort_key (ntfs_loc b)) (sort_key (ntfs_loc a)))
    as [[? ->]|[[? ->]|[? ->]]]; try lia;
  destruct (cmp_u64_spec (sort_key (ntfs_loc b)) (sort_key (ntfs_loc c)))
    as [[? ->]|[[? ->]|[? ->]]];
  destruct (cmp_u64_spec (sort_key (ntfs_loc a)) (sort_key (ntfs_loc c)))
    as [[? ->]|[[? ->]|[? ->]]]; try lia;
  repeat split; intros; lia.
Qed.

(** ** Security descriptors *)

Lemma get_security_descriptor_total ni inode set :
  is_Some (get_security_descriptor ni inode set).
Proof.
  unfold get_security_descriptor. cbn [get_security_descriptor_retry].
  unfold ntfs_get_ntfs_acl.
  destruct (ntfs_acl ni) as [sd|]; [|simpl; eauto].
  set (n := Z.of_nat (length sd)).
  assert (Hn : (n <? 0) = false) by (apply Z.ltb_ge; subst n; lia).
  rewrite Hn, Z.ltb_irrefl.
  repeat case_match; eauto.
Qed.

(** C10.  When the volume reports a security descriptor of length 0,
    [get_security_descriptor] returns 0 and leaves the set of security
    descriptors and the inode as they were; the security id of a new
    inode, -1, thus stays.  Whenever a call changes the inode or the set,
    the descriptor that the volume reports is not empty. *)
Theorem empty_security_descriptor_not_stored (ni : ntfs_inode)
    (inode : wim_inode) (set : list (list byte)) :
  ntfs_acl ni = Some [] ->
  get_security_descriptor ni inode set = Some (0, inode, set) /\
  (forall ino, i_security_id (new_inode ino) = -1) /\
  (forall ni' ret inode' set',
      get_security_descriptor ni' inode set = Some (ret, inode', set') ->
      inode' <> inode \/ set' <> set ->
      exists sd, ntfs_acl ni' = Some sd /\ sd <> []).
Proof.
  intros Hacl. split; [|split; [reflexivity|]].
  - unfold get_security_descriptor. simpl. unfold ntfs_get_ntfs_acl.
    rewrite Hacl. reflexivity.
  - intros ni' ret inode' set'.
    unfold get_security_descriptor. simpl. unfold ntfs_get_ntfs_acl.
    destruct (ntfs_acl ni') as [sd|];
      [|simpl; intros [= <- <- <-] [?|?]; congruence].
    destruct sd as [|b sd];
      [simpl; intros [= <- <- <-] [?|?]; congruence|].
    intros _ _. eexists. split; [reflexivity | discriminate].
Qed.

(** ** Reparse points *)

Lemma record_name_default (name : list Z) :
  default [] (if nonzero (Z.of_nat (length name)) then Some name else None)
  = name.
Proof. destruct name; reflexivity. Qed.

Lemma set_attr_sort_key_spec ni loc :
  (ntfs_attr_open ni (attr_type loc) (default [] (attr_name loc)) = None /\
   set_attr_sort_key ni loc =
     (WIMLIB_ERR_NTFS_3G, loc,
      [EvError "Failed to open attribute of NTFS inode"])) \/
  (exists na k,
     ntfs_attr_open ni (attr_type loc) (default [] (attr_name loc)) = Some na /\
     set_attr_sort_key ni loc = (0, set_sort_key loc k, [])).
Proof.
  unfold set_attr_sort_key, open_ntfs_attr.
  destruct (ntfs_attr_open ni _ _) as [na|]; [right|left; auto].
  exists na. destruct (ntfs_attr_find_vcn na) as [lcn|]; [|eauto].
  destruct (negb (lcn =? LCN_HOLE)); eauto.
Qed.

(** C6.  Scanning a REPARSE_POINT attribute that is not empty never
    succeeds when the attribute has fewer than 8 bytes: the inode and
    the list of unhashed blobs stay as they were, and the error is
    [WIMLIB_ERR_INVALID_REPARSE_DATA] as soon as the attribute could be
    opened to find its sort key (otherwise that failure is returned).
    When the attribute has at least 8 bytes, 8 included, the scan
    succeeds provided that the attribute can be opened and the 4 bytes
    of its tag can be read; and whenever it succeeds, the inode gets one
    more stream, whose blob is located in that attribute and has the
    size of the attribute minus 8, and that blob is added to the
    unhashed blobs. *)
Theorem reparse_blob_size {H : Type} (inode : wim_inode) (ni : ntfs_inode)
    (path : string) (record : ATTR_RECORD) (st : capture_state H) :
  value_length record <> 0 ->
  REPARSE_DATA_OFFSET = 8 /\
  let '(ret, inode', st') :=
    scan_ntfs_attr inode ni path AT_REPARSE_POINT record st in
  (value_length record < REPARSE_DATA_OFFSET ->
     ret <> 0 /\ inode' = inode /\
     unhashed_blobs st' = unhashed_blobs st /\
     (is_Some (ntfs_attr_open ni AT_REPARSE_POINT (record_name record)) ->
      ret = WIMLIB_ERR_INVALID_REPARSE_DATA)) /\
  (REPARSE_DATA_OFFSET <= value_length record ->
     (forall na,
        ntfs_attr_open ni AT_REPARSE_POINT (record_name record) = Some na ->
        (ntfs_attr_pread na 0 4).1 = 4 -> ret = 0) /\
     (ret <> 0 -> ret = WIMLIB_ERR_NTFS_3G /\ inode' = inode /\
        unhashed_blobs st' = unhashed_blobs st)) /\
  (REPARSE_DATA_OFFSET <= value_length record -> ret = 0 ->
     exists strm blob,
       i_streams inode' = i_streams inode ++ [strm] /\
       strm_type strm = STREAM_TYPE_REPARSE_POINT /\
       stream_blob strm = Some blob /\
       attr_type (ntfs_loc blob) = AT_REPARSE_POINT /\
       loc_mft_no (ntfs_loc blob) = mft_no ni /\
       size blob = value_length record - 8 /\
       value_length record = size blob + 8 /\
       unhashed_blobs st' =
         unhashed_blobs st
         ++ [{| ub_blob := blob; ub_inode := i_ino inode;
                ub_stream_id := stream_id strm |}]).
Proof.
  intros Hne. split; [reflexivity|].
  unfold scan_ntfs_attr.
  apply nonzero_true in Hne. rewrite Hne.
  set (loc := {| loc_mft_no := mft_no ni; attr_type := AT_REPARSE_POINT;
                 attr_name_nchars := _; attr_name := _; sort_key := 0 |}).
  destruct (set_attr_sort_key_spec ni loc) as [[Hopen ->]|(na & k & Hopen & ->)];
    subst loc; cbn [attr_type attr_name] in Hopen;
    rewrite record_name_default in Hopen.
  { simpl. split; [|split].
    - intros _. repeat split; try discriminate.
      rewrite Hopen. intros Hs. destruct (is_Some_None Hs).
    - intros _. split; [intros na; rewrite Hopen; discriminate|].
      intros _. repeat split.
    - intros _ [=]. }
  cbn [nonzero Z.eqb negb].
  destruct (decide (AT_REPARSE_POINT = AT_REPARSE_POINT)) as [_|]; [|done].
  destruct (value_length record <? REPARSE_DATA_OFFSET) eqn:Hsmall.
  - apply Z.ltb_lt in Hsmall. simpl.
    split; [|split; unfold REPARSE_DATA_OFFSET in *; lia].
    intros _. repeat split; discriminate.
  - apply Z.ltb_ge in Hsmall.
    unfold read_reparse_tag, open_ntfs_attr.
    cbn [set_sort_key attr_type attr_name].
    rewrite record_name_default, Hopen.
    destruct (ntfs_attr_pread na 0 4) as [got buf] eqn:Hread.
    destruct (negb (got =? 4)) eqn:Hgot; simpl; (split; [lia|]).
    + split; [|intros _ [=]]. intros _. split; [|intros _; repeat split].
      intros na' [= <-]. rewrite Hread. simpl. intros ->. discriminate.
    + split; [intros _; split; [reflexivity | intros Hz; contradiction]|].
      intros _ _. eexists _, _. repeat split. cbn [size].
      unfold REPARSE_DATA_OFFSET. lia.
Qed.

(** ** Runs on the sample volumes *)

Lemma attr_of_data_holds data lcn : holds_data (attr_of_data data lcn) data.
Proof.
  intros pos count Hpos Hcount Hfit. unfold attr_of_data, slice. simpl.
  f_equal. rewrite length_take, length_drop. lia.
Qed.

Lemma read_prefix_in_chunks_witness :
  let data := [x0c; x00; x00; xa0; x04; x00; x00; x00; x01; x02; x03; x04] in
  exists tr,
    read_ntfs_attribute_prefix record_length (reparse_volume data)
      (reparse_blob data) 4 [] = Some (0, [4], tr) /\
    head tr = Some (Pread 8 4 4) /\
    concat (consumed_chunks tr) = [x01; x02; x03; x04].
Proof.
  intros data.
  destruct (read_prefix_in_chunks record_length (reparse_volume data)
              (reparse_blob data) 4 [] ltac:(lia))
    as (ret & s' & tr & Hrun & Hhd & _ & _ & Hdel).
  destruct (Hdel (reparse_inode data) (attr_of_data data None) data
              eq_refl eq_refl (attr_of_data_holds _ _)
              ltac:(vm_compute; discriminate))
    as (_ & _ & Hall).
  exists tr. rewrite Hrun.
  assert (Hval : ret = 0 /\ s' = [4] /\ head tr = Some (Pread 8 4 4)).
  { vm_compute in Hrun. injection Hrun as <- <- <-. repeat split. }
  destruct Hval as (-> & -> & Hhead).
  split; [reflexivity|]. split; [exact Hhead|].
  rewrite (Hall eq_refl). reflexivity.
Defined.

(** A blob of 40000 bytes is delivered in a chunk of 32768 bytes and one
    of 7232 bytes; a consumer that refuses the second chunk gets its
    value returned; asking for one byte more than the attribute holds
    fails after the first chunk. *)
Example long_blob_runs :
  (fun r => (r.1.1, r.1.2, List.length r.2))
    <$> read_ntfs_attribute_prefix record_length
          (reparse_volume long_reparse_data)
          (reparse_blob long_reparse_data) 40000 [] =
    Some (0, [32768; 7232], 4%nat) /\
  (fun r => (r.1.1, r.1.2, List.length r.2))
    <$> read_ntfs_attribute_prefix refuse_second
          (reparse_volume long_reparse_data)
          (reparse_blob long_reparse_data) 40000 [] =
    Some (7, [32768; 7232], 4%nat) /\
  (fun r => (r.1.1, r.1.2, last r.2))
    <$> read_ntfs_attribute_prefix record_length
          (reparse_volume long_reparse_data)
          (reparse_blob long_reparse_data) 40001 [] =
    Some (WIMLIB_ERR_NTFS_3G, [32768], Some (Pread 32776 7233 7232)).
Proof. vm_compute. repeat split. Qed.

Lemma reparse_blob_size_witness :
  let short := [x0c; x00; x00; xa0] in
  let header := [x0c; x00; x00; xa0; x00; x00; x00; x00] in
  (scan_ntfs_attr (new_inode 200) (reparse_inode short) "/link"
     AT_REPARSE_POINT (reparse_record short) empty_capture).1.1 =
    WIMLIB_ERR_INVALID_REPARSE_DATA /\
  exists inode' st' strm blob,
    scan_ntfs_attr (new_inode 200) (reparse_inode header) "/link"
      AT_REPARSE_POINT (reparse_record header) empty_capture = (0, inode', st') /\
    i_streams inode' = [strm] /\ stream_blob strm = Some blob /\ size blob = 0.
Proof.
  intros short header. split.
  - pose proof (reparse_blob_size (new_inode 200) (reparse_inode short) "/link"
                  (reparse_record short) empty_capture
                  ltac:(vm_compute; discriminate)) as [_ Hscan].
    destruct (scan_ntfs_attr _ _ _ _ _ _) as [[ret inode'] st'].
    destruct Hscan as [Hsmall _].
    destruct (Hsmall ltac:(vm_compute; reflexivity)) as (_ & _ & _ & Hret).
    apply Hret. vm_compute. eauto.
  - pose proof (reparse_blob_size (new_inode 200) (reparse_inode header) "/link"
                  (reparse_record header) empty_capture
                  ltac:(vm_compute; discriminate)) as [_ Hscan].
    destruct (scan_ntfs_attr _ _ _ _ _ _) as [[ret inode'] st'].
    destruct Hscan as (_ & Hruns & Hblob).
    assert (Hlen : REPARSE_DATA_OFFSET <= value_length (reparse_record header))
      by (vm_compute; discriminate).
    destruct (Hruns Hlen) as [Hret _].
    specialize (Hret (attr_of_data header None) eq_refl eq_refl). subst ret.
    destruct (Hblob Hlen eq_refl)
      as (strm & blob & Hstreams & _ & Hb & _ & _ & Hsize & _).
    exists inode', st', strm, blob. split; [reflexivity|].
    split; [exact Hstreams|]. split; [exact Hb|]. rewrite Hsize. reflexivity.
Defined.

Example reparse_blob_of_twelve_bytes :
  let data := [x0c; x00; x00; xa0; x04; x00; x00; x00; x01; x02; x03; x04] in
  exists inode' st' blob,
    scan_ntfs_attr (new_inode 200) (reparse_inode data) "/link"
      AT_REPARSE_POINT (reparse_record data) empty_capture = (0, inode', st') /\
    i_reparse_tag inode' = WIM_IO_REPARSE_TAG_SYMLINK /\
    stream_blob <$> i_streams inode' = [Some blob] /\
    size blob = 4 /\ refcnt st' = 1.
Proof. vm_compute. eexists _, _, _. repeat split. Qed.

Lemma empty_security_descriptor_not_stored_witness :
  get_security_descriptor (reparse_inode []) (new_inode 200) [[x01]] =
    Some (0, new_inode 200, [[x01]]) /\
  i_security_id (new_inode 200) = -1.
Proof.
  destruct (empty_security_descriptor_not_stored (reparse_inode [])
              (new_inode 200) [[x01]] eq_refl) as (Hrun & Hid & _).
  split; [exact Hrun | apply Hid].
Defined.

Lemma cmp_blobs_is_order_on_sort_key_witness :
  let a := {| size := 3; ntfs_loc := {| loc_mft_no := 100; attr_type := AT_DATA;
              attr_name_nchars := 0; attr_name := None; sort_key := 77 |} |} in
  let b := {| size := 1; ntfs_loc := {| loc_mft_no := 100; attr_type := AT_DATA;
              attr_name_nchars := 1; attr_name := Some [115]; sort_key := 0 |} |} in
  cmp_blobs b a < 0 /\ cmp_blobs a b = - cmp_blobs b a /\ cmp_blobs a a = 0.
Proof.
  intros a b.
  destruct (cmp_blobs_is_order_on_sort_key b a a) as (_ & _ & _ & Hlt & _).
  destruct (cmp_blobs_is_order_on_sort_key a b a) as (Hanti & _).
  destruct (cmp_blobs_is_order_on_sort_key a a a) as (_ & _ & _ & _ & Heq & _).
  split; [apply Hlt; reflexivity|]. split; [exact Hanti|]. apply Heq. reflexivity.
Defined.

(** C8, the claim as stated fails: the two data streams of a file that
    have no run on the volume both get the sort key 0, so the scan makes
    two distinct blob descriptors that the comparison does not order: it
    returns 0 for them in both directions. *)
Lemma equal_sort_keys_not_ordered :
  exists inode' st' a b,
    scan_ntfs_attrs_with_type (new_inode 101) resident_file "/r" AT_DATA
      empty_capture = (0, inode', st') /\
    ub_blob <$> unhashed_blobs st' = [a; b] /\
    a <> b /\ cmp_blobs a b = 0 /\ cmp_blobs b a = 0.
Proof.
  eexists _, _, _, _. split; [vm_compute; reflexivity|].
  split; [reflexivity|]. split; [discriminate|]. split; reflexivity.
Qed.


(** ** Link counts *)

Lemma count_refs_app ino l1 l2 :
  count_refs ino (l1 ++ l2) = count_refs ino l1 + count_refs ino l2.
Proof. induction l1 as [|x l1 IH]; simpl; [reflexivity|]. rewrite IH. lia. Qed.

Lemma count_refs_nonneg ino l : 0 <= count_refs ino l.
Proof. induction l as [|x l IH]; simpl; [lia|]. case_decide; lia. Qed.

Lemma nlink_nonneg t ino : table_ok t -> 0 <= nlink t ino.
Proof.
  intros Hok. unfold nlink. destruct (t !! ino) as [i|] eqn:Hi; [|lia].
  destruct (Hok _ _ Hi) as (_ & ? & _). lia.
Qed.

Lemma nlink_insert t ino i ino' :
  nlink (<[ino := i]> t) ino' =
    if decide (ino = ino') then i_nlink i else nlink t ino'.
Proof.
  unfold nlink. rewrite lookup_insert. repeat case_decide; congruence.
Qed.

Lemma nlink_delete t ino ino' :
  nlink (delete ino t) ino' = if decide (ino = ino') then 0 else nlink t ino'.
Proof.
  unfold nlink. rewrite lookup_delete. repeat case_decide; congruence.
Qed.

Lemma same_but_nlink_refl i : same_but_nlink i i.
Proof. unfold same_but_nlink. destruct i; reflexivity. Qed.

Lemma same_but_nlink_trans i1 i2 i3 :
  same_but_nlink i1 i2 -> same_but_nlink i2 i3 -> same_but_nlink i1 i3.
Proof. unfold same_but_nlink. intros -> ->. destruct i1; reflexivity. Qed.

Lemma same_but_nlink_set i n : same_but_nlink i (set_nlink i n).
Proof. unfold same_but_nlink. destruct i; reflexivity. Qed.

Lemma extends_refl t : table_ok t -> extends t t [].
Proof.
  intros Hok. split; [exact Hok|]. split; [intros; simpl; lia|].
  intros ino i Hi. exists i. split; [exact Hi | apply same_but_nlink_refl].
Qed.

Lemma extends_trans t0 t1 t2 l1 l2 :
  extends t0 t1 l1 -> extends t1 t2 l2 -> extends t0 t2 (l1 ++ l2).
Proof.
  intros (_ & Hn1 & Hs1) (Hok & Hn2 & Hs2). split; [exact Hok|]. split.
  - intros ino. rewrite Hn2, Hn1, count_refs_app. lia.
  - intros ino i Hi. destruct (Hs1 _ _ Hi) as (i1 & Hi1 & Hsame1).
    destruct (Hs2 _ _ Hi1) as (i2 & Hi2 & Hsame2).
    exists i2. split; [exact Hi2|]. eapply same_but_nlink_trans; eauto.
Qed.

Lemma extends_count t0 t1 l l' :
  (forall ino, count_refs ino l = count_refs ino l') ->
  extends t0 t1 l -> extends t0 t1 l'.
Proof.
  intros Heq (Hok & Hn & Hs). split; [exact Hok|]. split; [|exact Hs].
  intros ino. rewrite Hn, Heq. reflexivity.
Qed.

(** A dentry for an inode that the table holds shares that inode. *)
Lemma extends_shared t ino i :
  table_ok t -> t !! ino = Some i ->
  extends t (<[ino := set_nlink i (i_nlink i + 1)]> t) [ino].
Proof.
  intros Hok Hi. destruct (Hok _ _ Hi) as (Hino & Hn & Hsc). split; [|split].
  - intros ino' i'. rewrite lookup_insert. case_decide.
    + intros [= <-]. subst. destruct i; simpl in *. repeat split; auto; lia.
    + apply Hok.
  - intros ino'. rewrite nlink_insert. simpl. unfold nlink.
    repeat case_decide; subst; try congruence; [rewrite Hi; simpl; lia | lia].
  - intros ino' i' Hi'. rewrite lookup_insert. case_decide.
    + subst. rewrite Hi in Hi'. injection Hi' as <-.
      eexists. split; [reflexivity | apply same_but_nlink_set].
    + exists i'. split; [exact Hi' | apply same_but_nlink_refl].
Qed.

(** A dentry for an inode that the table does not hold gets a new
    inode, which is in order once it was scanned. *)
Lemma extends_fresh t ino x i :
  table_ok t -> t !! ino = None ->
  i_ino i = ino -> i_nlink i = 1 -> i_scans i = 1%nat ->
  extends t (<[ino := i]> (<[ino := x]> t)) [ino].
Proof.
  intros Hok Hnone Hino Hn Hsc. rewrite insert_insert_eq. split; [|split].
  - intros ino' i'. rewrite lookup_insert. case_decide.
    + intros [= <-]. repeat split; auto; lia.
    + apply Hok.
  - intros ino'. rewrite nlink_insert. simpl. unfold nlink.
    repeat case_decide; subst; try congruence; [rewrite Hnone; lia | lia].
  - intros ino' i' Hi'. rewrite lookup_insert. case_decide; [congruence|].
    exists i'. split; [exact Hi' | apply same_but_nlink_refl].
Qed.

(** Tearing a tree down takes back the links of its dentries. *)
Lemma free_spec l : forall t,
  table_ok t ->
  (forall ino, count_refs ino l <= nlink t ino) ->
  let t' := foldr d_disassociate t l in
  table_ok t' /\
  (forall ino, nlink t' ino = nlink t ino - count_refs ino l) /\
  (forall ino i, t !! ino = Some i -> 1 <= nlink t ino - count_refs ino l ->
     exists i', t' !! ino = Some i' /\ same_but_nlink i i').
Proof.
  induction l as [|x l IH]; intros t Hok Hle; simpl.
  { split; [exact Hok|]. split; [intros; lia|].
    intros ino i Hi _. exists i. split; [exact Hi | apply same_but_nlink_refl]. }
  assert (Hle' : forall ino, count_refs ino l <= nlink t ino).
  { intros ino. specialize (Hle ino). simpl in Hle. case_decide; lia. }
  destruct (IH t Hok Hle') as (Hok' & Hn' & Hs').
  set (t' := foldr d_disassociate t l) in *.
  assert (Hx : 1 <= nlink t' x).
  { rewrite Hn'. specialize (Hle x). simpl in Hle.
    rewrite decide_True in Hle by reflexivity. lia. }
  unfold d_disassociate. unfold nlink in Hx.
  destruct (t' !! x) as [ix|] eqn:Hix; [|lia].
  destruct (Hok' _ _ Hix) as (Hino & Hnx & Hsc).
  destruct (i_nlink ix <=? 1) eqn:Hlast.
  - apply Z.leb_le in Hlast. split; [|split].
    + intros ino i. rewrite lookup_delete. case_decide; [discriminate|apply Hok'].
    + intros ino. rewrite nlink_delete. case_decide.
      * subst ino. specialize (Hn' x). unfold nlink in Hn' at 1.
        rewrite Hix in Hn'. lia.
      * rewrite Hn'. lia.
    + intros ino i Hi Hrem. rewrite lookup_delete. case_decide.
      * subst ino. specialize (Hn' x). unfold nlink in Hn' at 1.
        rewrite Hix in Hn'. lia.
      * apply Hs'; [exact Hi | lia].
  - apply Z.leb_gt in Hlast. split; [|split].
    + intros ino i. rewrite lookup_insert. case_decide; [|apply Hok'].
      intros [= <-]. destruct ix; simpl in *. repeat split; auto; lia.
    + intros ino. rewrite nlink_insert. case_decide.
      * subst ino. simpl. specialize (Hn' x). unfold nlink in Hn' at 1.
        rewrite Hix in Hn'. lia.
      * rewrite Hn'. lia.
    + intros ino i Hi Hrem. rewrite lookup_insert. case_decide.
      * subst ino. destruct (Hs' x i Hi ltac:(lia)) as (i' & Hi' & Hsame).
        rewrite Hix in Hi'. injection Hi' as <-.
        eexists. split; [reflexivity|].
        eapply same_but_nlink_trans; [exact Hsame | apply same_but_nlink_set].
      * apply Hs'; [exact Hi | lia].
Qed.

Lemma extends_free t0 t1 root :
  table_ok t0 -> extends t0 t1 (dentry_inodes root) ->
  extends t0 (free_dentry_tree root t1) [].
Proof.
  intros Hok0 (Hok1 & Hn & Hs).
  assert (Heq : free_dentry_tree root t1 = foldr d_disassociate t1 (dentry_inodes root))
    by (destruct root; reflexivity).
  rewrite Heq.
  destruct (free_spec (dentry_inodes root) t1 Hok1) as (Hok' & Hn' & Hs').
  { intros ino. rewrite Hn. pose proof (nlink_nonneg t0 ino Hok0). lia. }
  split; [exact Hok'|]. split.
  - intros ino. rewrite Hn', Hn. simpl. lia.
  - intros ino i Hi. destruct (Hs _ _ Hi) as (i1 & Hi1 & Hsame1).
    destruct (Hs' ino i1 Hi1) as (i2 & Hi2 & Hsame2).
    { rewrite Hn. unfold nlink. rewrite Hi.
      destruct (Hok0 _ _ Hi) as (_ & ? & _). lia. }
    exists i2. split; [exact Hi2|]. eapply same_but_nlink_trans; eauto.
Qed.

(** ** The scan of one inode leaves the table and the links alone *)


Section BuildFacts.
Context {H : Type}.
Implicit Type st : capture_state H.

Lemma set_attr_sort_key_cases ni loc :
  exists ret loc' tr, set_attr_sort_key ni loc = (ret, loc', tr).
Proof. destruct (set_attr_sort_key ni loc) as [[? ?] ?]. eauto. Qed.

Lemma scan_ntfs_attr_core inode ni path type record st :
  let r := scan_ntfs_attr inode ni path type record st in
  core r.1.2 = core inode /\ inode_table r.2 = inode_table st.
Proof.
  unfold scan_ntfs_attr.
  destruct (nonzero (value_length record)); [|simpl; auto].
  destruct (set_attr_sort_key ni _) as [[ret loc] tr].
  destruct (nonzero ret); [simpl; auto|].
  destruct (decide (type = AT_REPARSE_POINT)); [|simpl; auto].
  destruct (value_length record <? REPARSE_DATA_OFFSET); [simpl; auto|].
  destruct (read_reparse_tag ni loc) as [[ret' tag] tr'].
  destruct (nonzero ret'); simpl; auto.
Qed.

Lemma scan_records_core ni path type l : forall inode st,
  let r := scan_records inode ni path type l st in
  core r.1.2 = core inode /\ inode_table r.2 = inode_table st.
Proof.
  induction l as [|record l IH]; intros inode st; simpl; [auto|].
  pose proof (scan_ntfs_attr_core inode ni path type record st) as Hstep.
  destruct (scan_ntfs_attr inode ni path type record st) as [[ret inode'] st'].
  simpl in Hstep. destruct Hstep as [Hc Ht].
  destruct (nonzero ret); [simpl; auto|].
  specialize (IH inode' st'). simpl in IH. destruct IH as [IHc IHt].
  split; congruence.
Qed.

Lemma scan_ntfs_attrs_with_type_core inode ni path type st :
  let r := scan_ntfs_attrs_with_type inode ni path type st in
  core r.1.2 = core inode /\ inode_table r.2 = inode_table st.
Proof.
  unfold scan_ntfs_attrs_with_type.
  destruct (ntfs_attr_lookup ni type) as [records enoent].
  pose proof (scan_records_core ni path type records inode st) as Hrec.
  destruct (scan_records inode ni path type records st) as [[ret inode'] st'].
  simpl in Hrec. destruct (nonzero ret); [exact Hrec|].
  destruct (negb enoent); exact Hrec.
Qed.

Lemma get_security_descriptor_retry_core fuel ni : forall inode set avail r,
  get_security_descriptor_retry fuel ni inode set avail = Some r ->
  core r.1.2 = core inode.
Proof.
  induction fuel as [|fuel IH]; intros inode set avail r; simpl; [discriminate|].
  destruct (ntfs_get_ntfs_acl ni avail) as [ret buf].
  destruct (ret <? 0); [intros [= <-]; reflexivity|].
  destruct (avail <? ret); [apply IH|].
  destruct (0 <? ret); [|intros [= <-]; reflexivity].
  destruct (sd_set_add_sd _ _) as [id set'].
  destruct (id <? 0); intros [= <-]; reflexivity.
Qed.
End BuildFacts.

Lemma tree_inodes_unfold d :
  tree_inodes d = d_inode d :: flat_map tree_inodes (d_children d).
Proof. destruct d; reflexivity. Qed.

Section RecursionFacts.
Context {H : Type}.
Variable try_exclude : string -> H -> Z * H.
Variable do_capture_progress :
  scan_status -> string -> option wim_inode -> H -> Z * H.
Variable report_capture_error : Z -> string -> H -> Z * H.
Variable utf16le_to_tstr : list Z -> Z * string.
Variable add_flags : Z.
Variable vol : ntfs_volume.
Implicit Type st : capture_state H.

Local Abbreviation out := (out (H:=H) report_capture_error).
Local Abbreviation out_progress :=
  (out_progress (H:=H) do_capture_progress report_capture_error).
Local Abbreviation filldir := (filldir (H:=H) utf16le_to_tstr).
Local Abbreviation readdir_entries := (readdir_entries (H:=H) utf16le_to_tstr).
Local Abbreviation recurse_directory :=
  (ntfs_3g_recurse_directory (H:=H) utf16le_to_tstr).
Local Abbreviation scan_new_inode :=
  (scan_new_inode (H:=H) do_capture_progress report_capture_error
     utf16le_to_tstr add_flags).
Local Abbreviation build_dentry :=
  (build_dentry try_exclude do_capture_progress report_capture_error
     utf16le_to_tstr add_flags vol).
Local Abbreviation build :=
  (ntfs_3g_build_dentry_tree_recursive try_exclude do_capture_progress
     report_capture_error utf16le_to_tstr add_flags vol).

Lemma out_reaches t0 ret root path st :
  table_ok t0 -> extends t0 (inode_table st) (dentry_inodes root) ->
  reaches t0 (out ret root path st).
Proof.
  intros Hok Hext. unfold Ntfs3gCapture.out.
  destruct (nonzero ret) eqn:Hret.
  - destruct (report_capture_error _ _ _) as [ret' h]. split; [|reflexivity].
    simpl. apply extends_free; assumption.
  - apply nonzero_false in Hret. subst ret. split; [exact Hext|]. simpl. lia.
Qed.

Lemma out_progress_reaches t0 root path st :
  table_ok t0 -> extends t0 (inode_table st) (dentry_inodes root) ->
  reaches t0 (out_progress root path st).
Proof.
  intros Hok Hext. unfold Ntfs3gCapture.out_progress.
  destruct (match root with None => _ | Some d => _ end) as [ret h].
  apply out_reaches; [exact Hok | exact Hext].
Qed.

Lemma set_dos_names_inodes table map l : forall ret l' tr,
  set_dos_names table l map = Some (ret, l', tr) ->
  flat_map tree_inodes l' = flat_map tree_inodes l.
Proof.
  induction l as [|d l IH]; intros ret l' tr; simpl; [intros [= <- <- <-]; reflexivity|].
  destruct (set_dentry_dos_name table d map) as [[[r d'] t]|] eqn:Hd; [|discriminate].
  assert (Hd' : tree_inodes d' = tree_inodes d).
  { revert Hd. unfold set_dentry_dos_name.
    destruct (is_win32_name d); [|intros [= <- <- <-]; reflexivity].
    destruct (table !! d_inode d) as [i|]; [|discriminate]. simpl.
    destruct (lookup_dos_name map (i_ino i));
      intros [= <- <- <-]; destruct d; reflexivity. }
  simpl. destruct (nonzero r).
  - intros [= <- <- <-]. simpl. rewrite Hd'. reflexivity.
  - destruct (set_dos_names table l map) as [[[r' l''] t']|]; [|discriminate].
    simpl. intros [= <- <- <-]. simpl. rewrite Hd', (IH _ _ _ eq_refl).
    reflexivity.
Qed.

Lemma grows_refl ctx ctx' t :
  table_ok t -> ctx_parent ctx' = ctx_parent ctx -> grows ctx ctx' t t.
Proof.
  intros Hok Heq. split; [congruence|]. exists []. rewrite Heq, app_nil_r.
  split; [reflexivity | apply extends_refl; exact Hok].
Qed.

Lemma grows_trans ctx1 ctx2 ctx3 t1 t2 t3 :
  grows ctx1 ctx2 t1 t2 -> grows ctx2 ctx3 t2 t3 -> grows ctx1 ctx3 t1 t3.
Proof.
  intros (Hi1 & new1 & Hc1 & He1) (Hi2 & new2 & Hc2 & He2).
  split; [congruence|]. exists (new1 ++ new2).
  rewrite Hc2, Hc1, <- app_assoc. split; [reflexivity|].
  rewrite flat_map_app. eapply extends_trans; eauto.
Qed.

Lemma filldir_grows rec path ctx e st rc ctx' st' :
  recursion_ok rec -> table_ok (inode_table st) ->
  filldir rec path ctx e st = Some (rc, ctx', st') ->
  grows ctx ctx' (inode_table st) (inode_table st').
Proof.
  intros Hrec Hok. unfold Ntfs3gCapture.filldir.
  set (first := if has_flag (de_name_type e) FILE_NAME_DOS then _ else _).
  assert (Hfirst : forall r, first = Some r -> inode_table r.2 = inode_table st).
  { subst first. destruct (has_flag _ _); [|intros r [= <-]; reflexivity].
    destruct (insert_dos_name _ _ _ _) as [[[r1 m] t]|]; [|discriminate].
    simpl. intros r [= <-]. reflexivity. }
  destruct first as [[[ret map] st1]|]; [|discriminate].
  specialize (Hfirst _ eq_refl). simpl in Hfirst. simpl.
  assert (Hok1 : table_ok (inode_table st1)) by (rewrite Hfirst; exact Hok).
  rewrite <- Hfirst.
  destruct (has_flag _ _ && _);
    [intros [= <- <- <-]; apply grows_refl; auto|].
  destruct (is_dot_or_dotdot _);
    [intros [= <- <- <-]; apply grows_refl; auto|].
  destruct (utf16le_to_tstr _) as [ret' mbs].
  destruct (nonzero ret');
    [intros [= <- <- <-]; apply grows_refl; auto|].
  destruct (PATH_BUFFER_SIZE <=? _); [discriminate|].
  destruct (rec _ _ _ st1) as [[[ret'' child] st2]|] eqn:Hcall; [|discriminate].
  simpl. intros [= <- <- <-].
  destruct (Hrec _ _ _ _ _ Hok1 Hcall) as [Hext _]. simpl in Hext.
  destruct child as [c|]; simpl.
  - split; [destruct (ctx_parent ctx); reflexivity|].
    exists [c]. split; [destruct (ctx_parent ctx); reflexivity|].
    simpl. rewrite app_nil_r. exact Hext.
  - split; [reflexivity|]. exists []. rewrite app_nil_r.
    split; [reflexivity | exact Hext].
Qed.

Lemma readdir_entries_grows rec path entries : forall ctx st rc ctx' st',
  recursion_ok rec -> table_ok (inode_table st) ->
  readdir_entries rec path entries ctx st = Some (rc, ctx', st') ->
  grows ctx ctx' (inode_table st) (inode_table st').
Proof.
  induction entries as [|e entries IH]; intros ctx st rc ctx' st' Hrec Hok; simpl.
  { intros [= <- <- <-]. apply grows_refl; auto. }
  destruct (filldir rec path ctx e st) as [[[rc1 ctx1] st1]|] eqn:Hfill;
    [|discriminate].
  pose proof (filldir_grows _ _ _ _ _ _ _ _ Hrec Hok Hfill) as Hg1.
  simpl. destruct (nonzero rc1); [intros [= <- <- <-]; exact Hg1|].
  intros Hrest. eapply grows_trans; [exact Hg1|].
  eapply IH; [exact Hrec| |exact Hrest].
  destruct Hg1 as (_ & new & _ & Hext & _). exact Hext.
Qed.

Lemma recurse_directory_grows rec ni path parent st ret parent' st' :
  recursion_ok rec -> table_ok (inode_table st) ->
  recurse_directory rec ni path parent st = Some (ret, parent', st') ->
  d_inode parent' = d_inode parent /\
  exists new,
    flat_map tree_inodes (d_children parent') =
      flat_map tree_inodes (d_children parent) ++ flat_map tree_inodes new /\
    extends (inode_table st) (inode_table st') (flat_map tree_inodes new).
Proof.
  intros Hrec Hok. unfold Ntfs3gCapture.ntfs_3g_recurse_directory.
  destruct (ntfs_readdir ni) as [entries final].
  destruct (readdir_entries _ _ _ _ _) as [[[rc ctx] st1]|] eqn:Hrd;
    [|discriminate].
  destruct (readdir_entries_grows _ _ _ _ _ _ _ _ Hrec Hok Hrd)
    as (Hino & new & Hch & Hext).
  simpl in Hino, Hch. simpl.
  destruct (nonzero (if nonzero rc then rc else final)).
  - destruct (nonzero (ctx_ret ctx)); intros [= <- <- <-];
      (split; [exact Hino|]); exists new;
      (split; [rewrite Hch, flat_map_app; reflexivity | exact Hext]).
  - destruct (set_dos_names _ _ _) as [[[r children] tr]|] eqn:Hdos;
      [|discriminate].
    simpl. intros [= <- <- <-].
    split; [destruct (ctx_parent ctx); exact Hino|].
    exists new. split; [|exact Hext].
    replace (d_children (set_children (ctx_parent ctx) children)) with children
      by (destruct (ctx_parent ctx); reflexivity).
    rewrite (set_dos_names_inodes _ _ _ _ _ _ Hdos), Hch, flat_map_app.
    reflexivity.
Qed.

Lemma scan_new_inode_reaches rec ni path attributes root inode st t0 x o :
  recursion_ok rec -> table_ok t0 ->
  t0 !! d_inode root = None ->
  inode_table st = <[d_inode root := x]> t0 ->
  d_children root = [] ->
  i_ino inode = d_inode root -> i_nlink inode = 1 -> i_scans inode = 0%nat ->
  scan_new_inode rec ni path attributes root inode st = Some o ->
  reaches t0 o.
Proof.
  intros Hrec Hok Hnone Htab Hleaf Hino Hnl Hsc.
  unfold Ntfs3gCapture.scan_new_inode.
  set (ino := d_inode root) in *.
  assert (Hroot : tree_inodes root = [ino])
    by (rewrite tree_inodes_unfold, Hleaf; reflexivity).
  set (inode1 := start_scan inode ni attributes).
  assert (Hc1 : core inode1 = (ino, 1, 1%nat))
    by (unfold core; simpl; congruence).
  (* Every state on the way holds the table of [st], and every inode on
     the way has the core of [inode1]. *)
  assert (Hput : forall i st', core i = (ino, 1, 1%nat) ->
            inode_table st' = inode_table st ->
            extends t0 (inode_table (put_inode st' ino i)) (dentry_inodes (Some root))).
  { intros i st' Hc Ht. simpl. rewrite Ht, Htab, Hroot.
    unfold core in Hc. injection Hc as ? ? ?.
    apply extends_fresh; auto. }
  set (step1 := if has_flag attributes FILE_ATTRIBUTE_REPARSE_POINT then _ else _).
  assert (H1 : core step1.1.2 = (ino, 1, 1%nat) /\
               inode_table step1.2 = inode_table st).
  { subst step1. destruct (has_flag _ _); [|simpl; auto].
    destruct (scan_ntfs_attrs_with_type_core inode1 ni path AT_REPARSE_POINT st)
      as [Hc Ht]. split; [congruence | exact Ht]. }
  destruct step1 as [[ret1 inode2] st2]. simpl in H1. destruct H1 as [Hc2 Ht2].
  destruct (nonzero ret1).
  { intros [= <-]. apply out_reaches; auto. }
  destruct (scan_ntfs_attrs_with_type_core inode2 ni path AT_DATA st2)
    as [Hc3 Ht3].
  destruct (scan_ntfs_attrs_with_type inode2 ni path AT_DATA st2)
    as [[ret3 inode3] st3].
  simpl in Hc3, Ht3. rewrite Hc2 in Hc3. rewrite Ht2 in Ht3.
  destruct (nonzero ret3).
  { intros [= <-]. apply out_reaches; auto. }
  set (inode4 := if has_flag add_flags WIMLIB_ADD_FLAG_RPFIX && inode_is_symlink inode3
                 then _ else inode3).
  assert (Hc4 : core inode4 = (ino, 1, 1%nat)).
  { subst inode4. destruct (_ && _); [|exact Hc3]. rewrite <- Hc3.
    destruct inode3; reflexivity. }
  set (step5 := if negb (has_flag add_flags WIMLIB_ADD_FLAG_NO_ACLS) then _ else _).
  assert (H5 : forall r, step5 = Some r ->
            core r.1.2 = (ino, 1, 1%nat) /\ inode_table r.2 = inode_table st).
  { subst step5. destruct (negb _); [|intros r [= <-]; simpl; auto].
    destruct (get_security_descriptor ni inode4 (sd_set st3))
      as [[[ret5 inode5] set5]|] eqn:Hsd; [|discriminate].
    simpl. intros r [= <-]. simpl.
    pose proof (get_security_descriptor_retry_core _ _ _ _ _ _ Hsd) as Hc5.
    simpl in Hc5. split; [congruence|]. destruct (nonzero ret5); exact Ht3. }
  destruct step5 as [[[ret5 inode5] st5]|]; [|discriminate].
  destruct (H5 _ eq_refl) as [Hc5 Ht5]. simpl in Hc5, Ht5. simpl.
  pose proof (Hput inode5 st5 Hc5 Ht5) as Hext5.
  destruct (nonzero ret5).
  { intros [= <-]. apply out_reaches; auto. }
  destruct (inode_is_directory inode5).
  2:{ intros [= <-]. apply out_progress_reaches; auto. }
  destruct (recurse_directory rec ni path root (put_inode st5 ino inode5))
    as [[[ret6 root'] st6]|] eqn:Hdir; [|discriminate].
  destruct (recurse_directory_grows _ _ _ _ _ _ _ _ Hrec
              ltac:(destruct Hext5 as [Hok5 _]; exact Hok5) Hdir)
    as (Hino' & new & Hch & Hext6).
  assert (Hext : extends t0 (inode_table st6) (dentry_inodes (Some root'))).
  { simpl. rewrite tree_inodes_unfold, Hino', Hch, Hleaf. simpl.
    change (d_inode root :: flat_map tree_inodes new)
      with ([ino] ++ flat_map tree_inodes new).
    eapply extends_trans; [|exact Hext6].
    simpl in Hext5. rewrite Hroot in Hext5. exact Hext5. }
  simpl. destruct (nonzero ret6); intros [= <-].
  - apply out_reaches; auto.
  - apply out_progress_reaches; auto.
Qed.

Lemma build_dentry_ok rec :
  recursion_ok rec -> recursion_ok (build_dentry rec).
Proof.
  intros Hrec mref path name_type st o Hok.
  change (post st o) with (reaches (inode_table st) o).
  unfold Ntfs3gCapture.build_dentry.
  destruct (try_exclude path (hooks st)) as [ret h].
  pose proof (extends_refl _ Hok) as Hrefl.
  destruct (ret <? 0).
  { intros [= <-]. apply out_progress_reaches; auto. }
  destruct (0 <? ret).
  { intros [= <-]. apply out_reaches; auto. }
  destruct (ntfs_inode_open vol mref) as [ni|].
  2:{ intros [= <-]. apply out_reaches; auto. }
  destruct (ntfs_get_ntfs_attrib ni) as [got attributes].
  destruct (negb (got =? 4)).
  { intros [= <-]. apply out_reaches; auto. }
  destruct (has_flag attributes FILE_ATTRIBUTE_ENCRYPTED).
  { destruct (has_flag add_flags _).
    - intros [= <-]. apply out_reaches; auto.
    - destruct (do_capture_progress _ _ _ _) as [ret' h'].
      intros [= <-]. apply out_reaches; auto. }
  unfold inode_table_new_dentry. cbn [inode_table set_hooks].
  set (ino := mft_no ni).
  set (root0 := {| d_name := path_basename path; d_inode := ino;
                   is_win32_name := false; d_short_name := None;
                   d_short_name_nbytes := 0; d_children := [] |}).
  destruct (inode_table st !! ino) as [i|] eqn:Hi.
  - (* the inode is shared *)
    cbn [nonzero Z.eqb negb].
    set (root := if has_flag name_type FILE_NAME_WIN32 then _ else _).
    assert (Hroot : tree_inodes root = [ino])
      by (subst root; destruct (has_flag _ _); reflexivity).
    assert (Hd : d_inode root = ino)
      by (subst root; destruct (has_flag _ _); reflexivity).
    cbn [inode_table set_inode_table]. rewrite Hd, lookup_insert_eq. simpl.
    destruct (Hok _ _ Hi) as (_ & Hn & _).
    replace (1 <? i_nlink i + 1) with true by (symmetry; apply Z.ltb_lt; lia).
    intros [= <-]. apply out_progress_reaches; [exact Hok|].
    simpl. rewrite Hroot. apply extends_shared; assumption.
  - (* the inode is new *)
    cbn [nonzero Z.eqb negb].
    set (root := if has_flag name_type FILE_NAME_WIN32 then _ else _).
    assert (Hleaf : d_children root = [])
      by (subst root; destruct (has_flag _ _); reflexivity).
    assert (Hd : d_inode root = ino)
      by (subst root; destruct (has_flag _ _); reflexivity).
    cbn [inode_table set_inode_table]. rewrite Hd, lookup_insert_eq. simpl.
    intros Hscan.
    eapply (scan_new_inode_reaches rec ni path attributes root (new_inode ino)
              (set_inode_table (set_hooks st h)
                 (<[ino := new_inode ino]> (inode_table st)))
              (inode_table st) (new_inode ino) o Hrec Hok);
      [rewrite Hd; exact Hi | rewrite Hd; reflexivity | exact Hleaf
      | rewrite Hd; reflexivity | reflexivity | reflexivity | exact Hscan].
Qed.

Lemma build_ok fuel : recursion_ok (build fuel).
Proof.
  induction fuel as [|fuel IH]; simpl.
  - intros mref path name_type st o _. discriminate.
  - apply build_dentry_ok. exact IH.
Qed.
End RecursionFacts.

End Ntfs3gCaptureTheory.

(** * Properties of the metadata reader *)

Module MetadataResourceTheory.
Import MetadataResource.

Lemma root_shape_eq d d' :
  root_shape d' = root_shape d ->
  dentry_is_directory d' = dentry_is_directory d /\
  (nameless d -> nameless d').
Proof.
  unfold root_shape, nameless, dentry_has_long_name, dentry_has_short_name.
  intros [= -> -> ->]. tauto.
Qed.

Section ReaderFacts.

Variable read_full_stream_into_alloc_buf :
  wim_lookup_table_entry -> Z * list byte.
Variable sha1_buffer : list byte -> list byte.
Variable read_wim_security_data :
  list byte -> Z -> Z * wim_security_data.
Variable read_dentry : list byte -> Z -> Z -> Z * wim_dentry.
Variable inode_add_dentry : wim_dentry -> wim_dentry.
Variable read_dentry_tree : list byte -> Z -> wim_dentry -> Z * wim_dentry.
Variable dentry_tree_fix_inodes :
  wim_dentry -> Z * wim_dentry * list wim_inode.
Variable verify_inode : wim_inode -> wim_security_data -> Z.

Local Abbreviation read :=
  (read_metadata_resource read_full_stream_into_alloc_buf sha1_buffer
     read_wim_security_data read_dentry inode_add_dentry read_dentry_tree
     dentry_tree_fix_inodes verify_inode).
Local Abbreviation from_buffer :=
  (read_from_buffer read_wim_security_data read_dentry inode_add_dentry
     read_dentry_tree dentry_tree_fix_inodes verify_inode).
Local Abbreviation from_root :=
  (read_from_root inode_add_dentry read_dentry_tree dentry_tree_fix_inodes
     verify_inode).
Local Abbreviation decodes_root :=
  (decodes_root read_full_stream_into_alloc_buf sha1_buffer
     read_wim_security_data read_dentry).

Lemma verify_inodes_trace l sd :
  Forall (fun e => ~ is_sha1 e) (verify_inodes verify_inode l sd).2.
Proof.
  induction l as [|i l IH]; simpl; [constructor|].
  destruct (nonzero (verify_inode i sd)); simpl.
  - repeat constructor. intros [n ?]; discriminate.
  - destruct (verify_inodes verify_inode l sd) as [r t]; simpl in *.
    constructor; [intros [n ?]; discriminate | exact IH].
Qed.

Lemma verify_inodes_ok l sd :
  Forall (fun i => verify_inode i sd = 0) l ->
  (verify_inodes verify_inode l sd).1 = 0.
Proof.
  induction 1 as [|i l Hi _ IH]; simpl; [reflexivity|].
  rewrite Hi; simpl.
  destruct (verify_inodes verify_inode l sd); exact IH.
Qed.

Local Ltac no_sha1 :=
  repeat first
    [ apply Forall_app; split
    | apply Forall_cons; split; [intros [? ?]; discriminate|]
    | apply Forall_nil_2
    | assumption ].

Lemma from_root_trace imd buf len sd root tr :
  Forall (fun e => ~ is_sha1 e) tr ->
  Forall (fun e => ~ is_sha1 e) (from_root imd buf len sd root tr).2.
Proof.
  intros Htr. unfold read_from_root, out_success.
  pose proof (verify_inodes_trace) as Hv.
  repeat match goal with
  | |- context [if ?c then _ else _] => destruct c
  | |- context [let '(_, _) := ?p in _] =>
      let H := fresh in destruct p eqn:H
  | p : (_ * _)%type |- _ => destruct p
  end; simpl; no_sha1;
  match goal with
  | H : verify_inodes _ ?l ?s = _ |- _ =>
      specialize (Hv l s); rewrite H in Hv; exact Hv
  end.
Qed.

Lemma from_buffer_trace imd buf len tr :
  Forall (fun e => ~ is_sha1 e) tr ->
  Forall (fun e => ~ is_sha1 e) (from_buffer imd buf len tr).2.
Proof.
  intros Htr. unfold read_from_buffer, out_success.
  destruct (read_wim_security_data buf len) as [ret sd].
  destruct (nonzero ret); [simpl; no_sha1|].
  destruct (read_dentry buf len (total_length sd)) as [ret' root].
  destruct ((ret' =? 0) && (length root =? 0)); [simpl; no_sha1|].
  destruct (nonzero ret'); [simpl; no_sha1|].
  apply from_root_trace. no_sha1.
Qed.

(** C9.  A resource shorter than 8 bytes of security data plus the
    102 bytes of a minimal dentry, that is shorter than 110 bytes, is
    rejected with [WIMLIB_ERR_INVALID_METADATA_RESOURCE] at once: the
    image is left as it was and the run consists of the error message
    alone, whatever the collaborators would have done. *)
Theorem read_rejects_short_resource (imd : wim_image_metadata) :
  size (metadata_lte imd) < 8 + WIM_DENTRY_DISK_SIZE ->
  8 + WIM_DENTRY_DISK_SIZE = 110 /\
  exists msg,
    read imd = (WIMLIB_ERR_INVALID_METADATA_RESOURCE, imd, [EvError msg]).
Proof.
  intros Hlen. split; [reflexivity|].
  unfold read_metadata_resource.
  apply Z.ltb_lt in Hlen. rewrite Hlen. eauto.
Qed.

(** C3.  Let the resource be read into [buf] and let the SHA-1 of [buf]
    differ from the hash of the lookup table entry.  When
    [dont_check_metadata_hash] is unset the reader fails with
    [WIMLIB_ERR_INVALID_METADATA_RESOURCE] and leaves the image as it
    was.  When it is set the reader goes on to parse [buf] as if the hash
    had matched.  For a resource of at least 110 bytes, the hash is
    computed in the run exactly when the flag is unset. *)
Theorem hash_checked_unless_flagged (imd : wim_image_metadata)
    (buf : list byte) :
  let lte := metadata_lte imd in
  read_full_stream_into_alloc_buf lte = (0, buf) ->
  sha1_buffer (take (Z.to_nat (size lte)) buf) <> hash lte ->
  (dont_check_metadata_hash lte = false ->
     (read imd).1.1 = WIMLIB_ERR_INVALID_METADATA_RESOURCE /\
     (read imd).1.2 = imd) /\
  (dont_check_metadata_hash lte = true ->
     8 + WIM_DENTRY_DISK_SIZE <= size lte ->
     read imd = from_buffer imd buf (size lte) [EvReadStream]) /\
  (8 + WIM_DENTRY_DISK_SIZE <= size lte ->
     Exists is_sha1 (read imd).2 <->
     dont_check_metadata_hash lte = false).
Proof.
  intros lte Hbuf Hne. unfold read_metadata_resource. fold lte.
  rewrite Hbuf. simpl.
  assert (Heq : hashes_equal (hash lte)
                  (sha1_buffer (take (Z.to_nat (size lte)) buf)) = false).
  { unfold hashes_equal. apply bool_decide_eq_false. congruence. }
  split; [|split].
  - intros Hflag. rewrite Hflag. simpl. rewrite Heq. simpl.
    destruct (size lte <? 8 + WIM_DENTRY_DISK_SIZE); auto.
  - intros Hflag Hlen. rewrite Hflag. simpl.
    apply Z.ltb_ge in Hlen. rewrite Hlen. reflexivity.
  - intros Hlen. apply Z.ltb_ge in Hlen. rewrite Hlen.
    destruct (dont_check_metadata_hash lte); simpl.
    + split; [|discriminate]. intros Hex. exfalso.
      apply Exists_exists in Hex as (e & Hin & Hsha).
      pose proof (from_buffer_trace imd buf (size lte) [EvReadStream]
                    ltac:(no_sha1)) as Hall.
      rewrite Forall_forall in Hall. exact (Hall e Hin Hsha).
    + rewrite Heq. simpl. split; [reflexivity|]. intros _.
      apply Exists_cons_tl, Exists_cons_hd. eexists; reflexivity.
Qed.

(** C4, as the code has it.  For a resource of at least 110 bytes that
    was read into [buf], whose hash is not checked or matches, and whose
    security data parses to [sd]: when [read_dentry] reports an entry of
    length 0 at offset [total_length sd], the reader succeeds; the root
    of the image is null, its security data is [sd] and its list of
    unhashed streams is empty. *)
Theorem empty_image_is_read (imd : wim_image_metadata) (buf : list byte)
    (sd : wim_security_data) (root : wim_dentry) :
  let lte := metadata_lte imd in
  8 + WIM_DENTRY_DISK_SIZE <= size lte ->
  read_full_stream_into_alloc_buf lte = (0, buf) ->
  (dont_check_metadata_hash lte = true \/
   sha1_buffer (take (Z.to_nat (size lte)) buf) = hash lte) ->
  read_wim_security_data buf (size lte) = (0, sd) ->
  read_dentry buf (size lte) (total_length sd) = (0, root) ->
  length root = 0 ->
  exists tr,
    read imd =
      (0,
       {| metadata_lte := lte; root_dentry := None;
          security_data := Some sd; inode_list := inode_list imd;
          unhashed_streams := [] |},
       tr).
Proof.
  intros lte Hlen Hbuf Hhash Hsd Hroot Hzero.
  assert (Hfrom : forall tr, exists tr',
     from_buffer imd buf (size lte) tr =
       (0, {| metadata_lte := lte; root_dentry := None;
              security_data := Some sd; inode_list := inode_list imd;
              unhashed_streams := [] |}, tr')).
  { intros tr. unfold read_from_buffer. rewrite Hsd. simpl.
    rewrite Hroot, Hzero. simpl. unfold out_success. eauto. }
  unfold read_metadata_resource. fold lte.
  apply Z.ltb_ge in Hlen. rewrite Hlen, Hbuf. simpl.
  destruct (dont_check_metadata_hash lte) eqn:Hflag; simpl; [apply Hfrom|].
  destruct Hhash as [|Hhash]; [discriminate|].
  unfold hashes_equal. rewrite bool_decide_eq_true_2 by congruence.
  simpl. apply Hfrom.
Qed.

(** The collaborators that work on the dentry tree leave the names and
    the kind of the root alone. *)
Hypothesis inode_add_dentry_shape :
  forall d, root_shape (inode_add_dentry d) = root_shape d.
Hypothesis read_dentry_tree_shape :
  forall buf len d d',
    read_dentry_tree buf len d = (0, d') -> root_shape d' = root_shape d.
Hypothesis dentry_tree_fix_inodes_shape :
  forall d d' l,
    dentry_tree_fix_inodes d = (0, d', l) -> root_shape d' = root_shape d.

Lemma from_root_shape imd buf len sd root0 tr imd' tr' root :
  from_root imd buf len sd root0 tr = (0, imd', tr') ->
  root_dentry imd' = Some root ->
  dentry_is_directory root = true /\ nameless root.
Proof.
  unfold read_from_root.
  set (r1 := if dentry_has_long_name root0 || dentry_has_short_name root0
             then _ else _).
  assert (Hr1 : nameless r1.1).
  { subst r1.
    destruct (dentry_has_long_name root0 || dentry_has_short_name root0) eqn:Hn.
    - split; reflexivity.
    - apply orb_false_iff in Hn. exact Hn. }
  destruct r1 as [root1 tr1]. simpl in Hr1.
  destruct (dentry_is_directory root1) eqn:Hdir; simpl; [|discriminate].
  destruct (read_dentry_tree buf len (inode_add_dentry root1))
    as [ret2 root2] eqn:Htree.
  destruct (nonzero ret2) eqn:Hz2;
    [intros [= ? ? ?]; subst; discriminate|].
  apply nonzero_false in Hz2. subst ret2.
  destruct (dentry_tree_fix_inodes root2) as [[ret3 root3] inodes] eqn:Hfix.
  destruct (nonzero ret3) eqn:Hz3;
    [intros [= ? ? ?]; subst; discriminate|].
  apply nonzero_false in Hz3. subst ret3.
  destruct (verify_inodes verify_inode inodes sd) as [ret4 tr4].
  destruct (nonzero ret4) eqn:Hz4;
    [intros [= ? ? ?]; subst; discriminate|].
  unfold out_success. intros [= <- <-]. simpl. intros [= <-].
  destruct (root_shape_eq _ _ (inode_add_dentry_shape root1)) as [Ha1 Ha2].
  destruct (root_shape_eq _ _ (read_dentry_tree_shape _ _ _ _ Htree)) as [Hb1 Hb2].
  destruct (root_shape_eq _ _ (dentry_tree_fix_inodes_shape _ _ _ Hfix)) as [Hc1 Hc2].
  split; [congruence | auto].
Qed.


Lemma read_decoded_root imd buf sd root0 :
  decodes_root imd buf sd root0 ->
  exists tr,
    read imd = from_root imd buf (size (metadata_lte imd)) sd root0 tr.
Proof.
  intros (Hlen & Hbuf & Hhash & Hsd & Hroot & Hnz).
  assert (Hfrom : forall tr, exists tr',
     from_buffer imd buf (size (metadata_lte imd)) tr =
     from_root imd buf (size (metadata_lte imd)) sd root0 tr').
  { intros tr. unfold read_from_buffer. rewrite Hsd. simpl. rewrite Hroot.
    apply Z.eqb_neq in Hnz. rewrite Hnz. simpl. eauto. }
  unfold read_metadata_resource.
  apply Z.ltb_ge in Hlen. rewrite Hlen, Hbuf. simpl.
  destruct (dont_check_metadata_hash (metadata_lte imd)); simpl;
    [apply Hfrom|].
  destruct Hhash as [|Hhash]; [discriminate|].
  unfold hashes_equal. rewrite bool_decide_eq_true_2 by congruence.
  simpl. apply Hfrom.
Qed.

Lemma read_success_root imd imd' tr root :
  read imd = (0, imd', tr) -> root_dentry imd' = Some root ->
  exists buf len sd root0 tr0,
    from_root imd buf len sd root0 tr0 = (0, imd', tr).
Proof.
  unfold read_metadata_resource.
  destruct (size (metadata_lte imd) <? 8 + WIM_DENTRY_DISK_SIZE);
    [discriminate|].
  destruct (read_full_stream_into_alloc_buf (metadata_lte imd)) as [ret buf].
  destruct (nonzero ret) eqn:Hz; [intros [= ? ? ?]; subst; discriminate|].
  assert (Hfrom : forall tr0,
     from_buffer imd buf (size (metadata_lte imd)) tr0 = (0, imd', tr) ->
     root_dentry imd' = Some root ->
     exists buf len sd root0 tr0,
       from_root imd buf len sd root0 tr0 = (0, imd', tr)).
  { intros tr0. unfold read_from_buffer.
    destruct (read_wim_security_data buf (size (metadata_lte imd)))
      as [ret1 sd].
    destruct (nonzero ret1) eqn:Hz1;
      [intros [= ? ? ?]; subst; discriminate|].
    destruct (read_dentry buf (size (metadata_lte imd)) (total_length sd))
      as [ret2 root0].
    destruct ((ret2 =? 0) && (length root0 =? 0)).
    { unfold out_success. intros [= <- <-]. discriminate. }
    destruct (nonzero ret2) eqn:Hz2;
      [intros [= ? ? ?]; subst; discriminate|].
    eauto 10. }
  destruct (negb (dont_check_metadata_hash (metadata_lte imd)));
    [|apply Hfrom].
  destruct (negb (hashes_equal _ _)); [discriminate | apply Hfrom].
Qed.

(** C5.  Whenever the reader succeeds and returns a root, that root is a
    directory and has neither a long nor a short name.  When the run
    decodes a root [root0]: if [root0] is not a directory the reader
    fails with [WIMLIB_ERR_INVALID_METADATA_RESOURCE]; if it is one, and
    the rest of the tree is read and verified without error, the reader
    succeeds whether or not [root0] carries a name, and a name is
    reported by a warning. *)
Theorem root_is_nameless_directory :
  (forall imd imd' tr root,
      read imd = (0, imd', tr) -> root_dentry imd' = Some root ->
      dentry_is_directory root = true /\ nameless root) /\
  (forall imd buf sd root0,
      decodes_root imd buf sd root0 ->
      (dentry_is_directory root0 = false ->
         (read imd).1.1 = WIMLIB_ERR_INVALID_METADATA_RESOURCE) /\
      (dentry_is_directory root0 = true ->
         forall r2 r3 inodes,
           read_dentry_tree buf (size (metadata_lte imd))
             (inode_add_dentry
                (if dentry_has_long_name root0 || dentry_has_short_name root0
                 then remove_root_name root0 else root0)) = (0, r2) ->
           dentry_tree_fix_inodes r2 = (0, r3, inodes) ->
           Forall (fun i => verify_inode i sd = 0) inodes ->
           exists tr,
             read imd =
               (0,
                {| metadata_lte := metadata_lte imd;
                   root_dentry := Some r3;
                   security_data := Some sd;
                   inode_list := inodes;
                   unhashed_streams := [] |},
                tr) /\
             (~ nameless root0 -> Exists (fun e => exists msg, e = EvWarning msg) tr))).
Proof.
  split.
  - intros imd imd' tr root Hread Hroot.
    destruct (read_success_root _ _ _ _ Hread Hroot)
      as (buf & len & sd & root0 & tr0 & Hfrom).
    eapply from_root_shape; eauto.
  - intros imd buf sd root0 Hdec.
    destruct (read_decoded_root _ _ _ _ Hdec) as [tr0 ->].
    unfold read_from_root. split.
    + intros Hdir.
      destruct (dentry_has_long_name root0 || dentry_has_short_name root0);
        unfold dentry_is_directory in *; simpl; rewrite Hdir; reflexivity.
    + intros Hdir r2 r3 inodes Htree Hfix Hver.
      apply verify_inodes_ok in Hver.
      destruct (verify_inodes verify_inode inodes sd) as [ret4 tr4] eqn:Hv.
      simpl in Hver. subst ret4.
      destruct (dentry_has_long_name root0 || dentry_has_short_name root0)
        eqn:Hname;
        unfold dentry_is_directory in *; simpl; rewrite Hdir; simpl;
        rewrite Htree; simpl; rewrite Hfix; simpl; rewrite Hv; simpl;
        unfold out_success; simpl; eexists; (split; [reflexivity|]).
      * intros _. rewrite !Exists_app. left. left. left. right.
        apply Exists_cons_hd. eauto.
      * intros Hn. exfalso. apply Hn. apply orb_false_iff in Hname. exact Hname.
Qed.

End ReaderFacts.

(** ** Runs of the reader on buffers *)

Lemma read_rejects_short_resource_witness :
  20 < 8 + WIM_DENTRY_DISK_SIZE /\
  exists msg,
    read_image (repeat x00 20) (image_of 20 [] false) =
      (WIMLIB_ERR_INVALID_METADATA_RESOURCE, image_of 20 [] false,
       [EvError msg]).
Proof.
  split; [reflexivity|].
  apply (read_rejects_short_resource
           (read_full_stream_of (repeat x00 20)) digest_buffer
           read_wim_security_data read_dentry inode_add_dentry
           read_dentry_tree dentry_tree_fix_inodes verify_inode
           (image_of 20 [] false)).
  reflexivity.
Defined.

Lemma hash_checked_unless_flagged_witness :
  let imd := image_of 110 [] true in
  digest_buffer (take (Z.to_nat 110) padded_empty_image) <> [] /\
  (read_image padded_empty_image imd).1.1 = 0 /\
  (Exists is_sha1 (read_image padded_empty_image imd).2 <-> true = false).
Proof.
  intros imd.
  assert (Hne : digest_buffer (take (Z.to_nat 110) padded_empty_image) <> [])
    by (vm_compute; discriminate).
  split; [exact Hne|].
  destruct (hash_checked_unless_flagged
              (read_full_stream_of padded_empty_image) digest_buffer
              read_wim_security_data read_dentry inode_add_dentry
              read_dentry_tree dentry_tree_fix_inodes verify_inode
              imd padded_empty_image eq_refl Hne) as (_ & Hskip & Hiff).
  split.
  - unfold read_image. rewrite (Hskip eq_refl); [reflexivity|].
    vm_compute; discriminate.
  - apply Hiff. vm_compute; discriminate.
Defined.

(** With the flag unset, the same buffer is rejected. *)
Example hash_mismatch_rejected :
  read_image padded_empty_image (image_of 110 [] false) =
    (WIMLIB_ERR_INVALID_METADATA_RESOURCE, image_of 110 [] false,
     [EvReadStream; EvSha1 110;
      EvError "Metadata resource is corrupted (invalid SHA-1 message digest)!"]).
Proof. vm_compute. reflexivity. Qed.

(** C4, the claim as stated fails: in the minimal buffer of 16 bytes the
    security data parses (8 bytes, no entry) and the root position holds
    an entry of length 0, yet the reader rejects the buffer, because it
    is shorter than 110 bytes. *)
Lemma minimal_empty_image_rejected :
  read_wim_security_data minimal_empty_image 16 = (0, empty_security_data) /\
  total_length empty_security_data = 8 /\
  get_le 8 minimal_empty_image 8 = 0 /\
  (read_dentry minimal_empty_image 16 8).1 = 0 /\
  length (read_dentry minimal_empty_image 16 8).2 = 0 /\
  (read_image minimal_empty_image (image_of 16 [] true)).1.1 =
    WIMLIB_ERR_INVALID_METADATA_RESOURCE /\
  (read_image minimal_empty_image (image_of 16 [] true)).1.1 <> 0.
Proof. vm_compute. repeat split; discriminate. Qed.

Lemma empty_image_is_read_witness :
  exists tr,
    read_image padded_empty_image (image_of 110 [] true) =
      (0,
       {| metadata_lte := metadata_lte (image_of 110 [] true);
          root_dentry := None;
          security_data := Some empty_security_data;
          inode_list := [];
          unhashed_streams := [] |},
       tr) /\
    num_entries empty_security_data = 0.
Proof.
  destruct (empty_image_is_read
              (read_full_stream_of padded_empty_image) digest_buffer
              read_wim_security_data read_dentry inode_add_dentry
              read_dentry_tree dentry_tree_fix_inodes verify_inode
              (image_of 110 [] true) padded_empty_image
              empty_security_data end_of_directory)
    as [tr Htr].
  - vm_compute; discriminate.
  - reflexivity.
  - left; reflexivity.
  - reflexivity.
  - reflexivity.
  - reflexivity.
  - exists tr. split; [exact Htr | reflexivity].
Defined.

(** The collaborators modelled from the format description keep the
    names and the kind of the root. *)
Lemma read_dentry_tree_keeps_shape buf len d d' :
  read_dentry_tree buf len d = (0, d') -> root_shape d' = root_shape d.
Proof.
  unfold read_dentry_tree. simpl.
  destruct (subdir_offset d =? 0); [intros [= <-]; reflexivity|].
  destruct (read_siblings_fuel _ buf len (subdir_offset d)) as [ret l].
  intros [= -> <-]. reflexivity.
Qed.

Lemma fix_inodes_keeps_shape d d' l :
  dentry_tree_fix_inodes d = (0, d', l) -> root_shape d' = root_shape d.
Proof. intros [= <- _]. reflexivity. Qed.

Lemma root_is_nameless_directory_witness :
  exists imd' tr root,
    read_image (named_root_image FILE_ATTRIBUTE_DIRECTORY)
      (image_of 128 [] true) = (0, imd', tr) /\
    root_dentry imd' = Some root /\
    dentry_is_directory root = true /\ nameless root.
Proof.
  eexists _, _, _. split; [vm_compute; reflexivity|].
  split; [reflexivity|].
  eapply (proj1 (root_is_nameless_directory
                  (read_full_stream_of (named_root_image FILE_ATTRIBUTE_DIRECTORY))
                  digest_buffer read_wim_security_data read_dentry
                  inode_add_dentry read_dentry_tree dentry_tree_fix_inodes
                  verify_inode (fun d => eq_refl)
                  read_dentry_tree_keeps_shape fix_inodes_keeps_shape)
           (image_of 128 [] true));
    [vm_compute; reflexivity | reflexivity].
Defined.

(** A root carrying the name ["X"] is accepted, with a warning, and
    comes back without its name; the same root without the directory
    attribute is rejected. *)
Example named_root_accepted :
  exists imd' root,
    read_image (named_root_image FILE_ATTRIBUTE_DIRECTORY)
      (image_of 128 [] true) =
      (0, imd',
       [EvReadStream; EvReadSecurityData; EvReadDentry 8;
        EvWarning "The root directory has a nonempty name (removing it)";
        EvReadDentryTree; EvFixInodes; EvVerifyInode]) /\
    (read_dentry (named_root_image FILE_ATTRIBUTE_DIRECTORY) 128 8).2
      .(file_name) = Some [88; 0] /\
    root_dentry imd' = Some root /\
    file_name root = None /\ file_name_nbytes root = 0.
Proof. vm_compute. eexists _, _. repeat split; reflexivity. Qed.

Example root_file_rejected :
  (read_image (named_root_image 0x20) (image_of 128 [] true)).1.1 =
    WIMLIB_ERR_INVALID_METADATA_RESOURCE.
Proof. vm_compute. reflexivity. Qed.

(** * Properties of the metadata writer *)

Lemma align8_spec x : align8 x = 8 * ((x + 7) / 8).
Proof.
  unfold align8. rewrite <- Z.ldiff_land.
  change 7 with (Z.ones 3) at 2.
  rewrite Z.ldiff_ones_r by lia.
  rewrite Z.shiftl_mul_pow2, Z.shiftr_div_pow2 by lia.
  change (2 ^ 3) with 8. lia.
Qed.

Lemma land_mask_u32 x :
  0 <= x < 2 ^ 32 -> Z.land x (u32 (Z.lnot 7)) = align8 (x - 7).
Proof.
  intros Hx. rewrite align8_spec.
  change (u32 (Z.lnot 7)) with (Z.land (Z.lnot 7) (Z.ones 32)).
  rewrite (Z.land_comm (Z.lnot 7)), Z.land_assoc, Z.land_ones by lia.
  rewrite Z.mod_small by lia.
  replace x with (x - 7 + 7) at 1 by lia.
  fold (align8 (x - 7)). apply align8_spec.
Qed.

Lemma land_mask_u64 x :
  0 <= x < 2 ^ 64 -> Z.land x (u64 (Z.lnot 7)) = align8 (x - 7).
Proof.
  intros Hx. rewrite align8_spec.
  change (u64 (Z.lnot 7)) with (Z.land (Z.lnot 7) (Z.ones 64)).
  rewrite (Z.land_comm (Z.lnot 7)), Z.land_assoc, Z.land_ones by lia.
  rewrite Z.mod_small by lia.
  replace x with (x - 7 + 7) at 1 by lia.
  fold (align8 (x - 7)). apply align8_spec.
Qed.

Lemma length_Z_to_le n x : List.length (Z_to_le n x) = n.
Proof. revert x. induction n; intros; simpl; auto. Qed.

Lemma length_pad8 (l : list byte) :
  Z.of_nat (List.length (pad8 l)) = 8 * ((Z.of_nat (List.length l) + 7) / 8).
Proof.
  unfold pad8. rewrite length_app, repeat_length, Nat2Z.inj_add.
  rewrite Z2Nat.id by (apply Z.mod_pos_bound; lia).
  set (n := Z.of_nat (List.length l)).
  pose proof (Z.div_mod (n + 7) 8 ltac:(lia)).
  pose proof (Z.mod_pos_bound (n + 7) 8 ltac:(lia)).
  pose proof (Z.div_mod (- n) 8 ltac:(lia)).
  pose proof (Z.mod_pos_bound (- n) 8 ltac:(lia)).
  lia.
Qed.

Lemma foldl_u32 a l :
  foldl (fun acc sz => u32 (acc + sz)) (u32 a) l = u32 (a + sum_list l).
Proof.
  revert a. induction l as [|x l IH]; intros a; simpl.
  - f_equal. lia.
  - rewrite IH. unfold u32. rewrite <- Z.add_assoc, Zplus_mod_idemp_l.
    f_equal; lia.
Qed.

Lemma foldl_u64 {A} (f : A -> Z) a l :
  u64 (foldl (fun acc c => u64 (acc + f c)) a l) = u64 (a + sum_list (map f l)).
Proof.
  revert a. induction l as [|x l IH]; intros a; simpl.
  - f_equal. lia.
  - rewrite IH. unfold u64. rewrite Zplus_mod_idemp_l.
    f_equal; lia.
Qed.

Lemma u64_add_l a b : u64 (u64 a + b) = u64 (a + b).
Proof. unfold u64. apply Zplus_mod_idemp_l. Qed.

Section WriterFacts.
Variable dentry_out_total_length : wim_dentry -> Z.
Variable write_dentry : wim_dentry -> list byte.
Hypothesis write_dentry_length :
  forall d, Z.of_nat (List.length (write_dentry d)) = dentry_out_total_length d.
Hypothesis out_length_local :
  forall len off off' fn fnb sn snb ino l l',
    dentry_out_total_length (Dentry len off fn fnb sn snb ino l) =
    dentry_out_total_length (Dentry len off' fn fnb sn snb ino l').

Local Abbreviation calc := (calculate_subdir_offsets dentry_out_total_length).
Local Abbreviation wrec := (write_dentry_tree_recursive write_dentry).

Fixpoint wim_dentry_forall_ind (P : wim_dentry -> Prop)
    (H : forall len off fn fnb sn snb ino l,
        Forall P l -> P (Dentry len off fn fnb sn snb ino l))
    (d : wim_dentry) : P d :=
  match d with
  | Dentry len off fn fnb sn snb ino l =>
      H len off fn fnb sn snb ino l
        ((fix go (l : list wim_dentry) : Forall P l :=
            match l with
            | [] => Forall_nil_2 P
            | c :: l' => Forall_cons_2 P c l' (wim_dentry_forall_ind P H c) (go l')
            end) l)
  end.

Lemma calc_out_length d off :
  dentry_out_total_length (calc d off).1 = dentry_out_total_length d.
Proof.
  destruct d as [len o fn fnb sn snb ino l]. simpl.
  destruct (inode_is_directory ino); simpl.
  - destruct (walk_children _ _ _) as [l' cur']. simpl. apply out_length_local.
  - apply out_length_local.
Qed.

Lemma walk_children_spec l :
  Forall (fun d => forall off,
            u64 (calc d off).2 = u64 (off + bytes_of (wrec (calc d off).1))) l ->
  forall cur,
    let r := walk_children calc l cur in
    u64 r.2 = u64 (cur + bytes_of (flat_map wrec r.1)) /\
    bytes_of (flat_map write_dentry r.1) = sum_list (map dentry_out_total_length l).
Proof.
  induction 1 as [|c l Hc _ IH]; intros cur; simpl.
  - split; [f_equal; unfold bytes_of; simpl; lia | reflexivity].
  - specialize (Hc cur). pose proof (calc_out_length c cur) as Hlen.
    destruct (calc c cur) as [c' cur1]. simpl in *.
    specialize (IH cur1).
    destruct (walk_children calc l cur1) as [l' cur2]. simpl in *.
    destruct IH as [IH1 IH2]. unfold bytes_of in *.
    rewrite !length_app, !Nat2Z.inj_add. rewrite IH2, write_dentry_length, Hlen.
    split; [|reflexivity].
    rewrite IH1, <- u64_add_l, Hc, u64_add_l.
    f_equal; lia.
Qed.

Lemma calculate_subdir_offsets_spec d :
  forall off,
    u64 (calc d off).2 = u64 (off + bytes_of (wrec (calc d off).1)).
Proof.
  induction d as [len o fn fnb sn snb ino l IH] using wim_dentry_forall_ind.
  intros off. simpl.
  destruct (inode_is_directory ino) eqn:Hdir; simpl.
  - pose proof (walk_children_spec l IH) as Hw.
    set (cur := u64 (foldl _ off l + 8)) in *.
    specialize (Hw cur).
    destruct (walk_children calc l cur) as [l' cur'] eqn:Hwalk. simpl in *.
    rewrite Hdir. destruct Hw as [Hw1 Hw2].
    unfold bytes_of in *. rewrite !length_app, !Nat2Z.inj_add, Hw2.
    rewrite Hw1. subst cur. rewrite u64_add_l, <- Z.add_assoc.
    rewrite <- (u64_add_l (foldl _ _ _)), foldl_u64, u64_add_l.
    f_equal. simpl List.length. lia.
  - rewrite Hdir. f_equal. unfold bytes_of. simpl. lia.
Qed.

Lemma calc_range d :
  forall off, 0 <= off < 2 ^ 64 -> 0 <= (calc d off).2 < 2 ^ 64.
Proof.
  induction d as [len o fn fnb sn snb ino l IH] using wim_dentry_forall_ind.
  intros off Hoff. simpl.
  destruct (inode_is_directory ino); simpl; [|exact Hoff].
  set (cur := u64 (foldl _ off l + 8)).
  assert (Hcur : 0 <= cur < 2 ^ 64) by (apply Z.mod_pos_bound; lia).
  clearbody cur. revert cur Hcur.
  induction IH as [|c l Hc _ IHl]; intros cur Hcur; simpl; [exact Hcur|].
  specialize (Hc cur Hcur). destruct (calc c cur) as [c' cur1]. simpl in Hc.
  specialize (IHl cur1 Hc).
  destruct (walk_children calc l cur1) as [l' cur2]. exact IHl.
Qed.

Lemma sum_list_nonneg_lengths (ds : list (list byte)) :
  0 <= sum_list (map (fun d => Z.of_nat (List.length d)) ds) /\
  Z.of_nat (List.length (concat ds)) =
    sum_list (map (fun d => Z.of_nat (List.length d)) ds).
Proof.
  induction ds as [|d ds [IH1 IH2]]; simpl; [lia|].
  rewrite length_app, Nat2Z.inj_add. lia.
Qed.

Lemma length_flat_map_le (l : list Z) :
  Z.of_nat (List.length (flat_map (Z_to_le 8) l)) = 8 * Z.of_nat (List.length l).
Proof.
  induction l as [|x l IH]; [reflexivity|].
  cbn [flat_map]. rewrite length_app, length_Z_to_le, Nat2Z.inj_add.
  cbn [List.length]. lia.
Qed.

Lemma length_write_wim_security_data sd :
  bytes_of (write_wim_security_data sd) =
    align8 (8 + 8 * Z.of_nat (List.length (sizes sd))
            + Z.of_nat (List.length (concat (descriptors sd)))).
Proof.
  unfold bytes_of, write_wim_security_data. rewrite length_pad8, align8_spec.
  rewrite !length_app, !Nat2Z.inj_add, !length_Z_to_le, length_flat_map_le.
  f_equal. f_equal. lia.
Qed.

Lemma total_length_recalculated sd :
  total_length (recalculate_security_data_length sd) =
    Z.land
      (u32 (u32 (8 * num_entries sd + 8
                 + sum_list (take (Z.to_nat (num_entries sd)) (sizes sd))) + 7))
      (u32 (Z.lnot 7)).
Proof.
  unfold recalculate_security_data_length. simpl total_length.
  rewrite foldl_u32. reflexivity.
Qed.

Lemma total_length_fits sd :
  security_data_fits sd ->
  total_length (recalculate_security_data_length sd) =
    align8 (8 + 8 * num_entries sd + sum_list (sizes sd)).
Proof.
  intros (Hn & Hsz & Hfit). rewrite total_length_recalculated.
  rewrite Hn, Nat2Z.id, firstn_all.
  pose proof (sum_list_nonneg_lengths (descriptors sd)) as [Hpos _].
  rewrite <- Hsz in Hpos. rewrite Hn in Hfit.
  unfold u32 at 2. rewrite Z.mod_small by lia.
  unfold u32 at 1. rewrite Z.mod_small by lia.
  rewrite land_mask_u32 by lia. f_equal. lia.
Qed.

Local Abbreviation prepare :=
  (prepare_metadata_resource dentry_out_total_length write_dentry).

(** The planned length and the bytes written, in the run of
    [prepare_metadata_resource] on an image with security data. *)
Lemma prepare_selected wim image imd sd :
  select_wim_image wim image = 0 ->
  image_metadata wim !! Z.to_nat (image - 1) = Some imd ->
  security_data imd = Some sd ->
  exists r,
    prepare wim image = Some r /\ p_ret r = 0 /\
    let sd' := recalculate_security_data_length sd in
    let root := default new_filler_directory (root_dentry imd) in
    let start :=
      u64 (u64 (Z.land (u64 (total_length sd' + 7)) (u64 (Z.lnot 7))
                + dentry_out_total_length root) + 8) in
    p_len r = (calc root start).2 /\
    p_buf r = write_wim_security_data sd'
              ++ write_dentry_tree write_dentry (calc root start).1 /\
    p_filled r = (bytes_of (p_buf r) =? p_len r).
Proof.
  intros Hsel Himd Hsd. unfold prepare_metadata_resource.
  rewrite Hsel, Himd. simpl. rewrite Hsd. simpl.
  destruct (calc _ _) as [root' cur'] eqn:Hcalc.
  eexists. split; [reflexivity|]. simpl. auto.
Qed.

(** X24. The writer fills its buffer exactly, for security data that fits:
    when the arrays of the security data agree with its entry count, its
    length before padding is at most 2^32 - 8, and the resource is
    shorter than 2^64 bytes, the length computed by the assignment of
    subdirectory offsets is the number of bytes written, and the
    assertion of [prepare_metadata_resource] holds.  The dentry writer
    is any function that writes [dentry_out_total_length d] bytes for
    [d], a number that depends neither on the offset nor on the children
    of [d]. *)
Theorem prepared_buffer_exactly_filled wim image r :
  prepare wim image = Some r ->
  (forall imd sd,
      image_metadata wim !! Z.to_nat (image - 1) = Some imd ->
      security_data imd = Some sd -> security_data_fits sd) ->
  bytes_of (p_buf r) < 2 ^ 64 ->
  p_len r = bytes_of (p_buf r) /\ p_filled r = true.
Proof.
  intros Hprep Hfits Hsmall.
  destruct (nonzero (select_wim_image wim image)) eqn:Hsel.
  { revert Hprep. unfold prepare_metadata_resource. rewrite Hsel.
    intros [= <-]. split; reflexivity. }
  apply nonzero_false in Hsel.
  destruct (image_metadata wim !! Z.to_nat (image - 1)) as [imd|] eqn:Himd.
  2:{ revert Hprep. unfold prepare_metadata_resource.
      rewrite Hsel, Himd. discriminate. }
  destruct (security_data imd) as [sd|] eqn:Hsd.
  2:{ revert Hprep. unfold prepare_metadata_resource.
      rewrite Hsel, Himd. simpl. rewrite Hsd. discriminate. }
  destruct (prepare_selected wim image imd sd Hsel Himd Hsd)
    as (r' & Hr' & _ & Hlen & Hbuf & Hfilled).
  rewrite Hprep in Hr'. injection Hr' as <-.
  cut (p_len r = bytes_of (p_buf r)).
  { intros Hgoal. split; [exact Hgoal|].
    rewrite Hfilled, Hgoal. apply Z.eqb_refl. }
  clear Hfilled.
  specialize (Hfits imd sd eq_refl Hsd).
  pose proof (total_length_fits sd Hfits) as Htl.
  destruct Hfits as (Hn & Hsz & Hfit).
  pose proof (sum_list_nonneg_lengths (descriptors sd)) as [Hpos Hcat].
  rewrite <- Hsz in Hpos, Hcat.
  set (sd' := recalculate_security_data_length sd) in *.
  set (root := default new_filler_directory (root_dentry imd)) in *.
  set (start := u64 (u64 (_ + dentry_out_total_length root) + 8)) in *.
  assert (Hstart : 0 <= start < 2 ^ 64) by (apply Z.mod_pos_bound; lia).
  pose proof (calc_range root start Hstart) as Hrange.
  pose proof (calculate_subdir_offsets_spec root start) as Hspec.
  pose proof (calc_out_length root start) as Hroot.
  unfold u64 at 1 in Hspec. rewrite Z.mod_small in Hspec by exact Hrange.
  rewrite Hlen, Hspec.
  assert (Hbytes : bytes_of (p_buf r) =
            total_length sd' + dentry_out_total_length root + 8
            + bytes_of (wrec (calc root start).1)).
  { rewrite Hbuf. unfold write_dentry_tree, bytes_of.
    rewrite !length_app, !Nat2Z.inj_add, write_dentry_length, Hroot.
    fold (bytes_of (write_wim_security_data sd')).
    rewrite length_write_wim_security_data.
    unfold end_of_directory_entry. rewrite repeat_length.
    subst sd'. simpl sizes. simpl descriptors. rewrite Htl, Hcat, Hn.
    fold (bytes_of (wrec (calc root start).1)). lia. }
  assert (Hal : Z.land (u64 (total_length sd' + 7)) (u64 (Z.lnot 7))
                = total_length sd').
  { subst sd'. rewrite Htl, align8_spec.
    set (k := (8 + 8 * num_entries sd + sum_list (sizes sd) + 7) / 8).
    assert (0 <= 8 * k <= 2 ^ 32).
    { subst k. pose proof (Z.div_mod (8 + 8 * num_entries sd + sum_list (sizes sd) + 7) 8 ltac:(lia)).
      pose proof (Z.mod_pos_bound (8 + 8 * num_entries sd + sum_list (sizes sd) + 7) 8 ltac:(lia)).
      lia. }
    unfold u64 at 1. rewrite Z.mod_small by lia.
    rewrite land_mask_u64 by lia. rewrite align8_spec.
    replace (8 * k + 7 - 7 + 7) with (7 + k * 8) by lia.
    rewrite Z.div_add by lia. change (7 / 8) with 0. lia. }
  set (W := bytes_of (wrec (calc root start).1)) in *.
  assert (Hstart_eq :
    start = u64 (u64 (total_length sd' + dentry_out_total_length root) + 8))
    by (subst start; rewrite Hal; reflexivity).
  assert (0 <= W) by (subst W; unfold bytes_of; lia).
  assert (0 <= total_length sd' + dentry_out_total_length root + 8 + W)
    by (rewrite <- Hbytes; unfold bytes_of; lia).
  rewrite Hbytes in Hsmall |- *.
  clearbody W. rewrite Hstart_eq, u64_add_l, <- Z.add_assoc, u64_add_l.
  rewrite Z.add_assoc. apply Z.mod_small. lia.
Qed.
End WriterFacts.

(** ** Runs of the writer *)

Lemma length_write_name name nbytes :
  Z.of_nat (List.length (write_name name nbytes)) = name_out_length nbytes.
Proof.
  unfold write_name, name_out_length.
  destruct (nbytes <=? 0) eqn:Hn; [reflexivity|].
  apply Z.leb_gt in Hn.
  rewrite length_app, length_resize, Nat2Z.inj_add, Z2Nat.id by lia.
  reflexivity.
Qed.

Lemma write_dentry_length_model d :
  Z.of_nat (List.length (write_dentry d)) = dentry_out_total_length d.
Proof.
  unfold write_dentry, dentry_out_total_length.
  rewrite length_pad8, align8_spec.
  rewrite !length_app, !Nat2Z.inj_add, !length_Z_to_le, !repeat_length,
    !length_write_name.
  f_equal. f_equal. unfold WIM_DENTRY_DISK_SIZE. lia.
Qed.

Lemma out_length_local_model len off off' fn fnb sn snb ino l l' :
  dentry_out_total_length (Dentry len off fn fnb sn snb ino l) =
  dentry_out_total_length (Dentry len off' fn fnb sn snb ino l').
Proof. reflexivity. Qed.

(** C2.  The claim holds for security data that fits 32 bits
    ([prepared_buffer_exactly_filled]), and fails beyond: for an image
    whose security data is one descriptor of 2^32 bytes,
    [recalculate_security_data_length] wraps the total length around to
    16, the writer plans a buffer of 136 bytes, and the serialization of
    the security data and of the (filler) root emits 2^32 + 136 bytes;
    the assertion [p - buf == len] does not hold. *)
Theorem huge_security_data_overflows :
  exists r,
    prepare_image huge_wim 1 = Some r /\
    p_ret r = 0 /\
    p_len r = 136 /\
    Z.of_nat (List.length (p_buf r)) = 2 ^ 32 + 136 /\
    p_filled r = false.
Proof.
  unfold huge_wim.
  assert (Hn : Z.of_nat (Z.to_nat (2 ^ 32)) = 2 ^ 32) by (apply Z2Nat.id; lia).
  revert Hn. generalize (Z.to_nat (2 ^ 32)). intros n Hn.
  destruct (prepare_selected dentry_out_total_length write_dentry
              (wim_of_security_data (security_data_of_size n)) 1 _
              (security_data_of_size n) eq_refl eq_refl eq_refl)
    as (r & Hr & Hret & Hlen & Hbuf & Hfilled).
  exists r. split; [exact Hr|]. split; [exact Hret|].
  assert (Htl : total_length
            (recalculate_security_data_length (security_data_of_size n)) = 16).
  { rewrite total_length_recalculated. cbn [security_data_of_size num_entries sizes].
    change (Z.to_nat 1) with 1%nat. cbn [take sum_list foldr].
    rewrite Hn. reflexivity. }
  cbn [root_dentry default] in Hlen, Hbuf.
  rewrite Htl in Hlen, Hbuf.
  assert (Hlen' : p_len r = 136) by (rewrite Hlen; reflexivity).
  assert (Hbytes : Z.of_nat (List.length (p_buf r)) = 2 ^ 32 + 136).
  { rewrite Hbuf, length_app, Nat2Z.inj_add.
    fold (bytes_of (write_wim_security_data
                      (recalculate_security_data_length (security_data_of_size n)))).
    rewrite length_write_wim_security_data.
    cbn [recalculate_security_data_length security_data_of_size sizes descriptors concat].
    rewrite app_nil_r, repeat_length, Hn. reflexivity. }
  split; [exact Hlen'|]. split; [exact Hbytes|].
  rewrite Hfilled. unfold bytes_of. rewrite Hbytes, Hlen'. reflexivity.
Qed.

Lemma prepared_buffer_exactly_filled_witness :
  exists r,
    prepare_image sample_wim 1 = Some r /\
    p_len r = bytes_of (p_buf r) /\ p_len r = 496 /\ p_filled r = true.
Proof.
  destruct (prepare_image sample_wim 1) as [r|] eqn:Hr;
    [|vm_compute in Hr; discriminate].
  exists r. split; [reflexivity|].
  destruct (prepared_buffer_exactly_filled dentry_out_total_length
              write_dentry write_dentry_length_model
              out_length_local_model sample_wim 1 r Hr) as [Hlen Hfilled].
  - intros imd sd [= <-] [= <-]. vm_compute. repeat split; discriminate.
  - vm_compute in Hr. injection Hr as <-. reflexivity.
  - split; [exact Hlen|]. split; [|exact Hfilled].
    vm_compute in Hr. injection Hr as <-. reflexivity.
Defined.

End MetadataResourceTheory.

(** * Further properties of the capture *)

Module Ntfs3gCaptureMore.
Import Ntfs3gCapture Ntfs3gCaptureTheory.

Section ScanFacts.
Context {H : Type}.
Implicit Type st : capture_state H.

Lemma put_get_ntfs_volume st :
  refcnt st <> 0 -> put_ntfs_volume (get_ntfs_volume st) = st.
Proof.
  intros Hne. destruct st as [t s u r m l h]. unfold put_ntfs_volume, get_ntfs_volume.
  simpl in *. replace (r + 1 - 1) with r by lia.
  apply Z.eqb_neq in Hne. rewrite Hne. reflexivity.
Qed.

Lemma put_get_add_log st tr :
  refcnt st <> 0 ->
  put_ntfs_volume (add_log (get_ntfs_volume st) tr) = add_log st tr.
Proof.
  intros Hne. destruct st as [t s u r m l h].
  unfold put_ntfs_volume, get_ntfs_volume, add_log.
  simpl in *. replace (r + 1 - 1) with r by lia.
  apply Z.eqb_neq in Hne. rewrite Hne. reflexivity.
Qed.

Lemma add_log_add_log st tr1 tr2 :
  add_log (add_log st tr1) tr2 = add_log st (tr1 ++ tr2).
Proof. unfold add_log. simpl. rewrite app_assoc. reflexivity. Qed.

(** X1. A scan of an attribute that fails changes nothing but the log. *)
Theorem failed_scan_changes_nothing inode ni path type record st
    ret inode' st' :
  refcnt st <> 0 ->
  scan_ntfs_attr inode ni path type record st = (ret, inode', st') ->
  ret <> 0 ->
  inode' = inode /\ exists tr, st' = add_log st tr.
Proof.
  intros Href. unfold scan_ntfs_attr.
  destruct (nonzero (value_length record)).
  2:{ simpl. intros [= <- <- <-] Hret. congruence. }
  destruct (set_attr_sort_key ni _) as [[ret1 loc] tr1].
  destruct (nonzero ret1).
  { intros [= <- <- <-] _. split; [reflexivity|]. exists tr1.
    apply put_get_add_log. exact Href. }
  destruct (decide (type = AT_REPARSE_POINT)).
  2:{ simpl. intros [= <- <- <-] Hret. congruence. }
  destruct (value_length record <? REPARSE_DATA_OFFSET).
  { intros [= <- <- <-] _. split; [reflexivity|]. eexists.
    rewrite add_log_add_log. apply put_get_add_log. exact Href. }
  destruct (read_reparse_tag ni loc) as [[ret2 tag] tr2].
  destruct (nonzero ret2).
  { intros [= <- <- <-] _. split; [reflexivity|]. eexists.
    rewrite add_log_add_log. apply put_get_add_log. exact Href. }
  simpl. intros [= <- <- <-] Hret. congruence.
Qed.

(** What a scan of an attribute that succeeds does. *)
Lemma scan_ntfs_attr_attaches inode ni path type record st inode' st' :
  scan_ntfs_attr inode ni path type record st = (0, inode', st') ->
  exists strm,
    i_streams inode' = i_streams inode ++ [strm] /\
    i_ino inode' = i_ino inode /\
    i_next_stream_id inode' = i_next_stream_id inode + 1 /\
    stream_id strm = i_next_stream_id inode /\
    stream_of_record ni type record strm /\
    match stream_blob strm with
    | None =>
        unhashed_blobs st' = unhashed_blobs st /\ refcnt st' = refcnt st
    | Some blob =>
        unhashed_blobs st' =
          unhashed_blobs st
          ++ [{| ub_blob := blob; ub_inode := i_ino inode;
                 ub_stream_id := stream_id strm |}] /\
        refcnt st' = refcnt st + 1
    end.
Proof.
  unfold scan_ntfs_attr.
  destruct (nonzero (value_length record)) eqn:Hsize.
  2:{ apply nonzero_false in Hsize. simpl. intros [= <- <-].
      eexists. repeat split; try reflexivity; simpl; try done. }
  apply nonzero_true in Hsize.
  set (loc := {| loc_mft_no := mft_no ni; attr_type := type;
                 attr_name_nchars := _; attr_name := _; sort_key := 0 |}).
  destruct (set_attr_sort_key_spec ni loc) as [[_ ->]|(na & k & _ & ->)];
    [discriminate|].
  cbn [nonzero Z.eqb negb].
  assert (Hname : default [] (attr_name (set_sort_key loc k))
                  = record_name record)
    by (subst loc; cbn [set_sort_key attr_name]; apply record_name_default).
  destruct (decide (type = AT_REPARSE_POINT)) as [Htype|Htype].
  - destruct (value_length record <? REPARSE_DATA_OFFSET) eqn:Hlong;
      [discriminate|].
    apply Z.ltb_ge in Hlong.
    destruct (read_reparse_tag ni _) as [[ret2 tag] tr2].
    destruct (nonzero ret2) eqn:Hret2.
    { intros [= Hz]. apply nonzero_true in Hret2. congruence. }
    simpl. intros [= <- <-]. eexists.
    split; [reflexivity|]. split; [reflexivity|]. split; [reflexivity|].
    split; [reflexivity|]. split; [|split; reflexivity].
    split; [reflexivity|]. split; [reflexivity|]. simpl. split; [split; done|].
    intros blob [= <-]. simpl. rewrite decide_True by exact Htype.
    repeat split; try reflexivity; [exact Hname | intros _; exact Hlong].
  - simpl. intros [= <- <-]. eexists.
    split; [reflexivity|]. split; [reflexivity|]. split; [reflexivity|].
    split; [reflexivity|]. split; [|split; reflexivity].
    split; [reflexivity|]. split; [reflexivity|]. simpl. split; [split; done|].
    intros blob [= <-]. simpl. rewrite decide_False by exact Htype.
    repeat split; try reflexivity; [exact Hname | intros ?; contradiction].
Qed.

(** What a scan of an attribute that fails leaves alone, whatever the
    reference count. *)
Lemma scan_ntfs_attr_fails inode ni path type record st ret inode' st' :
  scan_ntfs_attr inode ni path type record st = (ret, inode', st') ->
  ret <> 0 ->
  inode' = inode /\ unhashed_blobs st' = unhashed_blobs st /\
  refcnt st' = refcnt st.
Proof.
  unfold scan_ntfs_attr.
  destruct (nonzero (value_length record)).
  2:{ simpl. intros [= <- <- <-] Hret. congruence. }
  destruct (set_attr_sort_key ni _) as [[ret1 loc] tr1].
  destruct (nonzero ret1).
  { intros [= <- <- <-] _. simpl. repeat split; lia. }
  destruct (decide (type = AT_REPARSE_POINT)).
  2:{ simpl. intros [= <- <- <-] Hret. congruence. }
  destruct (value_length record <? REPARSE_DATA_OFFSET).
  { intros [= <- <- <-] _. simpl. repeat split; lia. }
  destruct (read_reparse_tag ni loc) as [[ret2 tag] tr2].
  destruct (nonzero ret2).
  { intros [= <- <- <-] _. simpl. repeat split; lia. }
  simpl. intros [= <- <- <-] Hret. congruence.
Qed.

Lemma scan_ntfs_attr_frame inode ni path type record st :
  let r := scan_ntfs_attr inode ni path type record st in
  sd_set r.2 = sd_set st /\ hooks r.2 = hooks st.
Proof.
  unfold scan_ntfs_attr.
  destruct (nonzero (value_length record)); [|simpl; auto].
  destruct (set_attr_sort_key ni _) as [[ret loc] tr].
  destruct (nonzero ret); [simpl; auto|].
  destruct (decide (type = AT_REPARSE_POINT)); [|simpl; auto].
  destruct (value_length record <? REPARSE_DATA_OFFSET); [simpl; auto|].
  destruct (read_reparse_tag ni loc) as [[ret' tag] tr'].
  destruct (nonzero ret'); simpl; auto.
Qed.

(** The records scanned before the first failure, each with its stream. *)
Lemma scan_records_streams ni path type l : forall inode st ret inode' st',
  scan_records inode ni path type l st = (ret, inode', st') ->
  exists new blobs,
    i_streams inode' = i_streams inode ++ new /\
    i_ino inode' = i_ino inode /\
    i_next_stream_id inode' = i_next_stream_id inode + Z.of_nat (length new) /\
    Forall2 (stream_of_record ni type) (take (length new) l) new /\
    map stream_id new =
      map (fun k => i_next_stream_id inode + Z.of_nat k) (seq 0 (length new)) /\
    (ret = 0 -> length new = length l) /\
    unhashed_blobs st' = unhashed_blobs st ++ blobs /\
    refcnt st' = refcnt st + Z.of_nat (length blobs) /\
    Forall (fun ub => ub_inode ub = i_ino inode /\
              exists strm, strm ∈ new /\ stream_id strm = ub_stream_id ub /\
                stream_blob strm = Some (ub_blob ub)) blobs.
Proof.
  induction l as [|record l IH]; intros inode st ret inode' st'; simpl.
  { intros [= <- <- <-]. exists [], []. rewrite !app_nil_r. simpl.
    repeat split; auto; lia. }
  destruct (scan_ntfs_attr inode ni path type record st)
    as [[ret1 inode1] st1] eqn:Hscan.
  destruct (nonzero ret1) eqn:Hret1.
  { apply nonzero_true in Hret1. intros [= <- <- <-].
    destruct (scan_ntfs_attr_fails _ _ _ _ _ _ _ _ _ Hscan Hret1)
      as (-> & Hub & Hrc).
    exists [], []. rewrite !app_nil_r. simpl.
    repeat split; auto; try lia. }
  apply nonzero_false in Hret1. subst ret1.
  intros Hrest.
  destruct (scan_ntfs_attr_attaches _ _ _ _ _ _ _ _ Hscan)
    as (strm & Hs1 & Hino1 & Hnext1 & Hid1 & Hrec1 & Hblob1).
  destruct (IH _ _ _ _ _ Hrest)
    as (new & blobs & Hs & Hino & Hnext & Hall & Hids & Hlen & Hub & Hrc & Hblobs).
  exists (strm :: new).
  exists (match stream_blob strm with
          | Some blob => [{| ub_blob := blob; ub_inode := i_ino inode;
                             ub_stream_id := stream_id strm |}]
          | None => []
          end ++ blobs).
  split; [rewrite Hs, Hs1, <- app_assoc; reflexivity|].
  split; [congruence|].
  split; [rewrite Hnext, Hnext1; simpl length; lia|].
  split; [simpl; constructor; assumption|].
  split.
  { simpl. f_equal; [lia|]. rewrite Hids, <- seq_shift, map_map.
    apply map_ext. intros k. lia. }
  split; [intros Hz; simpl; f_equal; auto|].
  destruct (stream_blob strm) as [blob|] eqn:Hb.
  - destruct Hblob1 as [Hub1 Hrc1].
    split; [rewrite Hub, Hub1, <- app_assoc; reflexivity|].
    split; [rewrite Hrc, Hrc1; simpl length; lia|].
    constructor.
    + simpl. split; [reflexivity|]. exists strm.
      split; [left|]. split; [reflexivity | exact Hb].
    + eapply Forall_impl; [exact Hblobs|]. simpl.
      intros ub (Hi & s' & Hin & Hsid & Hsb).
      split; [congruence|]. exists s'. split; [right; exact Hin | auto].
  - destruct Hblob1 as [Hub1 Hrc1]. simpl.
    split; [congruence|]. split; [lia|].
    eapply Forall_impl; [exact Hblobs|]. simpl.
    intros ub (Hi & s' & Hin & Hsid & Hsb).
    split; [congruence|]. exists s'. split; [right; exact Hin | auto].
Qed.

Lemma scan_records_frame ni path type l : forall inode st,
  let r := scan_records inode ni path type l st in
  sd_set r.2 = sd_set st /\ hooks r.2 = hooks st.
Proof.
  induction l as [|record l IH]; intros inode st; simpl; [auto|].
  pose proof (scan_ntfs_attr_frame inode ni path type record st) as Hstep.
  destruct (scan_ntfs_attr inode ni path type record st) as [[ret inode'] st'].
  simpl in Hstep. destruct (nonzero ret); [exact Hstep|].
  specialize (IH inode' st'). simpl in IH. destruct Hstep, IH. split; congruence.
Qed.

(** X2. A scan of the attributes of one type that succeeds attaches one
    stream per attribute record, in the order of the records: each
    stream has the type and the name of its record, a blob unless the
    attribute is empty, and the stream ids are consecutive. *)
Theorem scan_attaches_stream_per_record inode ni path type st inode' st' :
  scan_ntfs_attrs_with_type inode ni path type st = (0, inode', st') ->
  exists new,
    i_streams inode' = i_streams inode ++ new /\
    Forall2 (stream_of_record ni type) (ntfs_attr_lookup ni type).1 new /\
    map stream_id new =
      map (fun k => i_next_stream_id inode + Z.of_nat k) (seq 0 (length new)) /\
    (ntfs_attr_lookup ni type).2 = true.
Proof.
  unfold scan_ntfs_attrs_with_type.
  destruct (ntfs_attr_lookup ni type) as [records enoent].
  destruct (scan_records inode ni path type records st)
    as [[ret inode1] st1] eqn:Hscan.
  destruct (scan_records_streams _ _ _ _ _ _ _ _ _ Hscan)
    as (new & blobs & Hs & _ & _ & Hall & Hids & Hlen & _).
  destruct (nonzero ret) eqn:Hret.
  { intros [= -> <- <-]. discriminate. }
  apply nonzero_false in Hret. subst ret.
  destruct enoent; [|discriminate]. simpl. intros [= <- <-].
  exists new. split; [exact Hs|]. split; [|auto].
  rewrite (Hlen eq_refl), firstn_all in Hall. exact Hall.
Qed.

(** X3. Whatever its outcome, a scan of the attributes of one type
    registers unhashed blobs at the end of the list only, each for a
    stream of the inode that holds that blob, and takes one reference to
    the volume for each; it leaves the inode table, the set of security
    descriptors and the callbacks alone. *)
Theorem scan_registers_referenced_blobs inode ni path type st ret inode' st' :
  scan_ntfs_attrs_with_type inode ni path type st = (ret, inode', st') ->
  exists blobs,
    unhashed_blobs st' = unhashed_blobs st ++ blobs /\
    refcnt st' = refcnt st + Z.of_nat (length blobs) /\
    Forall (blob_of_inode inode') blobs /\
    inode_table st' = inode_table st /\
    sd_set st' = sd_set st /\ hooks st' = hooks st.
Proof.
  intros Hrun.
  pose proof (scan_ntfs_attrs_with_type_core inode ni path type st) as Hcore.
  rewrite Hrun in Hcore. simpl in Hcore. destruct Hcore as [_ Htable].
  revert Hrun. unfold scan_ntfs_attrs_with_type.
  destruct (ntfs_attr_lookup ni type) as [records enoent].
  pose proof (scan_records_frame ni path type records inode st) as Hframe.
  destruct (scan_records inode ni path type records st)
    as [[ret1 inode1] st1] eqn:Hscan.
  simpl in Hframe. destruct Hframe as [Hsd Hhooks].
  destruct (scan_records_streams _ _ _ _ _ _ _ _ _ Hscan)
    as (new & blobs & Hs & Hino & _ & _ & _ & _ & Hub & Hrc & Hblobs).
  assert (Hof : Forall (blob_of_inode inode1) blobs).
  { eapply Forall_impl; [exact Hblobs|]. simpl.
    intros ub (Hi & strm & Hin & Hid & Hb). split; [congruence|].
    exists strm. rewrite Hs. split; [|auto]. apply elem_of_app. auto. }
  intros Hrun. exists blobs.
  destruct (nonzero ret1); [|destruct (negb enoent)];
    injection Hrun as <- <- <-; simpl; auto 10.
Qed.
End ScanFacts.

(** X4. A blob that the scan of an attribute registers reads back the
    attribute: when the volume opens the inode again and the attribute
    holds [data], reading the whole blob hands the consumer the bytes of
    [data], from offset 8 on for a reparse point, and returns what the
    consumer returns. *)
Theorem captured_blob_reads_back {H S : Type}
    (call_consume_chunk : list byte -> S -> Z * S) (vol : ntfs_volume)
    (inode : wim_inode) (ni : ntfs_inode) (path : string)
    (type : ATTR_TYPES) (record : ATTR_RECORD) (st : capture_state H)
    (inode' : wim_inode) (st' : capture_state H)
    (na : ntfs_attr) (data : list byte) (s : S) :
  ntfs_inode_open vol (mft_no ni) = Some ni ->
  ntfs_attr_open ni type (record_name record) = Some na ->
  holds_data na data ->
  value_length record = Z.of_nat (length data) ->
  data <> [] ->
  scan_ntfs_attr inode ni path type record st = (0, inode', st') ->
  exists strm blob ret s' tr,
    last (i_streams inode') = Some strm /\
    stream_blob strm = Some blob /\
    read_ntfs_attribute_prefix call_consume_chunk vol blob (size blob) s
      = Some (ret, s', tr) /\
    (ret, s') = feed call_consume_chunk (consumed_chunks tr) s /\
    (ret = 0 ->
     concat (consumed_chunks tr) = drop (Z.to_nat (start_offset blob)) data).
Proof.
  intros Hopen Hattr Hdata Hlen Hne Hscan.
  destruct (scan_ntfs_attr_attaches _ _ _ _ _ _ _ _ Hscan)
    as (strm & Hs & _ & _ & _ & (_ & _ & Hempty & Hblob) & _).
  destruct (stream_blob strm) as [blob|] eqn:Hb.
  2:{ destruct Hempty as [_ Hz]. specialize (Hz eq_refl).
      destruct data; [contradiction|]. simpl in Hlen. lia. }
  destruct (Hblob blob eq_refl) as (Hmft & Htype & Hname & Hsize & Hrp).
  assert (Hstart : 0 <= start_offset blob /\
                   start_offset blob + size blob = Z.of_nat (length data)).
  { unfold start_offset. rewrite Htype, Hsize.
    destruct (decide (type = AT_REPARSE_POINT)) as [Ht|Ht].
    - specialize (Hrp Ht). unfold REPARSE_DATA_OFFSET in *. lia.
    - lia. }
  assert (Hnonneg : 0 <= size blob).
  { rewrite Hsize.
    destruct (decide (type = AT_REPARSE_POINT)) as [Ht|Ht]; [|lia].
    specialize (Hrp Ht). lia. }
  destruct (read_loop_total call_consume_chunk na (size blob) Hnonneg
              (start_offset blob) s) as [[[ret s'] tr] Hrun].
  exists strm, blob, ret, s', tr.
  split; [rewrite Hs; apply last_snoc|]. split; [exact Hb|].
  assert (Hread : read_ntfs_attribute_prefix call_consume_chunk vol blob
                    (size blob) s = Some (ret, s', tr)).
  { unfold read_ntfs_attribute_prefix, open_ntfs_attr.
    rewrite Hmft, Hopen, Htype, Hname, Hattr. simpl.
    unfold start_offset in Hrun. rewrite Htype in Hrun. exact Hrun. }
  split; [exact Hread|].
  destruct (read_loop_delivers call_consume_chunk na data Hdata (size blob)
              Hnonneg _ _ _ (proj1 Hstart) ltac:(lia) Hrun)
    as (Hfeed & _ & Hall).
  split; [exact Hfeed|]. intros Hz. rewrite (Hall Hz). unfold slice.
  apply take_ge. rewrite length_drop. lia.
Qed.

Lemma failed_scan_changes_nothing_witness :
  let data := [x01; x02] in
  let st := get_ntfs_volume empty_capture in
  exists tr,
    scan_ntfs_attr (new_inode 200) (reparse_inode data) "/r" AT_REPARSE_POINT
      (reparse_record data) st
    = (WIMLIB_ERR_INVALID_REPARSE_DATA, new_inode 200, add_log st tr).
Proof.
  intros data st.
  destruct (scan_ntfs_attr (new_inode 200) (reparse_inode data) "/r"
              AT_REPARSE_POINT (reparse_record data) st)
    as [[ret inode'] st'] eqn:Hrun.
  destruct (failed_scan_changes_nothing _ _ _ _ _ st ret inode' st'
              ltac:(vm_compute; discriminate) Hrun)
    as [-> [tr ->]].
  - vm_compute in Hrun. injection Hrun as <- _. discriminate.
  - exists tr. assert (Hret : ret = WIMLIB_ERR_INVALID_REPARSE_DATA)
      by (vm_compute in Hrun; injection Hrun as <- _; reflexivity).
    rewrite Hret. reflexivity.
Defined.

Lemma scan_attaches_stream_per_record_witness :
  exists inode' st',
    scan_ntfs_attrs_with_type (new_inode 100) sample_file "/a/f" AT_DATA
      (get_ntfs_volume empty_capture) = (0, inode', st') /\
    map stream_id (i_streams inode') = [0; 1] /\
    map stream_name (i_streams inode') = [None; Some [115]].
Proof.
  destruct (scan_ntfs_attrs_with_type (new_inode 100) sample_file "/a/f"
              AT_DATA (get_ntfs_volume empty_capture))
    as [[ret inode'] st'] eqn:Hrun.
  assert (Hret : ret = 0)
    by (vm_compute in Hrun; injection Hrun as <- _; reflexivity).
  assert (Hnames : map stream_name (i_streams inode') = [None; Some [115]])
    by (vm_compute in Hrun; injection Hrun as _ <- _; reflexivity).
  subst ret. exists inode', st'. split; [reflexivity|].
  split; [|exact Hnames].
  destruct (scan_attaches_stream_per_record _ _ _ _ _ _ _ Hrun)
    as (new & Hs & Hall & Hids & _).
  rewrite Hs. simpl. rewrite Hids.
  apply Forall2_length in Hall. simpl in Hall. rewrite <- Hall. reflexivity.
Defined.

Lemma scan_registers_referenced_blobs_witness :
  exists inode' st',
    scan_ntfs_attrs_with_type (new_inode 100) sample_file "/a/f" AT_DATA
      (get_ntfs_volume empty_capture) = (0, inode', st') /\
    length (unhashed_blobs st') = 2%nat /\ refcnt st' = 3 /\
    Forall (blob_of_inode inode') (unhashed_blobs st').
Proof.
  destruct (scan_ntfs_attrs_with_type (new_inode 100) sample_file "/a/f"
              AT_DATA (get_ntfs_volume empty_capture))
    as [[ret inode'] st'] eqn:Hrun.
  assert (Hret : ret = 0)
    by (vm_compute in Hrun; injection Hrun as <- _; reflexivity).
  assert (Hlen : length (unhashed_blobs st') = 2%nat)
    by (vm_compute in Hrun; injection Hrun as _ _ <-; reflexivity).
  subst ret. exists inode', st'. split; [reflexivity|].
  destruct (scan_registers_referenced_blobs _ _ _ _ _ _ _ _ Hrun)
    as (blobs & Hub & Hrc & Hof & _).
  simpl in Hub. rewrite Hub in Hlen |- *.
  split; [exact Hlen|]. split; [|exact Hof].
  rewrite Hrc, Hlen. reflexivity.
Defined.

Lemma captured_blob_reads_back_witness :
  let data := [x0c; x00; x00; xa0; x04; x00; x00; x00; x01; x02; x03; x04] in
  exists inode' st' blob tr,
    scan_ntfs_attr (new_inode 200) (reparse_inode data) "/r" AT_REPARSE_POINT
      (reparse_record data) (get_ntfs_volume empty_capture) = (0, inode', st') /\
    stream_blob <$> last (i_streams inode') = Some (Some blob) /\
    read_ntfs_attribute_prefix record_length (reparse_volume data) blob
      (size blob) [] = Some (0, [4], tr) /\
    concat (consumed_chunks tr) = [x01; x02; x03; x04].
Proof.
  intros data.
  destruct (scan_ntfs_attr (new_inode 200) (reparse_inode data) "/r"
              AT_REPARSE_POINT (reparse_record data)
              (get_ntfs_volume empty_capture))
    as [[ret inode'] st'] eqn:Hscan.
  assert (Hret : ret = 0)
    by (vm_compute in Hscan; injection Hscan as <- _; reflexivity).
  subst ret.
  destruct (captured_blob_reads_back record_length (reparse_volume data)
              (new_inode 200) (reparse_inode data) "/r" AT_REPARSE_POINT
              (reparse_record data) (get_ntfs_volume empty_capture)
              inode' st' (attr_of_data data None) data []
              eq_refl eq_refl (attr_of_data_holds _ _) eq_refl
              ltac:(discriminate) Hscan)
    as (strm & blob & ret & s' & tr & Hlast & Hb & Hread & Hfeed & Hall).
  exists inode', st', blob, tr. split; [reflexivity|].
  split; [rewrite Hlast; simpl; rewrite Hb; reflexivity|].
  assert (Hblob : blob = {| size := 4;
                            ntfs_loc := {| loc_mft_no := 200;
                                           attr_type := AT_REPARSE_POINT;
                                           attr_name_nchars := 0;
                                           attr_name := None;
                                           sort_key := 0 |} |}).
  { vm_compute in Hscan. injection Hscan as <- _.
    simpl in Hlast. injection Hlast as <-. simpl in Hb. congruence. }
  assert (Hval : ret = 0 /\ s' = [4]).
  { rewrite Hblob in Hread. vm_compute in Hread.
    injection Hread as <- <- _. split; reflexivity. }
  destruct Hval as [-> ->]. split; [exact Hread|].
  rewrite (Hall eq_refl), Hblob. reflexivity.
Defined.

(** X5. A security descriptor that is not empty is stored whole, whatever
    its length: one that does not fit the buffer of 4096 bytes is read
    again into a buffer of its size.  The inode gets the id that the set
    of security descriptors returns for it. *)
Theorem security_descriptor_stored_whole (ni : ntfs_inode)
    (inode : wim_inode) (set : list (list byte)) (sd : list byte) :
  ntfs_acl ni = Some sd -> sd <> [] ->
  get_security_descriptor ni inode set =
    let '(id, set') := sd_set_add_sd set sd in
    Some (if id <? 0 then WIMLIB_ERR_NOMEM else 0,
          set_security_id inode id, set').
Proof.
  intros Hacl Hne. unfold get_security_descriptor.
  cbn [get_security_descriptor_retry]. unfold ntfs_get_ntfs_acl. rewrite Hacl.
  set (n := Z.of_nat (length sd)).
  assert (Hn : 0 < n) by (subst n; destruct sd; [contradiction|simpl; lia]).
  assert (Htake : take (Z.to_nat n) sd = sd)
    by (apply take_ge; subst n; lia).
  replace (n <? 0) with false by (symmetry; apply Z.ltb_ge; lia).
  replace (0 <? n) with true by (symmetry; apply Z.ltb_lt; lia).
  rewrite Z.ltb_irrefl, Z.leb_refl.
  destruct (4096 <? n) eqn:Hbig.
  - simpl. rewrite Htake. destruct (sd_set_add_sd set sd) as [id set'].
    destruct (id <? 0); reflexivity.
  - apply Z.ltb_ge in Hbig.
    replace (n <=? 4096) with true by (symmetry; apply Z.leb_le; lia).
    simpl. rewrite Htake. destruct (sd_set_add_sd set sd) as [id set'].
    destruct (id <? 0); reflexivity.
Qed.

Lemma security_descriptor_stored_whole_witness :
  get_security_descriptor long_acl_inode (new_inode 7) [[x01]] =
    Some (0, set_security_id (new_inode 7) 1,
          [[x01]; repeat x07 (Z.to_nat 5000)]).
Proof.
  rewrite (security_descriptor_stored_whole long_acl_inode (new_inode 7)
             [[x01]] (repeat x07 (Z.to_nat 5000)) eq_refl).
  - reflexivity.
  - vm_compute. discriminate.
Defined.

(** X6. A DOS name of at most 24 bytes is always accepted.  The map then
    holds a name for the inode: the one it held before, if any (a second
    name is dropped with a warning), else the new one.  The names of the
    other inodes are as they were. *)
Theorem dos_name_inserted_once (map : gmap Z dos_name_node)
    (name : list Z) (nbytes ino : Z) :
  nbytes <= 24 ->
  exists map' tr,
    insert_dos_name map name nbytes ino = Some (0, map', tr) /\
    lookup_dos_name map' ino =
      Some (default {| dos_name := name; name_nbytes := nbytes |}
              (lookup_dos_name map ino)) /\
    (forall ino', ino' <> ino ->
       lookup_dos_name map' ino' = lookup_dos_name map ino') /\
    (tr <> [] <-> is_Some (lookup_dos_name map ino)).
Proof.
  intros Hlen. unfold insert_dos_name, lookup_dos_name.
  replace (24 <? nbytes) with false by (symmetry; apply Z.ltb_ge; lia).
  destruct (map !! ino) as [node|] eqn:Hold.
  - eexists _, _. split; [reflexivity|]. rewrite Hold.
    split; [reflexivity|]. split; [reflexivity|].
    split; [eauto | discriminate].
  - eexists _, _. split; [reflexivity|]. rewrite lookup_insert_eq.
    split; [reflexivity|].
    split; [intros ino' Hne; apply lookup_insert_ne; congruence|].
    split; [contradiction | intros [? [=]]].
Qed.

Lemma dos_name_inserted_once_witness :
  exists map1 map2 tr,
    insert_dos_name ∅ [70; 126; 49] 6 100 = Some (0, map1, []) /\
    insert_dos_name map1 [71; 126; 49] 6 100 = Some (0, map2, tr) /\
    tr <> [] /\
    lookup_dos_name map2 100 =
      Some {| dos_name := [70; 126; 49]; name_nbytes := 6 |}.
Proof.
  destruct (dos_name_inserted_once
              (<[100 := {| dos_name := [70; 126; 49]; name_nbytes := 6 |}]> ∅)
              [71; 126; 49] 6 100 ltac:(lia))
    as (map2 & tr & Hins & Hlook & _ & Hwarn).
  eexists _, map2, tr. split; [reflexivity|].
  unfold lookup_dos_name in Hlook, Hwarn.
  rewrite lookup_insert_eq in Hlook, Hwarn.
  split; [exact Hins|]. split; [apply Hwarn; eauto | exact Hlook].
Defined.

Section Volume.
Context {H : Type}.
Implicit Type st : capture_state H.

Lemma iter_get_ntfs_volume n st :
  Nat.iter n get_ntfs_volume st =
  {| inode_table := inode_table st; sd_set := sd_set st;
     unhashed_blobs := unhashed_blobs st; refcnt := refcnt st + Z.of_nat n;
     mounted := mounted st; log := log st; hooks := hooks st |}.
Proof.
  induction n as [|n IH].
  - destruct st. simpl. f_equal. lia.
  - rewrite Nat.iter_succ, IH. unfold get_ntfs_volume. simpl. f_equal. lia.
Qed.

Lemma iter_put_ntfs_volume k : forall st,
  Z.of_nat k < refcnt st ->
  Nat.iter k put_ntfs_volume st =
  {| inode_table := inode_table st; sd_set := sd_set st;
     unhashed_blobs := unhashed_blobs st; refcnt := refcnt st - Z.of_nat k;
     mounted := mounted st; log := log st; hooks := hooks st |}.
Proof.
  induction k as [|k IH]; intros st Hk.
  - destruct st. simpl. f_equal. lia.
  - rewrite Nat.iter_succ, IH by lia. unfold put_ntfs_volume. simpl.
    replace (refcnt st - Z.of_nat k - 1 =? 0) with false
      by (symmetry; apply Z.eqb_neq; lia).
    f_equal. lia.
Qed.

(** X7. A volume in use stays mounted while references to it remain:
    after [n] references were taken (by blobs, or by clones of their
    locations) and [k] of them given back, the count is up by [n - k]
    and nothing else changed; giving back all [n] restores the state.
    The volume is unmounted by the release that brings the count to 0. *)
Theorem volume_mounted_while_referenced (n k : nat) st :
  0 < refcnt st -> (k <= n)%nat ->
  let st' := Nat.iter k put_ntfs_volume (Nat.iter n get_ntfs_volume st) in
  refcnt st' = refcnt st + Z.of_nat n - Z.of_nat k /\
  mounted st' = mounted st /\
  (k = n -> st' = st) /\
  (refcnt st = 1 -> mounted (Nat.iter (Datatypes.S n) put_ntfs_volume
                               (Nat.iter n get_ntfs_volume st)) = false).
Proof.
  intros Href Hk. cbv zeta.
  assert (Hlast : refcnt st = 1 ->
            mounted (Nat.iter (Datatypes.S n) put_ntfs_volume
                       (Nat.iter n get_ntfs_volume st)) = false).
  { intros Hone. rewrite Nat.iter_succ, iter_get_ntfs_volume.
    rewrite iter_put_ntfs_volume by (simpl; lia).
    unfold put_ntfs_volume. simpl.
    replace (refcnt st + Z.of_nat n - Z.of_nat n - 1 =? 0) with true
      by (symmetry; apply Z.eqb_eq; lia).
    reflexivity. }
  split; [|split; [|split; [|exact Hlast]]];
    rewrite iter_get_ntfs_volume, iter_put_ntfs_volume by (simpl; lia);
    simpl; [lia | reflexivity |].
  intros ->. destruct st. simpl. f_equal. lia.
Qed.
End Volume.

Lemma volume_mounted_while_referenced_witness :
  let st0 :=
    {| inode_table := ∅; sd_set := []; unhashed_blobs := [];
       refcnt := 1; mounted := true; log := []; hooks := tt |} in
  let '(loc, st1) :=
    clone_ntfs_location (ntfs_loc (reparse_blob [])) st0 in
  refcnt st1 = 2 /\ mounted (free_ntfs_location loc st1) = true /\
  free_ntfs_location loc st1 = st0 /\
  mounted (put_ntfs_volume (free_ntfs_location loc st1)) = false.
Proof.
  intros st0. simpl.
  destruct (volume_mounted_while_referenced 1 1 st0 ltac:(simpl; lia)
              ltac:(lia)) as (_ & Hm & Hsame & Hlast).
  destruct (volume_mounted_while_referenced 1 0 st0 ltac:(simpl; lia)
              ltac:(lia)) as (Hrc & _).
  split; [exact Hrc|]. split; [exact Hm|].
  split; [exact (Hsame eq_refl) | exact (Hlast eq_refl)].
Defined.

Lemma extends_nil_eq t0 t1 : extends t0 t1 [] -> t1 = t0.
Proof.
  intros (Hok & Hcount & Hsame). apply map_eq. intros ino.
  specialize (Hcount ino). simpl in Hcount. rewrite Z.add_0_r in Hcount.
  destruct (t0 !! ino) as [i|] eqn:H0.
  - destruct (Hsame _ _ H0) as (i' & H1 & Hi'). rewrite H1. f_equal.
    unfold nlink in Hcount. rewrite H0, H1 in Hcount.
    unfold same_but_nlink in Hi'. rewrite Hi', Hcount.
    destruct i; reflexivity.
  - destruct (t1 !! ino) as [i'|] eqn:H1; [|reflexivity].
    unfold nlink in Hcount. rewrite H0, H1 in Hcount.
    destruct (Hok _ _ H1) as (_ & ? & _). lia.
Qed.

Lemma count_refs_pos ino l : 0 < count_refs ino l <-> In ino l.
Proof.
  induction l as [|x l IH]; simpl; [lia|].
  pose proof (count_refs_nonneg ino l).
  destruct (decide (x = ino)) as [->|Hne].
  - split; [auto | lia].
  - rewrite Z.add_0_l, IH. split; [auto | intros [?|?]; [congruence|auto]].
Qed.

(** ** Runs return *)

Section Returns.
Context {H : Type}.
Variable try_exclude : string -> H -> Z * H.
Variable do_capture_progress :
  scan_status -> string -> option wim_inode -> H -> Z * H.
Variable report_capture_error : Z -> string -> H -> Z * H.
Variable utf16le_to_tstr : list Z -> Z * string.
Variable add_flags : Z.
Variable vol : ntfs_volume.
Implicit Type st : capture_state H.

Local Abbreviation filldir := (filldir (H:=H) utf16le_to_tstr).
Local Abbreviation readdir_entries := (readdir_entries (H:=H) utf16le_to_tstr).
Local Abbreviation recurse_directory :=
  (ntfs_3g_recurse_directory (H:=H) utf16le_to_tstr).
Local Abbreviation scan_new_inode :=
  (scan_new_inode (H:=H) do_capture_progress report_capture_error
     utf16le_to_tstr add_flags).
Local Abbreviation build_dentry :=
  (build_dentry try_exclude do_capture_progress report_capture_error
     utf16le_to_tstr add_flags vol).
Local Abbreviation build :=
  (ntfs_3g_build_dentry_tree_recursive try_exclude do_capture_progress
     report_capture_error utf16le_to_tstr add_flags vol).

Lemma filldir_returns rec path ctx e st :
  table_ok (inode_table st) -> entry_returns utf16le_to_tstr rec path e ->
  is_Some (filldir rec path ctx e st).
Proof.
  intros Hok [Hfits Hrec]. unfold Ntfs3gCapture.filldir.
  unfold dos_name_fits in Hfits. unfold is_recursed, child_path in Hrec.
  set (first := if has_flag (de_name_type e) FILE_NAME_DOS then _ else _).
  assert (Hfirst : exists map st1,
            first = Some (0, map, st1) /\ inode_table st1 = inode_table st).
  { subst first. destruct (has_flag (de_name_type e) FILE_NAME_DOS); [|eauto].
    simpl in Hfits. apply Z.leb_le in Hfits. unfold insert_dos_name.
    replace (24 <? 2 * Z.of_nat (length (de_name e))) with false
      by (symmetry; apply Z.ltb_ge; exact Hfits).
    destruct (ctx_dos_name_map ctx !! MREF (de_mref e)); simpl; eauto. }
  destruct Hfirst as (map & st1 & -> & Ht). simpl.
  cbn [nonzero Z.eqb negb orb] in *.
  destruct (has_flag _ _ && _); [eauto|].
  destruct (is_dot_or_dotdot _); [eauto|].
  destruct (utf16le_to_tstr (de_name e)) as [ret mbs]. simpl in Hrec.
  destruct (nonzero ret); [eauto|].
  destruct (Hrec eq_refl) as [Hlen Hret].
  replace (PATH_BUFFER_SIZE <=? _) with false
    by (symmetry; apply Z.leb_gt; exact Hlen).
  destruct (Hret (de_name_type e) st1) as [[[r child] st2] ->];
    [rewrite Ht; exact Hok|].
  simpl. eauto.
Qed.

Lemma readdir_entries_returns rec path entries : forall ctx st,
  recursion_ok rec -> table_ok (inode_table st) ->
  Forall (entry_returns utf16le_to_tstr rec path) entries ->
  is_Some (readdir_entries rec path entries ctx st).
Proof.
  induction entries as [|e entries IH]; intros ctx st Hrec Hok Hall; simpl;
    [eauto|].
  apply Forall_cons in Hall. destruct Hall as [He Hall].
  destruct (filldir_returns rec path ctx e st Hok He) as [[[rc ctx1] st1] Hfill].
  rewrite Hfill. simpl. destruct (nonzero rc); [eauto|].
  apply IH; [exact Hrec| |exact Hall].
  destruct (filldir_grows _ _ _ _ _ _ _ _ _ Hrec Hok Hfill)
    as (_ & new & _ & Hext & _). exact Hext.
Qed.

Lemma set_dos_names_returns table map children :
  Forall (fun c => is_Some (table !! d_inode c)) children ->
  is_Some (set_dos_names table children map).
Proof.
  induction 1 as [|c children [i Hi] _ [[[ret l] tr] IH]]; simpl; [eauto|].
  unfold set_dentry_dos_name. rewrite Hi, IH. simpl.
  destruct (is_win32_name c); [destruct (lookup_dos_name map (i_ino i))|];
    simpl; eauto.
Qed.

Lemma recurse_directory_returns rec ni path parent st :
  recursion_ok rec -> table_ok (inode_table st) ->
  d_children parent = [] ->
  Forall (entry_returns utf16le_to_tstr rec path) (ntfs_readdir ni).1 ->
  is_Some (recurse_directory rec ni path parent st).
Proof.
  intros Hrec Hok Hleaf Hall. unfold Ntfs3gCapture.ntfs_3g_recurse_directory.
  destruct (ntfs_readdir ni) as [entries final]. simpl in Hall.
  set (ctx0 := {| ctx_parent := parent; ctx_dos_name_map := ∅; ctx_ret := 0 |}).
  destruct (readdir_entries_returns rec path entries ctx0 st Hrec Hok Hall)
    as [[[rc ctx] st1] Hrd].
  rewrite Hrd. simpl.
  destruct (nonzero (if nonzero rc then rc else final));
    [destruct (nonzero (ctx_ret ctx)); eauto|].
  destruct (readdir_entries_grows _ _ _ _ _ _ _ _ _ Hrec Hok Hrd)
    as (_ & new & Hch & Hok1 & Hcount & _).
  simpl in Hch. rewrite Hleaf in Hch. simpl in Hch.
  destruct (set_dos_names_returns (inode_table st1) (ctx_dos_name_map ctx)
              (d_children (ctx_parent ctx))) as [[[ret l] tr] ->]; [|simpl; eauto].
  rewrite Hch. apply Forall_forall. intros c Hc.
  assert (Hin : In (d_inode c) (flat_map tree_inodes new)).
  { apply in_flat_map. exists c. split; [apply list_elem_of_In; exact Hc|].
    rewrite tree_inodes_unfold. left. reflexivity. }
  apply count_refs_pos in Hin. specialize (Hcount (d_inode c)).
  pose proof (nlink_nonneg _ (d_inode c) Hok) as Hpos.
  unfold nlink in Hcount at 1.
  destruct (inode_table st1 !! d_inode c); [eauto | lia].
Qed.

Lemma scan_new_inode_returns rec ni path attributes root inode st t0 x :
  recursion_ok rec -> table_ok t0 ->
  t0 !! d_inode root = None ->
  inode_table st = <[d_inode root := x]> t0 ->
  d_children root = [] ->
  i_ino inode = d_inode root -> i_nlink inode = 1 -> i_scans inode = 0%nat ->
  Forall (entry_returns utf16le_to_tstr rec path) (ntfs_readdir ni).1 ->
  is_Some (scan_new_inode rec ni path attributes root inode st).
Proof.
  intros Hrec Hok Hnone Htab Hleaf Hino Hnl Hsc Hall.
  unfold Ntfs3gCapture.scan_new_inode.
  set (ino := d_inode root) in *.
  set (inode1 := start_scan inode ni attributes).
  assert (Hc1 : core inode1 = (ino, 1, 1%nat))
    by (unfold core; simpl; congruence).
  set (step1 := if has_flag attributes FILE_ATTRIBUTE_REPARSE_POINT then _ else _).
  assert (H1 : core step1.1.2 = (ino, 1, 1%nat) /\
               inode_table step1.2 = inode_table st).
  { subst step1. destruct (has_flag _ _); [|simpl; auto].
    destruct (scan_ntfs_attrs_with_type_core inode1 ni path AT_REPARSE_POINT st)
      as [Hc Ht]. split; [congruence | exact Ht]. }
  destruct step1 as [[ret1 inode2] st2]. simpl in H1. destruct H1 as [Hc2 Ht2].
  destruct (nonzero ret1); [eauto|].
  destruct (scan_ntfs_attrs_with_type_core inode2 ni path AT_DATA st2)
    as [Hc3 Ht3].
  destruct (scan_ntfs_attrs_with_type inode2 ni path AT_DATA st2)
    as [[ret3 inode3] st3].
  simpl in Hc3, Ht3. rewrite Hc2 in Hc3. rewrite Ht2 in Ht3.
  destruct (nonzero ret3); [eauto|].
  set (inode4 := if has_flag add_flags WIMLIB_ADD_FLAG_RPFIX && inode_is_symlink inode3
                 then _ else inode3).
  assert (Hc4 : core inode4 = (ino, 1, 1%nat)).
  { subst inode4. destruct (_ && _); [|exact Hc3]. rewrite <- Hc3.
    destruct inode3; reflexivity. }
  set (step5 := if negb (has_flag add_flags WIMLIB_ADD_FLAG_NO_ACLS) then _ else _).
  assert (H5 : exists r, step5 = Some r /\
            core r.1.2 = (ino, 1, 1%nat) /\ inode_table r.2 = inode_table st).
  { subst step5. destruct (negb _); [|eexists; split; [reflexivity|]; simpl; auto].
    destruct (get_security_descriptor_total ni inode4 (sd_set st3))
      as [[[ret5 inode5] set5] Hsd].
    rewrite Hsd. simpl. eexists. split; [reflexivity|]. simpl.
    pose proof (get_security_descriptor_retry_core _ _ _ _ _ _ Hsd) as Hc5.
    simpl in Hc5. split; [congruence|]. destruct (nonzero ret5); exact Ht3. }
  destruct H5 as ([[ret5 inode5] st5] & -> & Hc5 & Ht5). simpl in Hc5, Ht5.
  simpl. destruct (nonzero ret5); [eauto|].
  destruct (inode_is_directory inode5); [|eauto].
  destruct (recurse_directory_returns rec ni path root (put_inode st5 ino inode5))
    as [[[ret6 root'] st6] ->]; auto.
  - simpl. rewrite Ht5, Htab. unfold core in Hc5. injection Hc5 as ? ? ?.
    destruct (extends_fresh t0 ino x inode5 Hok Hnone) as [Hok' _]; auto.
  - simpl. destruct (nonzero ret6); eauto.
Qed.

Lemma build_dentry_returns rec mref path name_type st :
  recursion_ok rec -> table_ok (inode_table st) ->
  (forall ni, ntfs_inode_open vol mref = Some ni ->
     Forall (entry_returns utf16le_to_tstr rec path) (ntfs_readdir ni).1) ->
  is_Some (build_dentry rec mref path name_type st).
Proof.
  intros Hrec Hok Hall. unfold Ntfs3gCapture.build_dentry.
  destruct (try_exclude path (hooks st)) as [ret h].
  destruct (ret <? 0); [eauto|]. destruct (0 <? ret); [eauto|].
  destruct (ntfs_inode_open vol mref) as [ni|]; [|eauto].
  specialize (Hall ni eq_refl).
  destruct (ntfs_get_ntfs_attrib ni) as [got attributes].
  destruct (negb (got =? 4)); [eauto|].
  destruct (has_flag attributes FILE_ATTRIBUTE_ENCRYPTED).
  { destruct (has_flag add_flags _); [eauto|].
    destruct (do_capture_progress _ _ _ _); eauto. }
  unfold inode_table_new_dentry. cbn [inode_table set_hooks].
  set (ino := mft_no ni).
  destruct (inode_table st !! ino) as [i|] eqn:Hi.
  - cbn [nonzero Z.eqb negb].
    set (root := if has_flag name_type FILE_NAME_WIN32 then _ else _).
    assert (Hd : d_inode root = ino)
      by (subst root; destruct (has_flag _ _); reflexivity).
    cbn [inode_table set_inode_table]. rewrite Hd, lookup_insert_eq. simpl.
    destruct (Hok _ _ Hi) as (_ & Hn & _).
    replace (1 <? i_nlink i + 1) with true by (symmetry; apply Z.ltb_lt; lia).
    eauto.
  - cbn [nonzero Z.eqb negb].
    set (root := if has_flag name_type FILE_NAME_WIN32 then _ else _).
    assert (Hleaf : d_children root = [])
      by (subst root; destruct (has_flag _ _); reflexivity).
    assert (Hd : d_inode root = ino)
      by (subst root; destruct (has_flag _ _); reflexivity).
    cbn [inode_table set_inode_table]. rewrite Hd, lookup_insert_eq. simpl.
    eapply (scan_new_inode_returns rec ni path attributes root (new_inode ino)
              (set_inode_table (set_hooks st h)
                 (<[ino := new_inode ino]> (inode_table st)))
              (inode_table st) (new_inode ino) Hrec Hok);
      [rewrite Hd; exact Hi | rewrite Hd; reflexivity | exact Hleaf
      | rewrite Hd; reflexivity | reflexivity | reflexivity | exact Hall].
Qed.

(** A run returns when the files from [mref] down nest fewer levels
    deep than there is fuel, and their paths fit the buffer. *)
Lemma build_returns fuel : forall path mref,
  nests_within utf16le_to_tstr vol fuel path mref = true ->
  returns_at (build fuel) path mref.
Proof.
  induction fuel as [|fuel IH]; intros path mref Hdepth; [discriminate|].
  intros name_type st Hok. simpl.
  apply build_dentry_returns; [apply build_ok | exact Hok|].
  intros ni Hopen. simpl in Hdepth. rewrite Hopen in Hdepth.
  apply Forall_forall. intros e He.
  rewrite forallb_forall in Hdepth.
  specialize (Hdepth e ltac:(apply list_elem_of_In; exact He)).
  apply andb_prop in Hdepth. destruct Hdepth as [Hfits Hnest].
  split; [exact Hfits|]. intros Hr. rewrite Hr in Hnest. simpl in Hnest.
  apply andb_prop in Hnest. destruct Hnest as [Hlen Hnest].
  split; [apply Z.ltb_lt; exact Hlen | apply IH; exact Hnest].
Qed.
End Returns.

Section BuildMore.
Context {H : Type}.
Variable try_exclude : string -> H -> Z * H.
Variable do_capture_progress :
  scan_status -> string -> option wim_inode -> H -> Z * H.
Variable report_capture_error : Z -> string -> H -> Z * H.
Variable utf16le_to_tstr : list Z -> Z * string.
Variable add_flags : Z.
Implicit Type st : capture_state H.

Local Abbreviation build vol :=
  (ntfs_3g_build_dentry_tree_recursive try_exclude do_capture_progress
     report_capture_error utf16le_to_tstr add_flags vol).

(** X8. A scan that fails returns no dentry, and a scan that returns no
    dentry (it failed, the path is excluded or unsupported, or the
    callback chose to ignore the failure) leaves the inode table as it
    found it: the dentries made on the way are freed, the inodes made
    for them with them, and the link counts of the others are back to
    what they were. *)
Theorem failed_scan_restores_inode_table vol fuel mref path name_type st
    ret root st' :
  table_ok (inode_table st) ->
  build vol fuel mref path name_type st = Some (ret, root, st') ->
  (ret <> 0 -> root = None) /\
  (root = None -> inode_table st' = inode_table st).
Proof.
  intros Hok Hrun.
  destruct (build_ok try_exclude do_capture_progress report_capture_error
              utf16le_to_tstr add_flags vol fuel mref path name_type st _
              Hok Hrun) as [Hext Hnone].
  simpl in Hext, Hnone. split; [exact Hnone|].
  intros ->. apply extends_nil_eq. exact Hext.
Qed.

(** X9. A path that [try_exclude] rejects, or fails on, is not looked up
    in the volume: the run is the same on every volume, it returns no
    dentry, and it leaves the inode table alone. *)
Theorem excluded_path_not_opened vol vol' fuel mref path name_type st :
  (try_exclude path (hooks st)).1 <> 0 ->
  let run vol :=
    ntfs_3g_build_dentry_tree_recursive try_exclude do_capture_progress
      report_capture_error utf16le_to_tstr add_flags vol (Datatypes.S fuel)
      mref path name_type st in
  run vol = run vol' /\
  exists ret st',
    run vol = Some (ret, None, st') /\ inode_table st' = inode_table st.
Proof.
  intros Hex. cbv zeta. simpl. unfold build_dentry.
  destruct (try_exclude path (hooks st)) as [ret h]. simpl in Hex.
  destruct (ret <? 0) eqn:Hneg.
  { split; [reflexivity|]. unfold out_progress, out.
    destruct (do_capture_progress _ _ _ _) as [ret1 h1].
    destruct (nonzero ret1); [|simpl; eauto].
    simpl. destruct (report_capture_error _ _ _) as [ret2 h2]. simpl. eauto. }
  replace (0 <? ret) with true
    by (symmetry; apply Z.ltb_lt; apply Z.ltb_ge in Hneg; lia).
  split; [reflexivity|]. unfold out.
  apply nonzero_true in Hex. rewrite Hex. simpl.
  destruct (report_capture_error _ _ _) as [ret2 h2]. simpl. eauto.
Qed.

(** X10. The entries [.] and [..] of a directory, and the entries that
    carry only a DOS name, make no dentry: [filldir] returns 0 for them
    without a recursive call, the parent is as it was, and nothing but
    the log changes in the state.  A DOS name is then on record for the
    inode of its entry. *)
Theorem filldir_skips_dot_and_dos (rec rec' : recursion) path ctx e st :
  is_dot_or_dotdot (de_name e) = true \/ de_name_type e = FILE_NAME_DOS ->
  filldir utf16le_to_tstr rec path ctx e st =
  filldir utf16le_to_tstr rec' path ctx e st /\
  forall ret ctx' st',
    filldir utf16le_to_tstr rec path ctx e st = Some (ret, ctx', st') ->
    ret = 0 /\ ctx_parent ctx' = ctx_parent ctx /\
    (exists tr, st' = add_log st tr) /\
    (has_flag (de_name_type e) FILE_NAME_DOS = true ->
     is_Some (lookup_dos_name (ctx_dos_name_map ctx') (MREF (de_mref e)))).
Proof.
  intros Hskip. unfold filldir.
  assert (Hnil : st = add_log st [])
    by (destruct st; unfold add_log; simpl; rewrite app_nil_r; reflexivity).
  destruct (has_flag (de_name_type e) FILE_NAME_DOS) eqn:Hdos.
  - unfold insert_dos_name.
    destruct (24 <? 2 * Z.of_nat (length (de_name e))); [split; [done|discriminate]|].
    destruct (ctx_dos_name_map ctx !! MREF (de_mref e)) as [node|] eqn:Hold;
      cbn [mbind option_bind nonzero Z.eqb negb orb andb].
    + destruct (de_name_type e =? FILE_NAME_DOS) eqn:Htype.
      * split; [reflexivity|]. intros ret ctx' st' [= <- <- <-]. simpl.
        split; [reflexivity|]. split; [reflexivity|]. split; [eauto|].
        intros _. unfold lookup_dos_name. rewrite Hold. eauto.
      * destruct Hskip as [Hdot|Htype']; [|rewrite Htype' in Htype; discriminate].
        rewrite Hdot. split; [reflexivity|].
        intros ret ctx' st' [= <- <- <-]. simpl.
        split; [reflexivity|]. split; [reflexivity|]. split; [eauto|].
        intros _. unfold lookup_dos_name. rewrite Hold. eauto.
    + destruct (de_name_type e =? FILE_NAME_DOS) eqn:Htype.
      * split; [reflexivity|]. intros ret ctx' st' [= <- <- <-]. simpl.
        split; [reflexivity|]. split; [reflexivity|]. split; [eauto|].
        intros _. unfold lookup_dos_name. rewrite lookup_insert_eq. eauto.
      * destruct Hskip as [Hdot|Htype']; [|rewrite Htype' in Htype; discriminate].
        rewrite Hdot. split; [reflexivity|].
        intros ret ctx' st' [= <- <- <-]. simpl.
        split; [reflexivity|]. split; [reflexivity|]. split; [eauto|].
        intros _. unfold lookup_dos_name. rewrite lookup_insert_eq. eauto.
  - cbn [mbind option_bind andb].
    destruct Hskip as [Hdot|Htype'].
    2:{ rewrite Htype' in Hdos. discriminate. }
    rewrite Hdot. split; [reflexivity|].
    intros ret ctx' st' [= <- <- <-]. simpl.
    split; [reflexivity|]. split; [reflexivity|]. split; [eauto|]. discriminate.
Qed.
End BuildMore.


Lemma failed_scan_restores_inode_table_witness :
  exists o,
    ntfs_3g_build_dentry_tree_recursive no_exclude no_progress pass_error
      ascii_of_units 0 broken_volume 5 FILE_root "/" FILE_NAME_POSIX
      empty_capture = Some o /\
    o.1.1 = WIMLIB_ERR_NTFS_3G /\ o.1.2 = None /\ inode_table o.2 = ∅.
Proof.
  destruct (ntfs_3g_build_dentry_tree_recursive no_exclude no_progress
              pass_error ascii_of_units 0 broken_volume 5 FILE_root "/"
              FILE_NAME_POSIX empty_capture) as [[[ret root] st']|] eqn:Hrun;
    [|vm_compute in Hrun; discriminate].
  exists (ret, root, st'). split; [reflexivity|].
  assert (Hret : ret = WIMLIB_ERR_NTFS_3G)
    by (vm_compute in Hrun; injection Hrun as <- _ _; reflexivity).
  destruct (failed_scan_restores_inode_table no_exclude no_progress pass_error
              ascii_of_units 0 broken_volume 5 FILE_root "/" FILE_NAME_POSIX
              empty_capture ret root st') as [Hnone Hsame].
  - intros ino i Hi. unfold empty_capture in Hi. cbn [inode_table] in Hi.
    rewrite lookup_empty in Hi. discriminate.
  - exact Hrun.
  - assert (Hroot : root = None) by (apply Hnone; rewrite Hret; discriminate).
    split; [exact Hret|]. split; [exact Hroot|]. exact (Hsame Hroot).
Defined.

Lemma excluded_path_not_opened_witness :
  exists st',
    ntfs_3g_build_dentry_tree_recursive exclude_all no_progress pass_error
      ascii_of_units 0 sample_volume 1 FILE_root "/" FILE_NAME_POSIX
      empty_capture = Some (0, None, st') /\
    inode_table st' = ∅.
Proof.
  destruct (excluded_path_not_opened exclude_all no_progress pass_error
              ascii_of_units 0 sample_volume broken_volume 0 FILE_root "/"
              FILE_NAME_POSIX empty_capture ltac:(simpl; lia))
    as (_ & ret & st' & Hrun & Htable).
  exists st'. rewrite Hrun. split; [|exact Htable].
  vm_compute in Hrun. injection Hrun as <- _. reflexivity.
Defined.

Lemma filldir_skips_dot_and_dos_witness :
  let ctx := {| ctx_parent := Dentry "d" 64 false None 0 [];
                ctx_dos_name_map := ∅; ctx_ret := 0 |} in
  exists ctx',
    filldir ascii_of_units (scan_sample 3) "/d" ctx
      (entry [70; 126; 49] FILE_NAME_DOS 100) empty_capture
    = Some (0, ctx', empty_capture) /\
    ctx_parent ctx' = ctx_parent ctx /\
    is_Some (lookup_dos_name (ctx_dos_name_map ctx') 100).
Proof.
  intros ctx.
  destruct (filldir_skips_dot_and_dos ascii_of_units (scan_sample 3)
              (fun _ _ _ _ => None) "/d" ctx
              (entry [70; 126; 49] FILE_NAME_DOS 100) empty_capture
              ltac:(right; reflexivity)) as [_ Hrun].
  eexists. split; [reflexivity|].
  edestruct Hrun as (_ & Hparent & _ & Hdos); [reflexivity|].
  split; [exact Hparent | exact (Hdos eq_refl)].
Defined.


Section DosNames.
Context {H : Type}.
Variable utf16le_to_tstr : list Z -> Z * string.
Implicit Type st : capture_state H.

Lemma filldir_dos_names (rec : recursion) path ctx e st ret ctx' st' :
  filldir utf16le_to_tstr rec path ctx e st = Some (ret, ctx', st') ->
  ctx_dos_name_map ctx' = dos_names_of [e] (ctx_dos_name_map ctx).
Proof.
  unfold filldir. simpl.
  destruct (has_flag (de_name_type e) FILE_NAME_DOS) eqn:Hdos.
  - unfold insert_dos_name.
    destruct (24 <? _); [discriminate|].
    destruct (ctx_dos_name_map ctx !! MREF (de_mref e)) as [node|];
      cbn [mbind option_bind nonzero Z.eqb negb orb andb];
      (destruct (de_name_type e =? FILE_NAME_DOS);
       [intros [= <- <- <-]; reflexivity|]);
      (destruct (is_dot_or_dotdot _); [intros [= <- <- <-]; reflexivity|]);
      (destruct (utf16le_to_tstr _) as [r mbs]);
      (destruct (nonzero r); [intros [= <- <- <-]; reflexivity|]);
      (destruct (PATH_BUFFER_SIZE <=? _); [discriminate|]);
      (destruct (rec _ _ _ _) as [[[r' child] st1]|]; [|discriminate]);
      simpl; intros [= <- <- <-]; reflexivity.
  - cbn [mbind option_bind andb].
    destruct (is_dot_or_dotdot _); [intros [= <- <- <-]; reflexivity|].
    destruct (utf16le_to_tstr _) as [r mbs].
    destruct (nonzero r); [intros [= <- <- <-]; reflexivity|].
    destruct (PATH_BUFFER_SIZE <=? _); [discriminate|].
    destruct (rec _ _ _ _) as [[[r' child] st1]|]; [|discriminate].
    simpl. intros [= <- <- <-]. reflexivity.
Qed.

Lemma readdir_entries_dos_names (rec : recursion) path entries :
  forall ctx st ctx' st',
    readdir_entries utf16le_to_tstr rec path entries ctx st
      = Some (0, ctx', st') ->
    ctx_dos_name_map ctx' = dos_names_of entries (ctx_dos_name_map ctx).
Proof.
  induction entries as [|e entries IH]; intros ctx st ctx' st'; simpl.
  { intros [= <- <-]. reflexivity. }
  destruct (filldir _ _ _ _ _ _) as [[[rc ctx1] st1]|] eqn:Hfill;
    [|discriminate].
  simpl. apply filldir_dos_names in Hfill. simpl in Hfill.
  destruct (nonzero rc) eqn:Hrc.
  { intros [= -> <- <-]. discriminate. }
  intros Hrest. rewrite (IH _ _ _ _ Hrest), Hfill. reflexivity.
Qed.

Lemma set_dos_names_spec table map children :
  forall ret children' tr,
    set_dos_names table children map = Some (ret, children', tr) ->
    ret = 0 /\ Forall (has_dos_name table map) children'.
Proof.
  induction children as [|c children IH]; intros ret children' tr; simpl.
  { intros [= <- <- <-]. split; [reflexivity | constructor]. }
  unfold set_dentry_dos_name at 1.
  destruct (is_win32_name c) eqn:Hwin.
  - destruct (table !! d_inode c) as [inode|] eqn:Hin; [|discriminate].
    simpl. unfold lookup_dos_name.
    destruct (map !! i_ino inode) as [node|] eqn:Hnode; simpl;
      (destruct (set_dos_names table children map)
         as [[[ret1 children1] tr1]|] eqn:Hrest; [|discriminate]);
      simpl; intros [= <- <- <-];
      destruct (IH _ _ _ eq_refl) as [-> Hall];
      (split; [reflexivity|]); constructor; try exact Hall.
    + intros _. exists inode. simpl. split; [exact Hin|].
      intros node'. rewrite Hnode. intros [= <-]. auto.
    + intros _. exists inode. split; [exact Hin|].
      intros node'. rewrite Hnode. discriminate.
  - simpl.
    destruct (set_dos_names table children map)
      as [[[ret1 children1] tr1]|] eqn:Hrest; [|discriminate].
    simpl. intros [= <- <- <-].
    destruct (IH _ _ _ eq_refl) as [-> Hall].
    split; [reflexivity|]. constructor; [|exact Hall].
    intros Hwin'. congruence.
Qed.

(** X12. When a directory has been read, every child with a Win32 name
    has the DOS name that the listing gives for its inode, the first one
    if it gives several, as its short name. *)
Theorem children_get_dos_names (rec : recursion) ni path parent st
    parent' st' :
  ntfs_3g_recurse_directory utf16le_to_tstr rec ni path parent st
    = Some (0, parent', st') ->
  Forall (has_dos_name (inode_table st')
            (dos_names_of (ntfs_readdir ni).1 ∅))
    (d_children parent').
Proof.
  unfold ntfs_3g_recurse_directory.
  destruct (ntfs_readdir ni) as [entries final].
  destruct (readdir_entries _ _ _ _ _ _) as [[[rc ctx] st1]|] eqn:Hread;
    [|discriminate].
  simpl.
  destruct (nonzero rc) eqn:Hrc.
  { apply nonzero_true in Hrc. rewrite (proj2 (nonzero_true rc) Hrc).
    destruct (nonzero (ctx_ret ctx)) eqn:Hctx.
    - intros [= Hz _ _]. apply nonzero_true in Hctx. congruence.
    - intros [=]. }
  apply nonzero_false in Hrc. subst rc.
  destruct (nonzero final).
  { destruct (nonzero (ctx_ret ctx)) eqn:Hctx.
    - intros [= Hz _ _]. apply nonzero_true in Hctx. congruence.
    - intros [=]. }
  destruct (set_dos_names _ _ _) as [[[ret children] tr]|] eqn:Hset;
    [|discriminate].
  simpl. intros [= -> <- <-]. simpl.
  apply set_dos_names_spec in Hset. destruct Hset as [_ Hall].
  rewrite (readdir_entries_dos_names _ _ _ _ _ _ _ Hread) in Hall.
  exact Hall.
Qed.
End DosNames.

Lemma children_get_dos_names_witness :
  let ni := sample_inode 5 FILE_ATTRIBUTE_DIRECTORY [] None (Some [x01; x02])
              [entry [76; 111; 110; 103; 70; 105; 108; 101] FILE_NAME_WIN32 100;
               entry [76; 79; 78; 71; 70; 126; 49] FILE_NAME_DOS 100] in
  let rec := ntfs_3g_build_dentry_tree_recursive no_exclude no_progress
               pass_error ascii_of_units 0 dos_volume 2 in
  let st := put_inode empty_capture 5
              (set_security_id
                 (start_scan (new_inode 5) ni FILE_ATTRIBUTE_DIRECTORY) 0) in
  exists parent' st',
    ntfs_3g_recurse_directory ascii_of_units rec ni "/"
      (Dentry "" 5 false None 0 []) (set_sd_set st [[x01; x02]])
      = Some (0, parent', st') /\
    map d_name (d_children parent') = ["LongFile"%string] /\
    map d_short_name (d_children parent')
      = [Some [76; 79; 78; 71; 70; 126; 49]] /\
    Forall (has_dos_name (inode_table st')
              (dos_names_of (ntfs_readdir ni).1 ∅)) (d_children parent').
Proof.
  intros ni rec st.
  destruct (ntfs_3g_recurse_directory ascii_of_units rec ni "/"
              (Dentry "" 5 false None 0 []) (set_sd_set st [[x01; x02]]))
    as [[[ret parent'] st']|] eqn:Hdir; [|vm_compute in Hdir; discriminate].
  assert (Hret : ret = 0)
    by (vm_compute in Hdir; injection Hdir as <- _ _; reflexivity).
  subst ret.
  assert (Hnames : map d_name (d_children parent') = ["LongFile"%string])
    by (vm_compute in Hdir; injection Hdir as <- _; vm_compute; reflexivity).
  assert (Hshort : map d_short_name (d_children parent')
                     = [Some [76; 79; 78; 71; 70; 126; 49]])
    by (vm_compute in Hdir; injection Hdir as <- _; vm_compute; reflexivity).
  exists parent', st'.
  split; [reflexivity|].
  split; [exact Hnames|].
  split; [exact Hshort|].
  exact (children_get_dos_names ascii_of_units rec ni "/" _ _ _ _ Hdir).
Defined.

Lemma same_but_nlink_fields i i' :
  same_but_nlink i i' ->
  stamp i' = stamp i /\ reparse_state i' = reparse_state i /\
  i_security_id i' = i_security_id i /\ i_streams i' = i_streams i.
Proof. unfold same_but_nlink. intros ->. destruct i. repeat split. Qed.

Section ScanKeeps.
Context {H : Type}.
Implicit Type st : capture_state H.

Lemma scan_ntfs_attr_keeps inode ni path type record st :
  let r := scan_ntfs_attr inode ni path type record st in
  stamp r.1.2 = stamp inode /\ i_rp_flags r.1.2 = i_rp_flags inode /\
  i_security_id r.1.2 = i_security_id inode /\
  (type <> AT_REPARSE_POINT -> i_reparse_tag r.1.2 = i_reparse_tag inode).
Proof.
  unfold scan_ntfs_attr.
  destruct (nonzero (value_length record)); [|simpl; auto].
  destruct (set_attr_sort_key ni _) as [[ret loc] tr].
  destruct (nonzero ret); [simpl; auto|].
  destruct (decide (type = AT_REPARSE_POINT)); [|simpl; auto].
  destruct (value_length record <? REPARSE_DATA_OFFSET);
    [simpl; repeat split; auto; contradiction|].
  destruct (read_reparse_tag ni loc) as [[ret' tag] tr'].
  destruct (nonzero ret'); simpl; repeat split; auto; contradiction.
Qed.

Lemma scan_records_keeps ni path type l : forall inode st,
  let r := scan_records inode ni path type l st in
  stamp r.1.2 = stamp inode /\ i_rp_flags r.1.2 = i_rp_flags inode /\
  i_security_id r.1.2 = i_security_id inode /\
  (type <> AT_REPARSE_POINT -> i_reparse_tag r.1.2 = i_reparse_tag inode).
Proof.
  induction l as [|record l IH]; intros inode st; simpl; [auto|].
  pose proof (scan_ntfs_attr_keeps inode ni path type record st) as Hstep.
  destruct (scan_ntfs_attr inode ni path type record st) as [[ret inode'] st'].
  simpl in Hstep. destruct Hstep as (H1 & H2 & H3 & H4).
  destruct (nonzero ret); [simpl; auto|].
  specialize (IH inode' st'). simpl in IH. destruct IH as (I1 & I2 & I3 & I4).
  repeat split; try congruence. intros Ht. rewrite (I4 Ht). auto.
Qed.

Lemma scan_ntfs_attrs_with_type_keeps inode ni path type st :
  let r := scan_ntfs_attrs_with_type inode ni path type st in
  stamp r.1.2 = stamp inode /\ i_rp_flags r.1.2 = i_rp_flags inode /\
  i_security_id r.1.2 = i_security_id inode /\
  (type <> AT_REPARSE_POINT -> i_reparse_tag r.1.2 = i_reparse_tag inode).
Proof.
  unfold scan_ntfs_attrs_with_type.
  destruct (ntfs_attr_lookup ni type) as [records enoent].
  pose proof (scan_records_keeps ni path type records inode st) as Hrec.
  destruct (scan_records inode ni path type records st) as [[ret inode'] st'].
  simpl in Hrec. destruct (nonzero ret); [exact Hrec|].
  destruct (negb enoent); exact Hrec.
Qed.

Lemma get_security_descriptor_retry_keeps fuel ni : forall inode set avail r,
  get_security_descriptor_retry fuel ni inode set avail = Some r ->
  stamp r.1.2 = stamp inode /\ reparse_state r.1.2 = reparse_state inode.
Proof.
  induction fuel as [|fuel IH]; intros inode set avail r; simpl; [discriminate|].
  destruct (ntfs_get_ntfs_acl ni avail) as [ret buf].
  destruct (ret <? 0); [intros [= <-]; auto|].
  destruct (avail <? ret); [apply IH|].
  destruct (0 <? ret); [|intros [= <-]; auto].
  destruct (sd_set_add_sd _ _) as [id set'].
  destruct (id <? 0); intros [= <-]; auto.
Qed.
End ScanKeeps.


Lemma inode_is_symlink_ext i j :
  stamp i = stamp j -> reparse_state i = reparse_state j ->
  inode_is_symlink i = inode_is_symlink j.
Proof.
  unfold stamp, reparse_state, inode_is_symlink.
  intros [= _ _ _ ->] [= -> _]. reflexivity.
Qed.

Section Metadata.
Context {H : Type}.
Variable try_exclude : string -> H -> Z * H.
Variable do_capture_progress :
  scan_status -> string -> option wim_inode -> H -> Z * H.
Variable report_capture_error : Z -> string -> H -> Z * H.
Variable utf16le_to_tstr : list Z -> Z * string.
Variable add_flags : Z.
Variable vol : ntfs_volume.
Implicit Type st : capture_state H.

Local Abbreviation out := (out (H:=H) report_capture_error).
Local Abbreviation out_progress :=
  (out_progress (H:=H) do_capture_progress report_capture_error).
Local Abbreviation filldir := (filldir (H:=H) utf16le_to_tstr).
Local Abbreviation readdir_entries := (readdir_entries (H:=H) utf16le_to_tstr).
Local Abbreviation recurse_directory :=
  (ntfs_3g_recurse_directory (H:=H) utf16le_to_tstr).
Local Abbreviation scan_new_inode :=
  (scan_new_inode (H:=H) do_capture_progress report_capture_error
     utf16le_to_tstr add_flags).
Local Abbreviation build :=
  (ntfs_3g_build_dentry_tree_recursive try_exclude do_capture_progress
     report_capture_error utf16le_to_tstr add_flags vol).

Lemma out_returns_root ret root path st ret' r st' :
  out ret root path st = (ret', Some r, st') ->
  ret = 0 /\ ret' = 0 /\ root = Some r /\ st' = st.
Proof.
  unfold Ntfs3gCapture.out. destruct (nonzero ret) eqn:Hret.
  - destruct (report_capture_error _ _ _). discriminate.
  - apply nonzero_false in Hret. intros [= <- <- <-]. auto.
Qed.

Lemma out_progress_returns_root root path st ret' r st' :
  out_progress root path st = (ret', Some r, st') ->
  root = Some r /\ inode_table st' = inode_table st.
Proof.
  unfold Ntfs3gCapture.out_progress.
  destruct (match root with None => _ | Some d => _ end) as [ret h].
  intros Hout. apply out_returns_root in Hout.
  destruct Hout as (_ & _ & -> & ->). auto.
Qed.

Lemma filldir_header (rec : recursion) path ctx e st ret ctx' st' :
  filldir rec path ctx e st = Some (ret, ctx', st') ->
  header (ctx_parent ctx') = header (ctx_parent ctx).
Proof.
  unfold Ntfs3gCapture.filldir.
  destruct (if has_flag (de_name_type e) FILE_NAME_DOS then _ else _)
    as [[[r map] st0]|]; [|discriminate].
  simpl.
  destruct (has_flag _ _ && _); [intros [= <- <- <-]; reflexivity|].
  destruct (is_dot_or_dotdot _); [intros [= <- <- <-]; reflexivity|].
  destruct (utf16le_to_tstr _) as [r1 mbs].
  destruct (nonzero r1); [intros [= <- <- <-]; reflexivity|].
  destruct (PATH_BUFFER_SIZE <=? _); [discriminate|].
  destruct (rec _ _ _ _) as [[[r2 child] st1]|]; [|discriminate].
  simpl. intros [= <- <- <-]. destruct child; reflexivity.
Qed.

Lemma readdir_entries_header (rec : recursion) path entries :
  forall ctx st ret ctx' st',
    readdir_entries rec path entries ctx st = Some (ret, ctx', st') ->
    header (ctx_parent ctx') = header (ctx_parent ctx).
Proof.
  induction entries as [|e entries IH]; intros ctx st ret ctx' st'; simpl.
  { intros [= <- <- <-]. reflexivity. }
  destruct (filldir rec path ctx e st) as [[[rc ctx1] st1]|] eqn:Hfill;
    [|discriminate].
  simpl. apply filldir_header in Hfill.
  destruct (nonzero rc); [intros [= <- <- <-]; exact Hfill|].
  intros Hrest. rewrite (IH _ _ _ _ _ Hrest). exact Hfill.
Qed.

Lemma recurse_directory_header (rec : recursion) ni path parent st
    ret parent' st' :
  recurse_directory rec ni path parent st = Some (ret, parent', st') ->
  header parent' = header parent.
Proof.
  unfold Ntfs3gCapture.ntfs_3g_recurse_directory.
  destruct (ntfs_readdir ni) as [entries final].
  destruct (readdir_entries _ _ _ _ _) as [[[rc ctx] st1]|] eqn:Hrd;
    [|discriminate].
  simpl. apply readdir_entries_header in Hrd. simpl in Hrd.
  destruct (nonzero (if nonzero rc then rc else final)).
  { destruct (nonzero (ctx_ret ctx)); intros [= <- <- <-]; exact Hrd. }
  destruct (set_dos_names _ _ _) as [[[r children] tr]|]; [|discriminate].
  simpl. intros [= <- <- <-]. exact Hrd.
Qed.

Lemma scan_new_inode_metadata rec ni path attributes root inode st t0 x
    ret root' st' :
  recursion_ok rec -> table_ok t0 ->
  t0 !! d_inode root = None ->
  inode_table st = <[d_inode root := x]> t0 ->
  i_ino inode = d_inode root -> i_nlink inode = 1 -> i_scans inode = 0%nat ->
  i_rp_flags inode = WIM_RP_FLAG_NOT_FIXED ->
  scan_new_inode rec ni path attributes root inode st
    = Some (ret, Some root', st') ->
  header root' = header root /\
  exists inode',
    inode_table st' !! d_inode root = Some inode' /\
    stamp inode' =
      (creation_time ni, last_data_change_time ni, last_access_time ni,
       attributes) /\
    i_rp_flags inode' = captured_rp_flags add_flags inode'.
Proof.
  intros Hrec Hok Hnone Htab Hino Hnl Hsc Hrp.
  unfold Ntfs3gCapture.scan_new_inode.
  set (ino := d_inode root) in *.
  set (inode1 := start_scan inode ni attributes).
  assert (Hs1 : stamp inode1 =
            (creation_time ni, last_data_change_time ni, last_access_time ni,
             attributes)) by reflexivity.
  assert (Hrp1 : i_rp_flags inode1 = WIM_RP_FLAG_NOT_FIXED) by exact Hrp.
  assert (Hc1 : core inode1 = (ino, 1, 1%nat))
    by (unfold core; simpl; congruence).
  set (step1 := if has_flag attributes FILE_ATTRIBUTE_REPARSE_POINT then _ else _).
  assert (H1 : stamp step1.1.2 = stamp inode1 /\
               i_rp_flags step1.1.2 = i_rp_flags inode1 /\
               core step1.1.2 = core inode1 /\
               inode_table step1.2 = inode_table st).
  { subst step1. destruct (has_flag _ _); [|simpl; auto].
    destruct (scan_ntfs_attrs_with_type_keeps inode1 ni path AT_REPARSE_POINT st)
      as (? & ? & _).
    destruct (scan_ntfs_attrs_with_type_core inode1 ni path AT_REPARSE_POINT st)
      as [? ?]. auto. }
  destruct step1 as [[ret1 inode2] st2]. simpl in H1.
  destruct H1 as (Hs2 & Hrp2 & Hc2 & Ht2).
  destruct (nonzero ret1) eqn:Hret1.
  { intros [= Hout]. apply out_returns_root in Hout.
    destruct Hout as (-> & _). discriminate. }
  destruct (scan_ntfs_attrs_with_type_keeps inode2 ni path AT_DATA st2)
    as (Hs3 & Hrp3 & _ & _).
  destruct (scan_ntfs_attrs_with_type_core inode2 ni path AT_DATA st2)
    as [Hc3 Ht3].
  destruct (scan_ntfs_attrs_with_type inode2 ni path AT_DATA st2)
    as [[ret3 inode3] st3].
  simpl in Hs3, Hrp3, Hc3, Ht3.
  destruct (nonzero ret3) eqn:Hret3.
  { intros [= Hout]. apply out_returns_root in Hout.
    destruct Hout as (-> & _). discriminate. }
  set (inode4 := if has_flag add_flags WIMLIB_ADD_FLAG_RPFIX && inode_is_symlink inode3
                 then _ else inode3).
  assert (H4 : stamp inode4 = stamp inode3 /\
               i_reparse_tag inode4 = i_reparse_tag inode3 /\
               core inode4 = core inode3 /\
               i_rp_flags inode4 = captured_rp_flags add_flags inode4).
  { subst inode4. unfold captured_rp_flags.
    destruct (has_flag add_flags WIMLIB_ADD_FLAG_RPFIX) eqn:Hfix;
      [|simpl; repeat split; congruence].
    destruct (inode_is_symlink inode3) eqn:Hsym; simpl.
    - assert (Hsym' : inode_is_symlink
                        (set_rp_flags inode3
                           (Z.land (i_rp_flags inode3)
                              (Z.lnot WIM_RP_FLAG_NOT_FIXED))) = true)
        by (rewrite <- Hsym; destruct inode3; reflexivity).
      rewrite Hsym'. repeat split; try (destruct inode3; reflexivity).
      simpl. congruence.
    - rewrite Hsym. repeat split. congruence. }
  destruct H4 as (Hs4 & Htag4 & Hc4 & Hrp4). clearbody inode4.
  set (step5 := if negb (has_flag add_flags WIMLIB_ADD_FLAG_NO_ACLS) then _ else _).
  assert (H5 : forall r, step5 = Some r ->
            stamp r.1.2 = stamp inode4 /\
            reparse_state r.1.2 = reparse_state inode4 /\
            core r.1.2 = core inode4 /\
            inode_table r.2 = inode_table st3).
  { subst step5. destruct (negb _); [|intros r [= <-]; simpl; auto].
    destruct (get_security_descriptor ni inode4 (sd_set st3))
      as [[[ret5 inode5] set5]|] eqn:Hsd; [|discriminate].
    simpl. intros r [= <-]. simpl.
    destruct (get_security_descriptor_retry_keeps _ _ _ _ _ _ Hsd) as [? ?].
    pose proof (get_security_descriptor_retry_core _ _ _ _ _ _ Hsd).
    simpl in *. repeat split; auto. destruct (nonzero ret5); reflexivity. }
  destruct step5 as [[[ret5 inode5] st5]|]; [|discriminate].
  destruct (H5 _ eq_refl) as (Hs5 & Hr5 & Hc5 & Ht5). simpl in Hs5, Hr5, Hc5, Ht5.
  simpl.
  assert (Hfinal : stamp inode5 =
            (creation_time ni, last_data_change_time ni, last_access_time ni,
             attributes) /\
            i_rp_flags inode5 = captured_rp_flags add_flags inode5).
  { split; [congruence|].
    assert (Hsym : inode_is_symlink inode5 = inode_is_symlink inode4)
      by (apply inode_is_symlink_ext; assumption).
    unfold captured_rp_flags in *. rewrite Hsym.
    unfold reparse_state in Hr5. injection Hr5 as _ ->. exact Hrp4. }
  destruct Hfinal as [Hstamp Hflags].
  destruct (nonzero ret5) eqn:Hret5.
  { intros [= Hout]. apply out_returns_root in Hout.
    destruct Hout as (-> & _). discriminate. }
  destruct (inode_is_directory inode5).
  2:{ intros [= Hout]. apply out_progress_returns_root in Hout.
      destruct Hout as [[= <-] Htable]. split; [reflexivity|].
      exists inode5. rewrite Htable. simpl. rewrite lookup_insert_eq. auto. }
  destruct (recurse_directory rec ni path root (put_inode st5 ino inode5))
    as [[[ret6 root6] st6]|] eqn:Hdir; [|discriminate].
  simpl.
  assert (Hok5 : table_ok (inode_table (put_inode st5 ino inode5))).
  { simpl. rewrite Ht5, Ht3, Ht2, Htab.
    unfold core in Hc5, Hc4, Hc3, Hc2, Hc1.
    assert (Hc : (i_ino inode5, i_nlink inode5, i_scans inode5) = (ino, 1, 1%nat))
      by congruence.
    injection Hc as ? ? ?.
    destruct (extends_fresh t0 ino x inode5 Hok Hnone) as [Hok' _]; auto. }
  destruct (recurse_directory_grows _ _ _ _ _ _ _ _ _ Hrec Hok5 Hdir)
    as (_ & new & _ & (_ & _ & Hsame)).
  pose proof (recurse_directory_header _ _ _ _ _ _ _ _ Hdir) as Hhead.
  destruct (Hsame ino inode5) as (inode6 & Hin6 & Hnl6).
  { simpl. apply lookup_insert_eq. }
  destruct (same_but_nlink_fields _ _ Hnl6) as (Hs6 & Hr6 & _).
  assert (Hsym6 : inode_is_symlink inode6 = inode_is_symlink inode5)
    by (apply inode_is_symlink_ext; assumption).
  assert (Hres : forall r st'',
            inode_table st'' = inode_table st6 -> r = root6 ->
            header r = header root /\
            exists inode',
              inode_table st'' !! ino = Some inode' /\
              stamp inode' =
                (creation_time ni, last_data_change_time ni,
                 last_access_time ni, attributes) /\
              i_rp_flags inode' = captured_rp_flags add_flags inode').
  { intros r st'' Ht ->. split; [exact Hhead|]. exists inode6.
    rewrite Ht. split; [exact Hin6|]. split; [congruence|].
    unfold captured_rp_flags in *. rewrite Hsym6.
    unfold reparse_state in Hr6. injection Hr6 as _ ->. exact Hflags. }
  destruct (nonzero ret6).
  - intros [= Hout]. apply out_returns_root in Hout.
    destruct Hout as (_ & _ & [= <-] & ->). apply Hres; reflexivity.
  - intros [= Hout]. apply out_progress_returns_root in Hout.
    destruct Hout as [[= <-] Htable]. apply Hres; [exact Htable | reflexivity].
Qed.

(** When the callback passes every error on, a run that returns 0 hands
    back the dentry it was given. *)
Lemma out_returns_zero ret root path st o st' :
  (forall r p h, r <> 0 -> (report_capture_error r p h).1 <> 0) ->
  out ret root path st = (0, o, st') -> o = root.
Proof.
  intros Hpass. unfold Ntfs3gCapture.out. destruct (nonzero ret) eqn:Hret.
  - apply nonzero_true in Hret. specialize (Hpass ret path (hooks
      (set_inode_table st (free_dentry_tree root (inode_table st)))) Hret).
    destruct (report_capture_error _ _ _) as [r h]. simpl in Hpass.
    intros [= Hz _ _]. contradiction.
  - intros [= _ <- _]. reflexivity.
Qed.

Lemma out_progress_returns_zero root path st o st' :
  (forall r p h, r <> 0 -> (report_capture_error r p h).1 <> 0) ->
  out_progress root path st = (0, o, st') -> o = root.
Proof.
  intros Hpass. unfold Ntfs3gCapture.out_progress.
  destruct (match root with None => _ | Some d => _ end) as [ret h].
  apply out_returns_zero. exact Hpass.
Qed.

Lemma scan_new_inode_returns_zero rec ni path attributes root inode st o st' :
  (forall r p h, r <> 0 -> (report_capture_error r p h).1 <> 0) ->
  scan_new_inode rec ni path attributes root inode st = Some (0, o, st') ->
  is_Some o.
Proof.
  intros Hpass. unfold Ntfs3gCapture.scan_new_inode.
  destruct (if has_flag attributes FILE_ATTRIBUTE_REPARSE_POINT then _ else _)
    as [[ret1 inode2] st2].
  destruct (nonzero ret1).
  { intros [= Hout]. apply out_returns_zero in Hout; [subst; eauto | exact Hpass]. }
  destruct (scan_ntfs_attrs_with_type inode2 ni path AT_DATA st2)
    as [[ret3 inode3] st3].
  destruct (nonzero ret3).
  { intros [= Hout]. apply out_returns_zero in Hout; [subst; eauto | exact Hpass]. }
  destruct (if negb (has_flag add_flags WIMLIB_ADD_FLAG_NO_ACLS) then _ else _)
    as [[[ret5 inode5] st5]|]; [|discriminate].
  simpl. destruct (nonzero ret5).
  { intros [= Hout]. apply out_returns_zero in Hout; [subst; eauto | exact Hpass]. }
  destruct (inode_is_directory inode5).
  2:{ intros [= Hout].
      apply out_progress_returns_zero in Hout; [subst; eauto | exact Hpass]. }
  destruct (recurse_directory rec ni path root _)
    as [[[ret6 root6] st6]|]; [|discriminate].
  simpl. destruct (nonzero ret6); intros [= Hout].
  - apply out_returns_zero in Hout; [subst; eauto | exact Hpass].
  - apply out_progress_returns_zero in Hout; [subst; eauto | exact Hpass].
Qed.

Lemma build_returns_dentry fuel mref path name_type st ni attributes o st' :
  (forall r p h, r <> 0 -> (report_capture_error r p h).1 <> 0) ->
  (try_exclude path (hooks st)).1 = 0 ->
  ntfs_inode_open vol mref = Some ni ->
  ntfs_get_ntfs_attrib ni = (4, attributes) ->
  has_flag attributes FILE_ATTRIBUTE_ENCRYPTED = false ->
  build fuel mref path name_type st = Some (0, o, st') ->
  is_Some o.
Proof.
  intros Hpass Hex Hopen Hattr Henc.
  destruct fuel as [|fuel]; [discriminate|].
  simpl. unfold Ntfs3gCapture.build_dentry.
  destruct (try_exclude path (hooks st)) as [r0 h]. simpl in Hex. subst r0.
  cbn [Z.ltb Z.compare]. rewrite Hopen, Hattr, Henc. cbn [Z.eqb negb].
  unfold inode_table_new_dentry. cbn [inode_table set_hooks].
  destruct (inode_table st !! mft_no ni) as [i|];
    cbn [nonzero Z.eqb negb];
    (destruct (inode_table _ !! _) as [inode|]; [|discriminate]);
    simpl; destruct (1 <? i_nlink inode).
  all: try (intros [= Hout];
            apply out_progress_returns_zero in Hout; [subst; eauto | exact Hpass]).
  all: apply scan_new_inode_returns_zero; exact Hpass.
Qed.

(** X13. A run of [ntfs_3g_build_dentry_tree_recursive] on a file that
    the table does not hold yet returns when the files from [mref] down
    nest fewer levels deep than there is fuel, with paths and DOS names
    that fit their buffers; and if it returns 0 for a
    path that is not excluded and a file that is not encrypted, with a
    callback that passes errors on, it returns a dentry.  The dentry
    returned comes with an inode that holds what the volume says of the
    file: its three times and its attributes.  The flags of its reparse
    data say "not fixed", unless the capture fixes reparse points and
    the inode is a symbolic link or a junction.  The dentry has the last
    component of the path as its name, and is marked as a Win32 name
    exactly for the name types with the Win32 bit. *)
Theorem captured_inode_has_volume_metadata fuel mref path name_type st
    ni attributes :
  table_ok (inode_table st) ->
  ntfs_inode_open vol mref = Some ni ->
  ntfs_get_ntfs_attrib ni = (4, attributes) ->
  inode_table st !! mft_no ni = None ->
  (nests_within utf16le_to_tstr vol fuel path mref = true ->
   exists ret root st',
     build fuel mref path name_type st = Some (ret, root, st') /\
     ((forall r p h, r <> 0 -> (report_capture_error r p h).1 <> 0) ->
      (try_exclude path (hooks st)).1 = 0 ->
      has_flag attributes FILE_ATTRIBUTE_ENCRYPTED = false ->
      ret = 0 -> is_Some root)) /\
  forall ret root st',
    build fuel mref path name_type st = Some (ret, Some root, st') ->
    d_name root = path_basename path /\
    d_inode root = mft_no ni /\
    is_win32_name root = has_flag name_type FILE_NAME_WIN32 /\
    exists inode,
      inode_table st' !! mft_no ni = Some inode /\
      i_creation_time inode = creation_time ni /\
      i_last_write_time inode = last_data_change_time ni /\
      i_last_access_time inode = last_access_time ni /\
      i_attributes inode = attributes /\
      i_rp_flags inode = captured_rp_flags add_flags inode.
Proof.
  intros Hok Hopen Hattr Hfresh. split.
  { intros Hdepth.
    destruct (build_returns try_exclude do_capture_progress
                report_capture_error utf16le_to_tstr add_flags vol fuel
                path mref Hdepth name_type st Hok) as [[[ret root] st'] Hrun].
    exists ret, root, st'. split; [exact Hrun|].
    intros Hpass Hex Henc ->.
    eapply build_returns_dentry; eauto. }
  intros ret root st'.
  destruct fuel as [|fuel]; [discriminate|].
  simpl. unfold Ntfs3gCapture.build_dentry.
  destruct (try_exclude path (hooks st)) as [r0 h].
  destruct (r0 <? 0).
  { intros [= Hout]. apply out_progress_returns_root in Hout.
    destruct Hout as [[=] _]. }
  destruct (0 <? r0).
  { intros [= Hout]. apply out_returns_root in Hout.
    destruct Hout as (_ & _ & [=] & _). }
  rewrite Hopen, Hattr. cbn [Z.eqb negb].
  destruct (has_flag attributes FILE_ATTRIBUTE_ENCRYPTED).
  { destruct (has_flag add_flags _).
    - intros [= Hout]. apply out_returns_root in Hout.
      destruct Hout as (_ & _ & [=] & _).
    - destruct (do_capture_progress _ _ _ _) as [r1 h1].
      intros [= Hout]. apply out_returns_root in Hout.
      destruct Hout as (_ & _ & [=] & _). }
  unfold inode_table_new_dentry. cbn [inode_table set_hooks].
  rewrite Hfresh. cbn [nonzero Z.eqb negb].
  set (root0 := {| d_name := path_basename path; d_inode := mft_no ni;
                   is_win32_name := false; d_short_name := None;
                   d_short_name_nbytes := 0; d_children := [] |}).
  set (root1 := if has_flag name_type FILE_NAME_WIN32 then _ else _).
  assert (Hhead : d_name root1 = path_basename path /\
                  d_inode root1 = mft_no ni /\
                  is_win32_name root1 = has_flag name_type FILE_NAME_WIN32).
  { subst root1. destruct (has_flag name_type FILE_NAME_WIN32); auto. }
  destruct Hhead as (Hname & Hd & Hwin).
  cbn [inode_table set_inode_table]. rewrite Hd, lookup_insert_eq. simpl.
  intros Hscan.
  destruct (scan_new_inode_metadata
              (build fuel) ni path attributes root1 (new_inode (mft_no ni))
              (set_inode_table (set_hooks st h)
                 (<[mft_no ni := new_inode (mft_no ni)]> (inode_table st)))
              (inode_table st) (new_inode (mft_no ni)) ret root st')
    as (Hroot & inode & Hin & Hstamp & Hflags); auto.
  - apply build_ok.
  - rewrite Hd. exact Hfresh.
  - rewrite Hd. reflexivity.
  - unfold header in Hroot. injection Hroot as -> -> -> _ _.
    split; [exact Hname|]. split; [exact Hd|]. split; [exact Hwin|].
    exists inode. rewrite Hd in Hin. split; [exact Hin|].
    unfold stamp in Hstamp. injection Hstamp as -> -> -> ->. auto.
Qed.
End Metadata.

(** ** One scan per inode *)

Lemma scanned_same_but_nlink vol add_flags sds i i' :
  same_but_nlink i i' -> scanned vol add_flags sds i ->
  scanned vol add_flags sds i'.
Proof.
  intros Hsame (mref & ni & Hopen & Hno & Hstamp & Hstreams & Hsec).
  destruct (same_but_nlink_fields _ _ Hsame) as (Hs & _ & Hid & Hst).
  exists mref, ni. rewrite Hs, Hst. split; [exact Hopen|].
  split; [rewrite Hno; unfold same_but_nlink in Hsame; rewrite Hsame;
          reflexivity|].
  split; [exact Hstamp|]. split; [exact Hstreams|].
  unfold security_of in *. rewrite Hid. exact Hsec.
Qed.

Lemma scanned_grows vol add_flags sds sds' i :
  sds `prefix_of` sds' -> scanned vol add_flags sds i ->
  scanned vol add_flags sds' i.
Proof.
  intros Hpre (mref & ni & Hopen & Hno & Hstamp & Hstreams & Hsec).
  exists mref, ni. repeat (split; [assumption|]).
  unfold security_of in *.
  destruct (has_flag add_flags WIMLIB_ADD_FLAG_NO_ACLS); [exact Hsec|].
  destruct (ntfs_acl ni) as [[|b sd]|]; [exact Hsec| |exact Hsec].
  destruct Hsec as [Hid Hlook]. split; [exact Hid|].
  eapply prefix_lookup_Some; eauto.
Qed.

Lemma fresh_scanned_refl vol add_flags sds t : fresh_scanned vol add_flags sds t t.
Proof. intros ino i H0 H1. congruence. Qed.

Lemma fresh_scanned_trans vol add_flags sds1 sds2 t0 t1 t2 l :
  fresh_scanned vol add_flags sds1 t0 t1 -> extends t1 t2 l ->
  fresh_scanned vol add_flags sds2 t1 t2 -> sds1 `prefix_of` sds2 ->
  fresh_scanned vol add_flags sds2 t0 t2.
Proof.
  intros H01 (_ & _ & Hsame) H12 Hpre ino i2 H0 H2.
  destruct (t1 !! ino) as [i1|] eqn:H1; [|eapply H12; eauto].
  destruct (Hsame _ _ H1) as (i2' & H2' & Hs).
  rewrite H2 in H2'. injection H2' as <-.
  eapply scanned_same_but_nlink; [exact Hs|].
  eapply scanned_grows; [exact Hpre|]. eapply H01; eauto.
Qed.

Lemma sd_set_find_spec l sd : forall i id,
  0 <= i -> sd_set_find l sd i = Some id ->
  i <= id /\ l !! Z.to_nat (id - i) = Some sd.
Proof.
  induction l as [|x l IH]; intros i id Hi; simpl; [discriminate|].
  destruct (decide (x = sd)) as [->|Hne].
  - intros [= <-]. rewrite Z.sub_diag. split; [lia | reflexivity].
  - intros Hfind. destruct (IH (i + 1) id ltac:(lia) Hfind) as [Hle Hlook].
    split; [lia|].
    replace (Z.to_nat (id - i)) with (Datatypes.S (Z.to_nat (id - (i + 1))))
      by lia.
    exact Hlook.
Qed.

Lemma sd_set_add_sd_spec set sd :
  let r := sd_set_add_sd set sd in
  0 <= r.1 /\ r.2 !! Z.to_nat r.1 = Some sd /\ set `prefix_of` r.2.
Proof.
  unfold sd_set_add_sd.
  destruct (sd_set_find set sd 0) as [id|] eqn:Hfind; simpl.
  - destruct (sd_set_find_spec set sd 0 id ltac:(lia) Hfind) as [Hle Hlook].
    rewrite Z.sub_0_r in Hlook. auto.
  - split; [lia|]. split; [|apply prefix_app_r; reflexivity].
    rewrite Nat2Z.id. apply list_lookup_middle. reflexivity.
Qed.

Lemma get_security_descriptor_retry_grows fuel ni :
  forall inode set avail r,
    get_security_descriptor_retry fuel ni inode set avail = Some r ->
    i_streams r.1.2 = i_streams inode /\ set `prefix_of` r.2.
Proof.
  induction fuel as [|fuel IH]; intros inode set avail r; simpl; [discriminate|].
  destruct (ntfs_get_ntfs_acl ni avail) as [ret buf].
  destruct (ret <? 0); [intros [= <-]; auto|].
  destruct (avail <? ret); [apply IH|].
  destruct (0 <? ret); [|intros [= <-]; auto].
  pose proof (sd_set_add_sd_spec set (take (Z.to_nat ret) (default [] buf)))
    as (_ & _ & Hpre).
  destruct (sd_set_add_sd _ _) as [id set'].
  destruct (id <? 0); intros [= <-]; auto.
Qed.

(** The security id that a successful [get_security_descriptor] leaves
    on an inode that had none. *)
Lemma get_security_descriptor_id ni inode set inode' set' :
  i_security_id inode = -1 ->
  get_security_descriptor ni inode set = Some (0, inode', set') ->
  match ntfs_acl ni with
  | None => False
  | Some [] => i_security_id inode' = -1
  | Some sd =>
      0 <= i_security_id inode' /\
      set' !! Z.to_nat (i_security_id inode') = Some sd
  end.
Proof.
  intros Hid. unfold get_security_descriptor.
  cbn [get_security_descriptor_retry]. unfold ntfs_get_ntfs_acl.
  destruct (ntfs_acl ni) as [sd|]; [|simpl; discriminate].
  destruct sd as [|b sd]; [simpl; intros [= <- <-]; exact Hid|].
  set (full := b :: sd). set (n := Z.of_nat (length full)).
  assert (Hn : 0 < n) by (subst n full; simpl; lia).
  assert (Htake : take (Z.to_nat n) full = full)
    by (apply take_ge; subst n; lia).
  replace (n <? 0) with false by (symmetry; apply Z.ltb_ge; lia).
  replace (0 <? n) with true by (symmetry; apply Z.ltb_lt; lia).
  rewrite Z.ltb_irrefl, Z.leb_refl.
  pose proof (sd_set_add_sd_spec set full) as (Hpos & Hlook & _).
  destruct (4096 <? n) eqn:Hbig.
  - simpl. rewrite Htake. destruct (sd_set_add_sd set full) as [id s'].
    simpl in *. destruct (id <? 0); [discriminate|].
    intros [= <- <-]. simpl. auto.
  - apply Z.ltb_ge in Hbig.
    replace (n <=? 4096) with true by (symmetry; apply Z.leb_le; lia).
    simpl. rewrite Htake. destruct (sd_set_add_sd set full) as [id s'].
    simpl in *. destruct (id <? 0); [discriminate|].
    intros [= <- <-]. simpl. auto.
Qed.

Section Scanned.
Context {H : Type}.
Variable try_exclude : string -> H -> Z * H.
Variable do_capture_progress :
  scan_status -> string -> option wim_inode -> H -> Z * H.
Variable report_capture_error : Z -> string -> H -> Z * H.
Variable utf16le_to_tstr : list Z -> Z * string.
Variable add_flags : Z.
Variable vol : ntfs_volume.
Implicit Type st : capture_state H.

Local Abbreviation out := (out (H:=H) report_capture_error).
Local Abbreviation out_progress :=
  (out_progress (H:=H) do_capture_progress report_capture_error).
Local Abbreviation filldir := (filldir (H:=H) utf16le_to_tstr).
Local Abbreviation readdir_entries := (readdir_entries (H:=H) utf16le_to_tstr).
Local Abbreviation recurse_directory :=
  (ntfs_3g_recurse_directory (H:=H) utf16le_to_tstr).
Local Abbreviation scan_new_inode :=
  (scan_new_inode (H:=H) do_capture_progress report_capture_error
     utf16le_to_tstr add_flags).
Local Abbreviation build_dentry :=
  (build_dentry try_exclude do_capture_progress report_capture_error
     utf16le_to_tstr add_flags vol).
Local Abbreviation build :=
  (ntfs_3g_build_dentry_tree_recursive try_exclude do_capture_progress
     report_capture_error utf16le_to_tstr add_flags vol).
Local Abbreviation fresh_scanned := (fresh_scanned vol add_flags).
Local Abbreviation recursion_scans := (recursion_scans (H:=H) vol add_flags).

(** *** The set of security descriptors only grows *)

Lemma out_sd_set ret root path st :
  sd_set (out ret root path st).2 = sd_set st.
Proof.
  unfold Ntfs3gCapture.out. destruct (nonzero ret); [|reflexivity].
  destruct (report_capture_error _ _ _). reflexivity.
Qed.

Lemma out_progress_sd_set root path st :
  sd_set (out_progress root path st).2 = sd_set st.
Proof.
  unfold Ntfs3gCapture.out_progress.
  destruct (match root with None => _ | Some d => _ end) as [ret h].
  rewrite out_sd_set. reflexivity.
Qed.

Lemma scan_ntfs_attrs_with_type_sd_set inode ni path type st :
  sd_set (scan_ntfs_attrs_with_type inode ni path type st).2 = sd_set st.
Proof.
  unfold scan_ntfs_attrs_with_type.
  destruct (ntfs_attr_lookup ni type) as [records enoent].
  destruct (scan_records_frame ni path type records inode st) as [Hsd _].
  destruct (scan_records inode ni path type records st) as [[ret i] s].
  simpl in Hsd. destruct (nonzero ret); [exact Hsd|].
  destruct (negb enoent); exact Hsd.
Qed.

Lemma filldir_sds rec path ctx e st rc ctx' st' :
  recursion_grows rec ->
  filldir rec path ctx e st = Some (rc, ctx', st') ->
  sd_set st `prefix_of` sd_set st'.
Proof.
  intros Hrec. unfold Ntfs3gCapture.filldir.
  set (first := if has_flag (de_name_type e) FILE_NAME_DOS then _ else _).
  assert (Hfirst : forall r, first = Some r -> sd_set r.2 = sd_set st).
  { subst first. destruct (has_flag _ _); [|intros r [= <-]; reflexivity].
    destruct (insert_dos_name _ _ _ _) as [[[r1 m] t]|]; [|discriminate].
    simpl. intros r [= <-]. reflexivity. }
  destruct first as [[[ret map] st1]|]; [|discriminate].
  specialize (Hfirst _ eq_refl). simpl in Hfirst. simpl.
  rewrite <- Hfirst.
  destruct (has_flag _ _ && _); [intros [= <- <- <-]; reflexivity|].
  destruct (is_dot_or_dotdot _); [intros [= <- <- <-]; reflexivity|].
  destruct (utf16le_to_tstr _) as [ret' mbs].
  destruct (nonzero ret'); [intros [= <- <- <-]; reflexivity|].
  destruct (PATH_BUFFER_SIZE <=? _); [discriminate|].
  destruct (rec _ _ _ st1) as [[[ret'' child] st2]|] eqn:Hcall; [|discriminate].
  simpl. intros [= <- <- <-]. apply (Hrec _ _ _ _ _ Hcall).
Qed.

Lemma readdir_entries_sds rec path entries : forall ctx st rc ctx' st',
  recursion_grows rec ->
  readdir_entries rec path entries ctx st = Some (rc, ctx', st') ->
  sd_set st `prefix_of` sd_set st'.
Proof.
  induction entries as [|e entries IH]; intros ctx st rc ctx' st' Hrec; simpl.
  { intros [= <- <- <-]. reflexivity. }
  destruct (filldir rec path ctx e st) as [[[rc1 ctx1] st1]|] eqn:Hfill;
    [|discriminate].
  pose proof (filldir_sds _ _ _ _ _ _ _ _ Hrec Hfill) as H1.
  simpl. destruct (nonzero rc1); [intros [= <- <- <-]; exact H1|].
  intros Hrest. etransitivity; [exact H1|]. eapply IH; eauto.
Qed.

Lemma recurse_directory_sds rec ni path parent st ret parent' st' :
  recursion_grows rec ->
  recurse_directory rec ni path parent st = Some (ret, parent', st') ->
  sd_set st `prefix_of` sd_set st'.
Proof.
  intros Hrec. unfold Ntfs3gCapture.ntfs_3g_recurse_directory.
  destruct (ntfs_readdir ni) as [entries final].
  destruct (readdir_entries _ _ _ _ _) as [[[rc ctx] st1]|] eqn:Hrd;
    [|discriminate].
  pose proof (readdir_entries_sds _ _ _ _ _ _ _ _ Hrec Hrd) as Hs.
  simpl. destruct (nonzero (if nonzero rc then rc else final)).
  - destruct (nonzero (ctx_ret ctx)); intros [= <- <- <-]; exact Hs.
  - destruct (set_dos_names _ _ _) as [[[r children] tr]|]; [|discriminate].
    simpl. intros [= <- <- <-]. exact Hs.
Qed.

Lemma scan_new_inode_sds rec ni path attributes root inode st o :
  recursion_grows rec ->
  scan_new_inode rec ni path attributes root inode st = Some o ->
  sd_set st `prefix_of` sd_set o.2.
Proof.
  intros Hrec. unfold Ntfs3gCapture.scan_new_inode.
  set (step1 := if has_flag attributes FILE_ATTRIBUTE_REPARSE_POINT then _ else _).
  assert (H1 : sd_set step1.2 = sd_set st).
  { subst step1. destruct (has_flag _ _); [|reflexivity].
    apply scan_ntfs_attrs_with_type_sd_set. }
  destruct step1 as [[ret1 inode2] st2]. simpl in H1.
  destruct (nonzero ret1).
  { intros [= <-]. rewrite out_sd_set. simpl. rewrite H1. reflexivity. }
  pose proof (scan_ntfs_attrs_with_type_sd_set inode2 ni path AT_DATA st2) as H3.
  destruct (scan_ntfs_attrs_with_type inode2 ni path AT_DATA st2)
    as [[ret3 inode3] st3].
  simpl in H3. rewrite H1 in H3.
  destruct (nonzero ret3).
  { intros [= <-]. rewrite out_sd_set. simpl. rewrite H3. reflexivity. }
  set (step5 := if negb (has_flag add_flags WIMLIB_ADD_FLAG_NO_ACLS) then _ else _).
  assert (H5 : forall r, step5 = Some r -> sd_set st `prefix_of` sd_set r.2).
  { subst step5. destruct (negb _); [|intros r [= <-]; simpl; rewrite H3; reflexivity].
    destruct (get_security_descriptor ni _ (sd_set st3))
      as [[[ret5 inode5] set5]|] eqn:Hsd; [|discriminate].
    simpl. intros r [= <-]. simpl.
    destruct (get_security_descriptor_retry_grows _ _ _ _ _ _ Hsd) as [_ Hpre].
    simpl in Hpre. rewrite H3 in Hpre. destruct (nonzero ret5); exact Hpre. }
  destruct step5 as [[[ret5 inode5] st5]|]; [|discriminate].
  specialize (H5 _ eq_refl). simpl in H5. simpl.
  destruct (nonzero ret5).
  { intros [= <-]. rewrite out_sd_set. exact H5. }
  destruct (inode_is_directory inode5).
  2:{ intros [= <-]. rewrite out_progress_sd_set. exact H5. }
  destruct (recurse_directory rec ni path root _)
    as [[[ret6 root6] st6]|] eqn:Hdir; [|discriminate].
  apply recurse_directory_sds in Hdir; [|exact Hrec]. simpl in Hdir.
  simpl. destruct (nonzero ret6); intros [= <-];
    rewrite ?out_sd_set, ?out_progress_sd_set; etransitivity; eauto.
Qed.

Lemma build_dentry_sds rec :
  recursion_grows rec -> recursion_grows (build_dentry rec).
Proof.
  intros Hrec mref path name_type st o. unfold Ntfs3gCapture.build_dentry.
  destruct (try_exclude path (hooks st)) as [r0 h].
  destruct (r0 <? 0); [intros [= <-]; rewrite out_progress_sd_set; reflexivity|].
  destruct (0 <? r0); [intros [= <-]; rewrite out_sd_set; reflexivity|].
  destruct (ntfs_inode_open vol mref) as [ni|];
    [|intros [= <-]; rewrite out_sd_set; reflexivity].
  destruct (ntfs_get_ntfs_attrib ni) as [got attributes].
  destruct (negb (got =? 4)); [intros [= <-]; rewrite out_sd_set; reflexivity|].
  destruct (has_flag attributes FILE_ATTRIBUTE_ENCRYPTED).
  { destruct (has_flag add_flags _);
      [intros [= <-]; rewrite out_sd_set; reflexivity|].
    destruct (do_capture_progress _ _ _ _) as [r1 h1].
    intros [= <-]. rewrite out_sd_set. reflexivity. }
  destruct (inode_table_new_dentry _ _ _) as [[r2 root] table].
  destruct (nonzero r2); [intros [= <-]; rewrite out_sd_set; reflexivity|].
  destruct (inode_table _ !! _) as [inode|]; [|discriminate]. simpl.
  destruct (1 <? i_nlink inode);
    [intros [= <-]; rewrite out_progress_sd_set; reflexivity|].
  intros Hscan. apply (scan_new_inode_sds _ _ _ _ _ _ _ _ Hrec Hscan).
Qed.

Lemma build_sds fuel : recursion_grows (build fuel).
Proof.
  induction fuel as [|fuel IH]; simpl.
  - intros mref path name_type st o. discriminate.
  - apply build_dentry_sds. exact IH.
Qed.

(** *** The inodes that a run adds to the table were scanned *)

(** The streams that a scan of the attributes of one type attaches when
    it succeeds. *)
Lemma scan_ntfs_attrs_with_type_new_streams inode ni path type st inode' st' :
  scan_ntfs_attrs_with_type inode ni path type st = (0, inode', st') ->
  exists new,
    i_streams inode' = i_streams inode ++ new /\
    Forall2 (stream_of_record ni type) (ntfs_attr_lookup ni type).1 new.
Proof.
  unfold scan_ntfs_attrs_with_type.
  destruct (ntfs_attr_lookup ni type) as [records enoent].
  destruct (scan_records inode ni path type records st)
    as [[ret inode1] st1] eqn:Hscan.
  destruct (scan_records_streams _ _ _ _ _ _ _ _ _ Hscan)
    as (new & blobs & Hs & _ & _ & Hall & _ & Hlen & _).
  destruct (nonzero ret) eqn:Hret.
  { intros [= -> <- <-]. discriminate. }
  apply nonzero_false in Hret. subst ret.
  destruct (negb enoent); [discriminate|]. intros [= <- <-].
  exists new. split; [exact Hs|].
  rewrite (Hlen eq_refl), firstn_all in Hall. exact Hall.
Qed.

Lemma out_progress_returns_state root path st ret' r st' :
  out_progress root path st = (ret', Some r, st') ->
  inode_table st' = inode_table st /\ sd_set st' = sd_set st.
Proof.
  intros Hout. pose proof (out_progress_sd_set root path st) as Hsd.
  rewrite Hout in Hsd. apply out_progress_returns_root in Hout.
  destruct Hout as [_ Ht]. auto.
Qed.

Lemma filldir_scans rec path ctx e st rc ctx' st' :
  recursion_scans rec -> table_ok (inode_table st) ->
  filldir rec path ctx e st = Some (rc, ctx', st') ->
  fresh_scanned (sd_set st') (inode_table st) (inode_table st').
Proof.
  intros Hrec Hok. unfold Ntfs3gCapture.filldir.
  set (first := if has_flag (de_name_type e) FILE_NAME_DOS then _ else _).
  assert (Hfirst : forall r, first = Some r -> inode_table r.2 = inode_table st).
  { subst first. destruct (has_flag _ _); [|intros r [= <-]; reflexivity].
    destruct (insert_dos_name _ _ _ _) as [[[r1 m] t]|]; [|discriminate].
    simpl. intros r [= <-]. reflexivity. }
  destruct first as [[[ret map] st1]|]; [|discriminate].
  specialize (Hfirst _ eq_refl). simpl in Hfirst. simpl.
  rewrite <- Hfirst.
  destruct (has_flag _ _ && _);
    [intros [= <- <- <-]; apply fresh_scanned_refl|].
  destruct (is_dot_or_dotdot _);
    [intros [= <- <- <-]; apply fresh_scanned_refl|].
  destruct (utf16le_to_tstr _) as [ret' mbs].
  destruct (nonzero ret');
    [intros [= <- <- <-]; apply fresh_scanned_refl|].
  destruct (PATH_BUFFER_SIZE <=? _); [discriminate|].
  destruct (rec _ _ _ st1) as [[[ret'' child] st2]|] eqn:Hcall; [|discriminate].
  simpl. intros [= <- <- <-].
  apply (Hrec _ _ _ _ _ ltac:(rewrite Hfirst; exact Hok) Hcall).
Qed.

Lemma readdir_entries_scans rec path entries : forall ctx st rc ctx' st',
  recursion_ok rec -> recursion_grows rec -> recursion_scans rec ->
  table_ok (inode_table st) ->
  readdir_entries rec path entries ctx st = Some (rc, ctx', st') ->
  fresh_scanned (sd_set st') (inode_table st) (inode_table st').
Proof.
  induction entries as [|e entries IH];
    intros ctx st rc ctx' st' Hrec Hgr Hsc Hok; simpl.
  { intros [= <- <- <-]. apply fresh_scanned_refl. }
  destruct (filldir rec path ctx e st) as [[[rc1 ctx1] st1]|] eqn:Hfill;
    [|discriminate].
  pose proof (filldir_scans _ _ _ _ _ _ _ _ Hsc Hok Hfill) as H1.
  destruct (filldir_grows _ _ _ _ _ _ _ _ _ Hrec Hok Hfill)
    as (_ & new1 & _ & Hext1).
  simpl. destruct (nonzero rc1); [intros [= <- <- <-]; exact H1|].
  intros Hrest.
  destruct (readdir_entries_grows _ _ _ _ _ _ _ _ _ Hrec
              ltac:(destruct Hext1 as [Hok1 _]; exact Hok1) Hrest)
    as (_ & new2 & _ & Hext2).
  eapply fresh_scanned_trans; [exact H1 | exact Hext2| |].
  - eapply IH; eauto. destruct Hext1 as [Hok1 _]. exact Hok1.
  - eapply readdir_entries_sds; eauto.
Qed.

Lemma recurse_directory_scans rec ni path parent st ret parent' st' :
  recursion_ok rec -> recursion_grows rec -> recursion_scans rec ->
  table_ok (inode_table st) ->
  recurse_directory rec ni path parent st = Some (ret, parent', st') ->
  fresh_scanned (sd_set st') (inode_table st) (inode_table st').
Proof.
  intros Hrec Hgr Hsc Hok. unfold Ntfs3gCapture.ntfs_3g_recurse_directory.
  destruct (ntfs_readdir ni) as [entries final].
  destruct (readdir_entries _ _ _ _ _) as [[[rc ctx] st1]|] eqn:Hrd;
    [|discriminate].
  pose proof (readdir_entries_scans _ _ _ _ _ _ _ _ Hrec Hgr Hsc Hok Hrd) as Hs.
  simpl. destruct (nonzero (if nonzero rc then rc else final)).
  - destruct (nonzero (ctx_ret ctx)); intros [= <- <- <-]; exact Hs.
  - destruct (set_dos_names _ _ _) as [[[r children] tr]|]; [|discriminate].
    simpl. intros [= <- <- <-]. exact Hs.
Qed.

Lemma scan_new_inode_scans rec ni path attributes root inode st t0 x mref
    ret root' st' :
  recursion_ok rec -> recursion_grows rec -> recursion_scans rec ->
  table_ok t0 ->
  t0 !! d_inode root = None ->
  inode_table st = <[d_inode root := x]> t0 ->
  i_ino inode = d_inode root -> i_nlink inode = 1 -> i_scans inode = 0%nat ->
  i_streams inode = [] -> i_security_id inode = -1 ->
  ntfs_inode_open vol mref = Some ni -> mft_no ni = d_inode root ->
  ntfs_get_ntfs_attrib ni = (4, attributes) ->
  scan_new_inode rec ni path attributes root inode st
    = Some (ret, Some root', st') ->
  fresh_scanned (sd_set st') t0 (inode_table st').
Proof.
  intros Hrec Hgr Hscans Hok Hnone Htab Hino Hnl Hsc Hempty Hid Hopen Hno Hattr.
  unfold Ntfs3gCapture.scan_new_inode.
  set (ino := d_inode root) in *.
  set (inode1 := start_scan inode ni attributes).
  assert (Hs1 : stamp inode1 =
            (creation_time ni, last_data_change_time ni, last_access_time ni,
             attributes)) by reflexivity.
  assert (Hc1 : core inode1 = (ino, 1, 1%nat))
    by (unfold core; simpl; congruence).
  assert (Hst1 : i_streams inode1 = []) by exact Hempty.
  assert (Hid1 : i_security_id inode1 = -1) by exact Hid.
  set (step1 := if has_flag attributes FILE_ATTRIBUTE_REPARSE_POINT then _ else _).
  assert (H1 : stamp step1.1.2 = stamp inode1 /\
               i_security_id step1.1.2 = i_security_id inode1 /\
               core step1.1.2 = core inode1 /\
               inode_table step1.2 = inode_table st /\
               (step1.1.1 = 0 ->
                Forall2 (stream_of_record ni AT_REPARSE_POINT)
                  (if has_flag attributes FILE_ATTRIBUTE_REPARSE_POINT
                   then (ntfs_attr_lookup ni AT_REPARSE_POINT).1 else [])
                  (i_streams step1.1.2))).
  { subst step1. destruct (has_flag _ _);
      [|simpl; repeat split; intros _; rewrite Hempty; constructor].
    destruct (scan_ntfs_attrs_with_type_keeps inode1 ni path AT_REPARSE_POINT st)
      as (? & _ & ? & _).
    destruct (scan_ntfs_attrs_with_type_core inode1 ni path AT_REPARSE_POINT st)
      as [? ?].
    repeat split; auto.
    destruct (scan_ntfs_attrs_with_type inode1 ni path AT_REPARSE_POINT st)
      as [[r i] s] eqn:Hrun.
    simpl. intros ->.
    destruct (scan_ntfs_attrs_with_type_new_streams _ _ _ _ _ _ _ Hrun)
      as (new & -> & Hall).
    rewrite Hst1. exact Hall. }
  destruct step1 as [[ret1 inode2] st2]. simpl in H1.
  destruct H1 as (Hs2 & Hid2 & Hc2 & Ht2 & Hrp).
  destruct (nonzero ret1) eqn:Hret1.
  { intros [= Hout]. apply out_returns_root in Hout.
    destruct Hout as (-> & _). discriminate. }
  apply nonzero_false in Hret1. specialize (Hrp Hret1).
  destruct (scan_ntfs_attrs_with_type_keeps inode2 ni path AT_DATA st2)
    as (Hs3 & _ & Hid3 & _).
  destruct (scan_ntfs_attrs_with_type_core inode2 ni path AT_DATA st2)
    as [Hc3 Ht3].
  destruct (scan_ntfs_attrs_with_type inode2 ni path AT_DATA st2)
    as [[ret3 inode3] st3] eqn:Hdata.
  simpl in Hs3, Hid3, Hc3, Ht3.
  destruct (nonzero ret3) eqn:Hret3.
  { intros [= Hout]. apply out_returns_root in Hout.
    destruct Hout as (-> & _). discriminate. }
  apply nonzero_false in Hret3. subst ret3.
  destruct (scan_ntfs_attrs_with_type_new_streams _ _ _ _ _ _ _ Hdata)
    as (data & Hst3 & Hall3).
  set (inode4 := if has_flag add_flags WIMLIB_ADD_FLAG_RPFIX && inode_is_symlink inode3
                 then _ else inode3).
  assert (H4 : stamp inode4 = stamp inode3 /\ core inode4 = core inode3 /\
               i_streams inode4 = i_streams inode3 /\
               i_security_id inode4 = i_security_id inode3).
  { subst inode4. destruct (_ && _); [|auto]. destruct inode3; auto. }
  destruct H4 as (Hs4 & Hc4 & Hst4 & Hid4). clearbody inode4.
  set (step5 := if negb (has_flag add_flags WIMLIB_ADD_FLAG_NO_ACLS) then _ else _).
  assert (H5 : forall r, step5 = Some r ->
            stamp r.1.2 = stamp inode4 /\ core r.1.2 = core inode4 /\
            i_streams r.1.2 = i_streams inode4 /\
            inode_table r.2 = inode_table st3 /\
            (r.1.1 = 0 -> security_of add_flags ni (sd_set r.2) r.1.2)).
  { subst step5. unfold security_of.
    destruct (has_flag add_flags WIMLIB_ADD_FLAG_NO_ACLS);
      [intros r [= <-]; simpl; repeat split; congruence|].
    simpl.
    destruct (get_security_descriptor ni inode4 (sd_set st3))
      as [[[ret5 inode5] set5]|] eqn:Hsd; [|discriminate].
    simpl. intros r [= <-]. simpl.
    destruct (get_security_descriptor_retry_keeps _ _ _ _ _ _ Hsd) as [? _].
    pose proof (get_security_descriptor_retry_core _ _ _ _ _ _ Hsd).
    destruct (get_security_descriptor_retry_grows _ _ _ _ _ _ Hsd) as [? _].
    simpl in *. repeat split; auto; [destruct (nonzero ret5); reflexivity|].
    intros ->. simpl.
    apply (get_security_descriptor_id ni inode4 (sd_set st3));
      [congruence | exact Hsd]. }
  destruct step5 as [[[ret5 inode5] st5]|]; [|discriminate].
  destruct (H5 _ eq_refl) as (Hs5 & Hc5 & Hst5 & Ht5 & Hsec5).
  simpl in Hs5, Hc5, Hst5, Ht5, Hsec5. simpl.
  assert (Hcore : (i_ino inode5, i_nlink inode5, i_scans inode5) = (ino, 1, 1%nat))
    by (unfold core in *; congruence).
  injection Hcore as Hi5 Hn5 Hsc5.
  destruct (nonzero ret5) eqn:Hret5.
  { intros [= Hout]. apply out_returns_root in Hout.
    destruct Hout as (-> & _). discriminate. }
  apply nonzero_false in Hret5. specialize (Hsec5 Hret5).
  assert (Hscanned : scanned vol add_flags (sd_set st5) inode5).
  { exists mref, ni. rewrite Hattr. simpl.
    split; [exact Hopen|]. split; [congruence|]. split; [congruence|].
    split; [|exact Hsec5].
    exists (i_streams inode2), data. split; [congruence|]. auto. }
  assert (Hfresh5 : fresh_scanned (sd_set st5) t0
                      (inode_table (put_inode st5 ino inode5))).
  { intros ino' i'. simpl. rewrite Ht5, Ht3, Ht2, Htab.
    rewrite !lookup_insert. case_decide; [intros _ [= <-]; exact Hscanned|].
    congruence. }
  assert (Hext5 : extends t0 (inode_table (put_inode st5 ino inode5)) [ino]).
  { simpl. rewrite Ht5, Ht3, Ht2, Htab. apply extends_fresh; auto. }
  destruct (inode_is_directory inode5).
  2:{ intros [= Hout]. apply out_progress_returns_state in Hout.
      destruct Hout as [Htable Hsd]. rewrite Htable, Hsd. exact Hfresh5. }
  destruct (recurse_directory rec ni path root (put_inode st5 ino inode5))
    as [[[ret6 root6] st6]|] eqn:Hdir; [|discriminate].
  simpl.
  assert (Hok5 : table_ok (inode_table (put_inode st5 ino inode5)))
    by (destruct Hext5 as [? _]; assumption).
  destruct (recurse_directory_grows _ _ _ _ _ _ _ _ _ Hrec Hok5 Hdir)
    as (_ & new & _ & Hext6).
  pose proof (recurse_directory_scans _ _ _ _ _ _ _ _ Hrec Hgr Hscans Hok5 Hdir)
    as Hfresh6.
  pose proof (recurse_directory_sds _ _ _ _ _ _ _ _ Hgr Hdir) as Hpre6.
  assert (Hres : fresh_scanned (sd_set st6) t0 (inode_table st6))
    by (eapply fresh_scanned_trans; eauto).
  destruct (nonzero ret6).
  - intros [= Hout]. apply out_returns_root in Hout.
    destruct Hout as (_ & _ & _ & ->). exact Hres.
  - intros [= Hout]. apply out_progress_returns_state in Hout.
    destruct Hout as [Htable Hsd]. rewrite Htable, Hsd. exact Hres.
Qed.

Lemma build_dentry_scans rec :
  recursion_ok rec -> recursion_grows rec -> recursion_scans rec ->
  recursion_scans (build_dentry rec).
Proof.
  intros Hrec Hgr Hscans mref path name_type st [[ret root] st'] Hok Hrun.
  pose proof (build_dentry_ok try_exclude do_capture_progress
                report_capture_error utf16le_to_tstr add_flags vol rec Hrec
                _ _ _ _ _ Hok Hrun) as [Hext _].
  simpl in *.
  destruct root as [root|].
  2:{ apply extends_nil_eq in Hext. rewrite Hext. apply fresh_scanned_refl. }
  revert Hrun. unfold Ntfs3gCapture.build_dentry.
  destruct (try_exclude path (hooks st)) as [r0 h].
  destruct (r0 <? 0).
  { intros [= Hout]. apply out_progress_returns_root in Hout.
    destruct Hout as [[=] _]. }
  destruct (0 <? r0).
  { intros [= Hout]. apply out_returns_root in Hout.
    destruct Hout as (_ & _ & [=] & _). }
  destruct (ntfs_inode_open vol mref) as [ni|] eqn:Hopen.
  2:{ intros [= Hout]. apply out_returns_root in Hout.
      destruct Hout as (_ & _ & [=] & _). }
  destruct (ntfs_get_ntfs_attrib ni) as [got attributes] eqn:Hattr.
  destruct (negb (got =? 4)) eqn:Hgot.
  { intros [= Hout]. apply out_returns_root in Hout.
    destruct Hout as (_ & _ & [=] & _). }
  apply negb_false_iff, Z.eqb_eq in Hgot. subst got.
  destruct (has_flag attributes FILE_ATTRIBUTE_ENCRYPTED).
  { destruct (has_flag add_flags _).
    - intros [= Hout]. apply out_returns_root in Hout.
      destruct Hout as (_ & _ & [=] & _).
    - destruct (do_capture_progress _ _ _ _) as [r1 h1].
      intros [= Hout]. apply out_returns_root in Hout.
      destruct Hout as (_ & _ & [=] & _). }
  unfold inode_table_new_dentry. cbn [inode_table set_hooks].
  set (ino := mft_no ni).
  destruct (inode_table st !! ino) as [i|] eqn:Hi.
  - cbn [nonzero Z.eqb negb].
    set (root1 := if has_flag name_type FILE_NAME_WIN32 then _ else _).
    assert (Hd : d_inode root1 = ino)
      by (subst root1; destruct (has_flag _ _); reflexivity).
    cbn [inode_table set_inode_table]. rewrite Hd, lookup_insert_eq. simpl.
    destruct (Hok _ _ Hi) as (_ & Hn & _).
    replace (1 <? i_nlink i + 1) with true by (symmetry; apply Z.ltb_lt; lia).
    intros [= Hout]. apply out_progress_returns_root in Hout.
    destruct Hout as [_ Htable]. rewrite Htable. simpl.
    intros ino' i'. rewrite lookup_insert. case_decide; congruence.
  - cbn [nonzero Z.eqb negb].
    set (root1 := if has_flag name_type FILE_NAME_WIN32 then _ else _).
    assert (Hd : d_inode root1 = ino)
      by (subst root1; destruct (has_flag _ _); reflexivity).
    cbn [inode_table set_inode_table]. rewrite Hd, lookup_insert_eq. simpl.
    intros Hscan.
    eapply (scan_new_inode_scans rec ni path attributes root1 (new_inode ino)
              (set_inode_table (set_hooks st h)
                 (<[ino := new_inode ino]> (inode_table st)))
              (inode_table st) (new_inode ino) mref ret root st'
              Hrec Hgr Hscans Hok);
      [rewrite Hd; exact Hi | rewrite Hd; reflexivity
      | rewrite Hd; reflexivity | reflexivity | reflexivity | reflexivity
      | reflexivity
      | exact Hopen | rewrite Hd; reflexivity | exact Hattr | exact Hscan].
Qed.

Lemma build_scans fuel : recursion_scans (build fuel).
Proof.
  induction fuel as [|fuel IH]; simpl.
  - intros mref path name_type st o _. discriminate.
  - apply build_dentry_scans; [apply build_ok | apply build_sds | exact IH].
Qed.

(** C1. Dentries that refer to one NTFS inode number are bound to one
    inode of the table, whose link count is the number of these
    dentries, and the per-inode part of the scan is done once per inode.
    A run of [ntfs_3g_build_dentry_tree_recursive] from a table in which
    every inode has a link and was scanned once returns when the files
    from [mref] down nest fewer levels deep than there is fuel, with
    paths and DOS names that fit their buffers.  Of what it returns: the
    table is again such; every link count grew by the number of dentries
    of the returned tree that point to the inode; an inode that was in
    the table before is as it was but for its link count, so that
    nothing was read or attached for it again; an inode that is new in
    the table holds the times and attributes of its file, one stream for
    each attribute record of the file, and the id of the security
    descriptor of the file in the set of descriptors; and a call whose
    dentry is allocated with a link count above 1 does nothing further
    than [out_progress]. *)
Theorem shared_inode_scanned_once fuel mref path name_type st :
  table_ok (inode_table st) ->
  (nests_within utf16le_to_tstr vol fuel path mref = true ->
   is_Some (build fuel mref path name_type st)) /\
  forall ret root st',
    build fuel mref path name_type st = Some (ret, root, st') ->
    table_ok (inode_table st') /\
    (forall ino,
       nlink (inode_table st') ino =
       nlink (inode_table st) ino + count_refs ino (dentry_inodes root)) /\
    (forall ino i,
       inode_table st !! ino = Some i ->
       exists i', inode_table st' !! ino = Some i' /\ same_but_nlink i i') /\
    (forall ino i',
       inode_table st !! ino = None -> inode_table st' !! ino = Some i' ->
       scanned vol add_flags (sd_set st') i') /\
    (forall h ni attributes root0 table inode,
       try_exclude path (hooks st) = (0, h) ->
       ntfs_inode_open vol mref = Some ni ->
       ntfs_get_ntfs_attrib ni = (4, attributes) ->
       has_flag attributes FILE_ATTRIBUTE_ENCRYPTED = false ->
       inode_table_new_dentry (inode_table st) (path_basename path) (mft_no ni)
         = (0, root0, table) ->
       table !! d_inode root0 = Some inode ->
       1 < i_nlink inode ->
       (ret, root, st') =
       out_progress
         (Some (if has_flag name_type FILE_NAME_WIN32 then set_win32_name root0
                else root0))
         path (set_inode_table (set_hooks st h) table)).
Proof.
  intros Hok. split.
  { intros Hdepth.
    apply (build_returns try_exclude do_capture_progress report_capture_error
             utf16le_to_tstr add_flags vol fuel path mref Hdepth); exact Hok. }
  intros ret root st' Hrun.
  destruct (build_ok try_exclude do_capture_progress report_capture_error
              utf16le_to_tstr add_flags vol fuel mref path name_type st _
              Hok Hrun) as [(Hok' & Hcount & Hsame) _].
  split; [exact Hok'|]. split; [exact Hcount|]. split; [exact Hsame|].
  split; [exact (build_scans fuel _ _ _ _ _ Hok Hrun)|].
  intros h ni attributes root0 table i Hex Hopen Hattr Henc Hnew Hin Hlinks.
  destruct fuel as [|fuel]; [discriminate|].
  simpl in Hrun. unfold Ntfs3gCapture.build_dentry in Hrun.
  rewrite Hex, Hopen, Hattr, Henc in Hrun. cbn [Z.ltb Z.compare Z.eqb negb] in Hrun.
  cbn [inode_table set_hooks] in Hrun. rewrite Hnew in Hrun.
  cbn [nonzero Z.eqb negb inode_table set_inode_table] in Hrun.
  assert (Hd : d_inode (if has_flag name_type FILE_NAME_WIN32
                        then set_win32_name root0 else root0) = d_inode root0)
    by (destruct (has_flag _ _); reflexivity).
  rewrite Hd, Hin in Hrun. simpl in Hrun.
  replace (1 <? i_nlink i) with true in Hrun
    by (symmetry; apply Z.ltb_lt; exact Hlinks).
  injection Hrun as <-. reflexivity.
Qed.
End Scanned.

Section BuildTreeMore.
Context {H : Type}.
Variable ntfs_mount : string -> option ntfs_volume.
Variable try_exclude : string -> H -> Z * H.
Variable do_capture_progress :
  scan_status -> string -> option wim_inode -> H -> Z * H.
Variable report_capture_error : Z -> string -> H -> Z * H.
Variable utf16le_to_tstr : list Z -> Z * string.
Variable add_flags : Z.
Implicit Type st : capture_state H.

(** X11. A capture into an empty inode table returns when the volume
    cannot be mounted, or when its files nest fewer levels deep than
    there is fuel, with paths and DOS names that fit their buffers.  It ends with a table that holds
    the inodes of the dentries returned and no other: each is filed
    under its number, has as many links as there are dentries that point
    to it, and was scanned once: it holds the times and attributes of
    its file, one stream for each attribute record of the file, and the
    id of its security descriptor.  A capture that fails, or cannot mount
    the volume, returns no dentry and leaves the table empty. *)
Theorem capture_link_counts_exact fuel device st :
  inode_table st = ∅ ->
  ((forall vol, ntfs_mount device = Some vol ->
      nests_within utf16le_to_tstr vol fuel "/" FILE_root = true) ->
   is_Some (ntfs_3g_build_dentry_tree ntfs_mount try_exclude
              do_capture_progress report_capture_error utf16le_to_tstr
              add_flags fuel device st)) /\
  forall ret root st',
    ntfs_3g_build_dentry_tree ntfs_mount try_exclude do_capture_progress
      report_capture_error utf16le_to_tstr add_flags fuel device st
      = Some (ret, root, st') ->
    (ret <> 0 -> root = None) /\
    (forall ino inode,
       inode_table st' !! ino = Some inode ->
       i_ino inode = ino /\ i_scans inode = 1%nat /\
       i_nlink inode = count_refs ino (dentry_inodes root) /\
       In ino (dentry_inodes root) /\
       forall vol, ntfs_mount device = Some vol ->
         scanned vol add_flags (sd_set st') inode) /\
    (forall ino, In ino (dentry_inodes root) ->
       is_Some (inode_table st' !! ino)).
Proof.
  intros Hempty. unfold ntfs_3g_build_dentry_tree.
  destruct (ntfs_mount device) as [vol|] eqn:Hmount.
  2:{ split; [eauto|]. intros ret root st' [= <- <- <-]. simpl. rewrite Hempty.
      split; [reflexivity|]. split; [|contradiction].
      intros ino inode. rewrite lookup_empty. discriminate. }
  set (st0 := {| inode_table := inode_table st; sd_set := _ |}).
  assert (Hok : table_ok (inode_table st0)).
  { subst st0. simpl. rewrite Hempty. intros ino i.
    rewrite lookup_empty. discriminate. }
  split.
  { intros Hdepth.
    destruct (build_returns try_exclude do_capture_progress
                report_capture_error utf16le_to_tstr add_flags vol fuel
                "/" FILE_root (Hdepth vol eq_refl) FILE_NAME_POSIX st0 Hok)
      as [[[ret1 root1] st1] ->].
    simpl. eauto. }
  intros ret root st'.
  destruct (ntfs_3g_build_dentry_tree_recursive _ _ _ _ _ _ _ _ _ _ st0)
    as [[[ret1 root1] st1]|] eqn:Hrun; [|discriminate].
  simpl. intros [= <- <- <-]. simpl.
  destruct (build_ok try_exclude do_capture_progress report_capture_error
              utf16le_to_tstr add_flags vol fuel _ _ _ st0 _ Hok Hrun)
    as [(Hok1 & Hcount & _) Hnone].
  simpl in Hok1, Hcount, Hnone.
  assert (Hexact : forall ino,
            nlink (inode_table st1) ino = count_refs ino (dentry_inodes root1)).
  { intros ino. rewrite Hcount. subst st0. simpl. unfold nlink at 1.
    rewrite Hempty, lookup_empty. lia. }
  split; [exact Hnone|]. split.
  - intros ino inode Hin. destruct (Hok1 _ _ Hin) as (Hino & Hlinks & Hscans).
    specialize (Hexact ino). unfold nlink in Hexact. rewrite Hin in Hexact.
    split; [exact Hino|]. split; [exact Hscans|]. split; [exact Hexact|].
    split; [apply count_refs_pos; lia|].
    intros vol' [= <-].
    apply (build_scans try_exclude do_capture_progress report_capture_error
             utf16le_to_tstr add_flags vol fuel _ _ _ st0 _ Hok Hrun ino inode);
      [subst st0; simpl; rewrite Hempty; apply lookup_empty | exact Hin].
  - intros ino Hin. apply count_refs_pos in Hin.
    specialize (Hexact ino). unfold nlink in Hexact.
    destruct (inode_table st1 !! ino); [eauto | lia].
Qed.
End BuildTreeMore.

(** X14. The reparse tag of an inode is the first four bytes of its
    reparse point, read as a little-endian number: a scan of a
    REPARSE_POINT attribute that succeeds sets it so, when the attribute
    holds [data]. *)
Theorem reparse_tag_is_header_word {H : Type} (inode : wim_inode)
    (ni : ntfs_inode) (path : string) (record : ATTR_RECORD)
    (st : capture_state H) (inode' : wim_inode) (st' : capture_state H)
    (na : ntfs_attr) (data : list byte) :
  ntfs_attr_open ni AT_REPARSE_POINT (record_name record) = Some na ->
  holds_data na data ->
  4 <= Z.of_nat (length data) ->
  value_length record <> 0 ->
  scan_ntfs_attr inode ni path AT_REPARSE_POINT record st = (0, inode', st') ->
  i_reparse_tag inode' = MetadataResource.le_to_Z (take 4 data).
Proof.
  intros Hopen Hdata Hlen Hne. unfold scan_ntfs_attr.
  apply nonzero_true in Hne. rewrite Hne.
  set (loc := {| loc_mft_no := mft_no ni; attr_type := AT_REPARSE_POINT;
                 attr_name_nchars := _; attr_name := _; sort_key := 0 |}).
  destruct (set_attr_sort_key_spec ni loc) as [[_ ->]|(na' & k & _ & ->)];
    [discriminate|].
  cbn [nonzero Z.eqb negb].
  destruct (decide (AT_REPARSE_POINT = AT_REPARSE_POINT)) as [_|]; [|done].
  destruct (value_length record <? REPARSE_DATA_OFFSET); [discriminate|].
  unfold read_reparse_tag, open_ntfs_attr. subst loc.
  cbn [set_sort_key attr_type attr_name].
  rewrite record_name_default, Hopen.
  rewrite (Hdata 0 4) by lia. simpl negb. cbv iota.
  simpl. intros [= <- _]. simpl. unfold le32_to_cpu, slice. simpl.
  rewrite take_take. reflexivity.
Qed.

Lemma reparse_tag_is_header_word_witness :
  exists inode' st',
    scan_ntfs_attr (new_inode 200) (reparse_inode symlink_data) "/l"
      AT_REPARSE_POINT (reparse_record symlink_data)
      (get_ntfs_volume empty_capture) = (0, inode', st') /\
    i_reparse_tag inode' = WIM_IO_REPARSE_TAG_SYMLINK.
Proof.
  destruct (scan_ntfs_attr (new_inode 200) (reparse_inode symlink_data) "/l"
              AT_REPARSE_POINT (reparse_record symlink_data)
              (get_ntfs_volume empty_capture))
    as [[ret inode'] st'] eqn:Hscan.
  assert (Hret : ret = 0)
    by (vm_compute in Hscan; injection Hscan as <- _; reflexivity).
  subst ret. exists inode', st'. split; [reflexivity|].
  rewrite (reparse_tag_is_header_word (new_inode 200)
             (reparse_inode symlink_data) "/l" (reparse_record symlink_data)
             (get_ntfs_volume empty_capture) inode' st'
             (attr_of_data symlink_data None) symlink_data
             eq_refl (attr_of_data_holds _ _)
             ltac:(vm_compute; discriminate) ltac:(vm_compute; discriminate)
             Hscan).
  reflexivity.
Defined.

Lemma captured_inode_has_volume_metadata_witness :
  exists root st' inode,
    ntfs_3g_build_dentry_tree_recursive no_exclude no_progress pass_error
      ascii_of_units WIMLIB_ADD_FLAG_RPFIX symlink_volume 1 200 "/a/l"
      FILE_NAME_WIN32 empty_capture = Some (0, Some root, st') /\
    d_name root = "l"%string /\ is_win32_name root = true /\
    inode_table st' !! 200 = Some inode /\
    i_creation_time inode = 1200 /\
    i_attributes inode = FILE_ATTRIBUTE_REPARSE_POINT /\
    i_rp_flags inode = 0.
Proof.
  destruct (captured_inode_has_volume_metadata no_exclude no_progress
              pass_error ascii_of_units WIMLIB_ADD_FLAG_RPFIX symlink_volume
              1 200 "/a/l" FILE_NAME_WIN32 empty_capture
              (sample_inode 200 FILE_ATTRIBUTE_REPARSE_POINT []
                 (Some symlink_data) (Some [x03]) [])
              FILE_ATTRIBUTE_REPARSE_POINT)
    as [Hret Hmeta].
  - intros ino i Hi. unfold empty_capture in Hi. cbn [inode_table] in Hi.
    rewrite lookup_empty in Hi. discriminate.
  - reflexivity.
  - reflexivity.
  - reflexivity.
  - destruct (Hret ltac:(vm_compute; reflexivity))
      as (ret & root & st' & Hrun & Hmade).
    assert (Hval : ret = 0 /\
              forall i, inode_table st' !! 200 = Some i ->
                        inode_is_symlink i = true).
    { clear Hmeta Hret Hmade. vm_compute in Hrun. injection Hrun as <- <- <-.
      split; [reflexivity|].
      intros i Hi. vm_compute in Hi. injection Hi as <-. reflexivity. }
    destruct Hval as (-> & Hsym).
    destruct Hmade as [d ->]; try reflexivity.
    { unfold pass_error. intros r p h Hr. exact Hr. }
    destruct (Hmeta _ _ _ Hrun)
      as (Hname & _ & Hwin & inode & Hin & Hct & _ & _ & Hattr & Hrp).
    exists d, st', inode. split; [exact Hrun|].
    split; [rewrite Hname; reflexivity|]. split; [exact Hwin|].
    split; [exact Hin|]. split; [exact Hct|]. split; [exact Hattr|].
    rewrite Hrp. unfold captured_rp_flags. rewrite (Hsym _ Hin). reflexivity.
Defined.

Lemma shared_inode_scanned_once_witness :
  exists root st' inode,
    scan_sample 5 FILE_root "/" FILE_NAME_POSIX empty_capture
      = Some (0, Some root, st') /\
    table_ok (inode_table st') /\
    count_refs 100 (tree_inodes root) = 2 /\
    inode_table st' !! 100 = Some inode /\
    i_nlink inode = 2 /\
    scanned sample_volume 0 (sd_set st') inode /\
    length (i_streams inode) = 2%nat /\
    i_security_id inode = 1 /\
    exists o2,
      scan_sample 1 100 "/c" FILE_NAME_POSIX st' = Some o2 /\
      o2 =
      out_progress no_progress pass_error
        (Some (Dentry "c" 100 false None 0 [])) "/c"
        (set_inode_table (set_hooks st' tt)
           (<[100 := set_nlink inode 3]> (inode_table st'))).
Proof.
  assert (Hok0 : table_ok (inode_table empty_capture)).
  { intros ino i Hi. unfold empty_capture in Hi. cbn [inode_table] in Hi.
    rewrite lookup_empty in Hi. discriminate. }
  destruct (shared_inode_scanned_once no_exclude no_progress pass_error
              ascii_of_units 0 sample_volume 5 FILE_root "/" FILE_NAME_POSIX
              empty_capture Hok0) as [Hret Hrun].
  destruct (Hret ltac:(vm_compute; reflexivity)) as [[[ret root] st'] Heq].
  assert (Hval : ret = 0 /\ exists d inode,
            root = Some d /\ tree_inodes d = [5; 64; 100; 65; 100] /\
            inode_table st' !! 100 = Some inode /\ i_nlink inode = 2 /\
            length (i_streams inode) = 2%nat /\ i_security_id inode = 1).
  { clear Hrun Hret. vm_compute in Heq. injection Heq as <- <- <-.
    split; [reflexivity|]. eexists _, _. split; [reflexivity|].
    split; [reflexivity|]. split; [vm_compute; reflexivity|].
    repeat split. }
  destruct Hval as (-> & d & inode & -> & Hd & Hin & Hnl & Hlen & Hsec).
  destruct (Hrun _ _ _ Heq) as (Hok & Hcount & _ & Hnew & _).
  exists d, st', inode. split; [exact Heq|]. split; [exact Hok|].
  split; [rewrite Hd; reflexivity|]. split; [exact Hin|].
  split; [exact Hnl|]. split; [apply (Hnew 100); [reflexivity | exact Hin]|].
  split; [exact Hlen|]. split; [exact Hsec|].
  destruct (shared_inode_scanned_once no_exclude no_progress pass_error
              ascii_of_units 0 sample_volume 1 100 "/c" FILE_NAME_POSIX
              st' Hok) as [Hret2 Hrun2].
  destruct (Hret2 ltac:(vm_compute; reflexivity)) as [[[ret2 root2] st2] Heq2].
  destruct (Hrun2 _ _ _ Heq2) as (_ & _ & _ & _ & Hskip).
  exists (ret2, root2, st2). split; [exact Heq2|].
  apply (Hskip tt sample_file 0x20 (Dentry "c" 100 false None 0 [])
           (<[100 := set_nlink inode 3]> (inode_table st'))
           (set_nlink inode 3)).
  - unfold no_exclude. destruct (hooks st'). reflexivity.
  - reflexivity.
  - reflexivity.
  - reflexivity.
  - unfold inode_table_new_dentry. change (mft_no sample_file) with 100.
    rewrite Hin, Hnl. reflexivity.
  - apply lookup_insert_eq.
  - simpl. lia.
Defined.

Lemma capture_link_counts_exact_witness :
  exists root st' inode,
    capture_sample 5 = Some (0, Some root, st') /\
    inode_table st' !! 100 = Some inode /\ i_nlink inode = 2 /\
    count_refs 100 (tree_inodes root) = 2 /\
    forall ino, In ino [5; 64; 65; 100] -> is_Some (inode_table st' !! ino).
Proof.
  destruct (capture_link_counts_exact (fun _ => Some sample_volume) no_exclude
              no_progress pass_error ascii_of_units 0 5 "/dev/sample"
              empty_capture eq_refl) as [Hret Hrun].
  destruct Hret as [[[ret root] st'] Heq].
  { intros vol [= <-]. vm_compute. reflexivity. }
  assert (Hval : ret = 0 /\ exists d, root = Some d /\
                   tree_inodes d = [5; 64; 100; 65; 100] /\
                   is_Some (inode_table st' !! 100)).
  { clear Hrun. vm_compute in Heq. injection Heq as <- <- <-.
    split; [reflexivity|]. eexists. split; [reflexivity|].
    split; [reflexivity|]. vm_compute. eauto. }
  destruct Hval as (-> & d & -> & Hd & [inode Hin]).
  destruct (Hrun _ _ _ Heq) as (_ & Hexact & Hall).
  exists d, st', inode. split; [exact Heq|]. split; [exact Hin|].
  destruct (Hexact _ _ Hin) as (_ & _ & Hlinks & _).
  simpl in Hlinks, Hall. rewrite Hd in Hlinks, Hall.
  split; [rewrite Hlinks; reflexivity|]. rewrite Hd.
  split; [reflexivity|].
  intros ino Hino. apply Hall. simpl in Hino |- *. tauto.
Defined.

End Ntfs3gCaptureMore.

(** * Further properties of the metadata resource *)

Module MetadataResourceMore.
Import MetadataResource MetadataResourceTheory.

Section ReaderMore.
Variable read_full_stream_into_alloc_buf :
  wim_lookup_table_entry -> Z * list byte.
Variable sha1_buffer : list byte -> list byte.
Variable read_wim_security_data :
  list byte -> Z -> Z * wim_security_data.
Variable read_dentry : list byte -> Z -> Z -> Z * wim_dentry.
Variable inode_add_dentry : wim_dentry -> wim_dentry.
Variable read_dentry_tree : list byte -> Z -> wim_dentry -> Z * wim_dentry.
Variable dentry_tree_fix_inodes :
  wim_dentry -> Z * wim_dentry * list wim_inode.
Variable verify_inode : wim_inode -> wim_security_data -> Z.

Local Abbreviation read :=
  (read_metadata_resource read_full_stream_into_alloc_buf sha1_buffer
     read_wim_security_data read_dentry inode_add_dentry read_dentry_tree
     dentry_tree_fix_inodes verify_inode).
Local Abbreviation from_buffer :=
  (read_from_buffer read_wim_security_data read_dentry inode_add_dentry
     read_dentry_tree dentry_tree_fix_inodes verify_inode).
Local Abbreviation from_root :=
  (read_from_root inode_add_dentry read_dentry_tree dentry_tree_fix_inodes
     verify_inode).
Local Abbreviation settled := (settled read_wim_security_data verify_inode).

Lemma image_kept_refl imd : image_kept imd imd.
Proof. repeat split. Qed.

Lemma verify_inodes_all l sd tr :
  verify_inodes verify_inode l sd = (0, tr) ->
  Forall (fun i => verify_inode i sd = 0) l.
Proof.
  revert tr. induction l as [|i l IH]; intros tr; simpl; [constructor|].
  destruct (nonzero (verify_inode i sd)) eqn:Hi.
  { intros [= Hz _]. apply nonzero_true in Hi. congruence. }
  destruct (verify_inodes verify_inode l sd) as [ret' tr'].
  intros [= -> _]. constructor; [apply nonzero_false; exact Hi | eauto].
Qed.

Lemma from_root_settled imd buf len sd root tr :
  read_wim_security_data buf len = (0, sd) ->
  settled imd buf len (from_root imd buf len sd root tr).
Proof.
  intros Hsd. unfold read_from_root.
  destruct (dentry_has_long_name root || dentry_has_short_name root);
  (destruct (negb (dentry_is_directory _)); [simpl; apply image_kept_refl|]);
  (destruct (read_dentry_tree buf len _) as [ret1 root1]);
  (destruct (nonzero ret1) eqn:H1;
     [unfold settled; rewrite H1; apply image_kept_refl|]);
  (destruct (dentry_tree_fix_inodes root1) as [[ret2 root2] inodes]);
  (destruct (nonzero ret2) eqn:H2;
     [unfold settled; rewrite H2; apply image_kept_refl|]);
  (destruct (verify_inodes verify_inode inodes sd) as [ret3 tr3] eqn:Hv);
  (destruct (nonzero ret3) eqn:H3;
     [unfold settled; rewrite H3; repeat split|]);
  apply nonzero_false in H3; subst ret3;
  unfold out_success, settled; simpl;
  exists sd; repeat split; try exact Hsd;
  eapply verify_inodes_all; exact Hv.
Qed.

Lemma from_buffer_settled imd buf len tr :
  settled imd buf len (from_buffer imd buf len tr).
Proof.
  unfold read_from_buffer.
  destruct (read_wim_security_data buf len) as [ret sd] eqn:Hsd.
  destruct (nonzero ret) eqn:Hret.
  { unfold settled. rewrite Hret. apply image_kept_refl. }
  apply nonzero_false in Hret. subst ret.
  destruct (read_dentry buf len (total_length sd)) as [ret' root].
  destruct ((ret' =? 0) && (length root =? 0)).
  { unfold out_success, settled. simpl. exists sd. rewrite Hsd. repeat split. }
  destruct (nonzero ret') eqn:Hret'.
  { unfold settled. rewrite Hret'. apply image_kept_refl. }
  apply from_root_settled. exact Hsd.
Qed.

(** X15. A read that fails leaves the image its lookup table entry, its
    root, its security data and its list of unhashed streams, at whatever
    stage it fails and whatever the collaborators return. *)
Theorem failed_read_keeps_image (imd imd' : wim_image_metadata)
    (ret : Z) (tr : list event) :
  read imd = (ret, imd', tr) -> ret <> 0 -> image_kept imd imd'.
Proof.
  intros Hrun Hret. apply nonzero_true in Hret.
  revert Hrun. unfold read_metadata_resource.
  destruct (size (metadata_lte imd) <? 8 + WIM_DENTRY_DISK_SIZE).
  { intros [= <- <- <-]. apply image_kept_refl. }
  destruct (read_full_stream_into_alloc_buf (metadata_lte imd)) as [ret0 buf].
  destruct (nonzero ret0).
  { intros [= <- <- <-]. apply image_kept_refl. }
  assert (Hfrom : forall tr0,
            from_buffer imd buf (size (metadata_lte imd)) tr0 = (ret, imd', tr) ->
            image_kept imd imd').
  { intros tr0 Hrun.
    pose proof (from_buffer_settled imd buf (size (metadata_lte imd)) tr0) as Hs.
    rewrite Hrun in Hs. unfold settled in Hs. rewrite Hret in Hs. exact Hs. }
  destruct (negb (dont_check_metadata_hash (metadata_lte imd)));
    [|apply Hfrom].
  destruct (negb (hashes_equal _ _)); [|apply Hfrom].
  intros [= <- <- <-]. apply image_kept_refl.
Qed.

(** X16. A read that succeeds installs the security data that
    [read_wim_security_data] parsed from the resource and an empty list
    of unhashed streams, and keeps the lookup table entry.  When it
    installs a root, every inode of the list of inodes it installs has
    passed [verify_inode] against that security data. *)
Theorem successful_read_verifies_inodes (imd imd' : wim_image_metadata)
    (tr : list event) :
  read imd = (0, imd', tr) ->
  exists buf sd,
    read_full_stream_into_alloc_buf (metadata_lte imd) = (0, buf) /\
    read_wim_security_data buf (size (metadata_lte imd)) = (0, sd) /\
    metadata_lte imd' = metadata_lte imd /\
    security_data imd' = Some sd /\
    unhashed_streams imd' = [] /\
    (is_Some (root_dentry imd') ->
     Forall (fun i => verify_inode i sd = 0) (inode_list imd')).
Proof.
  unfold read_metadata_resource.
  destruct (size (metadata_lte imd) <? 8 + WIM_DENTRY_DISK_SIZE);
    [discriminate|].
  destruct (read_full_stream_into_alloc_buf (metadata_lte imd))
    as [ret0 buf].
  destruct (nonzero ret0) eqn:H0.
  { intros [= -> _ _]. discriminate. }
  apply nonzero_false in H0. subst ret0.
  assert (Hfrom : forall tr0,
            from_buffer imd buf (size (metadata_lte imd)) tr0 = (0, imd', tr) ->
            exists buf0 sd,
              (0, buf) = (0, buf0) /\
              read_wim_security_data buf0 (size (metadata_lte imd)) = (0, sd) /\
              metadata_lte imd' = metadata_lte imd /\
              security_data imd' = Some sd /\
              unhashed_streams imd' = [] /\
              (is_Some (root_dentry imd') ->
               Forall (fun i => verify_inode i sd = 0) (inode_list imd'))).
  { intros tr0 Hrun.
    pose proof (from_buffer_settled imd buf (size (metadata_lte imd)) tr0) as Hs.
    rewrite Hrun in Hs. simpl in Hs.
    destruct Hs as (sd & Hsd & Hlte & Hsec & Hun & Hroot).
    exists buf, sd. repeat split; try assumption.
    intros [root Hsome]. rewrite Hsome in Hroot. exact Hroot. }
  destruct (negb (dont_check_metadata_hash (metadata_lte imd)));
    [|apply Hfrom].
  destruct (negb (hashes_equal _ _)); [discriminate | apply Hfrom].
Qed.

(** X17. Nothing of a resource is parsed before the resource is known
    to be long enough, was read without error, and has the hash of its
    lookup table entry, unless that hash is not to be checked. *)
Theorem parsed_only_after_hash (imd : wim_image_metadata) (e : event) :
  In e (read imd).2 -> is_parse e ->
  let lte := metadata_lte imd in
  8 + WIM_DENTRY_DISK_SIZE <= size lte /\
  exists buf,
    read_full_stream_into_alloc_buf lte = (0, buf) /\
    (dont_check_metadata_hash lte = true \/
     sha1_buffer (take (Z.to_nat (size lte)) buf) = hash lte).
Proof.
  intros Hin Hparse. cbv zeta. revert Hin. unfold read_metadata_resource.
  assert (Hno : forall l, In e l ->
            Forall (fun e' => ~ is_parse e') l -> False).
  { intros l Hin Hall. rewrite Forall_forall in Hall.
    apply (Hall e); [apply list_elem_of_In; exact Hin | exact Hparse]. }
  assert (Herr : forall msg, ~ is_parse (EvError msg)).
  { intros msg [?|[[? ?]|[?|[?|?]]]]; discriminate. }
  assert (Hstream : ~ is_parse EvReadStream).
  { intros [?|[[? ?]|[?|[?|?]]]]; discriminate. }
  assert (Hsha : forall n, ~ is_parse (EvSha1 n)).
  { intros n [?|[[? ?]|[?|[?|?]]]]; discriminate. }
  destruct (size (metadata_lte imd) <? 8 + WIM_DENTRY_DISK_SIZE) eqn:Hlen.
  { intros Hin. exfalso. apply (Hno _ Hin). simpl. repeat constructor. apply Herr. }
  apply Z.ltb_ge in Hlen.
  destruct (read_full_stream_into_alloc_buf (metadata_lte imd)) as [ret0 buf].
  destruct (nonzero ret0) eqn:H0.
  { intros Hin. exfalso. apply (Hno _ Hin). simpl. repeat constructor. exact Hstream. }
  apply nonzero_false in H0. subst ret0.
  intros Hin. split; [exact Hlen|]. exists buf. split; [reflexivity|].
  destruct (dont_check_metadata_hash (metadata_lte imd)); [auto|].
  cbn [negb] in Hin.
  destruct (hashes_equal _ _) eqn:Heq.
  - right. unfold hashes_equal in Heq.
    apply bool_decide_eq_true in Heq. auto.
  - exfalso. apply (Hno _ Hin). simpl.
    repeat constructor; [exact Hstream | apply Hsha | apply Herr].
Qed.
End ReaderMore.

Lemma failed_read_keeps_image_witness :
  let imd := image_of 128 [] true in
  exists imd' tr,
    read_image (named_root_image 0x20) imd
      = (WIMLIB_ERR_INVALID_METADATA_RESOURCE, imd', tr) /\
    image_kept imd imd'.
Proof.
  intros imd.
  destruct (read_image (named_root_image 0x20) imd) as [[ret imd'] tr] eqn:Hrun.
  assert (Hret : ret = WIMLIB_ERR_INVALID_METADATA_RESOURCE)
    by (vm_compute in Hrun; injection Hrun as <- _ _; reflexivity).
  exists imd', tr. split; [rewrite Hret; reflexivity|].
  apply (failed_read_keeps_image
           (read_full_stream_of (named_root_image 0x20)) digest_buffer
           read_wim_security_data read_dentry inode_add_dentry
           read_dentry_tree dentry_tree_fix_inodes verify_inode
           imd imd' ret tr Hrun).
  rewrite Hret. discriminate.
Defined.

Lemma successful_read_verifies_inodes_witness :
  exists imd' tr,
    read_image (named_root_image FILE_ATTRIBUTE_DIRECTORY)
      (image_of 128 [] true) = (0, imd', tr) /\
    security_data imd' = Some empty_security_data /\
    List.length (inode_list imd') = 1%nat /\
    Forall (fun i => verify_inode i empty_security_data = 0) (inode_list imd').
Proof.
  destruct (read_image (named_root_image FILE_ATTRIBUTE_DIRECTORY)
              (image_of 128 [] true)) as [[ret imd'] tr] eqn:Hrun.
  assert (Hval : ret = 0 /\ is_Some (root_dentry imd') /\
                 List.length (inode_list imd') = 1%nat).
  { vm_compute in Hrun. injection Hrun as <- <- _.
    split; [reflexivity|]. split; [eauto | reflexivity]. }
  destruct Hval as (-> & Hroot & Hlen).
  destruct (successful_read_verifies_inodes
              (read_full_stream_of (named_root_image FILE_ATTRIBUTE_DIRECTORY))
              digest_buffer read_wim_security_data read_dentry
              inode_add_dentry read_dentry_tree dentry_tree_fix_inodes
              verify_inode _ _ _ Hrun)
    as (buf & sd & [= <-] & Hsd & _ & Hsec & _ & Hall).
  assert (Hsd' : sd = empty_security_data)
    by (vm_compute in Hsd; injection Hsd as <-; reflexivity).
  subst sd. exists imd', tr. split; [reflexivity|].
  split; [exact Hsec|]. split; [exact Hlen | exact (Hall Hroot)].
Defined.

Lemma parsed_only_after_hash_witness :
  let imd := image_of 128 [] true in
  In (EvReadDentry 8)
    (read_image (named_root_image FILE_ATTRIBUTE_DIRECTORY) imd).2 /\
  8 + WIM_DENTRY_DISK_SIZE <= size (metadata_lte imd) /\
  dont_check_metadata_hash (metadata_lte imd) = true.
Proof.
  intros imd.
  assert (Hin : In (EvReadDentry 8)
                  (read_image (named_root_image FILE_ATTRIBUTE_DIRECTORY) imd).2)
    by (vm_compute; tauto).
  split; [exact Hin|].
  destruct (parsed_only_after_hash
              (read_full_stream_of (named_root_image FILE_ATTRIBUTE_DIRECTORY))
              digest_buffer read_wim_security_data read_dentry
              inode_add_dentry read_dentry_tree dentry_tree_fix_inodes
              verify_inode imd (EvReadDentry 8) Hin
              ltac:(right; left; eauto)) as (Hlen & _).
  split; [exact Hlen | reflexivity].
Defined.

(** X18. The recalculated length of the security data is a multiple of
    8 that fits 32 bits, so that rounding it up to a multiple of 8 again,
    as [prepare_metadata_resource] does, changes nothing; it depends on
    the entry count and the sizes only, not on the length stored before. *)
Theorem recalculated_length_is_aligned (sd : wim_security_data) :
  let sd' := recalculate_security_data_length sd in
  0 <= total_length sd' < 2 ^ 32 /\
  total_length sd' mod 8 = 0 /\
  Z.land (u64 (total_length sd' + 7)) (u64 (Z.lnot 7)) = total_length sd' /\
  recalculate_security_data_length sd' = sd' /\
  num_entries sd' = num_entries sd /\ sizes sd' = sizes sd /\
  descriptors sd' = descriptors sd.
Proof.
  cbv zeta. rewrite total_length_recalculated.
  set (x := u32 (u32 _ + 7)).
  assert (Hx : 0 <= x < 2 ^ 32) by (subst x; unfold u32; apply Z.mod_pos_bound; lia).
  rewrite (land_mask_u32 x Hx), align8_spec.
  replace (x - 7 + 7) with x by lia.
  assert (Hdiv : 0 <= x / 8) by (apply Z.div_pos; lia).
  assert (Hle : 8 * (x / 8) <= x) by (apply Z.mul_div_le; lia).
  split; [lia|]. split.
  { rewrite Z.mul_comm. apply Z_mod_mult. }
  split.
  { assert (Hfit : 0 <= u64 (8 * (x / 8) + 7) < 2 ^ 64)
      by (unfold u64; apply Z.mod_pos_bound; lia).
    rewrite (land_mask_u64 _ Hfit), align8_spec.
    unfold u64. rewrite Z.mod_small by lia.
    replace (8 * (x / 8) + 7 - 7 + 7) with (7 + (x / 8) * 8) by lia.
    rewrite Z.div_add by lia. replace (7 / 8) with 0 by reflexivity. lia. }
  repeat split.
Qed.

Section WriterMore.
Variable dentry_out_total_length : wim_dentry -> Z.
Variable write_dentry : wim_dentry -> list byte.

Local Abbreviation prepare :=
  (prepare_metadata_resource dentry_out_total_length write_dentry).

Lemma walk_children_keeps_trees l :
  Forall (fun d => forall off,
            without_offsets
              (calculate_subdir_offsets dentry_out_total_length d off).1
            = without_offsets d) l ->
  forall cur,
    map without_offsets
      (walk_children (calculate_subdir_offsets dentry_out_total_length) l cur).1
    = map without_offsets l.
Proof.
  induction 1 as [|c l Hc _ IH]; intros cur; simpl; [reflexivity|].
  specialize (Hc cur).
  destruct (calculate_subdir_offsets _ c cur) as [c' cur1]. simpl in Hc.
  specialize (IH cur1). destruct (walk_children _ l cur1) as [l' cur2].
  simpl in *. rewrite Hc, IH. reflexivity.
Qed.

Lemma calculate_subdir_offsets_keeps_tree d : forall off,
  without_offsets (calculate_subdir_offsets dentry_out_total_length d off).1
  = without_offsets d.
Proof.
  induction d as [len o fn fnb sn snb ino l IH] using wim_dentry_forall_ind.
  intros off. simpl. destruct (inode_is_directory ino); [|reflexivity].
  pose proof (walk_children_keeps_trees l IH) as Hw.
  set (cur := u64 (foldl _ off l + 8)). specialize (Hw cur).
  destruct (walk_children _ l cur) as [l' cur']. simpl in *.
  rewrite Hw. reflexivity.
Qed.

(** X19. Preparing the metadata resource of an image changes that image
    only.  Its dentry tree is the one it had, or the filler directory if
    it had none, with nothing but the subdirectory offsets assigned; its
    security data is the one it had with the length recalculated; and it
    keeps its lookup table entry, its inodes and its unhashed streams.
    Nothing changes when the image cannot be selected. *)
Theorem prepare_touches_one_image (wim : WIMStruct) (image : Z)
    (r : prepared) :
  prepare wim image = Some r ->
  (p_ret r <> 0 -> p_wim r = wim /\ p_ret r = select_wim_image wim image) /\
  (p_ret r = 0 ->
   exists imd imd',
     image_metadata wim !! Z.to_nat (image - 1) = Some imd /\
     image_metadata (p_wim r) !! Z.to_nat (image - 1) = Some imd' /\
     metadata_lte imd' = metadata_lte imd /\
     inode_list imd' = inode_list imd /\
     unhashed_streams imd' = unhashed_streams imd /\
     is_Some (root_dentry imd') /\
     without_offsets <$> root_dentry imd' =
       Some (without_offsets
               (match root_dentry imd with
                | Some root => root
                | None => new_filler_directory
                end)) /\
     security_data imd' =
       recalculate_security_data_length <$> security_data imd /\
     forall j : nat, j <> Z.to_nat (image - 1) ->
       image_metadata (p_wim r) !! j = image_metadata wim !! j).
Proof.
  unfold prepare_metadata_resource.
  destruct (nonzero (select_wim_image wim image)) eqn:Hsel.
  { intros [= <-]. simpl. apply nonzero_true in Hsel. split; [auto|].
    intros Hz. contradiction. }
  destruct (image_metadata wim !! Z.to_nat (image - 1)) as [imd|] eqn:Himd;
    [|discriminate].
  simpl. destruct (security_data imd) as [sd|] eqn:Hsd; [|discriminate].
  simpl.
  pose proof (calculate_subdir_offsets_keeps_tree
                (default new_filler_directory (root_dentry imd))) as Hkeep.
  match goal with
  | |- context [calculate_subdir_offsets _ _ ?o] => specialize (Hkeep o)
  end.
  destruct (calculate_subdir_offsets _ _ _) as [root off].
  intros [= <-]. simpl. split; [intros Hz; contradiction|]. intros _.
  eexists imd, _. split; [reflexivity|].
  split.
  { apply list_lookup_insert_eq. eapply lookup_lt_Some. exact Himd. }
  simpl in *. rewrite Hsd, Hkeep.
  split; [reflexivity|]. split; [reflexivity|]. split; [reflexivity|].
  split; [eauto|]. split; [destruct (root_dentry imd); reflexivity|].
  split; [reflexivity|].
  intros j Hj. apply list_lookup_insert_ne. congruence.
Qed.

Section WriteFacts.
Context {O : Type}.
Variable write_wim_resource_from_buffer :
  list byte -> Z -> Z -> list byte -> O -> Z * O * list byte.

Local Abbreviation write :=
  (write_metadata_resource dentry_out_total_length write_dentry
     write_wim_resource_from_buffer).

Lemma unchecked_read_computes_no_hash
    rfs sha rsd rd iad rdt fxi vi (imd : wim_image_metadata) :
  dont_check_metadata_hash (metadata_lte imd) = true ->
  Forall (fun e => ~ is_sha1 e)
    (read_metadata_resource rfs sha rsd rd iad rdt fxi vi imd).2.
Proof.
  intros Hflag. unfold read_metadata_resource. rewrite Hflag.
  destruct (size (metadata_lte imd) <? 8 + WIM_DENTRY_DISK_SIZE).
  { simpl. repeat constructor. intros [n ?]. discriminate. }
  destruct (rfs (metadata_lte imd)) as [ret buf].
  destruct (nonzero ret).
  { simpl. repeat constructor. intros [n ?]. discriminate. }
  simpl. apply from_buffer_trace. repeat constructor. intros [n ?]. discriminate.
Qed.

(** X20. Writing the metadata resource of an image that can be selected
    hands the prepared buffer with its length to
    [write_wim_resource_from_buffer] and returns what that call returns.
    Whether the call succeeds or not, the lookup table entry of the
    image then holds the hash that the call left and has
    [dont_check_metadata_hash] set, so that a later read of the image
    does not compute a hash. *)
Theorem written_resource_hash_unchecked (wim wim' : WIMStruct)
    (image flags ret : Z) (out out' : O) :
  select_wim_image wim image = 0 ->
  write wim image flags out = Some (ret, wim', out') ->
  exists r imd imd' h,
    prepare wim image = Some r /\ p_filled r = true /\
    image_metadata (p_wim r) !! Z.to_nat (image - 1) = Some imd /\
    write_wim_resource_from_buffer (p_buf r) (p_len r) flags
      (hash (metadata_lte imd)) out = (ret, out', h) /\
    image_metadata wim' !! Z.to_nat (image - 1) = Some imd' /\
    imd' = with_metadata_lte imd
             {| size := size (metadata_lte imd); hash := h;
                dont_check_metadata_hash := true |} /\
    forall rfs sha rsd rd iad rdt fxi vi,
      Forall (fun e => ~ is_sha1 e)
        (read_metadata_resource rfs sha rsd rd iad rdt fxi vi imd').2.
Proof.
  intros Hsel. unfold write_metadata_resource.
  destruct (prepare wim image) as [r|] eqn:Hprep; [|discriminate].
  simpl.
  assert (Hret : p_ret r = 0).
  { revert Hprep. unfold prepare_metadata_resource. rewrite Hsel. simpl.
    destruct (image_metadata wim !! _) as [imd|]; [|discriminate]. simpl.
    destruct (security_data imd); [|discriminate]. simpl.
    destruct (calculate_subdir_offsets _ _ _). intros [= <-]. reflexivity. }
  rewrite Hret. simpl.
  destruct (p_filled r) eqn:Hfilled; [|discriminate]. simpl.
  destruct (image_metadata (p_wim r) !! Z.to_nat (image - 1)) as [imd|] eqn:Himd;
    [|discriminate].
  simpl.
  destruct (write_wim_resource_from_buffer _ _ _ _ _) as [[ret1 out1] h] eqn:Hw.
  intros [= <- <- <-].
  eexists r, imd, _, h. split; [reflexivity|]. split; [exact Hfilled|].
  split; [exact Himd|]. split; [exact Hw|].
  split; [|split; [reflexivity|]].
  { simpl. apply list_lookup_insert_eq. eapply lookup_lt_Some. exact Himd. }
  intros. apply unchecked_read_computes_no_hash. reflexivity.
Qed.
End WriteFacts.
End WriterMore.

Lemma recalculated_length_is_aligned_example :
  total_length (recalculate_security_data_length sample_security_data) = 32.
Proof. reflexivity. Qed.

Lemma prepare_touches_one_image_witness :
  (exists r imd',
     prepare_image (wim_of_security_data sample_security_data) 1 = Some r /\
     p_ret r = 0 /\
     image_metadata (p_wim r) !! 0%nat = Some imd' /\
     without_offsets <$> root_dentry imd' =
       Some (without_offsets new_filler_directory) /\
     (total_length <$> security_data imd') = Some 32) /\
  (exists r imd',
     prepare_image sample_wim 1 = Some r /\
     p_ret r = 0 /\
     image_metadata (p_wim r) !! 0%nat = Some imd' /\
     without_offsets <$> root_dentry imd' =
       Some (without_offsets sample_tree) /\
     root_dentry imd' <> Some sample_tree).
Proof.
  split.
  - destruct (prepare_image (wim_of_security_data sample_security_data) 1)
      as [r|] eqn:Hprep; [|vm_compute in Hprep; discriminate].
    assert (Hret : p_ret r = 0)
      by (vm_compute in Hprep; injection Hprep as <-; reflexivity).
    destruct (prepare_touches_one_image dentry_out_total_length write_dentry
                _ _ _ Hprep) as [_ Hok].
    destruct (Hok Hret)
      as (imd & imd' & [= <-] & Hlook & _ & _ & _ & _ & Hroot & Hsd & _).
    exists r, imd'. split; [reflexivity|]. split; [exact Hret|].
    split; [exact Hlook|]. split; [exact Hroot|]. rewrite Hsd. reflexivity.
  - destruct (prepare_image sample_wim 1)
      as [r|] eqn:Hprep; [|vm_compute in Hprep; discriminate].
    assert (Hret : p_ret r = 0)
      by (vm_compute in Hprep; injection Hprep as <-; reflexivity).
    destruct (prepare_touches_one_image dentry_out_total_length write_dentry
                _ _ _ Hprep) as [_ Hok].
    destruct (Hok Hret)
      as (imd & imd' & [= <-] & Hlook & _ & _ & _ & _ & Hroot & _).
    exists r, imd'. split; [reflexivity|]. split; [exact Hret|].
    split; [exact Hlook|]. split; [exact Hroot|].
    vm_compute in Hprep. injection Hprep as <-. vm_compute in Hlook.
    injection Hlook as <-. vm_compute. discriminate.
Defined.

Lemma written_resource_hash_unchecked_witness :
  exists wim' imd',
    write_metadata_resource dentry_out_total_length write_dentry
      fail_resource sample_wim 1 0 [] = Some (7, wim', []) /\
    image_metadata wim' !! 0%nat = Some imd' /\
    dont_check_metadata_hash (metadata_lte imd') = true /\
    Forall (fun e => ~ is_sha1 e) (read_image [] imd').2.
Proof.
  destruct (write_metadata_resource dentry_out_total_length write_dentry
              fail_resource sample_wim 1 0 [])
    as [[[ret wim'] out']|] eqn:Hw; [|vm_compute in Hw; discriminate].
  assert (Hval : ret = 7 /\ out' = [])
    by (vm_compute in Hw; injection Hw as <- _ <-; split; reflexivity).
  destruct Hval as [-> ->].
  destruct (written_resource_hash_unchecked dentry_out_total_length
              write_dentry fail_resource sample_wim wim' 1 0 7 [] []
              eq_refl Hw)
    as (r & imd & imd' & h & _ & _ & _ & _ & Hlook & -> & Hread).
  eexists wim', _. split; [reflexivity|]. split; [exact Hlook|].
  split; [reflexivity|]. apply Hread.
Defined.

End MetadataResourceMore.

(** * Properties of the extraction *)

Module ExtractImageTheory.
Import ExtractImage.

Lemma has_flag_lor flags a b :
  has_flag flags b = true -> has_flag flags (Z.lor a b) = true.
Proof.
  unfold has_flag. rewrite !negb_true_iff, !Z.eqb_neq.
  rewrite Z.land_lor_distr_r, Z.lor_eq_0_iff. tauto.
Qed.

Section ExtractFacts.
Context {F : Type}.
Variable WIMLIB_ERR_MKDIR WIMLIB_ERR_LINK WIMLIB_ERR_OPEN : Z.
Variable WIMLIB_ERR_INVALID_DENTRY WIMLIB_ERR_INVALID_PARAM : Z.
Variable WIMLIB_ERR_NTFS_3G WIMLIB_ERR_UNSUPPORTED : Z.
Variable WIMLIB_EXTRACT_FLAG_HARDLINK WIMLIB_EXTRACT_FLAG_SYMLINK : Z.
Variable WIMLIB_EXTRACT_FLAG_VERBOSE WIMLIB_EXTRACT_FLAG_NTFS : Z.
Variable WIM_ALL_IMAGES : Z.
Variable NTFS_MF_MOUNTED NTFS_MF_READONLY : Z.
Variable mkdir : string -> F -> option errno * F.
Variable link : string -> string -> F -> Z * F.
Variable symlink : string -> string -> F -> Z * F.
Variable open : string -> F -> option Z * F.
Variable close : Z -> F -> F.
Variable puts : string -> F -> F.
Variable extract_resource_to_fd :
  WIMStruct -> resource_entry -> Z -> Z -> F -> Z * F.
Variable dentry_readlink : dentry -> WIMStruct -> Z * string.
Variable get_num_path_components : string -> Z.
Variable path_next_part : string -> string.
Variable wimlib_select_image : WIMStruct -> Z -> Z * WIMStruct.
Variable image_dentries : WIMStruct -> list dentry.
Variable wimlib_get_image_name : WIMStruct -> Z -> string.
Variable with_ntfs_3g : bool.
Variable ntfs_check_if_mounted : string -> F -> Z * Z.

Local Abbreviation regular_file :=
  (extract_regular_file WIMLIB_ERR_LINK WIMLIB_ERR_OPEN
     WIMLIB_EXTRACT_FLAG_HARDLINK WIMLIB_EXTRACT_FLAG_SYMLINK
     link symlink open close extract_resource_to_fd
     get_num_path_components path_next_part).
Local Abbreviation a_dentry :=
  (extract_dentry WIMLIB_ERR_MKDIR WIMLIB_ERR_LINK WIMLIB_ERR_OPEN
     WIMLIB_ERR_INVALID_DENTRY
     WIMLIB_EXTRACT_FLAG_HARDLINK WIMLIB_EXTRACT_FLAG_SYMLINK
     WIMLIB_EXTRACT_FLAG_VERBOSE
     mkdir link symlink open close puts extract_resource_to_fd
     dentry_readlink get_num_path_components path_next_part).
Local Abbreviation dentries :=
  (for_dentries WIMLIB_ERR_MKDIR WIMLIB_ERR_LINK WIMLIB_ERR_OPEN
     WIMLIB_ERR_INVALID_DENTRY
     WIMLIB_EXTRACT_FLAG_HARDLINK WIMLIB_EXTRACT_FLAG_SYMLINK
     WIMLIB_EXTRACT_FLAG_VERBOSE
     mkdir link symlink open close puts extract_resource_to_fd
     dentry_readlink get_num_path_components path_next_part).
Local Abbreviation extract_image :=
  (wimlib_extract_image WIMLIB_ERR_MKDIR WIMLIB_ERR_LINK WIMLIB_ERR_OPEN
     WIMLIB_ERR_INVALID_DENTRY WIMLIB_ERR_INVALID_PARAM
     WIMLIB_ERR_NTFS_3G WIMLIB_ERR_UNSUPPORTED
     WIMLIB_EXTRACT_FLAG_HARDLINK WIMLIB_EXTRACT_FLAG_SYMLINK
     WIMLIB_EXTRACT_FLAG_VERBOSE WIMLIB_EXTRACT_FLAG_NTFS
     WIM_ALL_IMAGES NTFS_MF_MOUNTED NTFS_MF_READONLY
     mkdir link symlink open close puts extract_resource_to_fd
     dentry_readlink get_num_path_components path_next_part
     wimlib_select_image image_dentries wimlib_get_image_name
     with_ntfs_3g ntfs_check_if_mounted).

(** X21. The first extraction of a stream writes the file and records
    its path in the lookup table entry; in hard-link mode, every later
    dentry with the same hash is then made by [link()] from that path,
    without opening or writing a file. *)
Theorem second_copy_is_hard_linked (w w1 : WIMStruct) (d1 d2 : dentry)
    (dir1 path1 dir2 path2 : string) (flags : Z) (fs fs1 : F)
    (lte : lookup_table_entry) :
  WIMLIB_ERR_OPEN <> 0 ->
  has_flag flags WIMLIB_EXTRACT_FLAG_HARDLINK = true ->
  lookup_table w !! dentry_hash d1 = Some lte ->
  out_refcnt lte = 0 ->
  dentry_hash d2 = dentry_hash d1 ->
  regular_file w d1 dir1 path1 flags fs = Some (0, w1, fs1) ->
  lookup_table w1 !! dentry_hash d1 =
    Some {| res_entry := res_entry lte; out_refcnt := 1;
            file_on_disk := Some path1 |} /\
  regular_file w1 d2 dir2 path2 flags fs1 =
    Some (if nonzero (link path1 path2 fs1).1 then WIMLIB_ERR_LINK else 0,
          w1, (link path1 path2 fs1).2).
Proof.
  intros Hopen Hflag Hlte Hfirst Hhash.
  unfold extract_regular_file at 1. rewrite Hlte, Hfirst.
  cbn [nonzero Z.eqb negb andb]. rewrite andb_false_r.
  unfold extract_regular_file_unlinked.
  destruct (open path1 fs) as [[fd|] fs0].
  2:{ intros [= Hz _ _]. contradiction. }
  destruct (extract_resource_to_fd _ _ _ _ _) as [ret fs0'].
  destruct (nonzero ret) eqn:Hret.
  { intros [= Hz _ _]. apply nonzero_true in Hret. congruence. }
  intros [= <- <-]. cbn [lookup_table]. rewrite lookup_insert_eq, Hfirst.
  split; [reflexivity|].
  unfold extract_regular_file. cbn [lookup_table].
  rewrite Hhash, lookup_insert_eq. cbn [out_refcnt].
  rewrite (has_flag_lor _ _ _ Hflag). cbn [nonzero Z.eqb negb andb].
  unfold extract_regular_file_linked. cbn [file_on_disk mbind option_bind].
  rewrite Hflag. destruct (link path1 path2 _) as [r f]. reflexivity.
Qed.

Lemma linked_ok_insert t h lte :
  linked_ok t -> 0 <= out_refcnt lte ->
  is_Some (file_on_disk lte) ->
  linked_ok (<[h := lte]> t).
Proof.
  intros Hok Hpos Hfile h' lte'. rewrite lookup_insert.
  case_decide; [intros [= <-]; auto | apply Hok].
Qed.

Lemma regular_file_linked_ok w d dir path flags fs :
  linked_ok (lookup_table w) ->
  has_flag flags WIMLIB_EXTRACT_FLAG_HARDLINK = true ->
  exists ret w' fs',
    regular_file w d dir path flags fs = Some (ret, w', fs') /\
    linked_ok (lookup_table w') /\ image_count w' = image_count w.
Proof.
  intros Hok Hflag. unfold extract_regular_file.
  assert (Hun : forall lte,
            lookup_table w !! dentry_hash d = lte ->
            let r := extract_regular_file_unlinked WIMLIB_ERR_OPEN open close
                       extract_resource_to_fd w d path flags lte fs in
            linked_ok (lookup_table r.1.2) /\ image_count r.1.2 = image_count w).
  { intros lte Hlte. unfold extract_regular_file_unlinked.
    destruct (open path fs) as [[fd|] fs0]; [|simpl; auto].
    destruct lte as [lte|]; [|simpl; auto].
    destruct (extract_resource_to_fd _ _ _ _ _) as [ret fs1].
    destruct (nonzero ret); simpl; [auto|]. split; [|reflexivity].
    destruct (Hok _ _ Hlte) as [Hpos _].
    apply linked_ok_insert; simpl; [exact Hok | lia | eauto]. }
  destruct (lookup_table w !! dentry_hash d) as [lte|] eqn:Hlte.
  2:{ specialize (Hun None eq_refl).
      destruct (extract_regular_file_unlinked _ _ _ _ _ _ _ _ _ _)
        as [[ret w'] fs']. simpl in Hun. eauto 10. }
  rewrite (has_flag_lor _ _ _ Hflag). cbn [andb].
  destruct (nonzero (out_refcnt lte)) eqn:Hn.
  2:{ specialize (Hun (Some lte) eq_refl).
      destruct (extract_regular_file_unlinked _ _ _ _ _ _ _ _ _ _)
        as [[ret w'] fs']. simpl in Hun. eauto 10. }
  apply nonzero_true in Hn. destruct (Hok _ _ Hlte) as [_ Hfile].
  destruct (Hfile Hn) as [p Hp].
  unfold extract_regular_file_linked. rewrite Hp, Hflag. simpl.
  destruct (link p path fs) as [r f]. simpl. eauto 10.
Qed.

(** X22. In hard-link mode the walk over the dentries of an image always
    comes to an end with a result: the assertion that an entry extracted
    before names its file never fails.  This holds from every lookup
    table in which the entries with a nonzero [out_refcnt] name a file,
    a fresh table among them, and the walk leaves the table such. *)
Theorem hardlink_extraction_never_asserts (l : list dentry) (w : WIMStruct)
    (flags : Z) (dir : string) (fs : F) :
  linked_ok (lookup_table w) ->
  has_flag flags WIMLIB_EXTRACT_FLAG_HARDLINK = true ->
  exists ret w' fs',
    dentries l w flags dir fs = Some (ret, w', fs') /\
    linked_ok (lookup_table w') /\ image_count w' = image_count w.
Proof.
  intros Hok Hflag. revert w fs Hok.
  induction l as [|d l IH]; intros w fs Hok; simpl; [eauto 10|].
  assert (Hstep : exists ret w' fs',
            a_dentry d w flags dir fs = Some (ret, w', fs') /\
            linked_ok (lookup_table w') /\ image_count w' = image_count w).
  { unfold extract_dentry.
    destruct (dentry_is_symlink d).
    { destruct (extract_symlink _ _ _ _ _ _ _ _) as [r f]. eauto 10. }
    destruct (dentry_is_directory d).
    { destruct (negb (dentry_is_root d)); [|eauto 10].
      destruct (extract_directory _ _ _ _ _) as [r f]. eauto 10. }
    apply regular_file_linked_ok; assumption. }
  destruct Hstep as (ret & w1 & fs1 & -> & Hok1 & Hcount1). simpl.
  destruct (nonzero ret); [eauto 10|].
  destruct (IH w1 fs1 Hok1) as (ret2 & w2 & fs2 & -> & Hok2 & Hcount2).
  eexists _, _, _. split; [reflexivity|]. split; [exact Hok2 | congruence].
Qed.

(** X23. Extracting all images reports no failure of an image: the call
    returns a value other than 0 only for bad arguments, for an output
    directory that cannot be made, or for the checks of the NTFS mode,
    and then the lookup table is as it was.  Whatever happens while the
    images are extracted, directories that cannot be made or files that
    cannot be written included, the call returns 0. *)
Theorem all_images_extraction_reports_no_error (w w' : WIMStruct)
    (dir : string) (flags ret : Z) (fs fs' : F) :
  extract_image w WIM_ALL_IMAGES (Some dir) flags fs = Some (ret, w', fs') ->
  ret <> 0 ->
  w' = w /\
  (ret = WIMLIB_ERR_INVALID_PARAM /\ fs' = fs \/
   fs' = (mkdir dir fs).2 /\
   (ret = WIMLIB_ERR_MKDIR \/ ret = WIMLIB_ERR_NTFS_3G \/
    ret = WIMLIB_ERR_UNSUPPORTED)).
Proof.
  unfold wimlib_extract_image. rewrite Z.eqb_refl.
  destruct (Z.land flags _ =? _).
  { intros [= <- <- <-] _. auto. }
  assert (Hcode : (make_output_dir WIMLIB_ERR_MKDIR mkdir dir fs).2
                  = (mkdir dir fs).2 /\
                  ((make_output_dir WIMLIB_ERR_MKDIR mkdir dir fs).1 = 0 \/
                   (make_output_dir WIMLIB_ERR_MKDIR mkdir dir fs).1
                   = WIMLIB_ERR_MKDIR)).
  { unfold make_output_dir.
    destruct (mkdir dir fs) as [[[| |code]|] f]; simpl; auto. }
  destruct (make_output_dir WIMLIB_ERR_MKDIR mkdir dir fs) as [r0 fs0].
  simpl in Hcode. destruct Hcode as [<- Hcode].
  destruct (nonzero r0) eqn:Hr0.
  { intros [= <- <- <-] Hz. destruct Hcode; [contradiction | auto 10]. }
  assert (Hall : forall f,
         extract_all_images WIMLIB_ERR_MKDIR WIMLIB_ERR_LINK WIMLIB_ERR_OPEN
           WIMLIB_ERR_INVALID_DENTRY WIMLIB_EXTRACT_FLAG_HARDLINK
           WIMLIB_EXTRACT_FLAG_SYMLINK WIMLIB_EXTRACT_FLAG_VERBOSE
           mkdir link symlink open close puts extract_resource_to_fd
           dentry_readlink get_num_path_components path_next_part
           wimlib_select_image image_dentries wimlib_get_image_name
           w dir (Z.lor flags WIMLIB_EXTRACT_FLAG_MULTI_IMAGE) f
         = Some (ret, w', fs') -> ret <> 0 -> False).
  { intros f. unfold extract_all_images.
    destruct (extract_images _ _ _ _ _ _ _ _ _ _ _ _ _ _ _ _ _ _ _ _ _ _ _ _)
      as [[[r w1] f1]|]; simpl; [|discriminate].
    intros [= <- _ _] Hz. contradiction. }
  destruct (has_flag _ WIMLIB_EXTRACT_FLAG_NTFS);
    [|intros Hrun Hz; destruct (Hall _ Hrun Hz)].
  destruct with_ntfs_3g; [|intros [= <- <- <-] _; auto 10].
  destruct (ntfs_check_if_mounted dir fs0) as [r mnt].
  destruct (nonzero r); [intros [= <- <- <-] _; auto 10|].
  destruct (negb (has_flag mnt NTFS_MF_MOUNTED));
    [intros [= <- <- <-] _; auto 10|].
  destruct (has_flag mnt NTFS_MF_READONLY);
    [intros [= <- <- <-] _; auto 10|].
  intros Hrun Hz. destruct (Hall _ Hrun Hz).
Qed.
End ExtractFacts.

Lemma second_copy_is_hard_linked_witness :
  let regular_file :=
    extract_regular_file 12 13 1 2 rec_link rec_symlink rec_open rec_close
      rec_extract (fun _ => 1) (fun s => s) in
  let a := {| full_path_utf8 := "/a"; dentry_hash := [1; 2];
              dentry_is_symlink := false; dentry_is_directory := false;
              dentry_is_root := false |} in
  let b := {| full_path_utf8 := "/b"; dentry_hash := [1; 2];
              dentry_is_symlink := false; dentry_is_directory := false;
              dentry_is_root := false |} in
  exists w1 fs1,
    regular_file twin_wim a "out" "out/a" 1 [] = Some (0, w1, fs1) /\
    fs1 = [Open "out/a"; ExtractResource 100 5 3; Close 3] /\
    regular_file w1 b "out" "out/b" 1 fs1
      = Some (0, w1, fs1 ++ [Link "out/a" "out/b"]).
Proof.
  intros regular_file a b.
  destruct (regular_file twin_wim a "out"%string "out/a"%string 1 [])
    as [[[ret w1] fs1]|] eqn:Hrun; [|vm_compute in Hrun; discriminate].
  assert (Hval : ret = 0 /\
                 fs1 = [Open "out/a"; ExtractResource 100 5 3; Close 3])
    by (vm_compute in Hrun; injection Hrun as <- _ <-; split; reflexivity).
  destruct Hval as [-> Hfs]. exists w1, fs1.
  split; [reflexivity|]. split; [exact Hfs|].
  destruct (second_copy_is_hard_linked 12 13 1 2 rec_link rec_symlink
              rec_open rec_close rec_extract (fun _ => 1) (fun s => s)
              twin_wim w1 a b "out" "out/a" "out" "out/b" 1 [] fs1
              {| res_entry := {| res_offset := 100; original_size := 5 |};
                 out_refcnt := 0; file_on_disk := None |}
              ltac:(lia) eq_refl eq_refl eq_refl eq_refl Hrun)
    as [_ Hsecond].
  exact Hsecond.
Defined.

Lemma hardlink_extraction_never_asserts_witness :
  exists w' fs',
    for_dentries 11 12 13 14 1 2 8 rec_mkdir rec_link rec_symlink rec_open
      rec_close rec_puts rec_extract (fun _ _ => (1, "t"%string))
      (fun _ => 1) (fun s => s) twin_files twin_wim 1 "out" []
    = Some (0, w', fs') /\
    linked_ok (lookup_table w') /\
    fs' = [Open "out/a"; ExtractResource 100 5 3; Close 3;
           Link "out/a" "out/b"].
Proof.
  destruct (hardlink_extraction_never_asserts 11 12 13 14 1 2 8 rec_mkdir
              rec_link rec_symlink rec_open rec_close rec_puts rec_extract
              (fun _ _ => (1, "t"%string)) (fun _ => 1) (fun s => s)
              twin_files twin_wim 1 "out" [])
    as (ret & w' & fs' & Hrun & Hok & _).
  - intros h lte. unfold twin_wim. cbn [lookup_table].
    intros Hin. apply lookup_singleton_Some in Hin as [_ <-]. simpl.
    split; [lia | contradiction].
  - reflexivity.
  - exists w', fs'. rewrite Hrun.
    assert (Hval : ret = 0 /\
              fs' = [Open "out/a"; ExtractResource 100 5 3; Close 3;
                     Link "out/a" "out/b"])
      by (vm_compute in Hrun; injection Hrun as <- _ <-; split; reflexivity).
    destruct Hval as [-> ->]. auto.
Defined.

Lemma all_images_extraction_reports_no_error_witness :
  extract_twin no_mkdir (-1) 1 = Some (11, twin_wim, [Mkdir "out"]) /\
  extract_twin mkdir_out_only (-1) 1
    = Some (0, twin_wim, [Mkdir "out"; Mkdir "out/1"]).
Proof.
  destruct (extract_twin no_mkdir (-1) 1) as [[[ret w'] fs']|] eqn:Hrun;
    [|vm_compute in Hrun; discriminate].
  assert (Hret : ret = 11)
    by (vm_compute in Hrun; injection Hrun as <- _ _; reflexivity).
  destruct (all_images_extraction_reports_no_error 11 12 13 14 15 16 17 1 2 8
              16 (-1) 1 2 no_mkdir rec_link rec_symlink rec_open rec_close
              rec_puts rec_extract (fun _ _ => (1, "t"%string)) (fun _ => 1)
              (fun s => s) (fun w _ => (0, w)) (fun _ => twin_files)
              (fun _ _ => ""%string) false (fun _ _ => (0, 0))
              twin_wim w' "out" 1 ret [] fs' Hrun ltac:(lia))
    as [-> [[Hbad _]|[-> _]]]; [lia|].
  rewrite Hret. split; [reflexivity|]. vm_compute. reflexivity.
Defined.

End ExtractImageTheory.
